(** * Tag-driven deployment and rollback scripts of karma-workflows

    A shallow embedding of the four shell programs that carry the
    repository's release logic:

    - [Deploy]: the deploy script v3.0 (README + script, [part_003]),
    - [DeployLegacy]: the deploy script v2.0.0 ([scripts/deploy.sh]),
    - [Rollback]: the rollback tool ([part_005]),
    - [Installer]: the installer of the deploy script (second half of
      [scripts/deploy.sh]), with a state of its own: the files of the
      directory.

    Shell variables are strings; the git repository, the operator's
    replies and the terminal are an explicit [World] threaded through a
    small exit-aware state monad.  External tools ([git], [sort -V],
    [grep], [gh], [date]) are modelled by the part of their behaviour the
    scripts rely on; every such model says so where it is defined. *)

From Stdlib Require Import ZArith NArith Lia List Ascii String Bool.
From stdpp Require Import base option list gmap strings sorting pretty.

Local Open Scope Z_scope.

(** ** Characters and shell words *)

Definition chars : string -> list ascii := list_ascii_of_string.
Definition str : list ascii -> string := string_of_list_ascii.

Definition is_digit (c : ascii) : bool :=
  ((48 <=? N_of_ascii c) && (N_of_ascii c <=? 57))%N.

Definition is_alpha (c : ascii) : bool :=
  (((65 <=? N_of_ascii c) && (N_of_ascii c <=? 90))
   || ((97 <=? N_of_ascii c) && (N_of_ascii c <=? 122)))%N.

Definition is_tilde (c : ascii) : bool := (N_of_ascii c =? 126)%N.
Definition is_dot (c : ascii) : bool := (N_of_ascii c =? 46)%N.

Definition digit_value (c : ascii) : N := (N_of_ascii c - 48)%N.

(** [s] starts with [p]: the remainder, as [${s#p}] computes it for a
    literal [p]. *)
Fixpoint drop_prefix (p s : list ascii) : option (list ascii) :=
  match p, s with
  | [], _ => Some s
  | a :: p', b :: s' => if Ascii.eqb a b then drop_prefix p' s' else None
  | _ :: _, [] => None
  end.

Definition ends_with (q s : list ascii) : bool :=
  match drop_prefix (rev q) (rev s) with Some _ => true | None => false end.

(** [${s#p}]: remove the prefix [p] when present ([p] taken literally). *)
Definition strip_prefix (p s : string) : string :=
  match drop_prefix (chars p) (chars s) with
  | Some r => str r
  | None => s
  end.

Fixpoint has_char (c : ascii) (s : list ascii) : bool :=
  match s with
  | [] => false
  | a :: r => Ascii.eqb a c || has_char c r
  end.

(** [${s%c*}]: remove the shortest suffix that starts with [c], that is
    everything from the last occurrence of [c]. *)
Fixpoint cut_last (c : ascii) (s : list ascii) : list ascii :=
  match s with
  | [] => []
  | a :: r =>
      if has_char c r then a :: cut_last c r
      else if Ascii.eqb a c then [] else a :: r
  end.

(** [${s%%c*}]: remove the longest suffix that starts with [c], that is
    everything from the first occurrence of [c]. *)
Fixpoint cut_first (c : ascii) (s : list ascii) : list ascii :=
  match s with
  | [] => []
  | a :: r => if Ascii.eqb a c then [] else a :: cut_first c r
  end.

(** What follows the first occurrence of [c] (nothing when [c] is absent). *)
Fixpoint after_first (c : ascii) (s : list ascii) : list ascii :=
  match s with
  | [] => []
  | a :: r => if Ascii.eqb a c then r else after_first c r
  end.

Definition remove_shortest_suffix (c : ascii) (s : string) : string :=
  str (cut_last c (chars s)).
Definition remove_longest_suffix (c : ascii) (s : string) : string :=
  str (cut_first c (chars s)).

(** [IFS='.' read -r major minor patch <<< "$version"]: the first line of
    the here-string is split at the first two dots; the last variable takes
    the remainder, from which bash drops one trailing delimiter when no
    other delimiter is left in it. *)
Definition read_ifs_dot (version : string) : string * string * string :=
  let line := cut_first "010" (chars version) in
  let major := cut_first "." line in
  let rest1 := after_first "." line in
  let minor := cut_first "." rest1 in
  let rest2 := after_first "." rest1 in
  let patch :=
    if has_char "." rest2 && negb (has_char "." (after_first "." rest2))
       && match after_first "." rest2 with [] => true | _ => false end
    then cut_first "." rest2 else rest2 in
  (str major, str minor, str patch).

(** ** Shell arithmetic

    [$((x + 1))] where [x] holds an integer constant.  Bash computes in
    signed 64-bit integers and wraps silently; a constant with a leading
    zero is octal.  A value that is not a plain decimal or octal constant
    (bash would evaluate it as an expression or report an error) is outside
    this model: [None]. *)

Definition wrap64 (z : Z) : Z := (z + 2 ^ 63) mod 2 ^ 64 - 2 ^ 63.

Definition digits_value (base : N) (ds : list ascii) : N :=
  fold_left (fun acc c => (base * acc + digit_value c)%N) ds 0%N.

Definition is_octal_digit (c : ascii) : bool :=
  ((48 <=? N_of_ascii c) && (N_of_ascii c <=? 55))%N.

Definition arith_value (s : string) : option Z :=
  match chars s with
  | [] => Some 0
  | c :: r =>
      if Ascii.eqb c "0" then
        if forallb is_octal_digit r
        then Some (wrap64 (Z.of_N (digits_value 8 r)))
        else None
      else if forallb is_digit (c :: r)
      then Some (wrap64 (Z.of_N (digits_value 10 (c :: r))))
      else None
  end.

(** [$((x + 1))], printed the way bash prints an integer. *)
Definition arith_succ (x : string) : option string :=
  match arith_value x with
  | Some v => Some (pretty (wrap64 (v + 1)))
  | None => None
  end.

(** ** Configuration ([.deploy.config] and the scripts' defaults) *)

Record Config := {
  SERVICE_NAME : string;
  DEFAULT_BRANCH : string;
  DEPLOY_BRANCHES : list string;
  VERSION_PREFIX : string;
  ENABLE_HOTFIX : string;
  ENABLE_PREVIEW : string;
  MONITOR_DEPLOYMENT : string;
  DEPLOY_TYPE : string;
  MAX_VERSIONS_TO_SHOW : nat
}.

(** The defaults of deploy.sh for a checkout directory named [service]. *)
Definition default_config (service : string) : Config := {|
  SERVICE_NAME := service;
  DEFAULT_BRANCH := "master";
  DEPLOY_BRANCHES := ["master"; "main"];
  VERSION_PREFIX := "v";
  ENABLE_HOTFIX := "true";
  ENABLE_PREVIEW := "true";
  MONITOR_DEPLOYMENT := "true";
  DEPLOY_TYPE := "kubernetes";
  MAX_VERSIONS_TO_SHOW := 20
|}.

(** ** [sort -V]: GNU version sort

    The comparison is gnulib's [filevercmp]; lines that compare equal are
    ordered by their bytes (sort's last-resort comparison, C locale). *)

Fixpoint skip_alnum (s : list ascii) : list ascii :=
  match s with
  | c :: r => if is_alpha c || is_digit c || is_tilde c then skip_alnum r else s
  | [] => []
  end.

(** Skip greedily the groups made of a dot, a letter or tilde, and any
    run of letters, digits and tildes. *)
Fixpoint skip_suffix_groups (fuel : nat) (s : list ascii) : list ascii :=
  match fuel with
  | O => s
  | S fuel' =>
      match s with
      | d :: c :: r =>
          if is_dot d && (is_alpha c || is_tilde c)
          then skip_suffix_groups fuel' (skip_alnum r)
          else s
      | _ => s
      end
  end.

(** [file_prefixlen]: the length of [s] without its file suffix, a
    trailing sequence of such groups that starts after the first byte; [i]
    counts the bytes consumed so far. *)
Fixpoint file_prefixlen_from (fuel i prefixlen : nat) (s : list ascii) : nat :=
  match fuel with
  | O => prefixlen
  | S fuel' =>
      match s with
      | [] => prefixlen
      | _ :: r =>
          let r' := skip_suffix_groups (length r) r in
          file_prefixlen_from fuel' (S i + (length r - length r'))%nat (S i) r'
      end
  end.

Definition file_prefixlen (s : list ascii) : nat :=
  file_prefixlen_from (length s) 0 0 s.

(** [order]: the sort key of the byte at the head of [s] (end of string
    sorts before everything but '~'). *)
Definition order (s : list ascii) : Z :=
  match s with
  | [] => -1
  | c :: _ =>
      if is_digit c then 0
      else if is_alpha c then Z.of_N (N_of_ascii c)
      else if is_tilde c then -2
      else Z.of_N (N_of_ascii c) + 256
  end.

Definition head_is (p : ascii -> bool) (s : list ascii) : bool :=
  match s with c :: _ => p c | [] => false end.

Fixpoint drop_zeros (s : list ascii) : list ascii :=
  match s with
  | c :: r => if Ascii.eqb c "0" then drop_zeros r else s
  | [] => []
  end.

(** The loop of [verrevcmp] that walks two digit runs in step and records
    the first difference. *)
Fixpoint walk_digits (first_diff : Z) (s1 s2 : list ascii)
  : Z * list ascii * list ascii :=
  match s1, s2 with
  | c1 :: r1, c2 :: r2 =>
      if is_digit c1 && is_digit c2 then
        walk_digits
          (if first_diff =? 0
           then Z.of_N (N_of_ascii c1) - Z.of_N (N_of_ascii c2)
           else first_diff) r1 r2
      else (first_diff, s1, s2)
  | _, _ => (first_diff, s1, s2)
  end.

Fixpoint verrevcmp (fuel : nat) (s1 s2 : list ascii) : Z :=
  match fuel with
  | O => 0
  | S fuel' =>
      match s1, s2 with
      | [], [] => 0
      | _, _ =>
          if head_is (fun c => negb (is_digit c)) s1
             || head_is (fun c => negb (is_digit c)) s2
          then
            if order s1 =? order s2
            then verrevcmp fuel' (tl s1) (tl s2)
            else order s1 - order s2
          else
            let '(first_diff, r1, r2) :=
              walk_digits 0 (drop_zeros s1) (drop_zeros s2) in
            if head_is is_digit r1 then 1
            else if head_is is_digit r2 then -1
            else if negb (first_diff =? 0) then first_diff
            else verrevcmp fuel' r1 r2
      end
  end.

Definition verrevcmp_on (s1 s2 : list ascii) : Z :=
  verrevcmp (S (length s1 + length s2)) s1 s2.

Definition filevercmp (a b : list ascii) : Z :=
  match a, b with
  | [], [] => 0
  | [], _ => -1
  | _, [] => 1
  | ca :: ra, cb :: rb =>
      let dotted :=
        if is_dot ca then
          if negb (is_dot cb) then Some (-1)
          else
            match ra, rb with
            | [], [] => Some 0
            | [], _ => Some (-1)
            | _, [] => Some 1
            | _, _ =>
                let adotdot := match ra with [d] => is_dot d | _ => false end in
                let bdotdot := match rb with [d] => is_dot d | _ => false end in
                if adotdot then Some (if bdotdot then 0 else -1)
                else if bdotdot then Some 1 else None
            end
        else if is_dot cb then Some 1 else None in
      match dotted with
      | Some r => r
      | None =>
          let aprefixlen := file_prefixlen a in
          let bprefixlen := file_prefixlen b in
          let one_pass_only :=
            Nat.eqb aprefixlen (length a) && Nat.eqb bprefixlen (length b) in
          let result := verrevcmp_on (firstn aprefixlen a) (firstn bprefixlen b) in
          if negb (result =? 0) || one_pass_only then result
          else verrevcmp_on a b
      end
  end.

(** The order [sort -V] puts two lines in. *)
Definition version_sort_le (a b : string) : bool :=
  let r := filevercmp (chars a) (chars b) in
  if r <? 0 then true
  else if 0 <? r then false
  else String.leb a b.

Fixpoint sort_V_insert (x : string) (l : list string) : list string :=
  match l with
  | [] => [x]
  | y :: l' => if version_sort_le x y then x :: y :: l' else y :: sort_V_insert x l'
  end.

Definition sort_V (l : list string) : list string :=
  foldr sort_V_insert [] l.

(** [… | tail -n 1] captured by [$( )]: the last line, empty when there is
    none. *)
Definition tail_n_1 (l : list string) : string := List.last l "".

(** ** Patterns the scripts hand to [git tag -l] and [grep] *)

(** The glob [p*q] (both [p] and [q] literal). *)
Definition glob_match (p q : string) (t : string) : bool :=
  match drop_prefix (chars p) (chars t) with
  | Some r => ends_with (chars q) r
  | None => false
  end.

Fixpoint skip_digits (s : list ascii) : list ascii :=
  match s with
  | c :: r => if is_digit c then skip_digits r else s
  | [] => []
  end.

(** [[0-9]+] at the head of [s]: what follows the digits. *)
Definition digits1 (s : list ascii) : option (list ascii) :=
  match s with
  | c :: r => if is_digit c then Some (skip_digits r) else None
  | [] => None
  end.

(** [[0-9]+\.[0-9]+\.[0-9]+$] *)
Definition semver_chars (s : list ascii) : bool :=
  match digits1 s with
  | Some (d1 :: r1) =>
      is_dot d1 &&
      match digits1 r1 with
      | Some (d2 :: r2) =>
          is_dot d2 &&
          match digits1 r2 with
          | Some [] => true
          | _ => false
          end
      | _ => false
      end
  | _ => false
  end.

(** [grep -E "^${VERSION_PREFIX}[0-9]+\.[0-9]+\.[0-9]+$"] on one line, the
    prefix taken literally. *)
Definition grep_semver (p : string) (t : string) : bool :=
  match drop_prefix (chars p) (chars t) with
  | Some r => semver_chars r
  | None => false
  end.

(** [grep -v "\-dev\|\-staging"] keeps the lines that contain neither. *)
Fixpoint contains (q s : list ascii) : bool :=
  match drop_prefix q s with
  | Some _ => true
  | None => match s with [] => false | _ :: r => contains q r end
  end.

(** ** The git repository

    Tags are annotated tags: a name bound to the commit it points at and
    its message.  [git] commands are modelled on a reachable remote; they
    fail only for reasons the repository state decides (a tag that exists,
    a name that does not resolve, a rejected push). *)

Record TagObject := { tag_commit : string; tag_message : string }.

#[global] Instance TagObject_eq_dec : EqDecision TagObject.
Proof. solve_decision. Defined.

Record Git := {
  local_tags : gmap string TagObject;
  remote_tags : gmap string TagObject;
  branches : gmap string string;
  remote_branches : gmap string string;
  HEAD : string;
  current_branch : string;
  uncommitted : list string
}.

Definition with_local_tags (f : gmap string TagObject -> gmap string TagObject)
  (g : Git) : Git :=
  {| local_tags := f (local_tags g); remote_tags := remote_tags g;
     branches := branches g; remote_branches := remote_branches g;
     HEAD := HEAD g; current_branch := current_branch g;
     uncommitted := uncommitted g |}.

Definition with_remote_tags (f : gmap string TagObject -> gmap string TagObject)
  (g : Git) : Git :=
  {| local_tags := local_tags g; remote_tags := f (remote_tags g);
     branches := branches g; remote_branches := remote_branches g;
     HEAD := HEAD g; current_branch := current_branch g;
     uncommitted := uncommitted g |}.

(** [git tag -l]: the tag names, in refname (byte) order. *)
Definition git_tag_names (g : Git) : list string :=
  merge_sort String.le (elements (dom (local_tags g))).

(** [git tag -l "p*q"] *)
Definition git_tag_l (p q : string) (g : Git) : list string :=
  filter (fun t => Is_true (glob_match p q t)) (git_tag_names g).

(** [git rev-parse r] / [git rev-list -n 1 r]: the commit a name resolves
    to, tags first, then [HEAD], then branches. *)
Definition git_rev_parse (g : Git) (r : string) : option string :=
  match local_tags g !! r with
  | Some o => Some (tag_commit o)
  | None => if String.eqb r "HEAD" then Some (HEAD g) else branches g !! r
  end.

(** [git tag -a name commit -m message], with [-f] when [force]. *)
Definition git_tag_a (force : bool) (name commit message : string) (g : Git)
  : option Git :=
  if String.eqb name "" then None
  else if negb force && bool_decide (is_Some (local_tags g !! name)) then None
  else Some (with_local_tags
               (insert name {| tag_commit := commit; tag_message := message |}) g).

(** [git tag -d name] *)
Definition git_tag_d (name : string) (g : Git) : option Git :=
  match local_tags g !! name with
  | Some _ => Some (with_local_tags (delete name) g)
  | None => None
  end.

(** [git push origin name], with [-f] when [force]: the remote refuses to
    move an existing tag unless forced. *)
Definition git_push_tag (force : bool) (name : string) (g : Git) : option Git :=
  match local_tags g !! name with
  | None => None
  | Some o =>
      match remote_tags g !! name with
      | Some o' =>
          if force || bool_decide (o = o')
          then Some (with_remote_tags (insert name o) g) else None
      | None => Some (with_remote_tags (insert name o) g)
      end
  end.

(** [git push origin :refs/tags/name] *)
Definition git_push_delete_tag (name : string) (g : Git) : option Git :=
  match remote_tags g !! name with
  | Some _ => Some (with_remote_tags (delete name) g)
  | None => None
  end.

(** [git fetch --tags]: remote tags unknown locally are added. *)
Definition git_fetch_tags (g : Git) : Git :=
  with_local_tags (fun l => l ∪ remote_tags g) g.

(** ** The world a script runs in

    [terminal] is what the operator sees.  Inside a command substitution
    [$( )] the standard output is captured instead ([captured] holds the
    lines so far); prompts of [read -p] go to the terminal either way. *)

Record World := {
  git : Git;
  package_version : option string;
  replies : list string;
  terminal : list string;
  captured : option (list string)
}.

Definition with_git (f : Git -> Git) (w : World) : World :=
  {| git := f (git w); package_version := package_version w;
     replies := replies w; terminal := terminal w; captured := captured w |}.

Definition with_captured (c : option (list string)) (w : World) : World :=
  {| git := git w; package_version := package_version w;
     replies := replies w; terminal := terminal w; captured := c |}.

(** A run of the GitHub Actions, as [gh run list --json] reports it. *)
Record Run := {
  databaseId : string;
  status : string;
  conclusion : string;
  headBranch : string
}.

(** What the machine and the services around it answer: whether [gh] is
    installed and what its queries return (the queries themselves are
    taken to succeed), the clock, the committer, the identifier git gives
    a new commit, git's own [--sort=-version:refname], and whether
    rollback.sh sits next to deploy.sh.  [gh_run_list h k] is the answer to
    the [k]-th [gh run list] of a monitoring session, [gh_run_view h id k]
    the status and conclusion the [k]-th [gh run view] reports. *)
Record Host := {
  gh_installed : bool;
  gh_name_with_owner : string;
  origin_repo_path : string;
  gh_run_list : nat -> list Run;
  gh_run_view : string -> nat -> string * string;
  unix_seconds : N;
  git_user_name : string;
  commit_id : string -> string -> string;
  sort_version_refname_desc : list string -> list string;
  rollback_script_installed : bool
}.

(** A script either goes on with a value or has exited with a status;
    [set -e] turns every failing command into the second. *)
Inductive Outcome (A : Type) :=
| Done (a : A) (w : World)
| Exit (code : Z) (w : World).
Arguments Done {A} a w.
Arguments Exit {A} code w.

Definition Sh (A : Type) : Type := World -> Outcome A.

Definition sh_ret {A} (a : A) : Sh A := fun w => Done a w.
Definition sh_bind {A B} (m : Sh A) (f : A -> Sh B) : Sh B :=
  fun w => match m w with
           | Done a w' => f a w'
           | Exit c w' => Exit c w'
           end.

Declare Scope sh_scope.
Delimit Scope sh_scope with sh.
Notation "'let*' x := m 'in' k" := (sh_bind m (fun x => k))
  (at level 10, x name, m at level 100, k at level 200) : sh_scope.
Notation "m >> k" := (sh_bind m (fun _ => k))
  (at level 90, right associativity) : sh_scope.

Definition final {A} (o : Outcome A) : World :=
  match o with Done _ w => w | Exit _ w => w end.

Definition exit_status {A} (o : Outcome A) : Z :=
  match o with Done _ _ => 0 | Exit c _ => c end.

(** A line written to the standard output: captured inside [$( )], shown
    on the terminal otherwise. *)
Definition put_line (line : string) (w : World) : World :=
  {| git := git w; package_version := package_version w;
     replies := replies w;
     terminal := match captured w with
                 | Some _ => terminal w
                 | None => terminal w ++ [line]
                 end;
     captured := match captured w with
                 | Some c => Some (c ++ [line])
                 | None => None
                 end |}.

Definition echo (line : string) : Sh unit := fun w => Done tt (put_line line w).

Definition exit_with {A} (code : Z) : Sh A := fun w => Exit code w.

(** [read -p prompt var]: the next reply of the operator; at end of input
    [read] fails and [set -e] ends the script. *)
Definition read_reply (prompt : string) : Sh string :=
  fun w =>
    match replies w with
    | r :: rest =>
        Done r {| git := git w; package_version := package_version w;
                  replies := rest; terminal := terminal w ++ [prompt];
                  captured := captured w |}
    | [] => Exit 1 w
    end.

(** [read -p prompt -n 1 -r]: at most one character of the reply. *)
Definition read_key (prompt : string) : Sh string :=
  sh_bind (read_reply prompt) (fun r => sh_ret (substring 0 1 r)).

(** [[[ $REPLY =~ ^[Yy]$ ]]] *)
Definition is_yes (reply : string) : bool :=
  String.eqb reply "y" || String.eqb reply "Y".

Definition get_git : Sh Git := fun w => Done (git w) w.

(** A git command under [set -e]: failure ends the script with [code]. *)
Definition git_do (code : Z) (cmd : Git -> option Git) : Sh unit :=
  fun w => match cmd (git w) with
           | Some g => Done tt (with_git (fun _ => g) w)
           | None => Exit code w
           end.

(** [cmd 2>/dev/null || true] *)
Definition git_try (cmd : Git -> option Git) : Sh unit :=
  fun w => match cmd (git w) with
           | Some g => Done tt (with_git (fun _ => g) w)
           | None => Done tt w
           end.

Definition set_git (g : Git) : Sh unit :=
  fun w => Done tt (with_git (fun _ => g) w).

Definition get_package_version : Sh (option string) :=
  fun w => Done (package_version w) w.

Definition set_package_version (v : string) : Sh unit :=
  fun w => Done tt {| git := git w; package_version := Some v;
                      replies := replies w; terminal := terminal w;
                      captured := captured w |}.

Definition newline : string := String "010" "".

(** [var=$(m)]: [m] runs in a subshell whose standard output becomes the
    value (lines joined, trailing newline dropped); an [exit] inside ends
    the subshell only and leaves its status to the assignment, which
    [set -e] turns into the script's exit when it is not zero. *)
Definition capture (m : Sh unit) : Sh string :=
  fun w =>
    let outer := captured w in
    let o := m (with_captured (Some []) w) in
    let w' := final o in
    let text := String.concat newline (default [] (captured w')) in
    match o with
    | Done _ _ | Exit 0 _ => Done text (with_captured outer w')
    | Exit c _ => Exit c (with_captured outer w')
    end.

Fixpoint echo_all (lines : list string) : Sh unit :=
  match lines with
  | [] => sh_ret tt
  | l :: rest => sh_bind (echo l) (fun _ => echo_all rest)
  end.

(** [print_color colour text]: the text on the terminal (colour codes and
    pictographs are left out of the model). *)
Definition print_color (text : string) : Sh unit := echo text.

Definition streq (a b : string) : bool := String.eqb a b.

(** [select(.headBranch == "refs/tags/$tag" or .headBranch == "$tag")] *)
Definition run_matches_tag (tag : string) (r : Run) : bool :=
  streq (headBranch r) ("refs/tags/" +:+ tag) || streq (headBranch r) tag.

(** [git commit] of the staged package.json on the current branch. *)
Definition git_commit (h : Host) (message : string) (g : Git) : Git :=
  let c := commit_id h (HEAD g) message in
  {| local_tags := local_tags g; remote_tags := remote_tags g;
     branches := <[current_branch g := c]> (branches g);
     remote_branches := remote_branches g;
     HEAD := c; current_branch := current_branch g;
     uncommitted := uncommitted g |}.

(** [git push origin "$(git branch --show-current)"] *)
Definition git_push_branch (g : Git) : Git :=
  {| local_tags := local_tags g; remote_tags := remote_tags g;
     branches := branches g;
     remote_branches := <[current_branch g := HEAD g]> (remote_branches g);
     HEAD := HEAD g; current_branch := current_branch g;
     uncommitted := uncommitted g |}.

Local Open Scope sh_scope.

(** * rollback.sh *)

Module Rollback.

Definition show_header (cfg : Config) : Sh unit :=
  print_color "Karma Universal Rollback Tool (v1.0)" >>
  echo "" >>
  print_color ("Service: " +:+ SERVICE_NAME cfg) >>
  let* g := get_git in
  print_color ("Current branch: " +:+ current_branch g) >>
  echo "".

(** [get_deployment_history] *)
Definition get_deployment_history (h : Host) (cfg : Config)
  (environment : string) (g : Git) : list string :=
  let env_suffix :=
    if streq environment "development" || streq environment "dev" then "-dev"
    else if streq environment "staging" then "-staging"
    else "" in
  if streq env_suffix "" then
    firstn (MAX_VERSIONS_TO_SHOW cfg)
      (filter (fun t => Is_true (negb (contains (chars "-dev") (chars t)
                                       || contains (chars "-staging") (chars t))))
              (sort_version_refname_desc h (git_tag_l "v" "" g)))
  else
    firstn (MAX_VERSIONS_TO_SHOW cfg)
      (sort_version_refname_desc h (git_tag_l "v" env_suffix g)).

(** [check_deployment_status]: the conclusion of the first run found for
    the tag, [unknown] when there is none or [gh] is missing. *)
Definition check_deployment_status (h : Host) (tag : string) : string :=
  if gh_installed h then
    match List.find (run_matches_tag tag) (gh_run_list h 0) with
    | Some r => conclusion r
    | None => "unknown"
    end
  else "unknown".

(** [has_staging_environment]: [true] is the exit status 0. *)
Definition has_staging_environment (service : string) : bool :=
  let staging_services :=
    ["karma-merchant-api"; "karma-merchant-web";
     "storefront-service"; "storefront-web"] in
  existsb (fun s => streq service s) staging_services.

(** [select_environment]; its caller captures what it prints. *)
Definition select_environment (cfg : Config) : Sh unit :=
  print_color "Select environment to rollback:" >>
  echo "" >>
  print_color "  1) Development" >>
  if has_staging_environment (SERVICE_NAME cfg) then
    print_color "  2) Staging" >>
    print_color "  3) Production" >>
    echo "  4) Cancel" >>
    echo "" >>
    let* choice := read_reply "Enter your choice (1-4): " in
    if streq choice "1" then echo "development"
    else if streq choice "2" then echo "staging"
    else if streq choice "3" then echo "production"
    else print_color "Rollback cancelled" >> exit_with 0
  else
    print_color "  2) Production" >>
    echo "  3) Cancel" >>
    echo "" >>
    let* choice := read_reply "Enter your choice (1-3): " in
    if streq choice "1" then echo "development"
    else if streq choice "2" then echo "production"
    else print_color "Rollback cancelled" >> exit_with 0.

(** The integer a [[ "$choice" -eq n ]] test reads, when there is one. *)
Definition test_integer (s : string) : option N :=
  match chars s with
  | [] => None
  | c :: r => if forallb is_digit (c :: r)
              then Some (digits_value 10 (c :: r)) else None
  end.

(** One entry of the list [select_version] prints (date and author of the
    tagged commit are not part of the model). *)
Definition show_version (h : Host) (g : Git) (current_version : string)
  (index : nat) (version : string) : Sh unit :=
  let status := check_deployment_status h version in
  let status_indicator :=
    if streq status "success" then "ok"
    else if streq status "failure" then "failed" else "?" in
  (if streq version current_version && Nat.eqb index 1
   then print_color ("  " +:+ pretty index +:+ ") " +:+ version +:+ " "
                     +:+ status_indicator +:+ " [CURRENT]")
   else echo ("  " +:+ pretty index +:+ ") " +:+ version +:+ " "
              +:+ status_indicator)) >>
  (match local_tags g !! version with
   | Some o =>
       (if negb (streq (tag_message o) "") && negb (streq (tag_message o) version)
        then echo ("     Message: " +:+ tag_message o) else sh_ret tt) >>
       echo ("     Commit: " +:+ substring 0 8 (tag_commit o))
   | None => sh_ret tt
   end) >>
  echo "".

Fixpoint show_versions (h : Host) (g : Git) (current_version : string)
  (index : nat) (versions : list string) : Sh unit :=
  match versions with
  | [] => sh_ret tt
  | v :: rest =>
      show_version h g current_version index v >>
      show_versions h g current_version (S index) rest
  end.

(** [select_version]; its caller captures what it prints. *)
Definition select_version (h : Host) (cfg : Config) (environment : string)
  : Sh unit :=
  let* g := get_git in
  let versions := get_deployment_history h cfg environment g in
  match versions with
  | [] =>
      print_color ("No previous deployments found for " +:+ environment) >>
      exit_with 1
  | current_version :: _ =>
      print_color ("Recent deployments for " +:+ environment +:+ ":") >>
      echo "" >>
      show_versions h g current_version 1 versions >>
      echo "  0) Cancel" >>
      echo "" >>
      let* choice := read_reply ("Select version to rollback to (0-"
                                 +:+ pretty (length versions) +:+ "): ") in
      match test_integer choice with
      | Some 0%N => print_color "Rollback cancelled" >> exit_with 0
      | Some n =>
          match versions !! (N.to_nat n - 1)%nat with
          | Some v => echo v
          | None => print_color "Invalid selection" >> exit_with 1
          end
      | None => print_color "Invalid selection" >> exit_with 1
      end
  end.

(** [confirm_rollback] (the preview of the commits between the two
    versions is display only and left out). *)
Definition confirm_rollback (environment from_version to_version : string)
  : Sh unit :=
  echo "" >>
  print_color "ROLLBACK CONFIRMATION" >>
  echo "" >>
  print_color ("Environment: " +:+ environment) >>
  print_color ("Current version: " +:+ from_version) >>
  print_color ("Rollback to: " +:+ to_version) >>
  echo "" >>
  (if streq environment "production" then
     print_color "THIS IS A PRODUCTION ROLLBACK!" >>
     print_color ("   All changes since " +:+ to_version +:+ " will be reverted.") >>
     echo ""
   else sh_ret tt) >>
  let* confirm := read_reply "Are you sure you want to proceed? Type 'yes' to confirm: " in
  if negb (streq confirm "yes") then
    print_color "Rollback cancelled" >> exit_with 0
  else sh_ret tt.

(** The name [perform_rollback] gives the new tag. *)
Definition rollback_tag_name (h : Host) (environment version : string) : string :=
  if streq environment "development" || streq environment "dev"
     || streq environment "staging"
     || streq environment "production" || streq environment "prod"
  then version +:+ "-rollback-" +:+ pretty (unix_seconds h)
  else "".

Definition rollback_message (h : Host) (environment version : string) : string :=
  "Rollback to " +:+ version +:+ " on " +:+ environment +:+ " by "
  +:+ git_user_name h.

(** [perform_rollback] with the default method, [tag]. *)
Definition perform_rollback (h : Host) (environment version : string) : Sh unit :=
  print_color ("Starting rollback to " +:+ version +:+ "...") >>
  echo "" >>
  let new_tag := rollback_tag_name h environment version in
  let* g := get_git in
  let commit := default "" (git_rev_parse g version) in
  let message := rollback_message h environment version in
  print_color ("Creating rollback tag: " +:+ new_tag) >>
  git_do 128 (fun g => if streq commit "" then None
                       else git_tag_a false new_tag commit message g) >>
  print_color "Pushing rollback tag to trigger deployment..." >>
  git_do 1 (git_push_tag false new_tag) >>
  (if gh_installed h then
     print_color "Monitoring rollback deployment..." >>
     match List.find (run_matches_tag new_tag) (gh_run_list h 1) with
     | Some run =>
         print_color ("Found workflow run #" +:+ databaseId run) >>
         print_color "Watching rollback progress..." >>
         echo "" >>
         if streq (snd (gh_run_view h (databaseId run) 1)) "success"
         then print_color "Rollback completed successfully!"
         else print_color "Rollback deployment failed" >>
              print_color "Check the logs for details"
     | None =>
         print_color "Could not find workflow run. Monitor manually at:" >>
         print_color ("   https://github.com/" +:+ origin_repo_path h +:+ "/actions")
     end
   else sh_ret tt) >>
  echo "" >>
  print_color "Rollback initiated:" >>
  print_color ("   Environment: " +:+ environment) >>
  print_color ("   Rolled back to: " +:+ version) >>
  print_color ("   Initiated by: " +:+ git_user_name h).

(** [show_rollback_history] *)
Definition show_rollback_history (h : Host) : Sh unit :=
  print_color "Recent rollbacks:" >>
  echo "" >>
  let* g := get_git in
  let rollback_tags :=
    firstn 10 (sort_version_refname_desc h
                 (filter (fun t => Is_true (contains (chars "rollback") (chars t)))
                         (git_tag_names g))) in
  match rollback_tags with
  | [] => print_color "No rollbacks found"
  | _ =>
      echo_all (concat (map (fun tag =>
        [tag;
         "  Message: " +:+ default "" (tag_message <$> local_tags g !! tag);
         ""]) rollback_tags))
  end.

Definition show_usage : Sh unit := echo "Karma Rollback Script v1.0".

Record Options := {
  environment : string;
  version : string;
  skip_confirm : bool;
  show_history : bool
}.

Inductive Parsed :=
| Parsed_ok (o : Options)
| Parsed_help
| Parsed_unbound.

(** The argument loop of [main]; an option that lacks its value trips
    [set -u]. *)
Fixpoint parse_args (argv : list string) (o : Options) : Parsed :=
  match argv with
  | [] => Parsed_ok o
  | a :: rest =>
      if streq a "--env" then
        match rest with
        | v :: rest' =>
            parse_args rest' {| environment := v; version := version o;
                                skip_confirm := skip_confirm o;
                                show_history := show_history o |}
        | [] => Parsed_unbound
        end
      else if streq a "--version" then
        match rest with
        | v :: rest' =>
            parse_args rest' {| environment := environment o; version := v;
                                skip_confirm := skip_confirm o;
                                show_history := show_history o |}
        | [] => Parsed_unbound
        end
      else if streq a "--skip-confirm" then
        parse_args rest {| environment := environment o; version := version o;
                           skip_confirm := true;
                           show_history := show_history o |}
      else if streq a "--history" then
        parse_args rest {| environment := environment o; version := version o;
                           skip_confirm := skip_confirm o;
                           show_history := true |}
      else if streq a "--help" then Parsed_help
      else
        parse_args rest {| environment := a; version := version o;
                           skip_confirm := skip_confirm o;
                           show_history := show_history o |}
  end.

Definition no_options : Options :=
  {| environment := ""; version := ""; skip_confirm := false;
     show_history := false |}.

(** [main], from the staging guard on. *)
Definition main_guarded (h : Host) (cfg : Config) (o : Options)
  (environment : string) : Sh unit :=
  (if streq environment "staging" then
     if negb (has_staging_environment (SERVICE_NAME cfg)) then
       print_color ("Service " +:+ SERVICE_NAME cfg
                    +:+ " does not support staging environment") >>
       print_color "Staging is only available for:" >>
       print_color "  karma-merchant-api" >>
       print_color "  karma-merchant-web" >>
       print_color "  storefront-service" >>
       print_color "  storefront-web" >>
       exit_with 1
     else sh_ret tt
   else sh_ret tt) >>
  print_color ("Rollback target: " +:+ environment) >>
  echo "" >>
  let* g := get_git in
  let current_version := hd "" (get_deployment_history h cfg environment g) in
  if streq current_version "" then
    print_color ("No deployments found for " +:+ environment) >>
    exit_with 1
  else
    let* version :=
      if streq (version o) "" then capture (select_version h cfg environment)
      else sh_ret (version o) in
    let* g := get_git in
    match git_rev_parse g version with
    | None =>
        print_color ("Version " +:+ version +:+ " does not exist") >>
        exit_with 1
    | Some _ =>
        (if negb (skip_confirm o)
         then confirm_rollback environment current_version version
         else sh_ret tt) >>
        perform_rollback h environment version >>
        echo "" >>
        print_color "Rollback Complete!"
    end.

(** [main] *)
Definition main (h : Host) (cfg : Config) (argv : list string) : Sh unit :=
  show_header cfg >>
  match parse_args argv no_options with
  | Parsed_unbound => exit_with 1
  | Parsed_help => show_usage >> exit_with 0
  | Parsed_ok o =>
      if show_history o then show_rollback_history h >> exit_with 0
      else
        let* environment :=
          if streq (environment o) "" then capture (select_environment cfg)
          else sh_ret (environment o) in
        let environment :=
          if streq environment "dev" then "development"
          else if streq environment "prod" then "production"
          else environment in
        main_guarded h cfg o environment
  end.

End Rollback.

(** * deploy.sh v3.0 *)

Module Deploy.

(** [get_latest_version] *)
Definition get_latest_version (cfg : Config) (env : string) (g : Git) : string :=
  let latest_tag :=
    if streq env "production" || streq env "prod" then
      tail_n_1 (sort_V (filter (fun t => Is_true (grep_semver (VERSION_PREFIX cfg) t))
                               (git_tag_l (VERSION_PREFIX cfg) "" g)))
    else if streq env "staging" then
      tail_n_1 (sort_V (git_tag_l (VERSION_PREFIX cfg) "-staging" g))
    else
      tail_n_1 (sort_V (git_tag_l (VERSION_PREFIX cfg) "-dev" g)) in
  if streq latest_tag "" then VERSION_PREFIX cfg +:+ "0.0.0" else latest_tag.

(** [increment_version]; [None] when the field to increment is not an
    integer constant (see [arith_value]). *)
Definition increment_version (cfg : Config) (version increment_type : string)
  : option string :=
  let version := strip_prefix (VERSION_PREFIX cfg) version in
  let version := remove_shortest_suffix "-" version in
  let '(major, minor, patch) := read_ifs_dot version in
  let patch := remove_longest_suffix "-" patch in
  let patch := remove_longest_suffix "+" patch in
  if streq increment_type "major" then
    match arith_succ major with
    | Some major => Some (major +:+ "." +:+ "0" +:+ "." +:+ "0")
    | None => None
    end
  else if streq increment_type "minor" then
    match arith_succ minor with
    | Some minor => Some (major +:+ "." +:+ minor +:+ "." +:+ "0")
    | None => None
    end
  else if streq increment_type "patch" then
    match arith_succ patch with
    | Some patch => Some (major +:+ "." +:+ minor +:+ "." +:+ patch)
    | None => None
    end
  else Some (major +:+ "." +:+ minor +:+ "." +:+ patch).

(** The tag [deploy_version] constructs (also shown by the preview). *)
Definition deploy_tag (cfg : Config) (version env : string) : string :=
  let tag := VERSION_PREFIX cfg +:+ version in
  if streq env "staging" then tag +:+ "-staging"
  else if negb (streq env "production") && negb (streq env "prod")
  then tag +:+ "-dev"
  else tag.

Definition github_repo (h : Host) : string :=
  let r := if gh_installed h then gh_name_with_owner h else "" in
  if streq r "" then origin_repo_path h else r.

(** The discovery loop of [monitor_github_actions]: up to [n] more queries,
    [check_count] made so far. *)
Fixpoint await_start (h : Host) (tag : string) (n check_count : nat)
  : option Run :=
  match n with
  | O => None
  | S n' =>
      let check_count := S check_count in
      match List.find (run_matches_tag tag) (gh_run_list h check_count) with
      | Some r => Some r
      | None => await_start h tag n' check_count
      end
  end.

(** [monitor_github_actions] *)
Definition monitor_github_actions (h : Host) (cfg : Config) (tag : string)
  : Sh unit :=
  let github_repo := github_repo h in
  print_color "Waiting for GitHub Actions to start..." >>
  match await_start h tag 10 0 with
  | None =>
      print_color "Workflow not found yet. You can monitor manually at:" >>
      print_color ("   https://github.com/" +:+ github_repo +:+ "/actions")
  | Some run =>
      let workflow_id := databaseId run in
      print_color ("Found workflow run #" +:+ workflow_id) >>
      print_color "Watching deployment progress..." >>
      echo "" >>
      let workflow_conclusion := snd (gh_run_view h workflow_id 1) in
      if streq workflow_conclusion "success" then
        print_color "Deployment completed successfully!" >>
        print_color ("   View run: https://github.com/" +:+ github_repo
                     +:+ "/actions/runs/" +:+ workflow_id) >>
        if streq (DEPLOY_TYPE cfg) "kubernetes" then
          echo "" >>
          print_color "Waiting for ArgoCD sync (this may take 2-3 minutes)..." >>
          print_color "Check ArgoCD status at: https://argocd.karma.life"
        else sh_ret tt
      else
        print_color ("Deployment failed with status: " +:+ workflow_conclusion) >>
        print_color ("   View logs: https://github.com/" +:+ github_repo
                     +:+ "/actions/runs/" +:+ workflow_id) >>
        exit_with 1
  end.

(** What [deploy_version] does once the tag is pushed. *)
Definition after_push (h : Host) (cfg : Config) (tag env version : string)
  : Sh unit :=
  print_color "Deployment initiated successfully!" >>
  print_color ("   Tag: " +:+ tag) >>
  print_color ("   Environment: " +:+ env) >>
  print_color ("   Version: " +:+ version) >>
  echo "" >>
  if streq (MONITOR_DEPLOYMENT cfg) "true" && gh_installed h then
    print_color "Monitoring deployment..." >>
    monitor_github_actions h cfg tag
  else
    print_color "Monitor deployment:" >>
    print_color ("   GitHub Actions: https://github.com/" +:+ github_repo h
                 +:+ "/actions") >>
    if streq (DEPLOY_TYPE cfg) "kubernetes"
    then print_color "   ArgoCD: https://argocd.karma.life"
    else sh_ret tt.

(** The end of the normal branch of [deploy_version]: tag HEAD, push. *)
Definition tag_and_push (h : Host) (cfg : Config)
  (tag env version message : string) : Sh unit :=
  let* g := get_git in
  git_do 128 (git_tag_a false tag (HEAD g) message) >>
  print_color "Pushing tag to trigger deployment..." >>
  git_do 1 (git_push_tag false tag) >>
  after_push h cfg tag env version.

(** The menu [deploy_version] shows when the tag exists. *)
Definition collision_menu (tag : string) : list string :=
  ["Tag " +:+ tag +:+ " already exists"; "";
   "Options:";
   "  1) Force rebuild with same version (redeploy)";
   "  2) Choose a different version";
   "  3) Cancel"].

(** [deploy_version].  The function calls itself once, with [rebuild] set,
    from the collision menu; [depth] bounds that recursion and 1 is
    enough, because the rebuild branch never calls back. *)
Fixpoint deploy_version_at (depth : nat) (h : Host) (cfg : Config)
  (version env message rebuild : string) : Sh unit :=
  let tag := deploy_tag cfg version env in
  if streq rebuild "true" then
    print_color ("Rebuilding deployment with tag: " +:+ tag) >>
    let message :=
      if streq message ""
      then "Rebuild " +:+ SERVICE_NAME cfg +:+ " " +:+ version +:+ " for " +:+ env
      else message in
    git_try (git_tag_d tag) >>
    git_try (git_push_delete_tag tag) >>
    let* g := get_git in
    git_do 128 (git_tag_a true tag (HEAD g) message) >>
    print_color "Pushing tag to trigger rebuild..." >>
    git_do 1 (git_push_tag true tag) >>
    after_push h cfg tag env version
  else
    print_color ("Creating deployment tag: " +:+ tag) >>
    let message :=
      if streq message ""
      then "Deploy " +:+ SERVICE_NAME cfg +:+ " " +:+ version +:+ " to " +:+ env
      else message in
    let* g := get_git in
    let create := tag_and_push h cfg tag env version message in
    match git_rev_parse g tag with
    | Some _ =>
        echo_all (collision_menu tag) >>
        let* choice := read_reply "Enter your choice (1-3): " in
        if streq choice "1" then
          match depth with
          | S depth' => deploy_version_at depth' h cfg version env message "true"
          | O => sh_ret tt
          end
        else if streq choice "2" then
          print_color "Please run the script again with a different version" >>
          exit_with 0
        else if streq choice "3" then
          print_color "Deployment cancelled" >>
          exit_with 1
        else create
    | None => create
    end.

Definition deploy_version := deploy_version_at 1.

Definition show_usage : Sh unit := echo "Karma Deploy Script v3.0".

Definition show_header (cfg : Config) : Sh unit :=
  echo "" >>
  print_color "Karma Universal Deploy Tool (v3.0)" >>
  echo "" >>
  print_color ("Service: " +:+ SERVICE_NAME cfg) >>
  let* g := get_git in
  print_color ("Current branch: " +:+ current_branch g) >>
  echo "".

Record Options := {
  environment : string;
  increment_type : string;
  specific_version : string;
  message : string;
  preview_mode : bool;
  rebuild_mode : bool;
  no_monitor : bool
}.

Definition no_options : Options :=
  {| environment := ""; increment_type := "patch"; specific_version := "";
     message := ""; preview_mode := false; rebuild_mode := false;
     no_monitor := false |}.

Definition set_environment (v : string) (o : Options) : Options :=
  {| environment := v; increment_type := increment_type o;
     specific_version := specific_version o; message := message o;
     preview_mode := preview_mode o; rebuild_mode := rebuild_mode o;
     no_monitor := no_monitor o |}.

Definition set_increment_type (v : string) (o : Options) : Options :=
  {| environment := environment o; increment_type := v;
     specific_version := specific_version o; message := message o;
     preview_mode := preview_mode o; rebuild_mode := rebuild_mode o;
     no_monitor := no_monitor o |}.

Definition set_specific_version (v : string) (o : Options) : Options :=
  {| environment := environment o; increment_type := increment_type o;
     specific_version := v; message := message o;
     preview_mode := preview_mode o; rebuild_mode := rebuild_mode o;
     no_monitor := no_monitor o |}.

Definition set_message (v : string) (o : Options) : Options :=
  {| environment := environment o; increment_type := increment_type o;
     specific_version := specific_version o; message := v;
     preview_mode := preview_mode o; rebuild_mode := rebuild_mode o;
     no_monitor := no_monitor o |}.

Definition set_preview_mode (o : Options) : Options :=
  {| environment := environment o; increment_type := increment_type o;
     specific_version := specific_version o; message := message o;
     preview_mode := true; rebuild_mode := rebuild_mode o;
     no_monitor := no_monitor o |}.

Definition set_rebuild_mode (o : Options) : Options :=
  {| environment := environment o; increment_type := increment_type o;
     specific_version := specific_version o; message := message o;
     preview_mode := preview_mode o; rebuild_mode := true;
     no_monitor := no_monitor o |}.

Definition set_no_monitor (o : Options) : Options :=
  {| environment := environment o; increment_type := increment_type o;
     specific_version := specific_version o; message := message o;
     preview_mode := preview_mode o; rebuild_mode := rebuild_mode o;
     no_monitor := true |}.

Inductive Parsed :=
| Parsed_ok (o : Options)
| Parsed_rollback (argv : list string)
| Parsed_help
| Parsed_unknown (option : string)
| Parsed_shift_failed.

(** The argument loop of [main].  [--version] and [--message] as the last
    word leave [shift 2] failing, which [set -e] makes fatal. *)
Fixpoint parse_args (argv : list string) (o : Options) : Parsed :=
  match argv with
  | [] => Parsed_ok o
  | a :: rest =>
      if streq a "dev" || streq a "development"
      then parse_args rest (set_environment "development" o)
      else if streq a "staging" then parse_args rest (set_environment "staging" o)
      else if streq a "prod" || streq a "production"
      then parse_args rest (set_environment "production" o)
      else if streq a "hotfix" then parse_args rest (set_environment "hotfix" o)
      else if streq a "rollback" then Parsed_rollback argv
      else if streq a "--major" then parse_args rest (set_increment_type "major" o)
      else if streq a "--minor" then parse_args rest (set_increment_type "minor" o)
      else if streq a "--patch" then parse_args rest (set_increment_type "patch" o)
      else if streq a "--version" then
        match rest with
        | v :: rest' => parse_args rest' (set_specific_version v o)
        | [] => Parsed_shift_failed
        end
      else if streq a "--rebuild" then parse_args rest (set_rebuild_mode o)
      else if streq a "--message" then
        match rest with
        | v :: rest' => parse_args rest' (set_message v o)
        | [] => Parsed_shift_failed
        end
      else if streq a "--preview" then parse_args rest (set_preview_mode o)
      else if streq a "--no-monitor" then parse_args rest (set_no_monitor o)
      else if streq a "--help" then Parsed_help
      else Parsed_unknown a
  end.

(** [exec "$SCRIPT_DIR/rollback.sh" …]: the rollback tool takes over. *)
Definition exec_rollback {A} (h : Host) (cfg : Config) (argv : list string)
  (hint : bool) : Sh A :=
  if rollback_script_installed h then
    Rollback.main h cfg argv >> exit_with 0
  else
    print_color "Rollback script not found" >>
    (if hint
     then print_color "Please ensure rollback.sh is in the same directory as deploy.sh"
     else sh_ret tt) >>
    exit_with 1.

(** The menu of the interactive mode. *)
Definition select_action (h : Host) (cfg : Config) : Sh string :=
  print_color "Select action:" >>
  echo "" >>
  print_color "  1) Development deployment (creates tag like v1.0.0-dev)" >>
  print_color "  2) Staging deployment (creates tag like v1.0.0-staging)" >>
  print_color "  3) Production deployment (creates tag like v1.0.0)" >>
  print_color "  4) Rollback to previous version" >>
  echo "  5) Cancel" >>
  echo "" >>
  let* choice := read_reply "Enter your choice (1-5): " in
  if streq choice "1" then sh_ret "development"
  else if streq choice "2" then sh_ret "staging"
  else if streq choice "3" then sh_ret "production"
  else if streq choice "4" then exec_rollback h cfg [] false
  else if streq choice "5" then print_color "Operation cancelled" >> exit_with 0
  else print_color "Invalid choice" >> exit_with 1.

Definition is_production (environment : string) : bool :=
  streq environment "prod" || streq environment "production".

(** What [main] has settled when it reaches the production confirmation. *)
Record Plan := {
  plan_environment : string;
  plan_increment_type : string;
  plan_message : string;
  plan_new_version : string;
  plan_rebuild_mode : bool;
  plan_preview_mode : bool
}.

(** [${latest_tag#${VERSION_PREFIX}}] then [${…%-*}] *)
Definition version_of_tag (cfg : Config) (latest_tag : string) : string :=
  remove_shortest_suffix "-" (strip_prefix (VERSION_PREFIX cfg) latest_tag).

Definition label_recent_tag (tag : string) : string :=
  if ends_with (chars "-dev") (chars tag) then "  " +:+ tag +:+ " (development)"
  else if ends_with (chars "-staging") (chars tag) then "  " +:+ tag +:+ " (staging)"
  else "  " +:+ tag +:+ " (production)".

(** The interactive choice of the version; a bump whose arithmetic fails
    ends the script. *)
Definition select_version (cfg : Config) (current_version : string)
  : Sh (string * bool) :=
  let shown kind := default "" (increment_version cfg current_version kind) in
  let bump kind :=
    match increment_version cfg current_version kind with
    | Some v => sh_ret (v, false)
    | None => exit_with 1
    end in
  print_color ("Current version: " +:+ current_version) >>
  echo "" >>
  print_color "Select version bump type:" >>
  echo "" >>
  print_color ("  1) Patch (bug fixes)        - " +:+ current_version
               +:+ " -> " +:+ shown "patch") >>
  print_color ("  2) Minor (new features)     - " +:+ current_version
               +:+ " -> " +:+ shown "minor") >>
  print_color ("  3) Major (breaking changes) - " +:+ current_version
               +:+ " -> " +:+ shown "major") >>
  print_color "  4) Custom version" >>
  print_color "  5) Rebuild (same version, new build)" >>
  echo "  6) Cancel" >>
  echo "" >>
  let* version_choice := read_reply "Enter your choice (1-6): " in
  if streq version_choice "1" then bump "patch"
  else if streq version_choice "2" then bump "minor"
  else if streq version_choice "3" then bump "major"
  else if streq version_choice "4" then
    let* new_version := read_reply "Enter custom version (e.g., 2.1.0): " in
    if negb (semver_chars (chars new_version)) then
      print_color "Invalid version format. Must be X.Y.Z" >> exit_with 1
    else sh_ret (new_version, false)
  else if streq version_choice "5" then
    print_color ("Rebuild mode: Using existing version " +:+ current_version) >>
    sh_ret (current_version, true)
  else if streq version_choice "6" then
    print_color "Deployment cancelled" >> exit_with 0
  else print_color "Invalid choice" >> exit_with 1.

(** [main]: the header and, without an environment argument, the menu. *)
Definition main_environment (h : Host) (cfg : Config) (o : Options) : Sh string :=
  show_header cfg >>
  if streq (environment o) "" then select_action h cfg
  else sh_ret (environment o).

(** [main]: environment shortcuts and the hotfix mode. *)
Definition main_normalize (cfg : Config) (o : Options) (environment : string)
  : Sh (string * string * string) :=
  let environment :=
    if streq environment "development" then "dev"
    else if streq environment "production" then "prod"
    else environment in
  let* hotfix :=
    if streq environment "hotfix" then
      if negb (streq (ENABLE_HOTFIX cfg) "true") then
        print_color "Hotfix deployments are disabled for this service" >>
        exit_with 1
      else
        sh_ret ("production", "patch",
                if streq (message o) "" then "Hotfix deployment" else message o)
    else sh_ret (environment, increment_type o, message o) in
  print_color ("Deployment target: " +:+ fst (fst hotfix)) >>
  echo "" >>
  sh_ret hotfix.

(** [main]: the checks of the working tree and of the branch. *)
Definition main_checks (cfg : Config) (environment : string) : Sh unit :=
  let* g := get_git in
  (match uncommitted g with
   | [] => sh_ret tt
   | _ =>
       print_color "Warning: You have uncommitted changes" >>
       echo_all (firstn 10 (uncommitted g)) >>
       echo "" >>
       let* reply := read_key "Continue anyway? (y/N) " in
       echo "" >>
       if negb (is_yes reply)
       then print_color "Deployment cancelled" >> exit_with 1
       else sh_ret tt
   end) >>
  if is_production environment then
    let is_valid_branch :=
      existsb (fun branch => streq (current_branch g) branch)
              (DEPLOY_BRANCHES cfg) in
    if negb is_valid_branch then
      print_color ("Warning: Production deployment from branch '"
                   +:+ current_branch g +:+ "'") >>
      print_color ("   Usually done from: "
                   +:+ String.concat " " (DEPLOY_BRANCHES cfg)) >>
      let* reply := read_key "Continue anyway? (y/N) " in
      echo "" >>
      if negb (is_yes reply)
      then print_color "Deployment cancelled" >> exit_with 1
      else sh_ret tt
    else sh_ret tt
  else sh_ret tt.

(** [main]: [git fetch --tags] and the list of recent tags. *)
Definition main_fetch (h : Host) (cfg : Config) : Sh unit :=
  print_color "Fetching latest tags..." >>
  let* g := get_git in
  set_git (git_fetch_tags g) >>
  let* g := get_git in
  print_color "Recent deployment tags:" >>
  echo_all (map label_recent_tag
              (firstn 5 (sort_version_refname_desc h
                           (git_tag_l (VERSION_PREFIX cfg) "" g)))) >>
  echo "".

(** [main]: the version to deploy and whether this is a rebuild. *)
Definition main_version (cfg : Config) (o : Options) (environment : string)
  : Sh (string * bool) :=
  let* g := get_git in
  let latest_tag := get_latest_version cfg environment g in
  if rebuild_mode o then
    let new_version := version_of_tag cfg latest_tag in
    print_color ("Rebuild mode: Using existing version " +:+ new_version) >>
    sh_ret (new_version, true)
  else if negb (streq (specific_version o) "") then
    print_color ("Using specified version: " +:+ specific_version o) >>
    sh_ret (specific_version o, false)
  else select_version cfg (version_of_tag cfg latest_tag).

(** [main] from the header to the resolved version. *)
Definition main_resolve (h : Host) (cfg : Config) (o : Options) : Sh Plan :=
  let* environment := main_environment h cfg o in
  let* hotfix := main_normalize cfg o environment in
  let '(environment, increment_type, message) := hotfix in
  main_checks cfg environment >>
  main_fetch h cfg >>
  let* resolved := main_version cfg o environment in
  sh_ret {| plan_environment := environment;
            plan_increment_type := increment_type;
            plan_message := message;
            plan_new_version := fst resolved;
            plan_rebuild_mode := snd resolved;
            plan_preview_mode := preview_mode o |}.

(** The tag string the operator must echo. *)
Definition confirm_tag (cfg : Config) (p : Plan) : string :=
  VERSION_PREFIX cfg +:+ plan_new_version p.

Definition confirmation_phrase (cfg : Config) (p : Plan) : string :=
  "DEPLOY " +:+ confirm_tag cfg p.

(** The production confirmation of [main]. *)
Definition production_confirmation (cfg : Config) (p : Plan) : Sh unit :=
  if is_production (plan_environment p) then
    echo "" >>
    print_color "PRODUCTION DEPLOYMENT WARNING" >>
    echo "" >>
    print_color ("You are about to deploy v" +:+ plan_new_version p
                 +:+ " to PRODUCTION!") >>
    echo "" >>
    print_color "Pre-deployment checklist:" >>
    echo "  All features tested in development" >>
    echo "  No breaking changes (or coordinated)" >>
    echo "  All tests passing" >>
    echo "" >>
    let* confirmation :=
      read_reply ("Type '" +:+ confirmation_phrase cfg p +:+ "' to confirm: ") in
    if negb (streq confirmation (confirmation_phrase cfg p)) then
      print_color "Production deployment cancelled" >> exit_with 1
    else sh_ret tt
  else sh_ret tt.

(** The preview of [main] and its question. *)
Definition preview (cfg : Config) (p : Plan) : Sh unit :=
  if plan_preview_mode p || streq (ENABLE_PREVIEW cfg) "true" then
    echo "" >>
    print_color "Deployment Preview:" >>
    print_color ("   Service: " +:+ SERVICE_NAME cfg) >>
    print_color ("   Environment: " +:+ plan_environment p) >>
    print_color ("   Version: " +:+ plan_new_version p) >>
    print_color ("   Tag: " +:+ deploy_tag cfg (plan_new_version p)
                                   (plan_environment p)) >>
    let* g := get_git in
    print_color ("   Branch: " +:+ current_branch g) >>
    print_color ("   Commit: " +:+ substring 0 7 (HEAD g)) >>
    (if plan_rebuild_mode p
     then print_color "   Mode: REBUILD (same version, new build)"
     else sh_ret tt) >>
    echo "" >>
    if plan_preview_mode p then
      print_color "Preview mode - no changes made" >> exit_with 0
    else
      let* reply := read_key "Proceed with deployment? (y/N) " in
      echo "" >>
      if negb (is_yes reply)
      then print_color "Deployment cancelled" >> exit_with 1
      else sh_ret tt
  else sh_ret tt.

(** The package.json bump of [main] ([package_version] is the version
    field of an existing package.json). *)
Definition bump_package_json (h : Host) (p : Plan) : Sh unit :=
  let* pkg := get_package_version in
  match pkg with
  | Some current_pkg_version =>
      if negb (plan_rebuild_mode p)
         && negb (streq current_pkg_version (plan_new_version p)) then
        print_color "Updating package.json version..." >>
        set_package_version (plan_new_version p) >>
        print_color ("Updated package.json version to " +:+ plan_new_version p) >>
        print_color "Committing version bump..." >>
        let* g := get_git in
        set_git (git_commit h
                   ("chore: bump version to " +:+ plan_new_version p +:+ " for "
                    +:+ plan_environment p +:+ " deployment" +:+ newline +:+ newline
                    +:+ "- Previous version: " +:+ current_pkg_version +:+ newline
                    +:+ "- New version: " +:+ plan_new_version p +:+ newline
                    +:+ "- Environment: " +:+ plan_environment p +:+ newline
                    +:+ "- Bump type: " +:+ plan_increment_type p) g) >>
        print_color "Pushing version bump..." >>
        let* g := get_git in
        set_git (git_push_branch g)
      else sh_ret tt
  | None => sh_ret tt
  end.

Definition effective_config (cfg : Config) (o : Options) : Config :=
  if no_monitor o then
    {| SERVICE_NAME := SERVICE_NAME cfg; DEFAULT_BRANCH := DEFAULT_BRANCH cfg;
       DEPLOY_BRANCHES := DEPLOY_BRANCHES cfg;
       VERSION_PREFIX := VERSION_PREFIX cfg;
       ENABLE_HOTFIX := ENABLE_HOTFIX cfg; ENABLE_PREVIEW := ENABLE_PREVIEW cfg;
       MONITOR_DEPLOYMENT := "false"; DEPLOY_TYPE := DEPLOY_TYPE cfg;
       MAX_VERSIONS_TO_SHOW := MAX_VERSIONS_TO_SHOW cfg |}
  else cfg.

(** [main] from the production confirmation on. *)
Definition main_execute (h : Host) (cfg : Config) (p : Plan) : Sh unit :=
  production_confirmation cfg p >>
  preview cfg p >>
  bump_package_json h p >>
  deploy_version h cfg (plan_new_version p) (plan_environment p)
    (plan_message p) (if plan_rebuild_mode p then "true" else "false") >>
  echo "" >>
  print_color "Post-deployment checklist:" >>
  print_color "   Monitor GitHub Actions for build status" >>
  (if streq (DEPLOY_TYPE cfg) "kubernetes"
   then print_color "   Check ArgoCD for sync status" else sh_ret tt) >>
  print_color ("   Verify service health in the " +:+ plan_environment p
               +:+ " environment") >>
  print_color "   Run smoke tests if applicable" >>
  (if is_production (plan_environment p) then
     print_color "" >>
     print_color "Production Deployment - Additional steps:" >>
     print_color "   Monitor error rates and performance metrics" >>
     print_color "   Be ready to rollback if issues arise" >>
     print_color "   Update release notes/changelog" >>
     print_color "   Notify team of production deployment"
   else sh_ret tt) >>
  echo "" >>
  print_color "Deployment script completed!".

(** [main] *)
Definition main (h : Host) (cfg : Config) (argv : list string) : Sh unit :=
  match parse_args argv no_options with
  | Parsed_shift_failed => exit_with 1
  | Parsed_help => show_usage >> exit_with 0
  | Parsed_unknown option =>
      print_color ("Unknown option: " +:+ option) >> show_usage >> exit_with 1
  | Parsed_rollback argv' => exec_rollback h cfg argv' true
  | Parsed_ok o =>
      let cfg := effective_config cfg o in
      let* p := main_resolve h cfg o in
      main_execute h cfg p
  end.

End Deploy.

(** * deploy.sh v2.0.0 ([scripts/deploy.sh]) *)

Module DeployLegacy.

(** [check_branch] *)
Definition check_branch (cfg : Config) : Sh unit :=
  let* g := get_git in
  let is_valid :=
    existsb (fun branch => streq (current_branch g) branch) (DEPLOY_BRANCHES cfg) in
  if negb is_valid then
    print_color ("Warning: You're on branch '" +:+ current_branch g +:+ "'") >>
    print_color ("   Deployments are typically done from: "
                 +:+ String.concat " " (DEPLOY_BRANCHES cfg)) >>
    let* reply := read_key "Do you want to continue anyway? (y/N) " in
    echo "" >>
    if negb (is_yes reply)
    then print_color "Deployment cancelled" >> exit_with 1
    else sh_ret tt
  else sh_ret tt.

(** [get_latest_version] *)
Definition get_latest_version (cfg : Config) (env : string) (g : Git) : string :=
  let latest_tag :=
    if streq env "production" then
      tail_n_1 (sort_V (filter (fun t => Is_true (grep_semver (VERSION_PREFIX cfg) t))
                               (git_tag_l (VERSION_PREFIX cfg) "" g)))
    else
      tail_n_1 (sort_V (git_tag_l (VERSION_PREFIX cfg) ("-" +:+ env) g)) in
  if streq latest_tag "" then VERSION_PREFIX cfg +:+ "0.0.0" else latest_tag.

(** [increment_version] *)
Definition increment_version (cfg : Config) (version increment_type : string)
  : option string :=
  let version := strip_prefix (VERSION_PREFIX cfg) version in
  let version := remove_shortest_suffix "-" version in
  let '(major, minor, patch) := read_ifs_dot version in
  if streq increment_type "major" then
    match arith_succ major with
    | Some major => Some (major +:+ "." +:+ "0" +:+ "." +:+ "0")
    | None => None
    end
  else if streq increment_type "minor" then
    match arith_succ minor with
    | Some minor => Some (major +:+ "." +:+ minor +:+ "." +:+ "0")
    | None => None
    end
  else if streq increment_type "patch" then
    match arith_succ patch with
    | Some patch => Some (major +:+ "." +:+ minor +:+ "." +:+ patch)
    | None => None
    end
  else Some (major +:+ "." +:+ minor +:+ "." +:+ patch).

Definition deploy_tag (cfg : Config) (version env : string) : string :=
  let tag := VERSION_PREFIX cfg +:+ version in
  if negb (streq env "production") then tag +:+ "-" +:+ env else tag.

(** The discovery loop of [monitor_github_actions]; without [gh] every
    query comes back empty. *)
Fixpoint await_start (h : Host) (tag : string) (n check_count : nat)
  : option Run :=
  match n with
  | O => None
  | S n' =>
      let check_count := S check_count in
      let found :=
        if gh_installed h then
          List.find (fun r => streq (headBranch r) ("refs/tags/" +:+ tag))
                    (gh_run_list h check_count)
        else None in
      match found with
      | Some r => Some r
      | None => await_start h tag n' check_count
      end
  end.

(** How the polling loop of [monitor_github_actions] ends. *)
Inductive Polled :=
| Polled_success
| Polled_failure (workflow_conclusion : string)
| Polled_timeout.

(** The polling loop: [n] checks left, [check_count] made. *)
Fixpoint poll_status (h : Host) (workflow_id last_status : string)
  (n check_count : nat) : Sh Polled :=
  match n with
  | O => sh_ret Polled_timeout
  | S n' =>
      let check_count := S check_count in
      let '(workflow_status, workflow_conclusion) :=
        gh_run_view h workflow_id check_count in
      (if negb (streq workflow_status last_status)
       then print_color ("Status: " +:+ workflow_status) else sh_ret tt) >>
      if streq workflow_status "completed" then
        echo "" >>
        if streq workflow_conclusion "success"
        then sh_ret Polled_success
        else sh_ret (Polled_failure workflow_conclusion)
      else poll_status h workflow_id workflow_status n' check_count
  end.

(** The number of checks the polling loop made before it ended. *)
Fixpoint checks_made (h : Host) (workflow_id : string) (n check_count : nat)
  : nat :=
  match n with
  | O => check_count
  | S n' =>
      let check_count := S check_count in
      if streq (fst (gh_run_view h workflow_id check_count)) "completed"
      then check_count
      else checks_made h workflow_id n' check_count
  end.

(** [monitor_github_actions] *)
Definition monitor_github_actions (h : Host) (cfg : Config) (tag : string)
  : Sh unit :=
  let max_checks := 60%nat in
  print_color "Waiting for GitHub Actions to start..." >>
  match await_start h tag 10 0 with
  | None =>
      print_color "GitHub CLI not available or workflow not found" >>
      print_color ("   Monitor manually at: https://github.com/karmadev/"
                   +:+ SERVICE_NAME cfg +:+ "/actions")
  | Some run =>
      let workflow_id := databaseId run in
      print_color ("Found workflow run #" +:+ workflow_id) >>
      print_color "Monitoring deployment progress..." >>
      echo "" >>
      let* polled := poll_status h workflow_id "" max_checks 0 in
      (match polled with
       | Polled_success =>
           print_color "Deployment completed successfully!" >>
           print_color ("   View run: https://github.com/karmadev/"
                        +:+ SERVICE_NAME cfg +:+ "/actions/runs/" +:+ workflow_id) >>
           if streq (DEPLOY_TYPE cfg) "kubernetes" then
             echo "" >>
             print_color "Waiting for ArgoCD sync (this may take 2-3 minutes)..." >>
             print_color "Check ArgoCD status at: https://argocd.karma.life"
           else sh_ret tt
       | Polled_failure workflow_conclusion =>
           print_color ("Deployment failed with status: " +:+ workflow_conclusion) >>
           print_color ("   View logs: https://github.com/karmadev/"
                        +:+ SERVICE_NAME cfg +:+ "/actions/runs/" +:+ workflow_id) >>
           exit_with 1
       | Polled_timeout => sh_ret tt
       end) >>
      if Nat.eqb (checks_made h workflow_id max_checks 0) max_checks then
        print_color "Monitoring timeout - deployment is still running" >>
        print_color ("   Continue monitoring at: https://github.com/karmadev/"
                     +:+ SERVICE_NAME cfg +:+ "/actions/runs/" +:+ workflow_id)
      else sh_ret tt
  end.

(** [deploy_version] *)
Definition deploy_version (h : Host) (cfg : Config) (version env message : string)
  : Sh unit :=
  let tag := deploy_tag cfg version env in
  print_color ("Creating deployment tag: " +:+ tag) >>
  let message :=
    if streq message ""
    then "Deploy " +:+ SERVICE_NAME cfg +:+ " " +:+ version +:+ " to " +:+ env
    else message in
  let* g := get_git in
  git_do 128 (git_tag_a false tag (HEAD g) message) >>
  print_color "Pushing tag to trigger deployment..." >>
  git_do 1 (git_push_tag false tag) >>
  print_color "Deployment initiated successfully!" >>
  print_color ("   Tag: " +:+ tag) >>
  print_color ("   Environment: " +:+ env) >>
  print_color ("   Version: " +:+ version) >>
  echo "" >>
  if streq (MONITOR_DEPLOYMENT cfg) "true" then
    print_color "Monitoring deployment..." >>
    monitor_github_actions h cfg tag
  else
    print_color "Monitor deployment:" >>
    print_color ("   GitHub Actions: https://github.com/karmadev/"
                 +:+ SERVICE_NAME cfg +:+ "/actions") >>
    print_color "   ArgoCD: https://argocd.karma.life".

Definition show_usage : Sh unit := echo "Karma Deploy Script v2.0.0".

Record Options := {
  environment : string;
  increment_type : string;
  specific_version : string;
  message : string;
  preview_mode : bool
}.

Definition no_options : Options :=
  {| environment := ""; increment_type := "patch"; specific_version := "";
     message := ""; preview_mode := false |}.

Inductive Parsed :=
| Parsed_ok (o : Options)
| Parsed_help
| Parsed_unknown (option : string)
| Parsed_shift_failed.

Fixpoint parse_args (argv : list string) (o : Options) : Parsed :=
  let env v := {| environment := v; increment_type := increment_type o;
                  specific_version := specific_version o; message := message o;
                  preview_mode := preview_mode o |} in
  let inc v := {| environment := environment o; increment_type := v;
                  specific_version := specific_version o; message := message o;
                  preview_mode := preview_mode o |} in
  match argv with
  | [] => Parsed_ok o
  | a :: rest =>
      if streq a "dev" || streq a "development" then parse_args rest (env "dev")
      else if streq a "staging" then parse_args rest (env "staging")
      else if streq a "prod" || streq a "production"
      then parse_args rest (env "production")
      else if streq a "hotfix" then parse_args rest (env "hotfix")
      else if streq a "--major" then parse_args rest (inc "major")
      else if streq a "--minor" then parse_args rest (inc "minor")
      else if streq a "--patch" then parse_args rest (inc "patch")
      else if streq a "--version" then
        match rest with
        | v :: rest' =>
            parse_args rest'
              {| environment := environment o; increment_type := increment_type o;
                 specific_version := v; message := message o;
                 preview_mode := preview_mode o |}
        | [] => Parsed_shift_failed
        end
      else if streq a "--message" then
        match rest with
        | v :: rest' =>
            parse_args rest'
              {| environment := environment o; increment_type := increment_type o;
                 specific_version := specific_version o; message := v;
                 preview_mode := preview_mode o |}
        | [] => Parsed_shift_failed
        end
      else if streq a "--preview" then
        parse_args rest
          {| environment := environment o; increment_type := increment_type o;
             specific_version := specific_version o; message := message o;
             preview_mode := true |}
      else if streq a "--help" then Parsed_help
      else Parsed_unknown a
  end.

(** [main], once the arguments are read. *)
Definition main_with (h : Host) (cfg : Config) (o : Options) : Sh unit :=
  if streq (environment o) "" then
    print_color "Error: No environment specified" >> show_usage >> exit_with 1
  else
    let* hotfix :=
      if streq (environment o) "hotfix" then
        if negb (streq (ENABLE_HOTFIX cfg) "true") then
          print_color "Hotfix deployments are disabled for this service" >>
          exit_with 1
        else
          sh_ret ("production", "patch",
                  if streq (message o) "" then "Hotfix deployment" else message o)
      else sh_ret (environment o, increment_type o, message o) in
    let '(environment, increment_type, message) := hotfix in
    print_color "Karma Deploy Script v2.0.0" >>
    print_color ("   Service: " +:+ SERVICE_NAME cfg) >>
    print_color ("   Environment: " +:+ environment) >>
    echo "" >>
    let* g := get_git in
    (match uncommitted g with
     | [] => sh_ret tt
     | _ =>
         print_color "Warning: You have uncommitted changes" >>
         let* reply := read_key "Do you want to continue? (y/N) " in
         echo "" >>
         if negb (is_yes reply)
         then print_color "Deployment cancelled" >> exit_with 1
         else sh_ret tt
     end) >>
    check_branch cfg >>
    print_color "Fetching latest tags..." >>
    set_git (git_fetch_tags g) >>
    let* g := get_git in
    let* new_version :=
      if negb (streq (specific_version o) "") then
        print_color ("Using specified version: " +:+ specific_version o) >>
        sh_ret (specific_version o)
      else
        let latest_version := get_latest_version cfg environment g in
        print_color ("Latest version: " +:+ latest_version) >>
        match increment_version cfg latest_version increment_type with
        | Some new_version =>
            print_color ("New version: " +:+ new_version) >> sh_ret new_version
        | None => exit_with 1
        end in
    (if preview_mode o || streq (ENABLE_PREVIEW cfg) "true" then
       echo "" >>
       print_color "Deployment Preview:" >>
       print_color ("   Service: " +:+ SERVICE_NAME cfg) >>
       print_color ("   Environment: " +:+ environment) >>
       print_color ("   Version: " +:+ new_version) >>
       print_color ("   Tag: " +:+ deploy_tag cfg new_version environment) >>
       print_color ("   Branch: " +:+ current_branch g) >>
       print_color ("   Commit: " +:+ substring 0 7 (HEAD g)) >>
       echo "" >>
       if preview_mode o then
         print_color "Preview mode - no changes made" >> exit_with 0
       else
         let* reply := read_key "Proceed with deployment? (y/N) " in
         echo "" >>
         if negb (is_yes reply)
         then print_color "Deployment cancelled" >> exit_with 1
         else sh_ret tt
     else sh_ret tt) >>
    deploy_version h cfg new_version environment message >>
    echo "" >>
    print_color "Post-deployment checklist:" >>
    print_color "   Monitor GitHub Actions for build status" >>
    print_color "   Check ArgoCD for sync status" >>
    print_color ("   Verify service health in the " +:+ environment
                 +:+ " environment") >>
    print_color "   Run smoke tests if applicable" >>
    if streq environment "production" then
      print_color "" >>
      print_color "Production Deployment - Additional steps:" >>
      print_color "   Monitor error rates and performance metrics" >>
      print_color "   Be ready to rollback if issues arise" >>
      print_color "   Update release notes/changelog" >>
      print_color "   Notify team of production deployment"
    else sh_ret tt.

(** [main] *)
Definition main (h : Host) (cfg : Config) (argv : list string) : Sh unit :=
  match parse_args argv no_options with
  | Parsed_shift_failed => exit_with 1
  | Parsed_help => show_usage >> exit_with 0
  | Parsed_unknown option =>
      print_color ("Unknown option: " +:+ option) >> show_usage >> exit_with 1
  | Parsed_ok o => main_with h cfg o
  end.

End DeployLegacy.

(** * install-deploy-script.sh (the installer that follows deploy.sh in
    [scripts/deploy.sh])

    The installer works on the files of the current directory.  A text
    file is its lines and whether the last one ends with a newline; the
    download is taken to succeed and to deliver what the host serves. *)

Module Installer.

Record TextFile := { text_lines : list string; terminated : bool }.

(** A file written by [cat > file << EOF]. *)
Definition text (lines : list string) : TextFile :=
  {| text_lines := lines; terminated := true |}.

(** What the machine answers: whether the directory is inside a git
    repository, whether [curl] and [wget] are installed, what the
    download delivers, and [basename $(pwd)]. *)
Record Host := {
  in_git_repository : bool;
  curl_installed : bool;
  wget_installed : bool;
  downloaded : TextFile;
  directory_name : string
}.

(** The current directory (contents and execute permissions), the
    operator's replies and the terminal. *)
Record Machine := {
  files : gmap string TextFile;
  executable : gset string;
  replies : list string;
  terminal : list string
}.

Inductive Outcome (A : Type) :=
| Done (a : A) (m : Machine)
| Exit (code : Z) (m : Machine).
Arguments Done {A} a m.
Arguments Exit {A} code m.

Definition Sh (A : Type) : Type := Machine -> Outcome A.

Definition sh_ret {A} (a : A) : Sh A := fun m => Done a m.
Definition sh_bind {A B} (c : Sh A) (f : A -> Sh B) : Sh B :=
  fun m => match c m with
           | Done a m' => f a m'
           | Exit code m' => Exit code m'
           end.

Declare Scope installer_scope.
Delimit Scope installer_scope with installer.
Notation "'let*' x := c 'in' k" := (sh_bind c (fun x => k))
  (at level 10, x name, c at level 100, k at level 200) : installer_scope.
Notation "c >> k" := (sh_bind c (fun _ => k))
  (at level 90, right associativity) : installer_scope.
Local Open Scope installer_scope.

Definition final {A} (o : Outcome A) : Machine :=
  match o with Done _ m => m | Exit _ m => m end.

Definition exit_status {A} (o : Outcome A) : Z :=
  match o with Done _ _ => 0 | Exit c _ => c end.

Definition echo (line : string) : Sh unit :=
  fun m => Done tt {| files := files m; executable := executable m;
                      replies := replies m;
                      terminal := terminal m ++ [line] |}.

(** [print_color colour text] (colour codes and pictographs are left out). *)
Definition print_color (text : string) : Sh unit := echo text.

Definition exit_with {A} (code : Z) : Sh A := fun m => Exit code m.

(** [read -p prompt -n 1 -r]: at most one character of the next reply; at
    end of input [read] fails and [set -e] ends the script. *)
Definition read_key (prompt : string) : Sh string :=
  fun m =>
    match replies m with
    | r :: rest =>
        Done (substring 0 1 r)
             {| files := files m; executable := executable m; replies := rest;
                terminal := terminal m ++ [prompt] |}
    | [] => Exit 1 m
    end.

Definition get_files : Sh (gmap string TextFile) := fun m => Done (files m) m.

Definition with_files (f : gmap string TextFile -> gmap string TextFile)
  (g : gset string -> gset string) : Sh unit :=
  fun m => Done tt {| files := f (files m); executable := g (executable m);
                      replies := replies m; terminal := terminal m |}.

(** [cat > path], [curl -o path]: the contents are replaced, the mode of
    an existing file stays. *)
Definition write_file (path : string) (content : TextFile) : Sh unit :=
  with_files (insert path content) id.

(** [chmod +x path] *)
Definition chmod_x (path : string) : Sh unit :=
  with_files id (fun x => x ∪ {[path]}).

(** [rm path] *)
Definition rm (path : string) : Sh unit :=
  with_files (delete path) (fun x => x ∖ {[path]}).

(** [mv from to] of an existing file: contents and mode move. *)
Definition mv (from to : string) : Sh unit :=
  fun m =>
    match files m !! from with
    | Some content =>
        Done tt {| files := delete from (<[to := content]> (files m));
                   executable :=
                     (if bool_decide (from ∈ executable m)
                      then executable m ∪ {[to]} else executable m ∖ {[to]})
                     ∖ {[from]};
                   replies := replies m; terminal := terminal m |}
    | None => Exit 1 m
    end.

(** The double quote. *)
Definition dq : string := String (ascii_of_nat 34) "".

(** [grep -q pattern file] for a pattern without special characters. *)
Definition grep_q (pattern : string) (f : TextFile) : bool :=
  existsb (fun line => contains (chars pattern) (chars line)) (text_lines f).

(** A pattern of literal characters and dots; a dot stands for any one
    character. *)
Fixpoint match_here (pattern : list ascii) (s : list ascii) : bool :=
  match pattern, s with
  | [], _ => true
  | p :: pattern', c :: s' =>
      (Ascii.eqb p "." || Ascii.eqb p c) && match_here pattern' s'
  | _ :: _, [] => false
  end.

Fixpoint match_anywhere (pattern : list ascii) (s : list ascii) : bool :=
  match_here pattern s
  || match s with
     | [] => false
     | _ :: s' => match_anywhere pattern s'
     end.

(** [grep -q pattern file] for a pattern of literal characters and dots. *)
Definition grep_q_dots (pattern : string) (f : TextFile) : bool :=
  existsb (fun line => match_anywhere (chars pattern) (chars line)) (text_lines f).

(** [sed '/address/s/.*/replacement/']: every line that contains the
    address becomes the replacement. *)
Definition sed_replace_lines (address replacement : string) (f : TextFile)
  : TextFile :=
  {| text_lines :=
       map (fun line => if contains (chars address) (chars line)
                        then replacement else line) (text_lines f);
     terminated := terminated f |}.

(** [sed '/address/a\ added']: the added lines follow every line that
    contains the address; added text always ends with a newline. *)
Definition sed_append_after (address : string) (added : list string)
  (f : TextFile) : TextFile :=
  {| text_lines :=
       flat_map (fun line => if contains (chars address) (chars line)
                             then line :: added else [line]) (text_lines f);
     terminated :=
       terminated f
       || match added with
          | [] => false
          | _ => contains (chars address) (chars (List.last (text_lines f) ""))
          end |}.

(** [echo line >> file]: after an unfinished last line the text goes on
    that line. *)
Definition append_line (line : string) (f : TextFile) : TextFile :=
  match text_lines f with
  | [] => text [line]
  | _ =>
      if terminated f then text (text_lines f ++ [line])
      else text (removelast (text_lines f)
                 ++ [List.last (text_lines f) "" +:+ line])
  end.

(** [sed -i.bak script package.json && rm package.json.bak]; a [sed] that
    fails only cuts the list short, [set -e] does not act on it. *)
Definition sed_in_place (script : TextFile -> TextFile) : Sh unit :=
  let* fs := get_files in
  match fs !! "package.json" with
  | Some content =>
      write_file "package.json.bak" content >>
      write_file "package.json" (script content) >>
      rm "package.json.bak"
  | None => sh_ret tt
  end.

Definition SCRIPT_VERSION : string := "2.0.0".

(** [detect_service_type] *)
Definition detect_service_type (fs : gmap string TextFile) : string :=
  match fs !! "package.json" with
  | Some package =>
      if bool_decide (is_Some (fs !! "Dockerfile")) then "kubernetes"
      else if bool_decide (is_Some (fs !! "firebase.json")) then "firebase"
      else if bool_decide (is_Some (fs !! ".firebaserc")) then "firebase"
      else if grep_q "@google-cloud/functions" package then "cloud-function"
      else "nodejs"
  | None => "unknown"
  end.

(** The contents [create_deploy_config] writes for a service type. *)
Definition deploy_config (service_type service_name : string) : TextFile :=
  let setting name value := name +:+ "=" +:+ dq +:+ value +:+ dq in
  if streq service_type "kubernetes" then
    text ["# Deploy configuration for " +:+ service_name;
          setting "SERVICE_NAME" service_name;
          setting "DEFAULT_BRANCH" "master";
          setting "DEPLOY_BRANCHES" "master main";
          setting "VERSION_PREFIX" "v";
          "ENABLE_HOTFIX=true";
          "ENABLE_PREVIEW=true";
          "";
          "# Kubernetes-specific settings";
          setting "DEPLOY_TYPE" "kubernetes"]
  else if streq service_type "firebase" then
    text ["# Deploy configuration for " +:+ service_name;
          setting "SERVICE_NAME" service_name;
          setting "DEFAULT_BRANCH" "main";
          setting "DEPLOY_BRANCHES" "main master";
          setting "VERSION_PREFIX" "v";
          "ENABLE_HOTFIX=false";
          "ENABLE_PREVIEW=true";
          "";
          "# Firebase-specific settings";
          setting "DEPLOY_TYPE" "firebase";
          setting "FIREBASE_PROJECT_DEV" (service_name +:+ "-dev");
          setting "FIREBASE_PROJECT_PROD" (service_name +:+ "-prod")]
  else if streq service_type "cloud-function" then
    text ["# Deploy configuration for " +:+ service_name;
          setting "SERVICE_NAME" service_name;
          setting "DEFAULT_BRANCH" "main";
          setting "DEPLOY_BRANCHES" "main master";
          setting "VERSION_PREFIX" "v";
          "ENABLE_HOTFIX=true";
          "ENABLE_PREVIEW=true";
          "";
          "# Cloud Function-specific settings";
          setting "DEPLOY_TYPE" "cloud-function";
          setting "FUNCTION_NAME" service_name;
          setting "FUNCTION_REGION" "europe-north1"]
  else
    text ["# Deploy configuration for " +:+ service_name;
          setting "SERVICE_NAME" service_name;
          setting "DEFAULT_BRANCH" "main";
          setting "DEPLOY_BRANCHES" "main master";
          setting "VERSION_PREFIX" "v";
          "ENABLE_HOTFIX=false";
          "ENABLE_PREVIEW=true";
          "";
          "# Service type";
          setting "DEPLOY_TYPE" "generic"].

(** [create_deploy_config] *)
Definition create_deploy_config (h : Host) (service_type : string) : Sh unit :=
  let service_name := directory_name h in
  print_color ("Creating .deploy.config for " +:+ service_type +:+ " service...") >>
  write_file ".deploy.config" (deploy_config service_type service_name) >>
  print_color "Created .deploy.config".

Definition deploy_entry : string :=
  "    " +:+ dq +:+ "deploy" +:+ dq +:+ ": " +:+ dq +:+ "bash deploy.sh" +:+ dq +:+ ",".

Definition helper_entries : list string :=
  ["    " +:+ dq +:+ "deploy:dev" +:+ dq +:+ ": " +:+ dq +:+ "bash deploy.sh dev"
          +:+ dq +:+ ",";
   "    " +:+ dq +:+ "deploy:staging" +:+ dq +:+ ": " +:+ dq
          +:+ "bash deploy.sh staging" +:+ dq +:+ ",";
   "    " +:+ dq +:+ "deploy:prod" +:+ dq +:+ ": " +:+ dq +:+ "bash deploy.sh prod"
          +:+ dq +:+ ","].

(** [update_package_json] *)
Definition update_package_json : Sh unit :=
  let* fs := get_files in
  match fs !! "package.json" with
  | Some package =>
      print_color "Updating package.json..." >>
      (if grep_q (dq +:+ "deploy" +:+ dq) package then
         print_color "Deploy script already exists in package.json" >>
         let* reply := read_key "Do you want to update it? (y/N) " in
         echo "" >>
         if is_yes reply then
           sed_in_place (sed_replace_lines (dq +:+ "deploy" +:+ dq +:+ ":")
                           deploy_entry) >>
           print_color "Updated deploy script in package.json"
         else sh_ret tt
       else if grep_q (dq +:+ "scripts" +:+ dq) package then
         sed_in_place (sed_append_after (dq +:+ "scripts" +:+ dq +:+ ": {")
                         [deploy_entry]) >>
         print_color "Added deploy script to package.json"
       else
         print_color "No scripts section found in package.json" >>
         print_color ("   Please add manually: " +:+ dq +:+ "deploy" +:+ dq +:+ ": "
                      +:+ dq +:+ "bash deploy.sh" +:+ dq)) >>
      let* fs := get_files in
      if negb (grep_q (dq +:+ "deploy:dev" +:+ dq)
                 (default (text []) (fs !! "package.json"))) then
        sed_in_place (sed_append_after (dq +:+ "deploy" +:+ dq +:+ ":")
                        helper_entries) >>
        print_color "Added deployment helper scripts"
      else sh_ret tt
  | None => sh_ret tt
  end.

(** [update_gitignore] *)
Definition update_gitignore : Sh unit :=
  let* fs := get_files in
  match fs !! ".gitignore" with
  | Some gitignore =>
      if negb (grep_q_dots ".deploy.config.local" gitignore) then
        write_file ".gitignore"
          (append_line ".deploy.config.local"
             (append_line "# Deploy script local configuration"
                (append_line "" gitignore))) >>
        print_color "Updated .gitignore"
      else sh_ret tt
  | None => sh_ret tt
  end.

(** The contents of DEPLOY.md. *)
Definition deploy_md : TextFile :=
  text
    [
     "# Deployment Guide";
     "";
     "This service uses the Karma unified deployment system.";
     "";
     "## Quick Deploy";
     "";
     "```bash";
     "# Deploy to development";
     "npm run deploy:dev";
     "";
     "# Deploy to staging";
     "npm run deploy:staging";
     "";
     "# Deploy to production";
     "npm run deploy:prod";
     "```";
     "";
     "## Advanced Usage";
     "";
     "```bash";
     "# Deploy with specific version";
     "./deploy.sh prod --version 2.1.0";
     "";
     "# Deploy with version bump";
     "./deploy.sh prod --minor  # Bumps minor version";
     "./deploy.sh prod --major  # Bumps major version";
     "";
     "# Preview deployment";
     "./deploy.sh dev --preview";
     "";
     "# Hotfix deployment";
     "./deploy.sh hotfix --message " +:+ dq +:+ "Fix critical bug" +:+ dq;
     "```";
     "";
     "## Configuration";
     "";
     "Edit `.deploy.config` to customize deployment settings:";
     "- `SERVICE_NAME`: Name of the service";
     "- `DEFAULT_BRANCH`: Default git branch";
     "- `DEPLOY_BRANCHES`: Allowed deployment branches";
     "- `VERSION_PREFIX`: Tag prefix (default: " +:+ dq +:+ "v" +:+ dq +:+ ")";
     "- `ENABLE_HOTFIX`: Allow hotfix deployments";
     "- `ENABLE_PREVIEW`: Show preview before deployment";
     "";
     "## Version Tagging Strategy";
     "";
     "- Production: `v1.0.0`";
     "- Development: `v1.0.0-dev`";
     "- Staging: `v1.0.0-staging`";
     "";
     "## Updating Deploy Script";
     "";
     "To update to the latest version:";
     "```bash";
     "curl -sL https://raw.githubusercontent.com/karmadev/karma-workflows/main/scripts/install-deploy-script.sh | bash";
     "```"
    ].

(** [main] *)
Definition main (h : Host) : Sh unit :=
  print_color ("Karma Deploy Script Installer v" +:+ SCRIPT_VERSION) >>
  echo "" >>
  if negb (in_git_repository h) then
    print_color "Error: Not in a git repository" >> exit_with 1
  else
    let* fs := get_files in
    let service_type := detect_service_type fs in
    print_color ("Detected service type: " +:+ service_type) >>
    print_color "Downloading deploy.sh..." >>
    (if curl_installed h then write_file "deploy.sh" (downloaded h)
     else if wget_installed h then write_file "deploy.sh" (downloaded h)
     else print_color "Error: Neither curl nor wget is installed" >> exit_with 1) >>
    chmod_x "deploy.sh" >>
    print_color "Downloaded deploy.sh" >>
    let* fs := get_files in
    (match fs !! ".deploy.config" with
     | None => create_deploy_config h service_type
     | Some _ =>
         print_color ".deploy.config already exists" >>
         let* reply := read_key "Do you want to regenerate it? (y/N) " in
         echo "" >>
         if is_yes reply then
           mv ".deploy.config" ".deploy.config.backup" >>
           create_deploy_config h service_type >>
           print_color "   Previous config backed up to .deploy.config.backup"
         else sh_ret tt
     end) >>
    update_package_json >>
    update_gitignore >>
    let* fs := get_files in
    (match fs !! "DEPLOY.md" with
     | None =>
         write_file "DEPLOY.md" deploy_md >>
         print_color "Created DEPLOY.md documentation"
     | Some _ => sh_ret tt
     end) >>
    echo "" >>
    print_color "Installation complete!" >>
    echo "" >>
    print_color "Next steps:" >>
    print_color "   1. Review .deploy.config and adjust settings" >>
    print_color "   2. Commit the new files:" >>
    print_color "      git add deploy.sh .deploy.config DEPLOY.md" >>
    print_color "      git commit -m 'Add unified deploy script'" >>
    echo "" >>
    print_color "Usage:" >>
    print_color "   npm run deploy:dev      # Deploy to development" >>
    print_color "   npm run deploy:staging  # Deploy to staging" >>
    print_color "   npm run deploy:prod     # Deploy to production" >>
    print_color "   ./deploy.sh --help      # See all options".

End Installer.

(** * Vocabulary of the properties

    The predicates and the sample inputs the statements below are written
    with; none of them is part of the scripts. *)

(** The world after a [read]: the reply is consumed, the prompt shown. *)
Definition prompted (prompt : string) (rest : list string) (w : World) : World :=
  {| git := git w; package_version := package_version w;
     replies := rest; terminal := terminal w ++ [prompt];
     captured := captured w |}.

(** A command that only writes to the standard output: it goes on, and
    leaves the repository, the pending replies and package.json alone. *)
Definition quiet {A} (m : Sh A) : Prop :=
  forall w, exists a w',
    m w = Done a w' /\ git w' = git w /\ replies w' = replies w
    /\ package_version w' = package_version w.

(** The services the specification lists as having a staging track. *)
Definition staging_allow_list : list string :=
  ["karma-merchant-api"; "karma-merchant-web";
   "storefront-service"; "storefront-web"].

(** A host and a repository used to run the scripts on concrete inputs. *)
Definition sample_host : Host := {|
  gh_installed := true;
  gh_name_with_owner := "karmadev/orders";
  origin_repo_path := "karmadev/orders";
  gh_run_list := fun _ => [];
  gh_run_view := fun _ _ => ("completed", "success");
  unix_seconds := 1724850000%N;
  git_user_name := "alice";
  commit_id := fun parent message => parent +:+ "+";
  sort_version_refname_desc := fun l => rev (sort_V l);
  rollback_script_installed := true
|}.

Definition tagged (commit message : string) : TagObject :=
  {| tag_commit := commit; tag_message := message |}.

Definition sample_git : Git := {|
  local_tags :=
    <["v3.0.0" := tagged "c30" "Deploy orders 3.0.0 to prod"]>
    (<["v2.5.0" := tagged "c25" "Deploy orders 2.5.0 to prod"]>
    (<["v2.0.0-staging" := tagged "c20" "Deploy orders 2.0.0 to staging"]>
    (<["v1.1.0-dev" := tagged "c11" "Deploy orders 1.1.0 to dev"]> ∅)));
  remote_tags :=
    <["v3.0.0" := tagged "c30" "Deploy orders 3.0.0 to prod"]>
    (<["v2.5.0" := tagged "c25" "Deploy orders 2.5.0 to prod"]>
    (<["v2.0.0-staging" := tagged "c20" "Deploy orders 2.0.0 to staging"]>
    (<["v1.1.0-dev" := tagged "c11" "Deploy orders 1.1.0 to dev"]> ∅)));
  branches := <["master" := "c31"]> ∅;
  remote_branches := <["master" := "c31"]> ∅;
  HEAD := "c31";
  current_branch := "master";
  uncommitted := []
|}.

Definition sample_world (answers : list string) : World :=
  {| git := sample_git; package_version := None; replies := answers;
     terminal := []; captured := None |}.

(** A run whose trigger reference is the pushed tag, by name or as a
    fully qualified ref. *)
Definition run_for_tag (tag : string) (r : Run) : Prop :=
  headBranch r = "refs/tags/" +:+ tag \/ headBranch r = tag.

(** [run] is the run the discovery settles on: the first matching run of
    the first of the ten queries that reports one. *)
Definition discovered (h : Host) (tag : string) (run : Run) : Prop :=
  exists k, (1 <= k <= 10)%nat
    /\ List.find (run_matches_tag tag) (gh_run_list h k) = Some run
    /\ forall j, (1 <= j < k)%nat ->
         List.find (run_matches_tag tag) (gh_run_list h j) = None.

(** No query of the discovery reports a run for the tag. *)
Definition undiscovered (h : Host) (tag : string) : Prop :=
  forall k r, (1 <= k <= 10)%nat -> In r (gh_run_list h k) -> ~ run_for_tag tag r.

(** The environment names [perform_rollback] knows. *)
Definition rollback_environment (environment : string) : Prop :=
  In environment ["development"; "dev"; "staging"; "production"; "prod"].

(** One annotated tag created (or re-pointed) locally and pushed. *)
Definition with_pushed_tag (name : string) (o : TagObject) (g : Git) : Git :=
  with_remote_tags (insert name o) (with_local_tags (insert name o) g).

(** The digits of a positive number, most significant first. *)
Definition numeral (x : N) : list ascii := chars (pretty_N_go x "").

(** A version of the data model: three non-negative integers. *)
Record Version := { major : N; minor : N; patch : N }.

Definition render_version (v : Version) : string :=
  pretty (major v) +:+ "." +:+ pretty (minor v) +:+ "." +:+ pretty (patch v).

(** Versions are ordered by major, then minor, then patch. *)
Definition version_compare (a b : Version) : comparison :=
  match (major a ?= major b)%N with
  | Eq => match (minor a ?= minor b)%N with
          | Eq => (patch a ?= patch b)%N
          | c => c
          end
  | c => c
  end.

Definition version_le (a b : Version) : Prop := version_compare a b <> Gt.

(** A non-empty run of digits. *)
Definition digit_run (d : list ascii) : Prop :=
  d <> [] /\ forallb is_digit d = true.

(** The message [deploy_version] tags with. *)
Definition deploy_message (cfg : Config) (verb link version env message : string)
  : string :=
  if streq message ""
  then verb +:+ " " +:+ SERVICE_NAME cfg +:+ " " +:+ version +:+ link +:+ env
  else message.

(** Outside a command substitution a script only ever adds lines to the
    terminal. *)
Definition extends {A} (m : Sh A) : Prop :=
  forall w, captured w = None ->
    captured (final (m w)) = None
    /\ exists shown, terminal (final (m w)) = terminal w ++ shown.

(** What [deploy_version] does after the operator has answered the
    collision menu. *)
Definition after_collision_menu (h : Host) (cfg : Config)
  (version env message choice : string) : Sh unit :=
  let tag := Deploy.deploy_tag cfg version env in
  if streq choice "1" then
    Deploy.deploy_version_at 0 h cfg version env message "true"
  else if streq choice "2" then
    print_color "Please run the script again with a different version" >>
    exit_with 0
  else if streq choice "3" then
    print_color "Deployment cancelled" >> exit_with 1
  else Deploy.tag_and_push h cfg tag env version message.

(** The world in which the operator reads the collision menu. *)
Definition at_collision_menu (tag : string) (w : World) : World :=
  put_line "  3) Cancel"
    (put_line "  2) Choose a different version"
       (put_line "  1) Force rebuild with same version (redeploy)"
          (put_line "Options:"
             (put_line ""
                (put_line ("Tag " +:+ tag +:+ " already exists")
                   (put_line ("Creating deployment tag: " +:+ tag) w)))))).

(** The tags of an environment's track, as [get_latest_version] selects
    them. *)
Definition track (cfg : Config) (env : string) (g : Git) : list string :=
  if streq env "production" || streq env "prod" then
    filter (fun t => Is_true (grep_semver (VERSION_PREFIX cfg) t))
           (git_tag_l (VERSION_PREFIX cfg) "" g)
  else if streq env "staging" then git_tag_l (VERSION_PREFIX cfg) "-staging" g
  else git_tag_l (VERSION_PREFIX cfg) "-dev" g.

(** A command keeps the repository when, whenever it goes on, the repository
    is the one it started with. *)
Definition keeps_git {A} (m : Sh A) : Prop :=
  forall w a w', m w = Done a w' -> git w' = git w.

(** The value the digits [d] add to an accumulated number [a]. *)
Definition digits_from (a : N) (d : list ascii) : N :=
  fold_left (fun acc c => (10 * acc + digit_value c)%N) d a.

(** What [walk_digits] records over two runs of digits. *)
Fixpoint first_diff (fd : Z) (d e : list ascii) : Z :=
  match d, e with
  | c1 :: d', c2 :: e' =>
      first_diff (if fd =? 0
                  then Z.of_N (N_of_ascii c1) - Z.of_N (N_of_ascii c2)
                  else fd) d' e'
  | _, _ => fd
  end.

(** No dot of a deployment tag starts a file suffix, so [file_prefixlen]
    keeps the whole name. *)
Fixpoint suffix_free (s : list ascii) : bool :=
  match s with
  | d :: r =>
      match r with
      | c :: _ => negb (is_dot d && (is_alpha c || is_tilde c))
      | [] => true
      end && suffix_free r
  | [] => true
  end.

Fixpoint take_digits (s : list ascii) : list ascii :=
  match s with
  | c :: r => if is_digit c then c :: take_digits r else []
  | [] => []
  end.

(** A decimal number at the head of [s], and what follows it. *)
Definition read_number (s : list ascii) : option (N * list ascii) :=
  match digits1 s with
  | Some r => Some (digits_value 10 (take_digits s), r)
  | None => None
  end.

Definition read_dot (s : list ascii) : option (list ascii) :=
  match s with
  | c :: r => if is_dot c then Some r else None
  | [] => None
  end.

(** The version of the tag [t], in the track whose names are the prefix
    [p], a version and the qualifier [q]. *)
Definition tag_version (p q t : string) : option Version :=
  r ← drop_prefix (chars p) (chars t);
  '(a, r) ← read_number r;
  r ← read_dot r;
  '(b, r) ← read_number r;
  r ← read_dot r;
  '(c, r) ← read_number r;
  if String.eqb (str r) q
  then Some {| major := a; minor := b; patch := c |} else None.

(** The qualifier of an environment's track, as [get_latest_version] and
    [deploy_version] choose it. *)
Definition track_suffix (env : string) : string :=
  if streq env "production" || streq env "prod" then ""
  else if streq env "staging" then "-staging"
  else "-dev".

(** A tag spelled out: prefix, three runs of digits, qualifier. *)
Definition tag_chars (p q : string) (d1 d2 d3 : list ascii) : list ascii :=
  chars p ++ d1 ++ "."%char :: d2 ++ "."%char :: d3 ++ chars q.

Definition version_of_runs (d1 d2 d3 : list ascii) : Version :=
  {| major := digits_value 10 d1; minor := digits_value 10 d2;
     patch := digits_value 10 d3 |}.

(** The version [sort -V] orders a tag of the track by. *)
Definition tag_key (q t : string) : Version :=
  default {| major := 0; minor := 0; patch := 0 |} (tag_version "v" q t).

Definition by_version (q a b : string) : Prop :=
  version_le (tag_key q a) (tag_key q b).

Definition decodes (q t : string) : Prop := is_Some (tag_version "v" q t).

(** The names of the tag grammar: a deployment tag of one of the three
    tracks, or the rollback marker of one. *)
Definition deployment_tag (t : string) : Prop :=
  exists q, In q [""; "-staging"; "-dev"] /\ is_Some (tag_version "v" q t).

Definition grammatical_tag (t : string) : Prop :=
  deployment_tag t
  \/ exists base stamp,
       deployment_tag base /\ digit_run stamp
       /\ chars t = chars base ++ chars "-rollback-" ++ stamp.

(** ** Vocabulary of the further properties *)

(** A command that, however it ends, leaves the repository and
    package.json as they were. *)
Definition harmless {A} (m : Sh A) : Prop :=
  forall w, git (final (m w)) = git w
            /\ package_version (final (m w)) = package_version w.

(** Inside a command substitution the captured lines only grow. *)
Definition appends {A} (m : Sh A) : Prop :=
  forall w c, captured w = Some c ->
    exists more, captured (final (m w)) = Some (c ++ more).

(** Git refuses a space in the name of a tag or of a branch. *)
Definition ref_names_without_space (g : Git) : Prop :=
  forall name,
    is_Some (local_tags g !! name) \/ is_Some (branches g !! name) ->
    has_char " " (chars name) = false.

(** A command that reads nothing from the operator. *)
Definition asks_nothing {A} (m : Sh A) : Prop :=
  forall w, replies (final (m w)) = replies w.

(** A command that does no more to the repository than [git fetch
    --tags], and leaves package.json alone. *)
Definition fetch_only {A} (m : Sh A) : Prop :=
  forall w, (git (final (m w)) = git w
             \/ git (final (m w)) = git_fetch_tags (git w))
            /\ package_version (final (m w)) = package_version w.

(** The next reply of the operator, if there is one, is not [y] or [Y]
    (only the first character is read). *)
Definition declines (replies : list string) : Prop :=
  forall r, hd_error replies = Some r -> is_yes (substring 0 1 r) = false.

(** The command line asks for a production deployment. *)
Definition targets_production (cfg : Config) (o : Deploy.Options) : Prop :=
  Deploy.environment o = "production"
  \/ (Deploy.environment o = "hotfix" /\ ENABLE_HOTFIX cfg = "true").

(** What a script can change besides the terminal: the repository and the
    version in package.json. *)
Definition Sources : Type := Git * option string.

Definition sources (w : World) : Sources := (git w, package_version w).

(** However the command ends, what it leaves is related by [R] to what it
    found. *)
Definition always (R : relation Sources) {A} (m : Sh A) : Prop :=
  forall w, R (sources w) (sources (final (m w))).

(** Nothing but tags differs: same commit checked out, same branches here
    and on the remote, same working tree, same package.json. *)
Definition only_tags : relation Sources := fun s s' =>
  HEAD s'.1 = HEAD s.1
  /\ branches s'.1 = branches s.1
  /\ remote_branches s'.1 = remote_branches s.1
  /\ current_branch s'.1 = current_branch s.1
  /\ uncommitted s'.1 = uncommitted s.1
  /\ s'.2 = s.2.

(** The commit checked out is the same, and every local tag is one that
    was there or points at that commit. *)
Definition tags_at_head : relation Sources := fun s s' =>
  HEAD s'.1 = HEAD s.1
  /\ forall name obj,
       local_tags s'.1 !! name = Some obj ->
       local_tags s.1 !! name = Some obj \/ tag_commit obj = HEAD s.1.

(** Nothing differs, or only the tags [git fetch --tags] brings in. *)
Definition fetched : relation Sources := fun s s' =>
  (s'.1 = s.1 \/ s'.1 = git_fetch_tags s.1) /\ s'.2 = s.2.

(** Sorting tag names invents none: what [git tag --sort] prints are names
    it was given. *)
Definition sorts_given_names (h : Host) : Prop :=
  forall names name, In name (sort_version_refname_desc h names) -> In name names.

(** The version after [v] for a kind of release. *)
Definition bump (kind : string) (v : Version) : Version :=
  if streq kind "major" then {| major := major v + 1; minor := 0; patch := 0 |}
  else if streq kind "minor"
  then {| major := major v; minor := minor v + 1; patch := 0 |}
  else {| major := major v; minor := minor v; patch := patch v + 1 |}.

(** Nothing but tags differs, and no tag that existed, here or on the
    remote, has been moved or deleted. *)
Definition tags_kept : relation Sources := fun s s' =>
  only_tags s s'
  /\ (forall name obj, local_tags s.1 !! name = Some obj ->
                       local_tags s'.1 !! name = Some obj)
  /\ (forall name obj, remote_tags s.1 !! name = Some obj ->
                       remote_tags s'.1 !! name = Some obj).

(** The [k]-th status check of the polling loop of deploy.sh v2.0.0 is the
    first that reports the run completed. *)
Definition first_completed (h : Host) (workflow_id : string) (k : nat) : Prop :=
  (1 <= k <= 60)%nat
  /\ fst (gh_run_view h workflow_id k) = "completed"
  /\ forall j, (1 <= j < k)%nat ->
       fst (gh_run_view h workflow_id j) <> "completed".

(** However the command of the installer ends, the files it may have
    written, removed or made executable are among [paths]. *)
Definition touches (paths : list string) {A} (c : Installer.Sh A) : Prop :=
  forall m path, ~ In path paths ->
    Installer.files (Installer.final (c m)) !! path = Installer.files m !! path
    /\ (path ∈ Installer.executable (Installer.final (c m))
        <-> path ∈ Installer.executable m).

(** The files of an installation. *)
Definition installed_files : list string :=
  ["deploy.sh"; ".deploy.config"; ".deploy.config.backup"; "package.json";
   "package.json.bak"; ".gitignore"; "DEPLOY.md"].

(** Started where [P] holds, the command of the installer ends, one way or
    the other, where [Q] holds. *)
Definition ensures (P : Installer.Machine -> Prop) {A} (c : Installer.Sh A)
  (Q : Installer.Machine -> Prop) : Prop :=
  forall m, P m -> Q (Installer.final (c m)).

(** The machine after a line has been printed. *)
Definition shown (line : string) (m : Installer.Machine) : Installer.Machine :=
  Installer.final (Installer.echo line m).

(** The machine after [sed -i.bak script package.json && rm
    package.json.bak] has worked on the contents [package]. *)
Definition after_sed (script : Installer.TextFile -> Installer.TextFile)
  (package : Installer.TextFile) (m : Installer.Machine) : Installer.Machine :=
  {| Installer.files :=
       delete "package.json.bak"
         (<["package.json" := script package]>
            (<["package.json.bak" := package]> (Installer.files m)));
     Installer.executable := Installer.executable m ∖ {["package.json.bak"]};
     Installer.replies := Installer.replies m;
     Installer.terminal := Installer.terminal m |}.

(** The four texts [update_package_json] looks for. *)
Definition deploy_key : string := Installer.dq +:+ "deploy" +:+ Installer.dq.
Definition deploy_address : string := deploy_key +:+ ":".
Definition scripts_address : string :=
  Installer.dq +:+ "scripts" +:+ Installer.dq +:+ ": {".
Definition helper_key : string := Installer.dq +:+ "deploy:dev" +:+ Installer.dq.

(** A package.json on which [update_package_json] has nothing left to
    add. *)
Definition settled (package : Installer.TextFile) : Prop :=
  (Installer.grep_q deploy_key package = true
   \/ Installer.grep_q scripts_address package = false)
  /\ (Installer.grep_q helper_key package = true
      \/ Installer.grep_q deploy_address package = false).

(** The machine after a question has been put and a reply read. *)
Definition asked (prompt : string) (rest : list string) (m : Installer.Machine)
  : Installer.Machine :=
  {| Installer.files := Installer.files m;
     Installer.executable := Installer.executable m;
     Installer.replies := rest;
     Installer.terminal := Installer.terminal m ++ [prompt] |}.

(** A second run will not find a package.json.bak to delete: either it
    runs no [sed], or the file is not there. *)
Definition sed_ready (package : Installer.TextFile) (m : Installer.Machine)
  : Prop :=
  ((Installer.grep_q deploy_key package = true
    \/ Installer.grep_q (Installer.dq +:+ "scripts" +:+ Installer.dq) package
       = false)
   /\ Installer.grep_q helper_key package = true)
  \/ (Installer.files m !! "package.json.bak" = None
      /\ "package.json.bak" ∉ Installer.executable m).

(** What a directory looks like after an installation. *)
Definition installed (h : Installer.Host) (m : Installer.Machine) : Prop :=
  Installer.files m !! "deploy.sh" = Some (Installer.downloaded h)
  /\ "deploy.sh" ∈ Installer.executable m
  /\ is_Some (Installer.files m !! ".deploy.config")
  /\ (forall package,
        Installer.files m !! "package.json" = Some package ->
        settled package /\ sed_ready package m)
  /\ (forall gitignore,
        Installer.files m !! ".gitignore" = Some gitignore ->
        Installer.grep_q_dots ".deploy.config.local" gitignore = true)
  /\ is_Some (Installer.files m !! "DEPLOY.md").

(** No pending reply starts with [y] or [Y]. *)
Definition all_decline (replies : list string) : Prop :=
  Forall (fun r => is_yes (substring 0 1 r) = false) replies.

(** The directory of [m] is that of [m1], and no pending reply of [m]
    starts with [y] or [Y]. *)
Definition left_as (m1 m : Installer.Machine) : Prop :=
  Installer.files m = Installer.files m1
  /\ Installer.executable m = Installer.executable m1
  /\ all_decline (Installer.replies m).

(** * Properties of the scripts *)

#[local] Arguments is_digit : simpl never.
#[local] Arguments is_alpha : simpl never.
#[local] Arguments is_tilde : simpl never.
#[local] Arguments is_dot : simpl never.
#[local] Arguments digit_value : simpl never.

(** [sort -V] on four tags: numbers compare by value, leading zeros
    aside. *)
Example sort_V_example :
  sort_V ["v1.10.0-dev"; "v1.9.0-dev"; "v1.2.0-dev"; "v01.2.1-dev"]
  = ["v1.2.0-dev"; "v01.2.1-dev"; "v1.9.0-dev"; "v1.10.0-dev"].
Proof. reflexivity. Qed.

(** ** The shell monad *)

Lemma sh_bind_done {A B} (m : Sh A) (f : A -> Sh B) w a w' :
  m w = Done a w' -> sh_bind m f w = f a w'.
Proof. intros E; unfold sh_bind; now rewrite E. Qed.

Lemma sh_bind_exit {A B} (m : Sh A) (f : A -> Sh B) w c w' :
  m w = Exit c w' -> sh_bind m f w = Exit c w'.
Proof. intros E; unfold sh_bind; now rewrite E. Qed.

Lemma streq_true a b : streq a b = true <-> a = b.
Proof. apply String.eqb_eq. Qed.

Lemma streq_false a b : streq a b = false <-> a <> b.
Proof. apply String.eqb_neq. Qed.

Lemma streq_refl a : streq a a = true.
Proof. apply String.eqb_refl. Qed.

(** Running the primitive commands, one step at a time. *)

Lemma run_echo {B} line (k : unit -> Sh B) w :
  sh_bind (echo line) k w = k tt (put_line line w).
Proof. reflexivity. Qed.

Lemma run_print_color {B} line (k : unit -> Sh B) w :
  sh_bind (print_color line) k w = k tt (put_line line w).
Proof. reflexivity. Qed.

Lemma run_ret {A B} (a : A) (k : A -> Sh B) w : sh_bind (sh_ret a) k w = k a w.
Proof. reflexivity. Qed.

Lemma run_get_git {B} (k : Git -> Sh B) w : sh_bind get_git k w = k (git w) w.
Proof. reflexivity. Qed.

Lemma run_set_git {B} g (k : unit -> Sh B) w :
  sh_bind (set_git g) k w = k tt (with_git (fun _ => g) w).
Proof. reflexivity. Qed.

Lemma run_exit_with {A B} c (k : A -> Sh B) w :
  sh_bind (exit_with c) k w = Exit c w.
Proof. reflexivity. Qed.

Lemma run_git_do {B} c cmd (k : unit -> Sh B) w :
  sh_bind (git_do c cmd) k w
  = match cmd (git w) with
    | Some g => k tt (with_git (fun _ => g) w)
    | None => Exit c w
    end.
Proof. unfold sh_bind, git_do. now destruct (cmd (git w)). Qed.

Lemma run_git_try {B} cmd (k : unit -> Sh B) w :
  sh_bind (git_try cmd) k w
  = match cmd (git w) with
    | Some g => k tt (with_git (fun _ => g) w)
    | None => k tt w
    end.
Proof. unfold sh_bind, git_try. now destruct (cmd (git w)). Qed.

Lemma run_read_reply {B} prompt (k : string -> Sh B) w :
  sh_bind (read_reply prompt) k w
  = match replies w with
    | r :: rest => k r (prompted prompt rest w)
    | [] => Exit 1 w
    end.
Proof. unfold sh_bind, read_reply. now destruct (replies w). Qed.

Lemma run_read_key {B} prompt (k : string -> Sh B) w :
  sh_bind (read_key prompt) k w
  = match replies w with
    | r :: rest => k (substring 0 1 r) (prompted prompt rest w)
    | [] => Exit 1 w
    end.
Proof. unfold read_key, sh_bind, read_reply, sh_ret. now destruct (replies w). Qed.

Lemma run_bind_assoc {A B C} (m : Sh A) (f : A -> Sh B) (k : B -> Sh C) w :
  sh_bind (sh_bind m f) k w = sh_bind m (fun a => sh_bind (f a) k) w.
Proof. unfold sh_bind. now destruct (m w). Qed.

Lemma git_put_line line w : git (put_line line w) = git w.
Proof. reflexivity. Qed.

Lemma replies_put_line line w : replies (put_line line w) = replies w.
Proof. reflexivity. Qed.

Lemma package_version_put_line line w :
  package_version (put_line line w) = package_version w.
Proof. reflexivity. Qed.

Lemma git_with_git f w : git (with_git f w) = f (git w).
Proof. reflexivity. Qed.

Lemma replies_with_git f w : replies (with_git f w) = replies w.
Proof. reflexivity. Qed.

Lemma git_prompted p r w : git (prompted p r w) = git w.
Proof. reflexivity. Qed.

Lemma replies_prompted p r w : replies (prompted p r w) = r.
Proof. reflexivity. Qed.

Lemma local_tags_with_local_tags f g :
  local_tags (with_local_tags f g) = f (local_tags g).
Proof. reflexivity. Qed.

Lemma remote_tags_with_local_tags f g :
  remote_tags (with_local_tags f g) = remote_tags g.
Proof. reflexivity. Qed.

Lemma local_tags_with_remote_tags f g :
  local_tags (with_remote_tags f g) = local_tags g.
Proof. reflexivity. Qed.

Lemma remote_tags_with_remote_tags f g :
  remote_tags (with_remote_tags f g) = f (remote_tags g).
Proof. reflexivity. Qed.

Lemma HEAD_with_local_tags f g : HEAD (with_local_tags f g) = HEAD g.
Proof. reflexivity. Qed.

Lemma HEAD_with_remote_tags f g : HEAD (with_remote_tags f g) = HEAD g.
Proof. reflexivity. Qed.

Lemma branches_with_local_tags f g : branches (with_local_tags f g) = branches g.
Proof. reflexivity. Qed.

Lemma branches_with_remote_tags f g : branches (with_remote_tags f g) = branches g.
Proof. reflexivity. Qed.

(** Two repositories with the same components are the same. *)
Lemma git_ext g g' :
  local_tags g = local_tags g' -> remote_tags g = remote_tags g' ->
  branches g = branches g' -> remote_branches g = remote_branches g' ->
  HEAD g = HEAD g' -> current_branch g = current_branch g' ->
  uncommitted g = uncommitted g' -> g = g'.
Proof. destruct g, g'; cbn; intros; subst; reflexivity. Qed.

(** Run the script text in the goal as far as the primitive steps go. *)
Ltac sh_simpl :=
  cbn [sh_bind echo print_color sh_ret get_git set_git exit_with git_do git_try
       read_reply read_key final exit_status
       git replies package_version terminal captured put_line with_git prompted
       local_tags remote_tags HEAD branches remote_branches current_branch
       uncommitted with_local_tags with_remote_tags].

Ltac sh_run :=
  repeat progress
    (sh_simpl;
     rewrite ?run_git_do, ?run_git_try, ?run_read_reply, ?run_read_key;
     cbv beta iota).

Lemma quiet_ret {A} (a : A) : quiet (sh_ret a).
Proof. intros w. exists a, w. auto. Qed.

Lemma quiet_echo line : quiet (echo line).
Proof. intros w. exists tt, (put_line line w). auto. Qed.

Lemma quiet_print_color line : quiet (print_color line).
Proof. apply quiet_echo. Qed.

Lemma quiet_bind {A B} (m : Sh A) (k : A -> Sh B) :
  quiet m -> (forall a, quiet (k a)) -> quiet (sh_bind m k).
Proof.
  intros Hm Hk w. destruct (Hm w) as (a & w1 & E1 & Hg1 & Hr1 & Hp1).
  destruct (Hk a w1) as (b & w2 & E2 & Hg2 & Hr2 & Hp2).
  exists b, w2. rewrite (sh_bind_done _ _ _ _ _ E1).
  repeat split; congruence.
Qed.

Lemma quiet_echo_all lines : quiet (echo_all lines).
Proof.
  induction lines as [|l lines IH]; cbn [echo_all].
  - apply quiet_ret.
  - apply quiet_bind; [apply quiet_echo | intros _; exact IH].
Qed.

Lemma quiet_get_git : quiet get_git.
Proof. intros w. exists (git w), w. auto. Qed.

Create HintDb quiet.
#[export] Hint Resolve quiet_ret quiet_echo quiet_print_color quiet_echo_all
  quiet_get_git : quiet.

Ltac quiet_step :=
  match goal with
  | |- quiet (sh_bind _ _) => apply quiet_bind; [|intros ?]
  | |- quiet (if ?b then _ else _) => destruct b
  | |- quiet (match ?x with _ => _ end) => destruct x
  | |- quiet _ => solve [auto with quiet]
  end.

Ltac solve_quiet := repeat quiet_step.

(** Running a quiet command in front of [k] changes nothing [k] can see of
    the repository. *)
Lemma quiet_then {A B} (m : Sh A) (k : A -> Sh B) w :
  quiet m ->
  exists a w', sh_bind m k w = k a w' /\ git w' = git w
    /\ replies w' = replies w /\ package_version w' = package_version w.
Proof.
  intros Hm. destruct (Hm w) as (a & w1 & E1 & H).
  exists a, w1. split; [apply sh_bind_done; exact E1 | exact H].
Qed.

(** ** The staging allow-list of the rollback tool *)

Lemma has_staging_environment_iff service :
  Rollback.has_staging_environment service = true <-> In service staging_allow_list.
Proof.
  unfold Rollback.has_staging_environment, staging_allow_list.
  rewrite existsb_exists. split.
  - intros (s & Hin & Heq). apply streq_true in Heq. now subst.
  - intros Hin. exists service. split; [exact Hin | apply streq_refl].
Qed.

(** C7.  For a service that is not on the staging allow-list, a rollback
    invoked for the [staging] environment stops with exit status 1 at the
    guard of [main]: it prints that the service has no staging environment
    and leaves the repository, local and remote, exactly as it was, whatever
    tags it holds. *)
Theorem rollback_staging_refused h cfg argv o w :
  ~ In (SERVICE_NAME cfg) staging_allow_list ->
  Rollback.parse_args argv Rollback.no_options = Rollback.Parsed_ok o ->
  Rollback.show_history o = false ->
  Rollback.environment o = "staging" ->
  captured w = None ->
  exists w',
    Rollback.main h cfg argv w = Exit 1 w'
    /\ git w' = git w
    /\ In ("Service " +:+ SERVICE_NAME cfg +:+ " does not support staging environment")
          (terminal w').
Proof.
  intros Hnot Hparse Hhist Henv Hcap.
  assert (Hst : Rollback.has_staging_environment (SERVICE_NAME cfg) = false).
  { destruct (Rollback.has_staging_environment (SERVICE_NAME cfg)) eqn:E; [|reflexivity].
    apply has_staging_environment_iff in E. contradiction. }
  unfold Rollback.main, Rollback.main_guarded. rewrite Hparse, Hhist, Henv.
  unfold sh_bind, print_color, echo, get_git, sh_ret, exit_with, Rollback.show_header.
  cbn -[Rollback.has_staging_environment String.append].
  rewrite Hst.
  cbn -[String.append].
  eexists. split; [reflexivity|]. split; [reflexivity|].
  cbn -[String.append]. rewrite Hcap.
  rewrite !in_app_iff. cbn -[String.append]. tauto.
Qed.

Lemma rollback_staging_refused_witness :
  exists w',
    Rollback.main sample_host (default_config "orders") ["staging"]
      (sample_world []) = Exit 1 w'
    /\ git w' = git (sample_world [])
    /\ In ("Service " +:+ "orders" +:+ " does not support staging environment")
          (terminal w').
Proof.
  apply (rollback_staging_refused sample_host (default_config "orders")
           ["staging"]
           {| Rollback.environment := "staging"; Rollback.version := "";
              Rollback.skip_confirm := false; Rollback.show_history := false |}).
  - cbn. intuition discriminate.
  - reflexivity.
  - reflexivity.
  - reflexivity.
  - reflexivity.
Defined.

(** Without an environment argument the environment is what the menu
    function wrote, the menu included: never [staging], so the guard is
    reached with [staging] from the command line only. *)
Lemma select_environment_not_staging cfg w e w' :
  capture (Rollback.select_environment cfg) w = Done e w' -> e <> "staging".
Proof.
  unfold capture, Rollback.select_environment. intros H ->.
  destruct (Rollback.has_staging_environment (SERVICE_NAME cfg));
    unfold sh_bind, print_color, echo, read_reply, exit_with, sh_ret in H;
    cbn -[String.append] in H;
    destruct (replies w) as [|choice rest]; cbn -[String.append] in H;
    try discriminate H;
    repeat match type of H with
           | context [streq ?a ?b] => destruct (streq a b); cbn -[String.append] in H
           end;
    discriminate H.
Qed.

(** ** The run monitor of deploy.sh v3.0 *)

Lemma run_matches_tag_iff tag r :
  run_matches_tag tag r = true <-> run_for_tag tag r.
Proof.
  unfold run_matches_tag, run_for_tag.
  rewrite orb_true_iff, !streq_true. tauto.
Qed.

Lemma await_start_some h tag n c run :
  Deploy.await_start h tag n c = Some run <->
  exists k, (c < k <= c + n)%nat
    /\ List.find (run_matches_tag tag) (gh_run_list h k) = Some run
    /\ forall j, (c < j < k)%nat ->
         List.find (run_matches_tag tag) (gh_run_list h j) = None.
Proof.
  revert c. induction n as [|n IH]; intros c; cbn [Deploy.await_start].
  - split; [discriminate|]. intros (k & Hk & _). lia.
  - destruct (List.find (run_matches_tag tag) (gh_run_list h (S c))) as [r|] eqn:E.
    + split.
      * intros [= <-]. exists (S c). split; [lia|]. split; [exact E|].
        intros j Hj. lia.
      * intros (k & Hk & Hf & Hbefore).
        destruct (Nat.eq_dec k (S c)) as [->|Hne]; [congruence|].
        rewrite (Hbefore (S c)) in E by lia. discriminate.
    + rewrite IH. split.
      * intros (k & Hk & Hf & Hbefore). exists k. split; [lia|]. split; [exact Hf|].
        intros j Hj. destruct (Nat.eq_dec j (S c)) as [->|Hne]; [exact E|].
        apply Hbefore. lia.
      * intros (k & Hk & Hf & Hbefore). exists k.
        assert (k <> S c) by congruence.
        split; [lia|]. split; [exact Hf|]. intros j Hj. apply Hbefore. lia.
Qed.

Lemma await_start_discovered h tag run :
  Deploy.await_start h tag 10 0 = Some run <-> discovered h tag run.
Proof.
  rewrite await_start_some. unfold discovered.
  split; intros (k & Hk & Hf & Hb); exists k; (split; [lia|]); (split; [exact Hf|]);
    intros j Hj; apply Hb; lia.
Qed.

Lemma await_start_undiscovered h tag :
  undiscovered h tag -> Deploy.await_start h tag 10 0 = None.
Proof.
  intros Hun. destruct (Deploy.await_start h tag 10 0) as [run|] eqn:E; [|reflexivity].
  apply await_start_discovered in E. destruct E as (k & Hk & Hf & _).
  apply find_some in Hf. destruct Hf as [Hin Hm].
  apply run_matches_tag_iff in Hm. exfalso. exact (Hun k run Hk Hin Hm).
Qed.

Lemma last_snoc_string (l : list string) (x d : string) :
  List.last (l ++ [x]) d = x.
Proof. apply List.last_last. Qed.

(** The three ways [monitor_github_actions] ends. *)
Lemma monitor_outcome h cfg tag w :
  match Deploy.await_start h tag 10 0 with
  | None =>
      exists w',
        Deploy.monitor_github_actions h cfg tag w = Done tt w'
        /\ git w' = git w
        /\ (captured w = None ->
            List.last (terminal w') ""
            = "   https://github.com/" +:+ Deploy.github_repo h +:+ "/actions")
  | Some run =>
      if streq (snd (gh_run_view h (databaseId run) 1)) "success"
      then exists w',
             Deploy.monitor_github_actions h cfg tag w = Done tt w' /\ git w' = git w
      else exists w',
             Deploy.monitor_github_actions h cfg tag w = Exit 1 w' /\ git w' = git w
  end.
Proof.
  unfold Deploy.monitor_github_actions.
  destruct (Deploy.await_start h tag 10 0) as [run|].
  - destruct (streq (snd (gh_run_view h (databaseId run) 1)) "success").
    + destruct (streq (DEPLOY_TYPE cfg) "kubernetes");
        eexists; (split; [reflexivity|reflexivity]).
    + eexists; (split; [reflexivity|reflexivity]).
  - eexists. split; [reflexivity|]. split; [reflexivity|].
    intros Hcap. unfold sh_bind, print_color, echo.
    cbn -[String.append]. rewrite Hcap. apply last_snoc_string.
Qed.



(** A failed run makes the monitor exit with status 1. *)
Example monitor_failure_exits :
  exit_status
    (Deploy.monitor_github_actions
       {| gh_installed := true; gh_name_with_owner := "karmadev/orders";
          origin_repo_path := "karmadev/orders";
          gh_run_list := fun k =>
            if Nat.eqb k 3
            then [{| databaseId := "77"; status := "queued"; conclusion := "";
                     headBranch := "v3.0.1" |}]
            else [];
          gh_run_view := fun _ _ => ("completed", "failure");
          unix_seconds := 0; git_user_name := "alice";
          commit_id := fun parent _ => parent;
          sort_version_refname_desc := fun l => l;
          rollback_script_installed := true |}
       (default_config "orders") "v3.0.1" (sample_world [])) = 1.
Proof. reflexivity. Qed.

(** The older script (v2.0.0) discovers the run in the same ten queries;
    when none reports a run for the tag its monitor returns as well, with a
    manual-monitoring URL as its last line. *)
Lemma legacy_await_start_undiscovered h tag n : forall check_count,
  (check_count + n <= 10)%nat ->
  undiscovered h tag ->
  DeployLegacy.await_start h tag n check_count = None.
Proof.
  induction n as [|n IH]; intros check_count Hle Hun; [reflexivity|].
  cbn [DeployLegacy.await_start].
  assert (DeployLegacy.await_start h tag n (S check_count) = None) as ->
    by (apply IH; [lia|exact Hun]).
  destruct (gh_installed h); [|reflexivity].
  destruct (find _ (gh_run_list h (S check_count))) as [r|] eqn:E; [|reflexivity].
  apply find_some in E as [Hin Hm]. apply streq_true in Hm.
  exfalso. apply (Hun (S check_count) r); [lia|exact Hin|now left].
Qed.

Lemma legacy_monitor_undiscovered h cfg tag w :
  undiscovered h tag ->
  captured w = None ->
  exists w',
    DeployLegacy.monitor_github_actions h cfg tag w = Done tt w'
    /\ git w' = git w
    /\ List.last (terminal w') ""
       = "   Monitor manually at: https://github.com/karmadev/"
         +:+ SERVICE_NAME cfg +:+ "/actions".
Proof.
  intros Hun Hcap. unfold DeployLegacy.monitor_github_actions. cbv zeta.
  rewrite (legacy_await_start_undiscovered h tag 10 0) by (lia || exact Hun).
  eexists. split; [reflexivity|]. split; [reflexivity|].
  unfold sh_bind, print_color, echo.
  cbn -[String.append]. rewrite Hcap. apply last_snoc_string.
Qed.

(** ** The rollback tag *)

Lemma rollback_tag_name_known h environment version :
  rollback_environment environment ->
  Rollback.rollback_tag_name h environment version
  = version +:+ "-rollback-" +:+ pretty (unix_seconds h).
Proof.
  unfold rollback_environment, Rollback.rollback_tag_name. cbn [In].
  intros [<-|[<-|[<-|[<-|[<-|[]]]]]]; reflexivity.
Qed.

Lemma append_nonempty_r (a b : string) : b <> "" -> a +:+ b <> "".
Proof. destruct a; cbn; [auto|discriminate]. Qed.

Lemma rollback_tag_name_nonempty h environment version :
  rollback_environment environment ->
  streq (Rollback.rollback_tag_name h environment version) "" = false.
Proof.
  intros Henv. rewrite (rollback_tag_name_known _ _ _ Henv).
  apply streq_false. apply append_nonempty_r. discriminate.
Qed.

Lemma perform_rollback_effect h environment version target w :
  rollback_environment environment ->
  local_tags (git w) !! version = Some target ->
  tag_commit target <> "" ->
  local_tags (git w) !! Rollback.rollback_tag_name h environment version = None ->
  remote_tags (git w) !! Rollback.rollback_tag_name h environment version = None ->
  exists w',
    Rollback.perform_rollback h environment version w = Done tt w'
    /\ git w' = with_pushed_tag
                  (Rollback.rollback_tag_name h environment version)
                  {| tag_commit := tag_commit target;
                     tag_message := Rollback.rollback_message h environment version |}
                  (git w).
Proof.
  intros Henv Htarget Hcommit Hlocal Hremote.
  pose proof (rollback_tag_name_nonempty h environment version Henv) as Hne.
  unfold Rollback.perform_rollback.
  set (new_tag := Rollback.rollback_tag_name h environment version) in *.
  set (message := Rollback.rollback_message h environment version).
  assert (Hs : streq (tag_commit target) "" = false) by now apply streq_false.
  unfold sh_bind at 1. unfold print_color at 1, echo at 1.
  unfold sh_bind at 1. unfold echo at 1.
  unfold sh_bind at 1. unfold get_git at 1.
  cbn [git put_line].
  unfold git_rev_parse. rewrite Htarget. cbn [default from_option id].
  unfold sh_bind at 1. unfold print_color at 1, echo at 1.
  unfold sh_bind at 1. unfold git_do at 1.
  cbn [git put_line]. rewrite Hs.
  unfold git_tag_a. unfold streq in Hne. rewrite Hne. cbn [negb andb].
  rewrite bool_decide_eq_false_2 by (rewrite Hlocal; apply is_Some_None).
  unfold sh_bind at 1. unfold print_color at 1, echo at 1.
  unfold sh_bind at 1. unfold git_do at 1.
  cbn [git put_line with_git with_local_tags local_tags remote_tags].
  unfold git_push_tag.
  cbn [git put_line with_git with_local_tags local_tags remote_tags].
  rewrite lookup_insert_eq, Hremote.
  match goal with
  | |- exists w', ?m ?w0 = _ /\ _ =>
      assert (Hm : quiet m) by solve_quiet;
      destruct (Hm w0) as ([] & w1 & E1 & Hg1 & _)
  end.
  exists w1. split; [exact E1|]. rewrite Hg1. reflexivity.
Qed.

(** ** Listing tags

    [git tag -l] lists the tag names in byte order, so what a pattern
    selects depends on the set of names only. *)

Lemma StronglySorted_filter {A} (R : relation A) (P : A -> Prop)
  `{forall x, Decision (P x)} (l : list A) :
  StronglySorted R l -> StronglySorted R (filter P l).
Proof.
  induction 1 as [|a l Hl IH Hall]; [constructor|].
  rewrite filter_cons. destruct (decide (P a)); [|exact IH].
  constructor; [exact IH|].
  rewrite Forall_forall in Hall |- *. intros x Hx.
  apply list_elem_of_filter in Hx. apply Hall, Hx.
Qed.

Lemma git_tag_names_sorted g : StronglySorted String.le (git_tag_names g).
Proof. unfold git_tag_names. apply StronglySorted_merge_sort; apply _. Qed.

Lemma git_tag_names_perm g :
  git_tag_names g ≡ₚ elements (dom (local_tags g)).
Proof. unfold git_tag_names. apply merge_sort_Permutation. Qed.

Lemma elem_of_git_tag_names g t :
  t ∈ git_tag_names g <-> is_Some (local_tags g !! t).
Proof. rewrite git_tag_names_perm, elem_of_elements. apply elem_of_dom. Qed.

(** Two repositories with the same tag names list the same tags. *)
Lemma git_tag_names_dom g g' :
  dom (local_tags g') = dom (local_tags g) -> git_tag_names g' = git_tag_names g.
Proof. unfold git_tag_names. now intros ->. Qed.

(** A new tag that a pattern does not select leaves the selection as it is. *)
Lemma filter_tag_names_insert (P : string -> Prop) `{forall x, Decision (P x)}
  name o g :
  ~ P name ->
  filter P (git_tag_names (with_local_tags (insert name o) g))
  = filter P (git_tag_names g).
Proof.
  intros HP.
  apply (StronglySorted_unique String.le).
  - apply StronglySorted_filter, git_tag_names_sorted.
  - apply StronglySorted_filter, git_tag_names_sorted.
  - rewrite !git_tag_names_perm. cbn [with_local_tags local_tags].
    rewrite dom_insert_L.
    destruct (decide (name ∈ dom (local_tags g))) as [Hin|Hin].
    + replace ({[name]} ∪ dom (local_tags g)) with (dom (local_tags g))
        by set_solver.
      reflexivity.
    + rewrite elements_union_singleton by exact Hin.
      now rewrite filter_cons_False.
Qed.

(** Replacing the object of an existing tag does not change the listing. *)
Lemma git_tag_names_insert_existing name o g :
  is_Some (local_tags g !! name) ->
  git_tag_names (with_local_tags (insert name o) g) = git_tag_names g.
Proof.
  intros Hin. apply git_tag_names_dom. cbn [with_local_tags local_tags].
  rewrite dom_insert_L. apply elem_of_dom in Hin. set_solver.
Qed.

(** ** Decimal numerals

    [pretty n] is the decimal numeral bash and [date +%s] print for [n]. *)

Lemma chars_append (a b : string) : chars (a +:+ b) = chars a ++ chars b.
Proof. induction a as [|c a IH]; cbn; [reflexivity|]. now rewrite <- IH. Qed.

Lemma str_chars (s : string) : str (chars s) = s.
Proof. apply string_of_list_ascii_of_string. Qed.

Lemma chars_str (l : list ascii) : chars (str l) = l.
Proof. apply list_ascii_of_string_of_list_ascii. Qed.

Lemma chars_inj (a b : string) : chars a = chars b -> a = b.
Proof. intros E. rewrite <- (str_chars a), <- (str_chars b). now rewrite E. Qed.

Section Numerals.
Local Open Scope N_scope.

Lemma pretty_N_char_digit d :
  (d < 10) ->
  is_digit (pretty_N_char d) = true /\ digit_value (pretty_N_char d) = d.
Proof.
  intros Hd.
  assert (d = 0 \/ d = 1 \/ d = 2 \/ d = 3 \/ d = 4 \/ d = 5
          \/ d = 6 \/ d = 7 \/ d = 8 \/ d = 9) as Hcases by lia.
  repeat (destruct Hcases as [->|Hcases]; [split; reflexivity|]).
  subst d. split; reflexivity.
Qed.

Lemma pretty_N_char_zero d :
  (0 < d < 10) -> Ascii.eqb (pretty_N_char d) "0" = false.
Proof.
  intros Hd.
  assert (d = 1 \/ d = 2 \/ d = 3 \/ d = 4 \/ d = 5
          \/ d = 6 \/ d = 7 \/ d = 8 \/ d = 9) as Hcases by lia.
  repeat (destruct Hcases as [->|Hcases]; [reflexivity|]).
  now subst d.
Qed.

Lemma chars_pretty_N_go x s :
  chars (pretty_N_go x s) = numeral x ++ chars s.
Proof.
  unfold numeral. revert s.
  induction (N.lt_wf_0 x) as [x _ IH]; intros s.
  destruct (N.eq_dec x 0) as [->|Hx].
  - now rewrite !pretty_N_go_0.
  - assert (0 < x) as Hpos by lia.
    rewrite (pretty_N_go_step x s Hpos), (pretty_N_go_step x "" Hpos).
    assert (x `div` 10 < x) as Hlt by (apply N.div_lt; lia).
    rewrite (IH _ Hlt (String _ s)), (IH _ Hlt (String _ "")).
    cbn. now rewrite <- app_assoc.
Qed.

Lemma numeral_zero : numeral 0 = [].
Proof. reflexivity. Qed.

Lemma numeral_step x :
  (0 < x) -> numeral x = numeral (x `div` 10) ++ [pretty_N_char (x `mod` 10)].
Proof.
  intros Hpos. unfold numeral at 1.
  rewrite (pretty_N_go_step x "" Hpos). now rewrite chars_pretty_N_go.
Qed.

Lemma digits_value_snoc base ds c :
  digits_value base (ds ++ [c]) = (base * digits_value base ds + digit_value c).
Proof. unfold digits_value. now rewrite fold_left_app. Qed.

Lemma numeral_spec x :
  forallb is_digit (numeral x) = true
  /\ digits_value 10 (numeral x) = x
  /\ ((0 < x) -> exists c r, numeral x = c :: r /\ Ascii.eqb c "0" = false).
Proof.
  induction (N.lt_wf_0 x) as [x _ IH].
  destruct (N.eq_dec x 0) as [->|Hx].
  - repeat split; try reflexivity. lia.
  - assert (0 < x) as Hpos by lia.
    assert (x `div` 10 < x) as Hlt by (apply N.div_lt; lia).
    assert (x `mod` 10 < 10) as Hmod by (apply N.mod_lt; lia).
    destruct (IH _ Hlt) as (Hdig & Hval & Hhead).
    destruct (pretty_N_char_digit _ Hmod) as [Hd Hv].
    rewrite (numeral_step x Hpos).
    split; [|split].
    + rewrite forallb_app, Hdig. cbn. now rewrite Hd.
    + rewrite digits_value_snoc, Hval, Hv.
      rewrite (N.div_mod x 10) at 3 by lia. reflexivity.
    + intros _. destruct (N.eq_dec (x `div` 10) 0) as [Hz|Hnz].
      * rewrite Hz, numeral_zero. cbn. eexists _, _. split; [reflexivity|].
        apply pretty_N_char_zero. split; [|exact Hmod].
        rewrite (N.div_mod x 10) in Hpos by lia. lia.
      * destruct Hhead as (c & r & E & Hc); [lia|].
        rewrite E. cbn. eauto.
Qed.

Lemma chars_pretty_N (x : N) :
  chars (pretty x) = if decide (x = 0) then ["0"%char] else numeral x.
Proof. unfold pretty, pretty_N. now destruct (decide (x = 0)). Qed.

(** A decimal numeral is a non-empty run of digits that denotes its number
    and has no leading zero, except for zero itself. *)
Lemma pretty_N_digits (x : N) : forallb is_digit (chars (pretty x)) = true.
Proof.
  rewrite chars_pretty_N. destruct (decide (x = 0)); [reflexivity|].
  apply numeral_spec.
Qed.

Lemma pretty_N_value (x : N) : digits_value 10 (chars (pretty x)) = x.
Proof.
  rewrite chars_pretty_N. destruct (decide (x = 0)) as [->|]; [reflexivity|].
  apply numeral_spec.
Qed.

Lemma pretty_N_head (x : N) :
  exists c r, chars (pretty x) = c :: r
    /\ is_digit c = true
    /\ (x <> 0 -> Ascii.eqb c "0" = false)
    /\ (x = 0 -> c = "0"%char /\ r = []).
Proof.
  pose proof (pretty_N_digits x) as Hdig.
  rewrite chars_pretty_N in *. destruct (decide (x = 0)) as [->|Hx].
  - exists "0"%char, []. repeat split; congruence.
  - destruct (numeral_spec x) as (_ & _ & Hhead).
    destruct Hhead as (c & r & E & Hc); [lia|].
    rewrite E in *. exists c, r. cbn in Hdig. apply andb_true_iff in Hdig.
    split; [reflexivity|]. split; [tauto|]. split; [intros _; exact Hc|].
    intros ->. contradiction.
Qed.

End Numerals.

Lemma pretty_Z_of_N (x : N) : pretty (Z.of_N x) = pretty x.
Proof. destruct x; reflexivity. Qed.

(** ** Versions *)

Lemma has_char_app c a b : has_char c (a ++ b) = has_char c a || has_char c b.
Proof.
  induction a as [|x a IH]; cbn; [reflexivity|].
  now rewrite IH, orb_assoc.
Qed.

Lemma has_char_digits c ds :
  is_digit c = false -> forallb is_digit ds = true -> has_char c ds = false.
Proof.
  intros Hc. induction ds as [|d ds IH]; cbn; [reflexivity|].
  intros Hd. apply andb_true_iff in Hd as [Hd Hds].
  rewrite (IH Hds), orb_false_r.
  destruct (Ascii.eqb_spec d c) as [->|]; [congruence|reflexivity].
Qed.

Lemma cut_first_absent c s : has_char c s = false -> cut_first c s = s.
Proof.
  induction s as [|a s IH]; cbn; [reflexivity|].
  intros H. apply orb_false_iff in H as [Ha Hs].
  rewrite Ha. now rewrite IH.
Qed.

Lemma cut_last_absent c s : has_char c s = false -> cut_last c s = s.
Proof.
  destruct s as [|a s]; cbn; [reflexivity|].
  intros H. apply orb_false_iff in H as [Ha Hs]. now rewrite Hs, Ha.
Qed.

Lemma cut_first_at c a r : has_char c a = false -> cut_first c (a ++ c :: r) = a.
Proof.
  induction a as [|x a IH]; cbn.
  - now rewrite Ascii.eqb_refl.
  - intros H. apply orb_false_iff in H as [Hx Ha]. rewrite Hx. now rewrite IH.
Qed.

Lemma after_first_at c a r : has_char c a = false -> after_first c (a ++ c :: r) = r.
Proof.
  induction a as [|x a IH]; cbn.
  - now rewrite Ascii.eqb_refl.
  - intros H. apply orb_false_iff in H as [Hx Ha]. rewrite Hx. now apply IH.
Qed.

Lemma drop_prefix_app p r : drop_prefix p (p ++ r) = Some r.
Proof. induction p as [|a p IH]; cbn; [reflexivity|]. now rewrite Ascii.eqb_refl. Qed.

Lemma drop_prefix_Some p s r : drop_prefix p s = Some r -> s = p ++ r.
Proof.
  revert s. induction p as [|a p IH]; intros s; cbn.
  - now intros [= ->].
  - destruct s as [|b s]; [discriminate|].
    destruct (Ascii.eqb_spec a b) as [->|]; [|discriminate].
    intros E. now rewrite (IH _ E).
Qed.

Lemma drop_prefix_mismatch a p b s :
  Ascii.eqb a b = false -> drop_prefix (a :: p) (b :: s) = None.
Proof. intros E. cbn [drop_prefix]. now rewrite E. Qed.

Lemma chars_render_version v :
  chars (render_version v)
  = chars (pretty (major v)) ++ "."%char :: chars (pretty (minor v))
    ++ "."%char :: chars (pretty (patch v)).
Proof. unfold render_version. now rewrite !chars_append. Qed.

(** What [increment_version] reads from a rendered version: the three
    numerals, untouched by the prefix and suffix removals. *)
Lemma read_rendered_version v :
  read_ifs_dot (remove_shortest_suffix "-" (strip_prefix "v" (render_version v)))
  = (pretty (major v), pretty (minor v), pretty (patch v)).
Proof.
  pose proof (pretty_N_digits (major v)) as Hma.
  pose proof (pretty_N_digits (minor v)) as Hmi.
  pose proof (pretty_N_digits (patch v)) as Hpa.
  assert (Hstrip : strip_prefix "v" (render_version v) = render_version v).
  { unfold strip_prefix. rewrite chars_render_version.
    destruct (pretty_N_head (major v)) as (c & r & -> & Hc & _).
    change (chars "v") with ["v"%char]. rewrite <- app_comm_cons.
    rewrite drop_prefix_mismatch; [reflexivity|].
    destruct (Ascii.eqb_spec "v" c) as [<-|]; [discriminate|reflexivity]. }
  rewrite Hstrip.
  assert (Hnochar : forall c, is_digit c = false -> is_dot c = false ->
            has_char c (chars (render_version v)) = false).
  { intros c Hc Hdot. rewrite chars_render_version.
    rewrite has_char_app. cbn [has_char]. rewrite has_char_app. cbn [has_char].
    rewrite !has_char_digits by assumption.
    destruct (Ascii.eqb_spec "."%char c) as [<-|]; [discriminate|reflexivity]. }
  unfold remove_shortest_suffix.
  rewrite cut_last_absent by (apply Hnochar; reflexivity).
  rewrite str_chars. unfold read_ifs_dot.
  rewrite (cut_first_absent "010") by (apply Hnochar; reflexivity).
  rewrite chars_render_version.
  assert (Hd : forall n : N, has_char "." (chars (pretty n)) = false)
    by (intros n; apply has_char_digits; [reflexivity|apply pretty_N_digits]).
  rewrite !cut_first_at, !after_first_at by apply Hd.
  rewrite cut_first_at by apply Hd.
  rewrite Hd. cbn [andb]. now rewrite !str_chars.
Qed.

Lemma numeral_untouched c (n : N) :
  is_digit c = false -> remove_longest_suffix c (pretty n) = pretty n.
Proof.
  intros Hc. unfold remove_longest_suffix.
  rewrite cut_first_absent by (apply has_char_digits; [exact Hc|apply pretty_N_digits]).
  apply str_chars.
Qed.

Lemma wrap64_small z : - 2 ^ 63 <= z < 2 ^ 63 -> wrap64 z = z.
Proof. intros Hz. unfold wrap64. rewrite Z.mod_small; lia. Qed.

(** The value bash reads from a decimal numeral below 2^63. *)
Lemma arith_value_pretty (n : N) :
  (n < 2 ^ 63)%N -> arith_value (pretty n) = Some (Z.of_N n).
Proof.
  intros Hn. unfold arith_value.
  pose proof (pretty_N_digits n) as Hdig. pose proof (pretty_N_value n) as Hval.
  destruct (pretty_N_head n) as (c & r & E & Hc & Hnz & Hz).
  rewrite E in *.
  destruct (N.eq_dec n 0%N) as [->|Hne].
  - destruct (Hz eq_refl) as [-> ->]. reflexivity.
  - rewrite (Hnz Hne), Hdig, Hval. f_equal. apply wrap64_small. lia.
Qed.

Lemma arith_succ_pretty (n : N) :
  (n < 2 ^ 63 - 1)%N -> arith_succ (pretty n) = Some (pretty (n + 1)%N).
Proof.
  intros Hn. unfold arith_succ. rewrite arith_value_pretty by lia.
  rewrite wrap64_small by lia.
  replace (Z.of_N n + 1) with (Z.of_N (n + 1)) by lia.
  now rewrite pretty_Z_of_N.
Qed.




(** The older script increments a rendered version the same way. *)
Lemma legacy_increment_version_same cfg v kind :
  VERSION_PREFIX cfg = "v" ->
  DeployLegacy.increment_version cfg (render_version v) kind
  = Deploy.increment_version cfg (render_version v) kind.
Proof.
  intros Hprefix. unfold DeployLegacy.increment_version, Deploy.increment_version.
  rewrite Hprefix, read_rendered_version.
  now rewrite !numeral_untouched by reflexivity.
Qed.

(** ** What a rollback creates *)

(** C8 (amended).  Rolling an environment back to an existing tag [t]
    whose rollback name is still free creates and pushes exactly one new
    tag: it is named [t-rollback-<unix seconds>], points at the commit [t]
    points at, and its message names the version rolled back to, the
    environment and who ran the tool.  Every other tag, the branches and
    HEAD stay as they were. *)
Theorem rollback_creates_one_tag h environment t target w :
  rollback_environment environment ->
  local_tags (git w) !! t = Some target ->
  tag_commit target <> "" ->
  local_tags (git w) !! (t +:+ "-rollback-" +:+ pretty (unix_seconds h)) = None ->
  remote_tags (git w) !! (t +:+ "-rollback-" +:+ pretty (unix_seconds h)) = None ->
  exists w',
    Rollback.perform_rollback h environment t w = Done tt w'
    /\ git w' =
       with_pushed_tag (t +:+ "-rollback-" +:+ pretty (unix_seconds h))
         {| tag_commit := tag_commit target;
            tag_message := "Rollback to " +:+ t +:+ " on " +:+ environment
                           +:+ " by " +:+ git_user_name h |}
         (git w).
Proof.
  intros Henv Htarget Hcommit Hlocal Hremote.
  rewrite <- (rollback_tag_name_known h environment t Henv) in *.
  exact (perform_rollback_effect h environment t target w
           Henv Htarget Hcommit Hlocal Hremote).
Qed.

Lemma rollback_creates_one_tag_witness :
  exists w',
    Rollback.perform_rollback sample_host "production" "v2.5.0" (sample_world [])
    = Done tt w'
    /\ git w' =
       with_pushed_tag "v2.5.0-rollback-1724850000"
         {| tag_commit := "c25";
            tag_message := "Rollback to v2.5.0 on production by alice" |}
         sample_git.
Proof.
  apply (rollback_creates_one_tag sample_host "production" "v2.5.0"
           (tagged "c25" "Deploy orders 2.5.0 to prod") (sample_world [])).
  - unfold rollback_environment. cbn. tauto.
  - reflexivity.
  - discriminate.
  - reflexivity.
  - reflexivity.
Defined.

(** C8 as stated fails on the message: rolling production back from
    v3.0.0 to v2.5.0 leaves a tag whose message does not mention v3.0.0. *)
Lemma rollback_message_counterexample :
  let w' := final (Rollback.main sample_host (default_config "orders")
                     ["production"; "--version"; "v2.5.0"; "--skip-confirm"]
                     (sample_world [])) in
  hd "" (Rollback.get_deployment_history sample_host (default_config "orders")
           "production" sample_git) = "v3.0.0"
  /\ local_tags (git w') !! "v2.5.0-rollback-1724850000"
     = Some {| tag_commit := "c25";
               tag_message := "Rollback to v2.5.0 on production by alice" |}
  /\ contains (chars "3.0.0")
       (chars "Rollback to v2.5.0 on production by alice") = false.
Proof. vm_compute. repeat split; reflexivity. Qed.

(** ** Shapes of tag names *)

Lemma is_dot_eq c : is_dot c = true -> c = "."%char.
Proof.
  unfold is_dot. intros H. apply N.eqb_eq in H.
  rewrite <- (ascii_N_embedding c), H. reflexivity.
Qed.

Lemma is_dot_not_digit c : is_dot c = true -> is_digit c = false.
Proof. intros H. now rewrite (is_dot_eq c H). Qed.

Lemma skip_digits_spec s :
  exists ds, s = ds ++ skip_digits s
    /\ forallb is_digit ds = true
    /\ head_is is_digit (skip_digits s) = false.
Proof.
  induction s as [|c s IH]; cbn [skip_digits].
  - exists []. auto.
  - destruct (is_digit c) eqn:Hc.
    + destruct IH as (ds & E & Hds & Hhead).
      exists (c :: ds). cbn. rewrite Hc, Hds. split; [now rewrite <- E|auto].
    + exists []. cbn. auto.
Qed.

Lemma skip_digits_run ds r :
  forallb is_digit ds = true -> head_is is_digit r = false ->
  skip_digits (ds ++ r) = r.
Proof.
  intros Hds Hr. induction ds as [|d ds IH]; cbn.
  - destruct r as [|c r]; [reflexivity|]. cbn in Hr |- *. now rewrite Hr.
  - cbn in Hds. apply andb_true_iff in Hds as [Hd Hds]. rewrite Hd. now apply IH.
Qed.

Lemma digits1_Some s r :
  digits1 s = Some r ->
  exists ds, digit_run ds /\ s = ds ++ r /\ head_is is_digit r = false.
Proof.
  destruct s as [|c s]; cbn; [discriminate|].
  destruct (is_digit c) eqn:Hc; [|discriminate].
  intros [= <-]. destruct (skip_digits_spec s) as (ds & E & Hds & Hhead).
  exists (c :: ds). split; [|split].
  - split; [discriminate|]. cbn. now rewrite Hc.
  - cbn. now rewrite <- E.
  - exact Hhead.
Qed.

Lemma digits1_run ds r :
  digit_run ds -> head_is is_digit r = false -> digits1 (ds ++ r) = Some r.
Proof.
  intros [Hne Hds] Hr. destruct ds as [|d ds]; [contradiction|].
  cbn in Hds |- *. apply andb_true_iff in Hds as [Hd Hds].
  rewrite Hd. now rewrite skip_digits_run.
Qed.

(** The strings [[0-9]+\.[0-9]+\.[0-9]+$] accepts. *)
Lemma semver_chars_iff r :
  semver_chars r = true <->
  exists d1 d2 d3, digit_run d1 /\ digit_run d2 /\ digit_run d3
    /\ r = d1 ++ "."%char :: d2 ++ "."%char :: d3.
Proof.
  unfold semver_chars. split.
  - destruct (digits1 r) as [[|c1 r1]|] eqn:E1; try discriminate.
    intros H. apply andb_true_iff in H as [Hc1 H].
    destruct (digits1 r1) as [[|c2 r2]|] eqn:E2; try discriminate.
    apply andb_true_iff in H as [Hc2 H].
    destruct (digits1 r2) as [[|c3 r3]|] eqn:E3; try discriminate.
    apply digits1_Some in E1 as (d1 & H1 & -> & _).
    apply digits1_Some in E2 as (d2 & H2 & -> & _).
    apply digits1_Some in E3 as (d3 & H3 & -> & _).
    apply is_dot_eq in Hc1, Hc2. subst c1 c2.
    exists d1, d2, d3. rewrite app_nil_r. auto.
  - intros (d1 & d2 & d3 & H1 & H2 & H3 & ->).
    rewrite (digits1_run d1) by (auto; reflexivity). cbn [is_dot andb].
    change (is_dot ".") with true. cbn [andb].
    rewrite (digits1_run d2) by (auto; reflexivity).
    change (is_dot ".") with true. cbn [andb].
    rewrite <- (app_nil_r d3). rewrite (digits1_run d3) by (auto; reflexivity).
    reflexivity.
Qed.

(** A string has one last non-digit and one digit run after it. *)
Lemma last_nondigit_unique x1 c1 d1 x2 c2 d2 :
  x1 ++ c1 :: d1 = x2 ++ c2 :: d2 ->
  forallb is_digit d1 = true -> forallb is_digit d2 = true ->
  is_digit c1 = false -> is_digit c2 = false ->
  x1 = x2 /\ c1 = c2 /\ d1 = d2.
Proof.
  intros E H1 H2 Hc1 Hc2.
  assert (Hrev : rev d1 ++ c1 :: rev x1 = rev d2 ++ c2 :: rev x2).
  { apply (f_equal (@rev ascii)) in E.
    rewrite !rev_app_distr in E. cbn in E. now rewrite <- !app_assoc in E. }
  assert (Hd1 : forallb is_digit (rev d1) = true).
  { rewrite forallb_forall in *. intros a Ha. apply H1. now apply in_rev. }
  assert (Hd2 : forallb is_digit (rev d2) = true).
  { rewrite forallb_forall in *. intros a Ha. apply H2. now apply in_rev. }
  clear E H1 H2.
  assert (Hgen : rev d1 = rev d2 /\ c1 = c2 /\ rev x1 = rev x2).
  { revert Hrev Hd1 Hd2. generalize (rev d1) (rev d2) (rev x1) (rev x2).
    intros l1. induction l1 as [|a l1 IH]; intros l2 y1 y2; destruct l2 as [|b l2];
      cbn; intros E Hl1 Hl2.
    - injection E as -> ->. auto.
    - injection E as -> _. apply andb_true_iff in Hl2 as [Hb _]. congruence.
    - injection E as -> _. apply andb_true_iff in Hl1 as [Ha _]. congruence.
    - injection E as -> E. apply andb_true_iff in Hl1 as [_ Hl1].
      apply andb_true_iff in Hl2 as [_ Hl2].
      destruct (IH _ _ _ E Hl1 Hl2) as (-> & -> & ->). auto. }
  destruct Hgen as (Hd & Hc & Hx).
  apply (f_equal (@rev ascii)) in Hd, Hx. rewrite !rev_involutive in Hd, Hx. auto.
Qed.

Lemma ends_with_iff q s : ends_with q s = true <-> exists x, s = x ++ q.
Proof.
  unfold ends_with. split.
  - destruct (drop_prefix (rev q) (rev s)) as [r|] eqn:E; [|discriminate].
    intros _. apply drop_prefix_Some in E. exists (rev r).
    apply (f_equal (@rev ascii)) in E.
    now rewrite rev_involutive, rev_app_distr, rev_involutive in E.
  - intros (x & ->). rewrite rev_app_distr, drop_prefix_app. reflexivity.
Qed.

Lemma glob_match_iff p q t :
  glob_match p q t = true <-> exists x, chars t = chars p ++ x ++ chars q.
Proof.
  unfold glob_match. split.
  - destruct (drop_prefix (chars p) (chars t)) as [r|] eqn:E; [|discriminate].
    intros H. apply drop_prefix_Some in E. apply ends_with_iff in H as (x & ->).
    eauto.
  - intros (x & ->). rewrite drop_prefix_app. apply ends_with_iff. eauto.
Qed.

Lemma grep_semver_iff p t :
  grep_semver p t = true <-> exists r, chars t = chars p ++ r /\ semver_chars r = true.
Proof.
  unfold grep_semver. split.
  - destruct (drop_prefix (chars p) (chars t)) as [r|] eqn:E; [|discriminate].
    intros H. apply drop_prefix_Some in E. eauto.
  - intros (r & -> & H). now rewrite drop_prefix_app.
Qed.

(** The name of a rollback tag: the target, the marker, a decimal stamp. *)
Lemma chars_rollback_name t (stamp : N) :
  chars (t +:+ "-rollback-" +:+ pretty stamp)
  = (chars t ++ chars "-rollback") ++ "-"%char :: chars (pretty stamp).
Proof. rewrite !chars_append. cbn. now rewrite <- app_assoc. Qed.

(** A rollback name ends in a digit, so no [p*-suffix] glob whose suffix
    ends in a letter selects it. *)
Lemma rollback_name_not_glob p q c t (stamp : N) :
  is_digit c = false ->
  glob_match p (q +:+ String c "") (t +:+ "-rollback-" +:+ pretty stamp) = false.
Proof.
  intros Hc.
  destruct (glob_match p (q +:+ String c "") (t +:+ "-rollback-" +:+ pretty stamp))
    eqn:E; [|reflexivity].
  exfalso. apply glob_match_iff in E as (x & E).
  assert (E' : (chars t ++ chars "-rollback") ++ "-"%char :: chars (pretty stamp)
               = ((chars p ++ x) ++ chars q) ++ c :: []).
  { rewrite <- chars_rollback_name, E, chars_append.
    change (chars (String c "")) with [c]. now rewrite <- !app_assoc. }
  destruct (last_nondigit_unique _ _ _ _ _ _ E') as (_ & _ & Hd);
    try reflexivity; try assumption.
  - apply pretty_N_digits.
  - destruct (pretty_N_head stamp) as (a & r & Hr & _). rewrite Hr in Hd. discriminate.
Qed.

(** Nor does the production pattern, whose last non-digit is a dot. *)
Lemma rollback_name_not_semver p t (stamp : N) :
  grep_semver p (t +:+ "-rollback-" +:+ pretty stamp) = false.
Proof.
  destruct (grep_semver p (t +:+ "-rollback-" +:+ pretty stamp)) eqn:E; [|reflexivity].
  exfalso. apply grep_semver_iff in E as (r & E & Hr).
  apply semver_chars_iff in Hr as (d1 & d2 & d3 & H1 & H2 & H3 & ->).
  rewrite chars_rollback_name in E.
  assert (E' : (chars t ++ chars "-rollback") ++ "-"%char :: chars (pretty stamp)
               = (chars p ++ d1 ++ "."%char :: d2) ++ "."%char :: d3).
  { rewrite E. rewrite <- ?app_assoc, <- ?app_comm_cons, <- ?app_assoc.
    reflexivity. }
  destruct (last_nondigit_unique _ _ _ _ _ _ E') as (_ & Hc & _);
    try reflexivity.
  - apply pretty_N_digits.
  - apply H3.
  - discriminate.
Qed.

Lemma quiet_final_git {A} (m : Sh A) w : quiet m -> git (final (m w)) = git w.
Proof. intros Hm. destruct (Hm w) as (a & w' & -> & Hg & _). exact Hg. Qed.

Lemma rollback_tag_name_cases h environment version :
  (rollback_environment environment
   /\ Rollback.rollback_tag_name h environment version
      = version +:+ "-rollback-" +:+ pretty (unix_seconds h))
  \/ Rollback.rollback_tag_name h environment version = "".
Proof.
  unfold Rollback.rollback_tag_name, rollback_environment.
  destruct (streq environment "development" || streq environment "dev"
            || streq environment "staging" || streq environment "production"
            || streq environment "prod") eqn:E; [left|right; reflexivity].
  split; [|reflexivity].
  rewrite !orb_true_iff, !streq_true in E. cbn [In]. intuition auto.
Qed.

(** The local tags after [perform_rollback], however it ends: untouched, or
    extended by the rollback tag. *)
Lemma perform_rollback_local_tags h environment version w :
  local_tags (git (final (Rollback.perform_rollback h environment version w)))
  = local_tags (git w)
  \/ exists o,
      local_tags (git (final (Rollback.perform_rollback h environment version w)))
      = <[version +:+ "-rollback-" +:+ pretty (unix_seconds h) := o]>
          (local_tags (git w)).
Proof.
  unfold Rollback.perform_rollback.
  set (new_tag := Rollback.rollback_tag_name h environment version).
  sh_run.
  destruct (streq (default "" (git_rev_parse (git w) version)) "");
    [left; reflexivity|].
  unfold git_tag_a.
  destruct (rollback_tag_name_cases h environment version) as [[Henv Hname]|Hname];
    fold new_tag in Hname; rewrite Hname;
    [|left; reflexivity].
  destruct (String.eqb _ ""); [left; reflexivity|].
  destruct (negb false && _); [left; reflexivity|].
  right. eexists. sh_run.
  match goal with
  | |- context [git_push_tag false ?n ?g] =>
      destruct (git_push_tag false n g) as [g'|] eqn:Hpush
  end.
  - match goal with
    | |- local_tags (git (final (?m ?w0))) = _ =>
        assert (Hm : quiet m) by solve_quiet;
        rewrite (quiet_final_git m w0 Hm)
    end.
    sh_run. unfold git_push_tag in Hpush.
    cbn [local_tags remote_tags with_local_tags] in Hpush.
    rewrite lookup_insert_eq in Hpush.
    destruct (remote_tags (git w) !! _) as [o'|];
      [destruct (false || bool_decide _); [|discriminate]|];
      injection Hpush as <-; reflexivity.
  - reflexivity.
Qed.

(** ** Rollback tags and the version tracks *)

(** [get_latest_version] reads the repository through its tag names only:
    a new tag that none of its patterns selects does not change it. *)
Lemma get_latest_version_insert cfg env name o g :
  grep_semver (VERSION_PREFIX cfg) name = false ->
  glob_match (VERSION_PREFIX cfg) "-staging" name = false ->
  glob_match (VERSION_PREFIX cfg) "-dev" name = false ->
  Deploy.get_latest_version cfg env (with_local_tags (insert name o) g)
  = Deploy.get_latest_version cfg env g.
Proof.
  intros Hsemver Hstaging Hdev. unfold Deploy.get_latest_version, git_tag_l.
  rewrite !list_filter_filter.
  rewrite !filter_tag_names_insert; [reflexivity|..].
  - rewrite Hdev. exact id.
  - rewrite Hstaging. exact id.
  - rewrite Hsemver. intros [[] _].
Qed.

Lemma legacy_get_latest_version_insert cfg env name o g :
  grep_semver (VERSION_PREFIX cfg) name = false ->
  glob_match (VERSION_PREFIX cfg) ("-" +:+ env) name = false ->
  DeployLegacy.get_latest_version cfg env (with_local_tags (insert name o) g)
  = DeployLegacy.get_latest_version cfg env g.
Proof.
  intros Hsemver Hglob. unfold DeployLegacy.get_latest_version, git_tag_l.
  rewrite !list_filter_filter.
  rewrite !filter_tag_names_insert; [reflexivity|..].
  - rewrite Hglob. exact id.
  - rewrite Hsemver. intros [[] _].
Qed.

Lemma get_latest_version_local_tags cfg env g g' :
  local_tags g' = local_tags g ->
  Deploy.get_latest_version cfg env g' = Deploy.get_latest_version cfg env g.
Proof.
  intros E. unfold Deploy.get_latest_version, git_tag_l.
  now rewrite (git_tag_names_dom g' g) by now rewrite E.
Qed.

Lemma legacy_get_latest_version_local_tags cfg env g g' :
  local_tags g' = local_tags g ->
  DeployLegacy.get_latest_version cfg env g'
  = DeployLegacy.get_latest_version cfg env g.
Proof.
  intros E. unfold DeployLegacy.get_latest_version, git_tag_l.
  now rewrite (git_tag_names_dom g' g) by now rewrite E.
Qed.

Lemma with_local_tags_eq g g' name o :
  local_tags g' = <[name := o]> (local_tags g) ->
  local_tags g' = local_tags (with_local_tags (insert name o) g).
Proof. now intros ->. Qed.

(** C10.  The name [perform_rollback] synthesizes for a known environment
    is the target followed by [-rollback-] and a decimal stamp; neither the
    production pattern nor the [-dev] and [-staging] globs of
    [get_latest_version] select such a name.  Hence, however the rollback
    ends, [get_latest_version] returns for every environment what it
    returned before, in deploy.sh v3.0 and, for the environments it
    knows, in v2.0.0. *)
Theorem rollback_outside_version_tracks h cfg environment t w :
  let after := git (final (Rollback.perform_rollback h environment t w)) in
  (rollback_environment environment ->
   Rollback.rollback_tag_name h environment t
   = t +:+ "-rollback-" +:+ pretty (unix_seconds h)
   /\ grep_semver (VERSION_PREFIX cfg) (Rollback.rollback_tag_name h environment t)
      = false
   /\ glob_match (VERSION_PREFIX cfg) "-dev"
        (Rollback.rollback_tag_name h environment t) = false
   /\ glob_match (VERSION_PREFIX cfg) "-staging"
        (Rollback.rollback_tag_name h environment t) = false)
  /\ (forall env,
        Deploy.get_latest_version cfg env after
        = Deploy.get_latest_version cfg env (git w))
  /\ (forall env, In env ["dev"; "staging"; "production"] ->
        DeployLegacy.get_latest_version cfg env after
        = DeployLegacy.get_latest_version cfg env (git w)).
Proof.
  cbv zeta.
  assert (Hdev : forall p, glob_match p "-dev"
            (t +:+ "-rollback-" +:+ pretty (unix_seconds h)) = false).
  { intros p. apply (rollback_name_not_glob p "-de" "v"). reflexivity. }
  assert (Hstaging : forall p, glob_match p "-staging"
            (t +:+ "-rollback-" +:+ pretty (unix_seconds h)) = false).
  { intros p. apply (rollback_name_not_glob p "-stagin" "g"). reflexivity. }
  split; [|split].
  - intros Henv. rewrite (rollback_tag_name_known h environment t Henv).
    split; [reflexivity|]. split; [apply rollback_name_not_semver|].
    split; [apply Hdev | apply Hstaging].
  - intros env.
    destruct (perform_rollback_local_tags h environment t w) as [E|[o E]].
    + now apply get_latest_version_local_tags.
    + rewrite (get_latest_version_local_tags cfg env _ _
                 (with_local_tags_eq _ _ _ _ E)).
      apply get_latest_version_insert;
        [apply rollback_name_not_semver | apply Hstaging | apply Hdev].
  - intros env Henv.
    destruct (perform_rollback_local_tags h environment t w) as [E|[o E]].
    + now apply legacy_get_latest_version_local_tags.
    + rewrite (legacy_get_latest_version_local_tags cfg env _ _
                 (with_local_tags_eq _ _ _ _ E)).
      apply legacy_get_latest_version_insert; [apply rollback_name_not_semver|].
      cbn [In] in Henv. destruct Henv as [<-|[<-|[<-|[]]]].
      * apply Hdev.
      * apply Hstaging.
      * apply (rollback_name_not_glob _ "-productio" "n"). reflexivity.
Qed.

Lemma rollback_outside_version_tracks_witness :
  Rollback.rollback_tag_name sample_host "production" "v2.5.0"
  = "v2.5.0" +:+ "-rollback-" +:+ pretty (unix_seconds sample_host)
  /\ grep_semver "v" (Rollback.rollback_tag_name sample_host "production" "v2.5.0")
     = false
  /\ glob_match "v" "-dev"
       (Rollback.rollback_tag_name sample_host "production" "v2.5.0") = false
  /\ glob_match "v" "-staging"
       (Rollback.rollback_tag_name sample_host "production" "v2.5.0") = false.
Proof.
  apply (rollback_outside_version_tracks sample_host (default_config "orders")
           "production" "v2.5.0" (sample_world [])).
  unfold rollback_environment. cbn. tauto.
Defined.

(** ** Deploying a version: collisions and rebuilds *)

Lemma monitor_git h cfg tag w :
  git (final (Deploy.monitor_github_actions h cfg tag w)) = git w.
Proof.
  pose proof (monitor_outcome h cfg tag w) as Hout.
  destruct (Deploy.await_start h tag 10 0) as [run|].
  - destruct (streq _ "success"); destruct Hout as (w' & -> & Hg); exact Hg.
  - destruct Hout as (w' & -> & Hg & _). exact Hg.
Qed.

Lemma after_push_git h cfg tag env version w :
  git (final (Deploy.after_push h cfg tag env version w)) = git w.
Proof.
  unfold Deploy.after_push. sh_run.
  destruct (streq (MONITOR_DEPLOYMENT cfg) "true" && gh_installed h).
  - sh_run. now rewrite monitor_git.
  - sh_run. destruct (streq (DEPLOY_TYPE cfg) "kubernetes"); reflexivity.
Qed.

(** A rebuild re-points the tag, locally and on the remote, at HEAD. *)
Lemma deploy_rebuild_git depth h cfg version env message w :
  Deploy.deploy_tag cfg version env <> "" ->
  git (final (Deploy.deploy_version_at depth h cfg version env message "true" w))
  = with_pushed_tag (Deploy.deploy_tag cfg version env)
      {| tag_commit := HEAD (git w);
         tag_message := deploy_message cfg "Rebuild" " for " version env message |}
      (git w).
Proof.
  intros Hne. apply streq_false in Hne. unfold streq in Hne.
  assert (Hbody :
    git (final (Deploy.deploy_version_at 0 h cfg version env message "true" w))
    = with_pushed_tag (Deploy.deploy_tag cfg version env)
        {| tag_commit := HEAD (git w);
           tag_message := deploy_message cfg "Rebuild" " for " version env message |}
        (git w)).
  { cbn [Deploy.deploy_version_at].
    change (streq "true" "true") with true. cbv iota.
    set (tag := Deploy.deploy_tag cfg version env) in *.
    unfold git_tag_d, git_push_delete_tag, git_tag_a, git_push_tag.
    rewrite Hne. cbn [negb andb orb].
    destruct (local_tags (git w) !! tag) as [old|] eqn:Hl;
      destruct (remote_tags (git w) !! tag) as [old'|] eqn:Hr.
    all: (repeat progress (sh_run; rewrite ?Hl, ?Hr, ?lookup_insert_eq, ?lookup_delete_eq)).
    all: rewrite after_push_git; sh_run.
    all: apply git_ext; unfold with_pushed_tag, deploy_message; sh_run;
      rewrite ?insert_delete_eq; try reflexivity.
     }
  destruct depth; exact Hbody.
Qed.

(** ** What a script shows *)

Lemma extends_ret {A} (a : A) : extends (sh_ret a).
Proof. intros w Hc. split; [exact Hc|]. exists []. cbn. now rewrite app_nil_r. Qed.

Lemma extends_exit_with {A} c : extends (@exit_with A c).
Proof. intros w Hc. split; [exact Hc|]. exists []. cbn. now rewrite app_nil_r. Qed.

Lemma extends_echo line : extends (echo line).
Proof.
  intros w Hc. cbn. rewrite Hc. split; [reflexivity|]. now exists [line].
Qed.

Lemma extends_print_color line : extends (print_color line).
Proof. apply extends_echo. Qed.

Lemma extends_get_git : extends get_git.
Proof. intros w Hc. split; [exact Hc|]. exists []. cbn. now rewrite app_nil_r. Qed.

Lemma extends_git_do c cmd : extends (git_do c cmd).
Proof.
  intros w Hc. unfold git_do. destruct (cmd (git w)); cbn;
    (split; [exact Hc|]); exists []; now rewrite app_nil_r.
Qed.

Lemma extends_git_try cmd : extends (git_try cmd).
Proof.
  intros w Hc. unfold git_try. destruct (cmd (git w)); cbn;
    (split; [exact Hc|]); exists []; now rewrite app_nil_r.
Qed.

Lemma extends_read_reply prompt : extends (read_reply prompt).
Proof.
  intros w Hc. unfold read_reply. destruct (replies w); cbn.
  - split; [exact Hc|]. exists []. now rewrite app_nil_r.
  - split; [exact Hc|]. now exists [prompt].
Qed.

Lemma extends_bind {A B} (m : Sh A) (k : A -> Sh B) :
  extends m -> (forall a, extends (k a)) -> extends (sh_bind m k).
Proof.
  intros Hm Hk w Hc. destruct (Hm w Hc) as (Hc1 & s1 & Ht1).
  unfold sh_bind. destruct (m w) as [a w1|c w1]; cbn [final] in *.
  - destruct (Hk a w1 Hc1) as (Hc2 & s2 & Ht2).
    split; [exact Hc2|]. exists (s1 ++ s2). now rewrite Ht2, Ht1, app_assoc.
  - split; [exact Hc1|]. now exists s1.
Qed.

Lemma extends_echo_all lines : extends (echo_all lines).
Proof.
  induction lines as [|l lines IH]; cbn [echo_all].
  - apply extends_ret.
  - apply extends_bind; [apply extends_echo | intros _; exact IH].
Qed.

Create HintDb extends.
#[export] Hint Resolve extends_ret extends_exit_with extends_echo
  extends_print_color extends_get_git extends_git_do extends_git_try
  extends_read_reply extends_echo_all : extends.

Ltac extends_step :=
  match goal with
  | |- extends (sh_bind _ _) => apply extends_bind; [|intros ?]
  | |- extends (if ?b then _ else _) => destruct b
  | |- extends (match ?x with _ => _ end) => destruct x
  | |- extends _ => solve [auto with extends]
  end.

Ltac solve_extends := repeat extends_step.

Lemma extends_monitor h cfg tag : extends (Deploy.monitor_github_actions h cfg tag).
Proof. unfold Deploy.monitor_github_actions. solve_extends. Qed.

Lemma extends_after_push h cfg tag env version :
  extends (Deploy.after_push h cfg tag env version).
Proof.
  unfold Deploy.after_push. pose proof (extends_monitor h cfg tag).
  solve_extends; assumption.
Qed.

Lemma extends_tag_and_push h cfg tag env version message :
  extends (Deploy.tag_and_push h cfg tag env version message).
Proof.
  unfold Deploy.tag_and_push. pose proof (extends_after_push h cfg tag env version).
  solve_extends; assumption.
Qed.

Lemma extends_deploy_version_at depth h cfg version env message rebuild :
  extends (Deploy.deploy_version_at depth h cfg version env message rebuild).
Proof.
  revert message rebuild. induction depth as [|depth IH]; intros message rebuild;
    cbn [Deploy.deploy_version_at];
    pose proof (extends_after_push h cfg (Deploy.deploy_tag cfg version env)
                  env version);
    pose proof (fun m => extends_tag_and_push h cfg
                  (Deploy.deploy_tag cfg version env) env version m);
    solve_extends; auto.
Qed.

(** The repository after the normal branch has tagged and pushed: nothing
    happened (the tag exists), or the fresh tag was created locally and,
    unless the remote refused it, pushed.  No existing tag moves. *)
Lemma tag_and_push_git h cfg tag env version message w :
  let o := Deploy.tag_and_push h cfg tag env version message w in
  let obj := {| tag_commit := HEAD (git w); tag_message := message |} in
  (git (final o) = git w /\ exists c w', o = Exit c w' /\ c <> 0)
  \/ (local_tags (git w) !! tag = None
      /\ ((git (final o) = with_local_tags (insert tag obj) (git w)
           /\ exists c w', o = Exit c w' /\ c <> 0)
          \/ (git (final o) = with_pushed_tag tag obj (git w)
              /\ (remote_tags (git w) !! tag = None
                  \/ remote_tags (git w) !! tag = Some obj)))).
Proof.
  cbv zeta. unfold Deploy.tag_and_push. sh_run. unfold git_tag_a.
  destruct (String.eqb tag "");
    [left; split; [reflexivity|]; eexists _, _; split; [reflexivity|discriminate]|].
  cbn [negb andb].
  destruct (local_tags (git w) !! tag) as [old|] eqn:Hl.
  - rewrite bool_decide_eq_true_2 by eauto.
    left. split; [reflexivity|]. eexists _, _. split; [reflexivity|discriminate].
  - rewrite bool_decide_eq_false_2 by (apply is_Some_None).
    right. split; [reflexivity|]. sh_run. unfold git_push_tag. sh_run.
    rewrite lookup_insert_eq.
    destruct (remote_tags (git w) !! tag) as [old'|] eqn:Hr.
    + cbn [orb]. destruct (bool_decide _) eqn:Hd.
      * right. apply bool_decide_eq_true_1 in Hd. subst old'.
        rewrite after_push_git. sh_run. split; [reflexivity|]. now right.
      * left. split; [reflexivity|]. eexists _, _. split; [reflexivity|discriminate].
    + right. rewrite after_push_git. sh_run. split; [reflexivity|]. now left.
Qed.

Lemma lookup_with_pushed_tag_ne tag obj g name :
  name <> tag ->
  local_tags (with_pushed_tag tag obj g) !! name = local_tags g !! name
  /\ remote_tags (with_pushed_tag tag obj g) !! name = remote_tags g !! name.
Proof.
  intros Hne. unfold with_pushed_tag. sh_run.
  now rewrite !lookup_insert_ne by congruence.
Qed.

(** [tag_and_push] never moves a tag that exists. *)
Lemma tag_and_push_keeps h cfg tag env version message w name :
  let g' := git (final (Deploy.tag_and_push h cfg tag env version message w)) in
  (forall old, local_tags (git w) !! name = Some old ->
               local_tags g' !! name = Some old)
  /\ (forall old, remote_tags (git w) !! name = Some old ->
                  remote_tags g' !! name = Some old).
Proof.
  cbv zeta.
  destruct (tag_and_push_git h cfg tag env version message w)
    as [[-> _]|(Hfresh & [[-> _]|[-> Hremote]])]; sh_run.
  - auto.
  - split; [|auto]. intros old Hold.
    rewrite lookup_insert_ne; [exact Hold|]. congruence.
  - unfold with_pushed_tag. sh_run.
    destruct (decide (name = tag)) as [->|Hne].
    + split; intros old Hold; [congruence|].
      destruct Hremote as [Hr|Hr]; rewrite Hr in Hold; [discriminate|].
      injection Hold as <-. apply lookup_insert_eq.
    + now rewrite !lookup_insert_ne by congruence.
Qed.

Lemma deploy_message_nonempty cfg verb link version env message :
  verb <> "" -> streq (deploy_message cfg verb link version env message) "" = false.
Proof.
  intros Hverb. unfold deploy_message. destruct (streq message "") eqn:E; [|exact E].
  apply streq_false. destruct verb; [contradiction|discriminate].
Qed.

Lemma deploy_version_collision h cfg version env message w :
  is_Some (git_rev_parse (git w) (Deploy.deploy_tag cfg version env)) ->
  Deploy.deploy_version h cfg version env message "false" w
  = match replies w with
    | [] => Exit 1 (at_collision_menu (Deploy.deploy_tag cfg version env) w)
    | choice :: rest =>
        after_collision_menu h cfg version env
          (deploy_message cfg "Deploy" " to " version env message) choice
          (prompted "Enter your choice (1-3): " rest
             (at_collision_menu (Deploy.deploy_tag cfg version env) w))
    end.
Proof.
  intros [c Hc]. unfold Deploy.deploy_version. cbn [Deploy.deploy_version_at].
  change (streq "false" "true") with false. cbv iota.
  sh_run. rewrite Hc. cbn [Deploy.collision_menu echo_all]. sh_run.
  destruct (replies w); reflexivity.
Qed.

Lemma deploy_version_fresh h cfg version env message w :
  git_rev_parse (git w) (Deploy.deploy_tag cfg version env) = None ->
  Deploy.deploy_version h cfg version env message "false" w
  = Deploy.tag_and_push h cfg (Deploy.deploy_tag cfg version env) env version
      (deploy_message cfg "Deploy" " to " version env message)
      (put_line ("Creating deployment tag: " +:+ Deploy.deploy_tag cfg version env) w).
Proof.
  intros Hc. unfold Deploy.deploy_version. cbn [Deploy.deploy_version_at].
  change (streq "false" "true") with false. cbv iota.
  sh_run. now rewrite Hc.
Qed.

Lemma terminal_at_collision_menu tag w :
  captured w = None ->
  captured (at_collision_menu tag w) = None
  /\ terminal (at_collision_menu tag w)
     = terminal w ++ ("Creating deployment tag: " +:+ tag) :: Deploy.collision_menu tag.
Proof.
  intros Hc. unfold at_collision_menu, Deploy.collision_menu.
  cbn [put_line captured terminal]. rewrite !Hc. split; [reflexivity|].
  rewrite <- !app_assoc. reflexivity.
Qed.

Lemma extends_after_collision_menu h cfg version env message choice :
  extends (after_collision_menu h cfg version env message choice).
Proof.
  unfold after_collision_menu.
  pose proof (extends_deploy_version_at 0 h cfg version env message "true").
  pose proof (extends_tag_and_push h cfg (Deploy.deploy_tag cfg version env)
                env version message).
  solve_extends; assumption.
Qed.

(** The outcome of each answer to the collision menu when the tag exists. *)
Lemma after_collision_menu_git h cfg version env message choice w existing :
  Deploy.deploy_tag cfg version env <> "" ->
  streq message "" = false ->
  local_tags (git w) !! Deploy.deploy_tag cfg version env = Some existing ->
  let o := after_collision_menu h cfg version env message choice w in
  (choice = "1" ->
   git (final o)
   = with_pushed_tag (Deploy.deploy_tag cfg version env)
       {| tag_commit := HEAD (git w); tag_message := message |} (git w))
  /\ (choice = "2" -> exists w', o = Exit 0 w' /\ git w' = git w)
  /\ (choice = "3" -> exists w', o = Exit 1 w' /\ git w' = git w)
  /\ (choice <> "1" -> git (final o) = git w /\ exists c w', o = Exit c w').
Proof.
  intros Htag Hmsg Hl. cbv zeta. unfold after_collision_menu.
  split; [|split; [|split]].
  - intros ->. change (streq "1" "1") with true. cbv iota.
    rewrite deploy_rebuild_git by exact Htag.
    unfold deploy_message. now rewrite Hmsg.
  - intros ->. cbn. eauto.
  - intros ->. cbn. eauto.
  - intros Hne. apply streq_false in Hne. rewrite Hne.
    destruct (streq choice "2"); [cbn; eauto|].
    destruct (streq choice "3"); [cbn; eauto|].
    destruct (tag_and_push_git h cfg (Deploy.deploy_tag cfg version env) env
                version message w) as [[Hg (c & w' & Ho & _)]|[Hfresh _]].
    + split; [exact Hg|eauto].
    + congruence.
Qed.

(** Unless the operator answers 1, what follows the collision menu leaves
    every existing tag where it is. *)
Lemma after_collision_menu_keeps h cfg version env message choice w name :
  choice <> "1" ->
  let g' := git (final (after_collision_menu h cfg version env message choice w)) in
  (forall old, local_tags (git w) !! name = Some old ->
               local_tags g' !! name = Some old)
  /\ (forall old, remote_tags (git w) !! name = Some old ->
                  remote_tags g' !! name = Some old).
Proof.
  intros Hne. apply streq_false in Hne. cbv zeta. unfold after_collision_menu.
  rewrite Hne.
  destruct (streq choice "2"); [cbn; auto|].
  destruct (streq choice "3"); [cbn; auto|].
  apply tag_and_push_keeps.
Qed.



(** ** Rebuilding the latest deployment *)

Lemma get_latest_version_track cfg env g :
  Deploy.get_latest_version cfg env g
  = let latest_tag := tail_n_1 (sort_V (track cfg env g)) in
    if streq latest_tag "" then VERSION_PREFIX cfg +:+ "0.0.0" else latest_tag.
Proof.
  unfold Deploy.get_latest_version, track.
  destruct (streq env "production" || streq env "prod"); [reflexivity|].
  destruct (streq env "staging"); reflexivity.
Qed.

Lemma sort_V_insert_In x y l : In y (sort_V_insert x l) <-> y = x \/ In y l.
Proof.
  induction l as [|z l IH]; cbn [sort_V_insert].
  - cbn. intuition auto.
  - destruct (version_sort_le x z); cbn [In]; [intuition auto|].
    rewrite IH. intuition auto.
Qed.

Lemma sort_V_In y l : In y (sort_V l) <-> In y l.
Proof.
  induction l as [|x l IH]; cbn [sort_V foldr]; [reflexivity|].
  change (foldr sort_V_insert [] l) with (sort_V l).
  rewrite sort_V_insert_In, IH. cbn. intuition auto.
Qed.

Lemma last_In {A} (l : list A) d : l <> [] -> In (List.last l d) l.
Proof.
  induction l as [|a [|b l] IH]; [contradiction| |]; intros _.
  - now left.
  - right. apply IH. discriminate.
Qed.

Lemma sort_V_nonempty l : l <> [] -> sort_V l <> [].
Proof.
  destruct l as [|x l]; [contradiction|]. intros _ E.
  assert (In x (sort_V (x :: l))) as Hin by (apply sort_V_In; now left).
  rewrite E in Hin. contradiction.
Qed.

(** The latest tag of a non-empty track is one of its tags. *)
Lemma tail_sort_V_In l : l <> [] -> In (tail_n_1 (sort_V l)) l.
Proof.
  intros Hne. apply sort_V_In. unfold tail_n_1.
  apply last_In. now apply sort_V_nonempty.
Qed.

Lemma In_track cfg env g t :
  In t (track cfg env g) ->
  is_Some (local_tags g !! t)
  /\ if streq env "production" || streq env "prod"
     then grep_semver (VERSION_PREFIX cfg) t = true
     else if streq env "staging"
          then glob_match (VERSION_PREFIX cfg) "-staging" t = true
          else glob_match (VERSION_PREFIX cfg) "-dev" t = true.
Proof.
  unfold track, git_tag_l. intros Hin.
  destruct (streq env "production" || streq env "prod");
    [|destruct (streq env "staging")];
    apply list_elem_of_In in Hin;
    repeat (apply list_elem_of_filter in Hin as [? Hin]);
    (split; [now apply elem_of_git_tag_names|]);
    now apply Is_true_eq_true.
Qed.

Lemma cut_last_at c x y :
  has_char c y = false -> cut_last c (x ++ c :: y) = x.
Proof.
  intros Hy. induction x as [|a x IH]; cbn [app cut_last].
  - now rewrite Hy, Ascii.eqb_refl.
  - rewrite has_char_app. cbn [has_char]. rewrite Ascii.eqb_refl.
    rewrite orb_true_r. cbn [orb]. now rewrite IH.
Qed.

Lemma semver_no_dash r : semver_chars r = true -> has_char "-" r = false.
Proof.
  intros H. apply semver_chars_iff in H as (d1 & d2 & d3 & H1 & H2 & H3 & ->).
  rewrite has_char_app. cbn [has_char]. rewrite has_char_app. cbn [has_char].
  rewrite !has_char_digits; try reflexivity; [apply H3|apply H2|apply H1].
Qed.

Lemma str_append (a b : list ascii) : str (a ++ b) = str a +:+ str b.
Proof. apply chars_inj. now rewrite chars_append, !chars_str. Qed.

(** The version [main] extracts from a track tag renders back to that tag. *)
Lemma deploy_tag_of_track_tag cfg env t :
  (if streq env "production" || streq env "prod"
   then grep_semver (VERSION_PREFIX cfg) t = true
   else if streq env "staging"
        then glob_match (VERSION_PREFIX cfg) "-staging" t = true
        else glob_match (VERSION_PREFIX cfg) "-dev" t = true) ->
  Deploy.deploy_tag cfg (Deploy.version_of_tag cfg t) env = t.
Proof.
  unfold Deploy.deploy_tag, Deploy.version_of_tag, strip_prefix,
    remove_shortest_suffix.
  destruct (streq env "production" || streq env "prod") eqn:Hprod.
  - intros H. apply grep_semver_iff in H as (r & E & Hr).
    rewrite E, drop_prefix_app, chars_str.
    rewrite cut_last_absent by now apply semver_no_dash.
    assert (Hst : streq env "staging" = false).
    { apply orb_true_iff in Hprod as [H|H]; apply streq_true in H; now subst. }
    rewrite Hst.
    apply orb_true_iff in Hprod.
    replace (negb (streq env "production") && negb (streq env "prod")) with false
      by (destruct Hprod as [-> | ->]; [reflexivity|now rewrite andb_false_r]).
    apply chars_inj. now rewrite chars_append, chars_str.
  - apply orb_false_iff in Hprod as [Hp1 Hp2].
    destruct (streq env "staging") eqn:Hst; intros H;
      apply glob_match_iff in H as (x & E);
      rewrite E, drop_prefix_app, chars_str.
    + change (chars "-staging") with ("-"%char :: chars "staging").
      rewrite cut_last_at by reflexivity.
      apply chars_inj. rewrite !chars_append, chars_str, E.
      now rewrite <- app_assoc.
    + change (chars "-dev") with ("-"%char :: chars "dev").
      rewrite cut_last_at by reflexivity.
      rewrite Hp1, Hp2. cbn [negb andb].
      apply chars_inj. rewrite !chars_append, chars_str, E.
      now rewrite <- app_assoc.
Qed.

Lemma track_tag_nonempty cfg env t :
  (if streq env "production" || streq env "prod"
   then grep_semver (VERSION_PREFIX cfg) t = true
   else if streq env "staging"
        then glob_match (VERSION_PREFIX cfg) "-staging" t = true
        else glob_match (VERSION_PREFIX cfg) "-dev" t = true) ->
  t <> "".
Proof.
  intros H ->.
  destruct (streq env "production" || streq env "prod");
    [|destruct (streq env "staging")].
  - apply grep_semver_iff in H as (r & E & Hr).
    destruct (chars (VERSION_PREFIX cfg)); destruct r; try discriminate.
  - apply glob_match_iff in H as (x & E).
    destruct (chars (VERSION_PREFIX cfg)); destruct x; discriminate.
  - apply glob_match_iff in H as (x & E).
    destruct (chars (VERSION_PREFIX cfg)); destruct x; discriminate.
Qed.

Lemma get_latest_version_names cfg env g g' :
  git_tag_names g' = git_tag_names g ->
  Deploy.get_latest_version cfg env g' = Deploy.get_latest_version cfg env g.
Proof.
  intros E. unfold Deploy.get_latest_version, git_tag_l. now rewrite E.
Qed.



(** The staging scenario of the specification, run through [main]. *)
Example rebuild_staging_scenario :
  let o := Deploy.main sample_host (default_config "orders")
             ["staging"; "--rebuild"] (sample_world ["y"]) in
  Deploy.get_latest_version (default_config "orders") "staging" sample_git
  = "v2.0.0-staging"
  /\ exit_status o = 0
  /\ local_tags (git (final o)) !! "v2.0.0-staging"
     = Some {| tag_commit := "c31";
               tag_message := "Rebuild orders 2.0.0 for staging" |}
  /\ remote_tags (git (final o)) !! "v2.0.0-staging"
     = Some {| tag_commit := "c31";
               tag_message := "Rebuild orders 2.0.0 for staging" |}
  /\ dom (local_tags (git (final o))) = dom (local_tags sample_git)
  /\ Deploy.get_latest_version (default_config "orders") "staging" (git (final o))
     = "v2.0.0-staging".
Proof. cbv zeta. repeat split; vm_compute; reflexivity. Qed.

(** ** The production confirmation *)

Lemma keeps_git_ret {A} (a : A) : keeps_git (sh_ret a).
Proof. intros w b w' E. now inversion E. Qed.

Lemma keeps_git_exit_with {A} c : keeps_git (@exit_with A c).
Proof. intros w b w' E. discriminate E. Qed.

Lemma keeps_git_echo line : keeps_git (echo line).
Proof. intros w b w' E. now inversion E. Qed.

Lemma keeps_git_print_color line : keeps_git (print_color line).
Proof. apply keeps_git_echo. Qed.

Lemma keeps_git_get_git : keeps_git get_git.
Proof. intros w b w' E. now inversion E. Qed.

Lemma keeps_git_read_reply prompt : keeps_git (read_reply prompt).
Proof.
  intros w b w' E. unfold read_reply in E.
  destruct (replies w); [discriminate E | now inversion E].
Qed.

Lemma keeps_git_bind {A B} (m : Sh A) (k : A -> Sh B) :
  keeps_git m -> (forall a, keeps_git (k a)) -> keeps_git (sh_bind m k).
Proof.
  intros Hm Hk w b w' E. unfold sh_bind in E.
  destruct (m w) as [a w1|c w1] eqn:E1; [|discriminate E].
  rewrite (Hk a w1 b w' E). exact (Hm w a w1 E1).
Qed.

Lemma keeps_git_read_key prompt : keeps_git (read_key prompt).
Proof.
  unfold read_key. apply keeps_git_bind;
    [apply keeps_git_read_reply | intros a; apply keeps_git_ret].
Qed.

Lemma keeps_git_echo_all lines : keeps_git (echo_all lines).
Proof.
  induction lines as [|l lines IH]; cbn [echo_all].
  - apply keeps_git_ret.
  - apply keeps_git_bind; [apply keeps_git_echo | intros _; exact IH].
Qed.

(** Run the script text in the goal by rewriting, one command at a time. *)
Ltac sh_rewrite :=
  repeat (rewrite run_echo || rewrite run_print_color || rewrite run_ret
          || rewrite run_get_git || rewrite run_set_git
          || rewrite run_exit_with || rewrite run_read_reply
          || rewrite run_read_key || rewrite run_git_do || rewrite run_git_try);
  rewrite ?replies_put_line, ?git_put_line, ?replies_prompted, ?git_prompted,
    ?git_with_git, ?replies_with_git.

Create HintDb keeps_git.
#[export] Hint Resolve keeps_git_ret keeps_git_exit_with keeps_git_echo
  keeps_git_print_color keeps_git_get_git keeps_git_read_reply
  keeps_git_read_key keeps_git_echo_all : keeps_git.

Ltac keeps_git_step :=
  match goal with
  | |- keeps_git (sh_bind _ _) => apply keeps_git_bind; [|intros ?]
  | |- keeps_git (if ?b then _ else _) => destruct b
  | |- keeps_git (match ?x with _ => _ end) => destruct x
  | |- keeps_git _ => solve [auto with keeps_git]
  end.

Ltac solve_keeps_git := repeat keeps_git_step.

(** The rollback tool, once started from the deploy script, ends it. *)
Lemma exec_rollback_exits {A} h cfg argv hint w a w' :
  @Deploy.exec_rollback A h cfg argv hint w <> Done a w'.
Proof.
  unfold Deploy.exec_rollback. destruct (rollback_script_installed h).
  - unfold sh_bind. destruct (Rollback.main h cfg argv w); discriminate.
  - destruct hint; discriminate.
Qed.

Lemma keeps_git_exec_rollback {A} h cfg argv hint :
  keeps_git (@Deploy.exec_rollback A h cfg argv hint).
Proof. intros w a w' E. now apply exec_rollback_exits in E. Qed.

Lemma keeps_git_select_action h cfg : keeps_git (Deploy.select_action h cfg).
Proof.
  unfold Deploy.select_action.
  pose proof (@keeps_git_exec_rollback string h cfg [] false).
  solve_keeps_git; assumption.
Qed.

Lemma keeps_git_select_version cfg current :
  keeps_git (Deploy.select_version cfg current).
Proof. unfold Deploy.select_version. solve_keeps_git. Qed.

Lemma keeps_git_main_environment h cfg o :
  keeps_git (Deploy.main_environment h cfg o).
Proof.
  unfold Deploy.main_environment, Deploy.show_header.
  pose proof (keeps_git_select_action h cfg).
  solve_keeps_git; assumption.
Qed.

Lemma keeps_git_main_normalize cfg o environment :
  keeps_git (Deploy.main_normalize cfg o environment).
Proof. unfold Deploy.main_normalize. solve_keeps_git. Qed.

Lemma keeps_git_main_checks cfg environment :
  keeps_git (Deploy.main_checks cfg environment).
Proof. unfold Deploy.main_checks. solve_keeps_git. Qed.

Lemma keeps_git_main_version cfg o environment :
  keeps_git (Deploy.main_version cfg o environment).
Proof.
  unfold Deploy.main_version.
  pose proof (fun c => keeps_git_select_version cfg c).
  solve_keeps_git; auto.
Qed.

(** [main_fetch] goes on, with the fetched tags. *)
Lemma main_fetch_git h cfg w :
  exists w', Deploy.main_fetch h cfg w = Done tt w'
             /\ git w' = git_fetch_tags (git w).
Proof.
  unfold Deploy.main_fetch. sh_run.
  destruct (quiet_then
    (echo_all (map Deploy.label_recent_tag
       (firstn 5 (sort_version_refname_desc h
          (git_tag_l (VERSION_PREFIX cfg) "" (git_fetch_tags (git w)))))))
    (fun _ => echo "")
    (put_line "Recent deployment tags:"
       (with_git (fun _ => git_fetch_tags (git w))
          (put_line "Fetching latest tags..." w))))
    as (a & w1 & E & Hg & _); [apply quiet_echo_all|].
  rewrite E. destruct a. eexists. split; [reflexivity|]. exact Hg.
Qed.

(** When [main] reaches the confirmation, all it has done to the repository
    is [git fetch --tags]. *)
Lemma main_resolve_git h cfg o w p w1 :
  Deploy.main_resolve h cfg o w = Done p w1 ->
  git w1 = git_fetch_tags (git w).
Proof.
  unfold Deploy.main_resolve. intros E.
  unfold sh_bind at 1 in E.
  destruct (Deploy.main_environment h cfg o w) as [e wa|] eqn:Ea; [|discriminate E].
  apply keeps_git_main_environment in Ea.
  unfold sh_bind at 1 in E.
  destruct (Deploy.main_normalize cfg o e wa) as [[[e' i] m] wb|] eqn:Eb;
    [|discriminate E].
  apply keeps_git_main_normalize in Eb.
  unfold sh_bind at 1 in E.
  destruct (Deploy.main_checks cfg e' wb) as [[] wc|] eqn:Ec; [|discriminate E].
  apply keeps_git_main_checks in Ec.
  unfold sh_bind at 1 in E.
  destruct (main_fetch_git h cfg wc) as (wd & Ed & Hd). rewrite Ed in E.
  unfold sh_bind at 1 in E.
  destruct (Deploy.main_version cfg o e' wd) as [r we|] eqn:Ee; [|discriminate E].
  apply keeps_git_main_version in Ee.
  cbn in E. inversion E; subst. congruence.
Qed.

(** In production the tag to be created is the tag of the phrase. *)
Lemma deploy_tag_production cfg p :
  Deploy.is_production (Deploy.plan_environment p) = true ->
  Deploy.deploy_tag cfg (Deploy.plan_new_version p) (Deploy.plan_environment p)
  = Deploy.confirm_tag cfg p.
Proof.
  unfold Deploy.is_production, Deploy.deploy_tag, Deploy.confirm_tag.
  intros H. apply orb_true_iff in H.
  destruct (streq (Deploy.plan_environment p) "dev") eqn:E1.
  { apply streq_true in E1. rewrite E1 in H. now destruct H. }
  destruct (streq (Deploy.plan_environment p) "development") eqn:E2.
  { apply streq_true in E2. rewrite E2 in H. now destruct H. }
  destruct (streq (Deploy.plan_environment p) "staging") eqn:E3.
  { apply streq_true in E3. rewrite E3 in H. now destruct H. }
  destruct H as [H|H]; rewrite H; cbn [negb andb]; [|reflexivity].
  now rewrite andb_false_r.
Qed.

(** The confirmation of a production deployment ends the script, with
    status 1, on every reply but the phrase; nothing is done to the
    repository. *)
Lemma production_confirmation_refuses cfg p w :
  Deploy.is_production (Deploy.plan_environment p) = true ->
  hd_error (replies w) <> Some (Deploy.confirmation_phrase cfg p) ->
  exists w', Deploy.production_confirmation cfg p w = Exit 1 w'
             /\ git w' = git w.
Proof.
  intros Hprod Hreply. unfold Deploy.production_confirmation.
  rewrite Hprod. sh_rewrite.
  destruct (replies w) as [|r rest] eqn:Er.
  - eexists; split; reflexivity.
  - cbn [hd_error] in Hreply.
    destruct (streq r (Deploy.confirmation_phrase cfg p)) eqn:Eq.
    + apply streq_true in Eq. congruence.
    + cbn [negb]. sh_rewrite. eexists; split; reflexivity.
Qed.

Lemma main_execute_unconfirmed h cfg p w :
  Deploy.is_production (Deploy.plan_environment p) = true ->
  hd_error (replies w) <> Some (Deploy.confirmation_phrase cfg p) ->
  exists w', Deploy.main_execute h cfg p w = Exit 1 w' /\ git w' = git w.
Proof.
  intros Hprod Hreply.
  destruct (production_confirmation_refuses cfg p w Hprod Hreply) as (w' & E & Hg).
  exists w'. split; [|exact Hg].
  unfold Deploy.main_execute. now apply sh_bind_exit.
Qed.

(** With the phrase typed, the confirmation lets the script go on. *)
Lemma production_confirmation_accepts cfg p w rest :
  replies w = Deploy.confirmation_phrase cfg p :: rest ->
  exists w', Deploy.production_confirmation cfg p w = Done tt w'
             /\ git w' = git w /\ (replies w' = rest \/ replies w' = replies w).
Proof.
  intros Er. unfold Deploy.production_confirmation.
  destruct (Deploy.is_production (Deploy.plan_environment p)).
  - sh_rewrite. rewrite Er, streq_refl. cbn [negb].
    eexists; repeat split. now left.
  - eexists; repeat split. now right.
Qed.



(** The same deployment with the phrase typed in full goes through: the tag
    [v3.0.1] is created at HEAD and pushed. *)
Example production_confirmed_scenario :
  let o := Deploy.main sample_host (default_config "orders") ["prod"]
             (sample_world ["1"; "DEPLOY v3.0.1"; "y"]) in
  exit_status o = 0
  /\ local_tags (git (final o)) !! "v3.0.1"
     = Some (tagged "c31" "Deploy orders 3.0.1 to prod")
  /\ remote_tags (git (final o)) !! "v3.0.1"
     = Some (tagged "c31" "Deploy orders 3.0.1 to prod").
Proof. cbv zeta. repeat split; vm_compute; reflexivity. Qed.

(** The older script (v2.0.0) has the preview question only: [y] deploys to
    production. *)
Example legacy_production_scenario :
  let o := DeployLegacy.main sample_host (default_config "orders") ["production"]
             (sample_world ["y"]) in
  exit_status o = 0
  /\ remote_tags (git (final o)) !! "v3.0.1"
     = Some (tagged "c31" "Deploy orders 3.0.1 to production").
Proof. cbv zeta. split; vm_compute; reflexivity. Qed.

(** ** Explicit versions *)

(** A custom version typed at the menu is checked against
    [^[0-9]+\.[0-9]+\.[0-9]+$]: a string of another shape ends the script
    with status 1, the repository untouched. *)
Lemma custom_version_rejected cfg current v rest w :
  replies w = "4" :: v :: rest ->
  semver_chars (chars v) = false ->
  exists w', Deploy.select_version cfg current w = Exit 1 w' /\ git w' = git w.
Proof.
  intros Er Hv. unfold Deploy.select_version. sh_rewrite. rewrite Er.
  cbn [streq String.eqb Ascii.eqb Bool.eqb]. sh_rewrite. rewrite Hv. cbn [negb].
  sh_rewrite. eexists; split; reflexivity.
Qed.

Lemma custom_version_accepted cfg current v rest w :
  replies w = "4" :: v :: rest ->
  semver_chars (chars v) = true ->
  exists w', Deploy.select_version cfg current w = Done (v, false) w'
             /\ git w' = git w /\ replies w' = rest.
Proof.
  intros Er Hv. unfold Deploy.select_version. sh_rewrite. rewrite Er.
  cbn [streq String.eqb Ascii.eqb Bool.eqb]. sh_rewrite. rewrite Hv. cbn [negb].
  eexists; repeat split.
Qed.

(** A version given with [--version] is taken as it is, whatever its
    shape. *)
Lemma explicit_version_unchecked cfg o environment w :
  Deploy.rebuild_mode o = false ->
  Deploy.specific_version o <> "" ->
  exists w', Deploy.main_version cfg o environment w
             = Done (Deploy.specific_version o, false) w'
             /\ git w' = git w /\ replies w' = replies w.
Proof.
  intros Hr Hv. unfold Deploy.main_version. sh_rewrite. rewrite Hr.
  apply streq_false in Hv. rewrite Hv. cbn [negb]. sh_rewrite.
  eexists; repeat split.
Qed.

(** C6.  [deploy.sh dev --version foo], with [y] at the preview: [foo] does
    not match [^[0-9]+\.[0-9]+\.[0-9]+$], yet the script ends with status 0
    and has created and pushed the tag [vfoo-dev]; the same string typed as
    a custom version at the menu ends the script with status 1 and no tag. *)
Theorem explicit_version_not_validated :
  let cfg := default_config "orders" in
  let by_option :=
    Deploy.main sample_host cfg ["dev"; "--version"; "foo"] (sample_world ["y"]) in
  let by_menu :=
    Deploy.main sample_host cfg ["dev"] (sample_world ["4"; "foo"; "y"]) in
  semver_chars (chars "foo") = false
  /\ exit_status by_option = 0
  /\ local_tags (git (final by_option)) !! "vfoo-dev"
     = Some (tagged "c31" "Deploy orders foo to dev")
  /\ remote_tags (git (final by_option)) !! "vfoo-dev"
     = Some (tagged "c31" "Deploy orders foo to dev")
  /\ exit_status by_menu = 1
  /\ git (final by_menu) = git_fetch_tags sample_git
  /\ last (terminal (final by_menu)) = Some "Invalid version format. Must be X.Y.Z".
Proof. cbv zeta. repeat split; vm_compute; reflexivity. Qed.

(** The older script takes [--version foo] in the same way. *)
Example legacy_explicit_version_scenario :
  let o := DeployLegacy.main sample_host (default_config "orders")
             ["dev"; "--version"; "foo"] (sample_world ["y"]) in
  exit_status o = 0
  /\ remote_tags (git (final o)) !! "vfoo-dev"
     = Some (tagged "c31" "Deploy orders foo to dev").
Proof. cbv zeta. split; vm_compute; reflexivity. Qed.

(** ** Version sort on deployment tags

    On the tags of a track, [sort -V] orders by the version: the proof
    follows [verrevcmp] through the two kinds of step it makes on such
    names, a byte that is not a digit and a run of digits. *)

Lemma is_digit_bounds c :
  is_digit c = true <-> (48 <= N_of_ascii c <= 57)%N.
Proof.
  unfold is_digit. rewrite andb_true_iff, !N.leb_le. reflexivity.
Qed.

Lemma is_digit_not_alpha c : is_digit c = true -> is_alpha c = false.
Proof.
  intros H. apply is_digit_bounds in H. unfold is_alpha.
  apply orb_false_iff. split; apply andb_false_iff; left; apply N.leb_gt; lia.
Qed.

Lemma is_digit_not_tilde c : is_digit c = true -> is_tilde c = false.
Proof.
  intros H. apply is_digit_bounds in H. unfold is_tilde. apply N.eqb_neq. lia.
Qed.

Lemma is_digit_not_dot c : is_digit c = true -> is_dot c = false.
Proof.
  intros H. apply is_digit_bounds in H. unfold is_dot. apply N.eqb_neq. lia.
Qed.

Lemma digit_value_digit c :
  is_digit c = true ->
  (digit_value c <= 9)%N /\ Z.of_N (N_of_ascii c) = Z.of_N (digit_value c) + 48.
Proof.
  intros H. apply is_digit_bounds in H. unfold digit_value. lia.
Qed.

Lemma digit_value_nonzero c :
  is_digit c = true -> Ascii.eqb c "0" = false -> (1 <= digit_value c)%N.
Proof.
  intros H Hz. apply is_digit_bounds in H. unfold digit_value.
  destruct (N.eq_dec (N_of_ascii c) 48%N) as [E|E]; [|lia].
  apply (f_equal ascii_of_N) in E. rewrite ascii_N_embedding in E.
  subst c. discriminate Hz.
Qed.

Lemma digits_value_from d : digits_value 10 d = digits_from 0 d.
Proof. reflexivity. Qed.

Lemma digits_from_bounds d : forall a,
  forallb is_digit d = true ->
  (a * 10 ^ N.of_nat (length d) <= digits_from a d
   < (a + 1) * 10 ^ N.of_nat (length d))%N.
Proof.
  induction d as [|c d IH]; intros a Hd.
  - cbn. lia.
  - cbn [forallb] in Hd. apply andb_true_iff in Hd as [Hc Hd].
    destruct (digit_value_digit c Hc) as [H9 _].
    cbn [digits_from fold_left length].
    specialize (IH (10 * a + digit_value c)%N Hd). unfold digits_from in IH.
    rewrite Nat2N.inj_succ, N.pow_succ_r'.
    set (P := (10 ^ N.of_nat (length d))%N) in *.
    assert (0 < P)%N by (apply N.neq_0_lt_0, N.pow_nonzero; lia).
    nia.
Qed.

Lemma digits_from_lt d : forall e a b,
  length d = length e ->
  forallb is_digit d = true -> forallb is_digit e = true ->
  (a < b)%N -> (digits_from a d < digits_from b e)%N.
Proof.
  induction d as [|c d IH]; intros [|c' e] a b Hl Hd He Hab; try discriminate Hl.
  - exact Hab.
  - cbn [forallb] in Hd, He.
    apply andb_true_iff in Hd as [Hc Hd]. apply andb_true_iff in He as [Hc' He].
    destruct (digit_value_digit c Hc) as [H9 _].
    cbn [digits_from fold_left]. apply IH; auto. lia.
Qed.

Lemma first_diff_sticky d : forall e fd, fd <> 0 -> first_diff fd d e = fd.
Proof.
  induction d as [|c d IH]; intros [|c' e] fd Hfd; try reflexivity.
  cbn [first_diff]. apply Z.eqb_neq in Hfd as Hb. rewrite Hb. now apply IH.
Qed.

(** Over runs of the same length the first difference decides. *)
Lemma first_diff_sign d : forall e a,
  length d = length e ->
  forallb is_digit d = true -> forallb is_digit e = true ->
  match first_diff 0 d e ?= 0 with
  | Lt => (digits_from a d < digits_from a e)%N
  | Eq => digits_from a d = digits_from a e
  | Gt => (digits_from a e < digits_from a d)%N
  end.
Proof.
  induction d as [|c d IH]; intros [|c' e] a Hl Hd He; try discriminate Hl.
  - reflexivity.
  - cbn [forallb] in Hd, He.
    apply andb_true_iff in Hd as [Hc Hd]. apply andb_true_iff in He as [Hc' He].
    destruct (digit_value_digit c Hc) as [H9 Hv].
    destruct (digit_value_digit c' Hc') as [H9' Hv'].
    injection Hl as Hl.
    cbn [first_diff digits_from fold_left]. cbn [Z.eqb].
    destruct (Z.eq_dec (Z.of_N (N_of_ascii c) - Z.of_N (N_of_ascii c')) 0) as [E|E].
    + rewrite E. replace (digit_value c') with (digit_value c) by lia.
      apply IH; auto.
    + rewrite (first_diff_sticky d e _ E).
      destruct (Z.compare_spec (Z.of_N (N_of_ascii c) - Z.of_N (N_of_ascii c')) 0)
        as [H0|Hlt|Hgt]; [contradiction| |];
        apply digits_from_lt; auto; lia.
Qed.

Lemma drop_zeros_digits d :
  forallb is_digit d = true -> forallb is_digit (drop_zeros d) = true.
Proof.
  induction d as [|c d IH]; intros Hd; [reflexivity|].
  cbn [drop_zeros]. destruct (Ascii.eqb c "0"); [|exact Hd].
  cbn [forallb] in Hd. apply andb_true_iff in Hd as [_ Hd]. auto.
Qed.

Lemma drop_zeros_value d : digits_from 0 (drop_zeros d) = digits_from 0 d.
Proof.
  induction d as [|c d IH]; [reflexivity|].
  cbn [drop_zeros]. destruct (Ascii.eqb c "0") eqn:E; [|reflexivity].
  apply Ascii.eqb_eq in E. subst c. exact IH.
Qed.

Lemma drop_zeros_head d c r :
  drop_zeros d = c :: r -> Ascii.eqb c "0" = false.
Proof.
  induction d as [|c' d IH]; [discriminate|].
  cbn [drop_zeros]. destruct (Ascii.eqb c' "0") eqn:E; [exact IH|].
  intros H. injection H as -> _. exact E.
Qed.

Lemma drop_zeros_app d r :
  forallb is_digit d = true -> head_is is_digit r = false ->
  drop_zeros (d ++ r) = drop_zeros d ++ r.
Proof.
  intros Hd Hr. induction d as [|c d IH].
  - destruct r as [|c r]; [reflexivity|].
    cbn [app drop_zeros]. destruct (Ascii.eqb c "0") eqn:E; [|reflexivity].
    apply Ascii.eqb_eq in E. subst c. discriminate Hr.
  - cbn [forallb] in Hd. apply andb_true_iff in Hd as [_ Hd].
    cbn [app drop_zeros]. destruct (Ascii.eqb c "0"); [auto|reflexivity].
Qed.

(** A run without leading zeros that is longer is larger. *)
Lemma longer_run_larger d e :
  forallb is_digit d = true -> forallb is_digit e = true ->
  (forall c r, e = c :: r -> Ascii.eqb c "0" = false) ->
  (length d < length e)%nat ->
  (digits_from 0 d < digits_from 0 e)%N.
Proof.
  intros Hd He Hhead Hlen. destruct e as [|c e]; [cbn in Hlen; lia|].
  cbn [forallb] in He. apply andb_true_iff in He as [Hc He].
  pose proof (digit_value_nonzero c Hc (Hhead c e eq_refl)) as H1.
  pose proof (digits_from_bounds d 0 Hd) as [_ Hup].
  pose proof (digits_from_bounds e (digit_value c) He) as [Hlow _].
  cbn [digits_from fold_left]. unfold digits_from in *.
  rewrite N.mul_0_r, N.add_0_l.
  assert (10 ^ N.of_nat (length d) <= 10 ^ N.of_nat (length e))%N as Hpow.
  { apply N.pow_le_mono_r; [lia|]. cbn [length] in Hlen. lia. }
  nia.
Qed.

Lemma walk_digits_runs d : forall e fd ra rb,
  forallb is_digit d = true -> forallb is_digit e = true ->
  head_is is_digit ra = false -> head_is is_digit rb = false ->
  walk_digits fd (d ++ ra) (e ++ rb)
  = (first_diff fd d e, skipn (length e) d ++ ra, skipn (length d) e ++ rb).
Proof.
  induction d as [|c d IH]; intros e fd ra rb Hd He Hra Hrb.
  - cbn [app first_diff length]. rewrite skipn_nil, skipn_O.
    destruct ra as [|c1 ra]; [reflexivity|].
    cbn in Hra. cbn [app walk_digits].
    destruct (e ++ rb) as [|c2 s2]; [reflexivity|]. now rewrite Hra.
  - destruct e as [|c' e].
    + cbn [app first_diff length]. rewrite skipn_nil, skipn_O.
      cbn [app walk_digits].
      destruct rb as [|c2 rb]; [reflexivity|].
      cbn in Hrb. now rewrite Hrb, andb_false_r.
    + cbn [forallb] in Hd, He.
      apply andb_true_iff in Hd as [Hc Hd]. apply andb_true_iff in He as [Hc' He].
      cbn [app walk_digits first_diff length skipn]. rewrite Hc, Hc'. cbn [andb].
      now apply IH.
Qed.

Lemma head_is_digit_app d r :
  d <> [] -> forallb is_digit d = true -> head_is is_digit (d ++ r) = true.
Proof.
  destruct d as [|c d]; [contradiction|]. intros _ Hd.
  cbn [forallb] in Hd. apply andb_true_iff in Hd as [Hc _]. exact Hc.
Qed.

Lemma forallb_skipn {A} (p : A -> bool) n l :
  forallb p l = true -> forallb p (skipn n l) = true.
Proof.
  revert l. induction n as [|n IH]; intros [|x l] H; try exact H; try reflexivity.
  cbn [forallb] in H. apply andb_true_iff in H as [_ H]. cbn [skipn]. auto.
Qed.

Lemma skipn_nonempty {A} n (l : list A) : (n < length l)%nat -> skipn n l <> [].
Proof.
  intros H E. apply (f_equal (@length A)) in E. rewrite length_skipn in E.
  cbn in E. lia.
Qed.

(** [verrevcmp] over two runs of digits: the larger number wins, equal
    numbers leave the rest to decide. *)
Lemma verrevcmp_digits fuel d e ra rb :
  digit_run d -> digit_run e ->
  head_is is_digit ra = false -> head_is is_digit rb = false ->
  match (digits_value 10 d ?= digits_value 10 e)%N with
  | Lt => verrevcmp (S fuel) (d ++ ra) (e ++ rb) < 0
  | Eq => verrevcmp (S fuel) (d ++ ra) (e ++ rb) = verrevcmp fuel ra rb
  | Gt => 0 < verrevcmp (S fuel) (d ++ ra) (e ++ rb)
  end.
Proof.
  intros [Hdne Hd] [Hene He] Hra Hrb.
  pose proof (head_is_digit_app d ra Hdne Hd) as Hh1.
  pose proof (head_is_digit_app e rb Hene He) as Hh2.
  assert (verrevcmp (S fuel) (d ++ ra) (e ++ rb)
          = let '(fd, r1, r2) :=
              walk_digits 0 (drop_zeros (d ++ ra)) (drop_zeros (e ++ rb)) in
            if head_is is_digit r1 then 1
            else if head_is is_digit r2 then -1
            else if negb (fd =? 0) then fd
            else verrevcmp fuel r1 r2) as ->.
  { cbn [verrevcmp].
    destruct (d ++ ra) as [|c1 s1]; [discriminate Hh1|].
    destruct (e ++ rb) as [|c2 s2]; [discriminate Hh2|].
    cbn [head_is] in Hh1, Hh2 |- *. now rewrite Hh1, Hh2. }
  rewrite !drop_zeros_app by assumption.
  pose proof (drop_zeros_digits d Hd) as Hd'.
  pose proof (drop_zeros_digits e He) as He'.
  rewrite walk_digits_runs by assumption.
  rewrite !digits_value_from, <- (drop_zeros_value d), <- (drop_zeros_value e).
  pose proof (drop_zeros_head d) as Hzd. pose proof (drop_zeros_head e) as Hze.
  set (d' := drop_zeros d) in *. set (e' := drop_zeros e) in *.
  destruct (lt_eq_lt_dec (length d') (length e')) as [[Hlt|Heq]|Hgt].
  - rewrite (skipn_all2 d') by lia. cbn [app]. rewrite Hra.
    rewrite head_is_digit_app;
      [|apply skipn_nonempty; lia|now apply forallb_skipn].
    pose proof (longer_run_larger d' e' Hd' He' Hze Hlt) as Hv.
    apply N.compare_lt_iff in Hv. rewrite Hv. reflexivity.
  - rewrite (skipn_all2 d'), (skipn_all2 e') by lia. cbn [app]. rewrite Hra, Hrb.
    pose proof (first_diff_sign d' e' 0%N Heq Hd' He') as Hs.
    destruct (Z.compare_spec (first_diff 0 d' e') 0) as [H0|Hneg|Hpos].
    + rewrite H0, Hs, N.compare_refl. reflexivity.
    + apply N.compare_lt_iff in Hs. rewrite Hs.
      assert (first_diff 0 d' e' <> 0) as Hne by lia.
      apply Z.eqb_neq in Hne. rewrite Hne. cbn [negb]. exact Hneg.
    + apply N.compare_gt_iff in Hs. rewrite Hs.
      assert (first_diff 0 d' e' <> 0) as Hne by lia.
      apply Z.eqb_neq in Hne. rewrite Hne. cbn [negb]. exact Hpos.
  - rewrite head_is_digit_app;
      [|apply skipn_nonempty; lia|now apply forallb_skipn].
    pose proof (longer_run_larger e' d' He' Hd' Hzd Hgt) as Hv.
    apply N.compare_gt_iff in Hv. rewrite Hv. reflexivity.
Qed.

(** [verrevcmp] over the same byte, not a digit, on both sides. *)
Lemma verrevcmp_same_byte fuel c ra rb :
  is_digit c = false ->
  verrevcmp (S fuel) (c :: ra) (c :: rb) = verrevcmp fuel ra rb.
Proof.
  intros Hc. cbn [verrevcmp head_is tl]. rewrite Hc. cbn [negb orb].
  now rewrite Z.eqb_refl.
Qed.

Lemma walk_digits_same s :
  walk_digits 0 s s = (0, skip_digits s, skip_digits s).
Proof.
  induction s as [|c s IH]; [reflexivity|].
  cbn [walk_digits skip_digits]. destruct (is_digit c); [|reflexivity].
  cbn [andb Z.eqb]. now rewrite Z.sub_diag.
Qed.

Lemma skip_digits_head s : head_is is_digit (skip_digits s) = false.
Proof.
  induction s as [|c s IH]; [reflexivity|].
  cbn [skip_digits]. destruct (is_digit c) eqn:E; [exact IH|exact E].
Qed.

Lemma verrevcmp_refl fuel : forall s, verrevcmp fuel s s = 0.
Proof.
  induction fuel as [|fuel IH]; intros s; [reflexivity|].
  cbn [verrevcmp]. destruct s as [|c s]; [reflexivity|].
  cbn [head_is]. destruct (is_digit c) eqn:E; cbn [negb orb].
  - rewrite walk_digits_same, skip_digits_head. cbn [Z.eqb negb]. apply IH.
  - rewrite Z.eqb_refl. apply IH.
Qed.

Lemma skip_suffix_groups_free fuel s :
  suffix_free s = true -> skip_suffix_groups fuel s = s.
Proof.
  destruct fuel as [|fuel]; [reflexivity|].
  destruct s as [|d [|c r]]; try reflexivity.
  cbn [suffix_free skip_suffix_groups]. intros H.
  apply andb_true_iff in H as [H _]. apply negb_true_iff in H. now rewrite H.
Qed.

Lemma file_prefixlen_from_free s : forall fuel i prefixlen,
  suffix_free s = true -> (length s <= fuel)%nat ->
  file_prefixlen_from fuel i prefixlen s
  = match s with [] => prefixlen | _ => (i + length s)%nat end.
Proof.
  induction s as [|c s IH]; intros fuel i prefixlen Hs Hf.
  - destruct fuel; reflexivity.
  - destruct fuel as [|fuel]; [cbn in Hf; lia|].
    assert (suffix_free s = true) as Hs'.
    { cbn [suffix_free] in Hs. now apply andb_true_iff in Hs as [_ Hs]. }
    cbn [file_prefixlen_from]. rewrite (skip_suffix_groups_free _ s Hs').
    rewrite IH by (auto; cbn in Hf; lia).
    destruct s; cbn [length]; lia.
Qed.

Lemma file_prefixlen_free s : suffix_free s = true -> file_prefixlen s = length s.
Proof.
  intros Hs. unfold file_prefixlen. rewrite file_prefixlen_from_free by auto.
  now destruct s.
Qed.

Lemma suffix_free_cons c s :
  is_dot c = false -> suffix_free s = true -> suffix_free (c :: s) = true.
Proof.
  intros Hc Hs. cbn [suffix_free]. rewrite Hc, Hs. now destruct s.
Qed.

Lemma suffix_free_digits d s :
  forallb is_digit d = true -> suffix_free s = true -> suffix_free (d ++ s) = true.
Proof.
  intros Hd Hs. induction d as [|c d IH]; [exact Hs|].
  cbn [forallb] in Hd. apply andb_true_iff in Hd as [Hc Hd].
  cbn [app]. apply suffix_free_cons; [now apply is_digit_not_dot|auto].
Qed.

Lemma suffix_free_dot_digits d s :
  digit_run d -> suffix_free s = true -> suffix_free ("."%char :: d ++ s) = true.
Proof.
  intros [Hne Hd] Hs. pose proof (suffix_free_digits d s Hd Hs) as H.
  destruct d as [|c d]; [contradiction|].
  cbn [forallb] in Hd. apply andb_true_iff in Hd as [Hc _].
  cbn [app suffix_free] in H |- *. rewrite H.
  now rewrite (is_digit_not_alpha c Hc), (is_digit_not_tilde c Hc), andb_false_r.
Qed.

(** ** Decoding a tag *)

Lemma take_digits_run d r :
  forallb is_digit d = true -> head_is is_digit r = false ->
  take_digits (d ++ r) = d.
Proof.
  intros Hd Hr. induction d as [|c d IH].
  - destruct r as [|c r]; [reflexivity|]. cbn in Hr |- *. now rewrite Hr.
  - cbn [forallb] in Hd. apply andb_true_iff in Hd as [Hc Hd].
    cbn [app take_digits]. rewrite Hc. now rewrite IH.
Qed.

Lemma read_number_Some s n r :
  read_number s = Some (n, r) ->
  exists d, digit_run d /\ s = d ++ r /\ head_is is_digit r = false
            /\ n = digits_value 10 d.
Proof.
  unfold read_number. destruct (digits1 s) as [r'|] eqn:E; [|discriminate].
  intros [= <- ->]. destruct (digits1_Some _ _ E) as (d & Hd & -> & Hr).
  exists d. split; [exact Hd|]. split; [reflexivity|]. split; [exact Hr|].
  rewrite take_digits_run; [reflexivity|apply Hd|exact Hr].
Qed.

Lemma read_number_run d r :
  digit_run d -> head_is is_digit r = false ->
  read_number (d ++ r) = Some (digits_value 10 d, r).
Proof.
  intros Hd Hr. unfold read_number. rewrite (digits1_run d r Hd Hr).
  rewrite take_digits_run; [reflexivity|apply Hd|exact Hr].
Qed.

Lemma read_dot_Some s r : read_dot s = Some r -> s = "."%char :: r.
Proof.
  destruct s as [|c s]; [discriminate|]. cbn [read_dot].
  destruct (is_dot c) eqn:E; [|discriminate].
  intros [= ->]. now rewrite (is_dot_eq c E).
Qed.

Lemma tag_version_Some p q t v :
  tag_version p q t = Some v ->
  exists d1 d2 d3, digit_run d1 /\ digit_run d2 /\ digit_run d3
    /\ chars t = tag_chars p q d1 d2 d3 /\ v = version_of_runs d1 d2 d3.
Proof.
  unfold tag_version. intros H.
  destruct (drop_prefix (chars p) (chars t)) as [r0|] eqn:E0; [|discriminate H].
  cbn [mbind option_bind] in H.
  destruct (read_number r0) as [[a r1]|] eqn:E1; [|discriminate H].
  cbn [mbind option_bind] in H.
  destruct (read_dot r1) as [r1'|] eqn:F1; [|discriminate H].
  cbn [mbind option_bind] in H.
  destruct (read_number r1') as [[b r2]|] eqn:E2; [|discriminate H].
  cbn [mbind option_bind] in H.
  destruct (read_dot r2) as [r2'|] eqn:F2; [|discriminate H].
  cbn [mbind option_bind] in H.
  destruct (read_number r2') as [[c r3]|] eqn:E3; [|discriminate H].
  cbn [mbind option_bind] in H.
  destruct (String.eqb (str r3) q) eqn:Eq; [|discriminate H].
  injection H as <-.
  apply String.eqb_eq in Eq. subst q.
  apply drop_prefix_Some in E0.
  apply read_number_Some in E1 as (d1 & Hd1 & -> & _ & ->).
  apply read_dot_Some in F1 as ->.
  apply read_number_Some in E2 as (d2 & Hd2 & -> & _ & ->).
  apply read_dot_Some in F2 as ->.
  apply read_number_Some in E3 as (d3 & Hd3 & -> & _ & ->).
  exists d1, d2, d3. split; [exact Hd1|]. split; [exact Hd2|]. split; [exact Hd3|].
  split; [|reflexivity]. unfold tag_chars. now rewrite chars_str.
Qed.

Lemma tag_version_runs p q t d1 d2 d3 :
  digit_run d1 -> digit_run d2 -> digit_run d3 ->
  head_is is_digit (chars q) = false ->
  chars t = tag_chars p q d1 d2 d3 ->
  tag_version p q t = Some (version_of_runs d1 d2 d3).
Proof.
  intros Hd1 Hd2 Hd3 Hq Ht. unfold tag_version, tag_chars in *.
  rewrite Ht, drop_prefix_app. cbn [mbind option_bind].
  rewrite (read_number_run d1) by (assumption || reflexivity).
  cbn [mbind option_bind read_dot].
  change (is_dot ".") with true. cbv iota. cbn [mbind option_bind].
  rewrite (read_number_run d2) by (assumption || reflexivity).
  cbn [mbind option_bind read_dot].
  change (is_dot ".") with true. cbv iota. cbn [mbind option_bind].
  rewrite (read_number_run d3) by assumption.
  cbn [mbind option_bind]. now rewrite str_chars, String.eqb_refl.
Qed.

(** A tag decodes in one way. *)
Lemma tag_version_functional p q t v v' :
  tag_version p q t = Some v -> tag_version p q t = Some v' -> v = v'.
Proof. congruence. Qed.

(** ** The order of versions *)

Lemma version_le_iff a b :
  version_le a b <->
  (major a < major b
   \/ (major a = major b
       /\ (minor a < minor b \/ (minor a = minor b /\ patch a <= patch b))))%N.
Proof.
  unfold version_le, version_compare.
  destruct (N.compare_spec (major a) (major b));
    destruct (N.compare_spec (minor a) (minor b));
    destruct (N.compare_spec (patch a) (patch b));
    split; intros; try lia; try discriminate; try congruence.
Qed.

Lemma version_le_refl a : version_le a a.
Proof. apply version_le_iff. lia. Qed.

Lemma version_le_trans a b c : version_le a b -> version_le b c -> version_le a c.
Proof. rewrite !version_le_iff. lia. Qed.

Lemma version_compare_cases a b :
  match version_compare a b with
  | Lt => version_le a b
  | Eq => version_le a b /\ version_le b a
  | Gt => version_le b a
  end.
Proof.
  unfold version_compare.
  destruct (N.compare_spec (major a) (major b));
    destruct (N.compare_spec (minor a) (minor b));
    destruct (N.compare_spec (patch a) (patch b));
    try split; apply version_le_iff; lia.
Qed.

(** ** [sort -V] on the tags of a track *)

Lemma digit_run_length d : digit_run d -> (1 <= length d)%nat.
Proof. intros [Hne _]. destruct d; [contradiction|cbn; lia]. Qed.

Lemma verrevcmp_tags fuel q d1 d2 d3 e1 e2 e3 :
  digit_run d1 -> digit_run d2 -> digit_run d3 ->
  digit_run e1 -> digit_run e2 -> digit_run e3 ->
  head_is is_digit (chars q) = false ->
  match version_compare (version_of_runs d1 d2 d3) (version_of_runs e1 e2 e3) with
  | Lt => verrevcmp (6 + fuel) (tag_chars "v" q d1 d2 d3) (tag_chars "v" q e1 e2 e3) < 0
  | Eq => verrevcmp (6 + fuel) (tag_chars "v" q d1 d2 d3) (tag_chars "v" q e1 e2 e3) = 0
  | Gt => 0 < verrevcmp (6 + fuel) (tag_chars "v" q d1 d2 d3) (tag_chars "v" q e1 e2 e3)
  end.
Proof.
  intros Hd1 Hd2 Hd3 He1 He2 He3 Hq.
  unfold tag_chars, version_compare, version_of_runs. cbn [major minor patch].
  change (chars "v") with ["v"%char]. cbn [app].
  change (6 + fuel)%nat with (S (S (S (S (S (S fuel)))))).
  rewrite verrevcmp_same_byte by reflexivity.
  pose proof (verrevcmp_digits (S (S (S (S fuel)))) d1 e1
                ("."%char :: d2 ++ "."%char :: d3 ++ chars q)
                ("."%char :: e2 ++ "."%char :: e3 ++ chars q)
                Hd1 He1 eq_refl eq_refl) as H1.
  destruct (digits_value 10 d1 ?= digits_value 10 e1)%N; [|exact H1|exact H1].
  rewrite H1, verrevcmp_same_byte by reflexivity.
  pose proof (verrevcmp_digits (S (S fuel)) d2 e2
                ("."%char :: d3 ++ chars q) ("."%char :: e3 ++ chars q)
                Hd2 He2 eq_refl eq_refl) as H2.
  destruct (digits_value 10 d2 ?= digits_value 10 e2)%N; [|exact H2|exact H2].
  rewrite H2, verrevcmp_same_byte by reflexivity.
  pose proof (verrevcmp_digits fuel d3 e3 (chars q) (chars q) Hd3 He3 Hq Hq) as H3.
  destruct (digits_value 10 d3 ?= digits_value 10 e3)%N; [|exact H3|exact H3].
  rewrite H3. apply verrevcmp_refl.
Qed.

Lemma filevercmp_free a b :
  a <> [] -> b <> [] ->
  head_is is_dot a = false -> head_is is_dot b = false ->
  suffix_free a = true -> suffix_free b = true ->
  filevercmp a b = verrevcmp_on a b.
Proof.
  intros Ha Hb Hda Hdb Hfa Hfb.
  destruct a as [|ca ra]; [contradiction|]. destruct b as [|cb rb]; [contradiction|].
  cbn [head_is] in Hda, Hdb. unfold filevercmp. rewrite Hda, Hdb. cbv zeta.
  rewrite !file_prefixlen_free, !firstn_all by assumption.
  now destruct (negb (verrevcmp_on (ca :: ra) (cb :: rb) =? 0) || _).
Qed.

Lemma tag_chars_length p q d1 d2 d3 :
  length (tag_chars p q d1 d2 d3)
  = (length (chars p) + length d1 + length d2 + length d3 + length (chars q) + 2)%nat.
Proof. unfold tag_chars. rewrite ?length_app, ?length_cons, ?length_app. cbn [length]. rewrite ?length_app. cbn [length]. rewrite ?length_app. lia. Qed.

Lemma tag_chars_free q d1 d2 d3 :
  digit_run d1 -> digit_run d2 -> digit_run d3 ->
  suffix_free (chars q) = true ->
  suffix_free (tag_chars "v" q d1 d2 d3) = true.
Proof.
  intros Hd1 Hd2 Hd3 Hq. unfold tag_chars.
  change (chars "v") with ["v"%char]. cbn [app].
  apply suffix_free_cons; [reflexivity|].
  apply suffix_free_digits; [apply Hd1|].
  apply suffix_free_dot_digits; [exact Hd2|].
  apply suffix_free_dot_digits; [exact Hd3|]. exact Hq.
Qed.

(** [filevercmp] on two tags of a track compares their versions. *)
Lemma filevercmp_tags q d1 d2 d3 e1 e2 e3 :
  digit_run d1 -> digit_run d2 -> digit_run d3 ->
  digit_run e1 -> digit_run e2 -> digit_run e3 ->
  head_is is_digit (chars q) = false -> suffix_free (chars q) = true ->
  match version_compare (version_of_runs d1 d2 d3) (version_of_runs e1 e2 e3) with
  | Lt => filevercmp (tag_chars "v" q d1 d2 d3) (tag_chars "v" q e1 e2 e3) < 0
  | Eq => filevercmp (tag_chars "v" q d1 d2 d3) (tag_chars "v" q e1 e2 e3) = 0
  | Gt => 0 < filevercmp (tag_chars "v" q d1 d2 d3) (tag_chars "v" q e1 e2 e3)
  end.
Proof.
  intros Hd1 Hd2 Hd3 He1 He2 He3 Hq Hf.
  rewrite filevercmp_free;
    try (now apply tag_chars_free); try reflexivity; try discriminate.
  unfold verrevcmp_on. rewrite !tag_chars_length.
  pose proof (digit_run_length _ Hd1). pose proof (digit_run_length _ Hd2).
  pose proof (digit_run_length _ Hd3).
  match goal with
  | |- context [verrevcmp ?n _ _] =>
      replace n with (6 + (n - 6))%nat by (cbn [length chars]; lia)
  end.
  now apply verrevcmp_tags.
Qed.

(** The qualifiers of the three tracks. *)
Lemma track_suffix_shape env :
  head_is is_digit (chars (track_suffix env)) = false
  /\ suffix_free (chars (track_suffix env)) = true.
Proof.
  unfold track_suffix.
  destruct (streq env "production" || streq env "prod");
    [|destruct (streq env "staging")]; split; reflexivity.
Qed.

(** [sort -V] never puts a larger version before a smaller one. *)
Lemma version_sort_le_versions q x y vx vy :
  head_is is_digit (chars q) = false -> suffix_free (chars q) = true ->
  tag_version "v" q x = Some vx -> tag_version "v" q y = Some vy ->
  if version_sort_le x y then version_le vx vy else version_le vy vx.
Proof.
  intros Hq Hf Hx Hy.
  apply tag_version_Some in Hx as (d1 & d2 & d3 & Hd1 & Hd2 & Hd3 & Ex & ->).
  apply tag_version_Some in Hy as (e1 & e2 & e3 & He1 & He2 & He3 & Ey & ->).
  pose proof (filevercmp_tags q d1 d2 d3 e1 e2 e3 Hd1 Hd2 Hd3 He1 He2 He3 Hq Hf)
    as Hcmp.
  pose proof (version_compare_cases (version_of_runs d1 d2 d3)
                (version_of_runs e1 e2 e3)) as Hle.
  unfold version_sort_le. rewrite Ex, Ey.
  destruct (version_compare (version_of_runs d1 d2 d3) (version_of_runs e1 e2 e3)).
  - rewrite Hcmp. cbn. destruct Hle. now destruct (String.leb x y).
  - apply Z.ltb_lt in Hcmp. now rewrite Hcmp.
  - assert ((filevercmp (tag_chars "v" q d1 d2 d3) (tag_chars "v" q e1 e2 e3) <? 0)
            = false) as -> by (apply Z.ltb_ge; lia).
    apply Z.ltb_lt in Hcmp. now rewrite Hcmp.
Qed.

Section SortedByVersion.
Variable q : string.
Hypothesis q_head : head_is is_digit (chars q) = false.
Hypothesis q_free : suffix_free (chars q) = true.

Lemma version_sort_le_by_version x y :
  decodes q x -> decodes q y ->
  if version_sort_le x y then by_version q x y else by_version q y x.
Proof.
  intros [vx Hx] [vy Hy]. unfold by_version, tag_key. rewrite Hx, Hy.
  cbn [default from_option id]. now apply (version_sort_le_versions q).
Qed.

Lemma sort_V_insert_sorted x l :
  decodes q x -> Forall (decodes q) l ->
  StronglySorted (by_version q) l ->
  StronglySorted (by_version q) (sort_V_insert x l).
Proof.
  intros Hx Hl Hs. revert Hl. induction Hs as [|y l Hs IH Hy]; intros Hl.
  - cbn. repeat constructor.
  - apply Forall_cons_iff in Hl as [Hdy Hl]. cbn [sort_V_insert].
    pose proof (version_sort_le_by_version x y Hx Hdy) as Hxy.
    destruct (version_sort_le x y).
    + constructor; [constructor; assumption|].
      constructor; [exact Hxy|].
      eapply Forall_impl; [exact Hy|].
      intros z Hyz. exact (version_le_trans _ _ _ Hxy Hyz).
    + constructor; [now apply IH|].
      apply List.Forall_forall. intros z Hz. apply sort_V_insert_In in Hz as [->|Hz].
      * exact Hxy.
      * rewrite List.Forall_forall in Hy. now apply Hy.
Qed.

Lemma sort_V_sorted l :
  Forall (decodes q) l -> StronglySorted (by_version q) (sort_V l).
Proof.
  induction l as [|x l IH]; intros Hl; [constructor|].
  apply Forall_cons_iff in Hl as [Hx Hl]. cbn [sort_V foldr].
  apply sort_V_insert_sorted; [exact Hx| |apply IH; exact Hl].
  apply List.Forall_forall. intros z Hz. apply (proj1 (sort_V_In z l)) in Hz.
  rewrite List.Forall_forall in Hl. now apply Hl.
Qed.

Lemma sorted_last_greatest l d :
  StronglySorted (by_version q) l ->
  forall y, In y l -> by_version q y (List.last l d).
Proof.
  induction 1 as [|x l Hs IH Hx]; intros y Hy; [contradiction|].
  destruct l as [|x' l'].
  - destruct Hy as [->|[]]. apply version_le_refl.
  - change (List.last (x :: x' :: l') d) with (List.last (x' :: l') d).
    destruct Hy as [->|Hy]; [|now apply IH].
    rewrite List.Forall_forall in Hx. apply Hx, last_In. discriminate.
Qed.

(** The last line of [sort -V] carries the greatest version. *)
Lemma tail_sort_V_greatest l y :
  Forall (decodes q) l -> In y l -> by_version q y (tail_n_1 (sort_V l)).
Proof.
  intros Hl Hy. apply sorted_last_greatest; [now apply sort_V_sorted|].
  now apply sort_V_In.
Qed.
End SortedByVersion.

(** ** The latest version of a track *)

Lemma track_In cfg env g t :
  is_Some (local_tags g !! t) ->
  (if streq env "production" || streq env "prod"
   then grep_semver (VERSION_PREFIX cfg) t = true
   else if streq env "staging"
        then glob_match (VERSION_PREFIX cfg) "-staging" t = true
        else glob_match (VERSION_PREFIX cfg) "-dev" t = true) ->
  In t (track cfg env g).
Proof.
  unfold track, git_tag_l. intros Hin Hsel.
  apply elem_of_git_tag_names in Hin. apply list_elem_of_In.
  destruct (streq env "production" || streq env "prod");
    [|destruct (streq env "staging")].
  - apply list_elem_of_filter. split; [now apply Is_true_eq_left|].
    apply list_elem_of_filter. split; [|exact Hin].
    apply Is_true_eq_left, glob_match_iff.
    apply grep_semver_iff in Hsel as (r & E & _).
    exists r. now rewrite E, app_nil_r.
  - apply list_elem_of_filter. split; [now apply Is_true_eq_left|exact Hin].
  - apply list_elem_of_filter. split; [now apply Is_true_eq_left|exact Hin].
Qed.

(** A tag that decodes in the track of [env] is one [get_latest_version]
    selects for it. *)
Lemma tag_version_selected cfg env t v :
  VERSION_PREFIX cfg = "v" ->
  tag_version "v" (track_suffix env) t = Some v ->
  if streq env "production" || streq env "prod"
  then grep_semver (VERSION_PREFIX cfg) t = true
  else if streq env "staging"
       then glob_match (VERSION_PREFIX cfg) "-staging" t = true
       else glob_match (VERSION_PREFIX cfg) "-dev" t = true.
Proof.
  intros -> Hv.
  apply tag_version_Some in Hv as (d1 & d2 & d3 & Hd1 & Hd2 & Hd3 & E & _).
  unfold track_suffix, tag_chars in E.
  destruct (streq env "production" || streq env "prod");
    [|destruct (streq env "staging")].
  - apply grep_semver_iff. eexists. split; [exact E|].
    apply semver_chars_iff. exists d1, d2, d3. now rewrite app_nil_r.
  - apply glob_match_iff. exists (d1 ++ "."%char :: d2 ++ "."%char :: d3).
    rewrite E. now rewrite <- ?app_assoc, <- ?app_comm_cons, <- ?app_assoc.
  - apply glob_match_iff. exists (d1 ++ "."%char :: d2 ++ "."%char :: d3).
    rewrite E. now rewrite <- ?app_assoc, <- ?app_comm_cons, <- ?app_assoc.
Qed.

(** The tags the production pattern selects all decode. *)
Lemma production_track_decodes cfg env g t :
  VERSION_PREFIX cfg = "v" ->
  streq env "production" || streq env "prod" = true ->
  In t (track cfg env g) ->
  is_Some (tag_version "v" (track_suffix env) t).
Proof.
  intros Hp Henv Hin. apply In_track in Hin as [_ Hsel].
  unfold track_suffix. rewrite Henv in Hsel |- *. rewrite Hp in Hsel.
  apply grep_semver_iff in Hsel as (r & E & Hr).
  apply semver_chars_iff in Hr as (d1 & d2 & d3 & Hd1 & Hd2 & Hd3 & ->).
  exists (version_of_runs d1 d2 d3).
  apply tag_version_runs; try assumption; [reflexivity|].
  unfold tag_chars. now rewrite E, app_nil_r.
Qed.

Lemma digit_run_last d : digit_run d -> exists c, last d = Some c /\ is_digit c = true.
Proof.
  intros [Hne Hd]. destruct (exists_last Hne) as (d' & c & ->).
  exists c. rewrite last_snoc. split; [reflexivity|].
  rewrite forallb_app in Hd. apply andb_true_iff in Hd as [_ Hc].
  cbn in Hc. now rewrite andb_true_r in Hc.
Qed.

(** The last byte of a deployment tag tells its track. *)
Lemma deployment_tag_last q t :
  In q [""; "-staging"; "-dev"] -> is_Some (tag_version "v" q t) ->
  (q = "" /\ exists c, last (chars t) = Some c /\ is_digit c = true)
  \/ (q = "-staging" /\ last (chars t) = Some "g"%char)
  \/ (q = "-dev" /\ last (chars t) = Some "v"%char).
Proof.
  intros Hq [v Hv].
  apply tag_version_Some in Hv as (d1 & d2 & d3 & _ & _ & Hd3 & E & _).
  unfold tag_chars in E. rewrite E.
  destruct Hq as [<-|[<-|[<-|[]]]].
  - left. split; [reflexivity|]. destruct (digit_run_last d3 Hd3) as (c & Hc & Hdc).
    exists c. split; [|exact Hdc].
    rewrite app_nil_r.
    change ("."%char :: d2 ++ "."%char :: d3)
      with (["."%char] ++ d2 ++ ["."%char] ++ d3).
    rewrite !last_app. now rewrite Hc.
  - right; left. split; [reflexivity|].
    change ("."%char :: d2 ++ "."%char :: d3 ++ chars "-staging")
      with (["."%char] ++ d2 ++ ["."%char] ++ d3 ++ chars "-staging").
    now rewrite !last_app.
  - right; right. split; [reflexivity|].
    change ("."%char :: d2 ++ "."%char :: d3 ++ chars "-dev")
      with (["."%char] ++ d2 ++ ["."%char] ++ d3 ++ chars "-dev").
    now rewrite !last_app.
Qed.

(** In a repository whose tags all follow the grammar, every tag a track's
    pattern selects decodes as a tag of that track. *)
Lemma grammatical_track_decodes cfg env g :
  VERSION_PREFIX cfg = "v" ->
  (forall t, is_Some (local_tags g !! t) -> grammatical_tag t) ->
  forall t, In t (track cfg env g) ->
    is_Some (tag_version "v" (track_suffix env) t).
Proof.
  intros Hp Hgr t Hin.
  destruct (streq env "production" || streq env "prod") eqn:Eprod;
    [now apply (production_track_decodes cfg env g)|].
  pose proof (In_track _ _ _ _ Hin) as [Hdom Hsel]. rewrite Eprod, Hp in Hsel.
  unfold track_suffix. rewrite Eprod.
  assert (exists q c, (if streq env "staging" then "-staging" else "-dev") = q
                      /\ (q = "-staging" /\ c = "g"%char \/ q = "-dev" /\ c = "v"%char)
                      /\ last (chars t) = Some c) as (q & c & Eq & Hqc & Hlast).
  { destruct (streq env "staging"); apply glob_match_iff in Hsel as (x & E);
      eexists _, _; (split; [reflexivity|]); rewrite E, !last_app;
      (split; [|reflexivity]); auto. }
  rewrite Eq. clear Eq Hsel.
  destruct (Hgr t Hdom) as [(q' & Hq' & Hv)|(base & stamp & _ & Hstamp & E)].
  - destruct (deployment_tag_last q' t Hq' Hv)
      as [(-> & c' & Hc' & Hd)|[(-> & Hc')|(-> & Hc')]];
      rewrite Hlast in Hc'; injection Hc' as Hc';
      destruct Hqc as [[-> Hc]|[-> Hc]]; subst;
      try discriminate Hd; try congruence.
  - exfalso. destruct (digit_run_last stamp Hstamp) as (c' & Hc' & Hd).
    rewrite E, !last_app, Hc' in Hlast. injection Hlast as Hlast.
    destruct Hqc as [[_ Hc]|[_ Hc]]; subst; discriminate Hd.
Qed.



(** A name of another shape that the pattern of a track selects is sorted
    with the tags, and can come last. *)
Example latest_among_other_names :
  Deploy.get_latest_version (default_config "orders") "dev"
    (with_local_tags (insert "vfoo-dev" (tagged "c31" "")) sample_git)
  = "vfoo-dev".
Proof. vm_compute. reflexivity. Qed.

(** The older script selects the same tags for [production], [staging] and
    [dev]. *)
Lemma legacy_get_latest_version_same cfg env g :
  env = "production" \/ env = "staging" \/ env = "dev" ->
  DeployLegacy.get_latest_version cfg env g = Deploy.get_latest_version cfg env g.
Proof. intros [->|[->| ->]]; reflexivity. Qed.

(** * Further properties of the scripts *)

(** ** Commands that leave the repository alone *)

Lemma harmless_ret {A} (a : A) : harmless (sh_ret a).
Proof. intros w. split; reflexivity. Qed.

Lemma harmless_exit_with {A} c : harmless (@exit_with A c).
Proof. intros w. split; reflexivity. Qed.

Lemma harmless_echo line : harmless (echo line).
Proof. intros w. split; reflexivity. Qed.

Lemma harmless_print_color line : harmless (print_color line).
Proof. apply harmless_echo. Qed.

Lemma harmless_get_git : harmless get_git.
Proof. intros w. split; reflexivity. Qed.

Lemma harmless_get_package_version : harmless get_package_version.
Proof. intros w. split; reflexivity. Qed.

Lemma harmless_read_reply prompt : harmless (read_reply prompt).
Proof. intros w. unfold read_reply. destruct (replies w); split; reflexivity. Qed.

Lemma harmless_bind {A B} (m : Sh A) (k : A -> Sh B) :
  harmless m -> (forall a, harmless (k a)) -> harmless (sh_bind m k).
Proof.
  intros Hm Hk w. destruct (Hm w) as [Hg Hp]. unfold sh_bind.
  destruct (m w) as [a w1|c w1]; cbn [final] in *.
  - destruct (Hk a w1) as [Hg' Hp']. split; congruence.
  - split; assumption.
Qed.

Lemma harmless_read_key prompt : harmless (read_key prompt).
Proof.
  unfold read_key. apply harmless_bind;
    [apply harmless_read_reply | intros a; apply harmless_ret].
Qed.

Lemma harmless_echo_all lines : harmless (echo_all lines).
Proof.
  induction lines as [|l lines IH]; cbn [echo_all].
  - apply harmless_ret.
  - apply harmless_bind; [apply harmless_echo | intros _; exact IH].
Qed.

Lemma harmless_capture m : harmless m -> harmless (capture m).
Proof.
  intros Hm w. unfold capture. cbv zeta.
  destruct (Hm (with_captured (Some []) w)) as [Hg Hp].
  destruct (m (with_captured (Some []) w)) as [a w1|c w1]; cbn [final] in *.
  - split; assumption.
  - destruct c; cbn; split; assumption.
Qed.

(** A git command that fails changes nothing. *)
Lemma harmless_git_do_failing c cmd :
  (forall g, cmd g = None) -> harmless (git_do c cmd).
Proof. intros Hc w. unfold git_do. rewrite Hc. split; reflexivity. Qed.

Create HintDb harmless.
#[export] Hint Resolve harmless_ret harmless_exit_with harmless_echo
  harmless_print_color harmless_get_git harmless_get_package_version
  harmless_read_reply harmless_read_key harmless_echo_all : harmless.

Ltac harmless_step :=
  match goal with
  | |- harmless (sh_bind _ _) => apply harmless_bind; [|intros ?]
  | |- harmless (capture _) => apply harmless_capture
  | |- harmless (if ?b then _ else _) => destruct b
  | |- harmless (match ?x with _ => _ end) => destruct x
  | |- harmless _ => solve [auto with harmless]
  end.

Ltac solve_harmless := repeat harmless_step.

Lemma harmless_show_versions h g current versions : forall index,
  harmless (Rollback.show_versions h g current index versions).
Proof.
  induction versions as [|v versions IH]; intros index;
    cbn [Rollback.show_versions].
  - apply harmless_ret.
  - apply harmless_bind; [|intros _; apply IH].
    unfold Rollback.show_version. solve_harmless.
Qed.

Lemma harmless_select_version h cfg environment :
  harmless (Rollback.select_version h cfg environment).
Proof.
  unfold Rollback.select_version.
  apply harmless_bind; [apply harmless_get_git|intros g].
  destruct (Rollback.get_deployment_history h cfg environment g) as [|current rest];
    [solve_harmless|].
  pose proof (harmless_show_versions h g current (current :: rest) 1).
  solve_harmless; assumption.
Qed.

Lemma harmless_select_environment cfg : harmless (Rollback.select_environment cfg).
Proof. unfold Rollback.select_environment. solve_harmless. Qed.

Lemma harmless_confirm_rollback environment from_version to_version :
  harmless (Rollback.confirm_rollback environment from_version to_version).
Proof. unfold Rollback.confirm_rollback. solve_harmless. Qed.

Lemma harmless_show_rollback_history h : harmless (Rollback.show_rollback_history h).
Proof. unfold Rollback.show_rollback_history. solve_harmless. Qed.

Lemma harmless_rollback_show_header cfg : harmless (Rollback.show_header cfg).
Proof. unfold Rollback.show_header. solve_harmless. Qed.

(** A command that always ends the script makes what follows it
    irrelevant. *)
Lemma harmless_stop {A B} (m : Sh A) (k : A -> Sh B) :
  harmless m -> (forall w a w', m w <> Done a w') -> harmless (sh_bind m k).
Proof.
  intros Hm Hstop w. destruct (Hm w) as [Hg Hp]. unfold sh_bind.
  destruct (m w) as [a w1|c w1] eqn:E; [now apply Hstop in E|].
  split; assumption.
Qed.

(** With an environment [perform_rollback] does not know, the tag name is
    empty and [git tag -a] refuses it. *)
Lemma harmless_perform_rollback_unknown h environment version :
  ~ rollback_environment environment ->
  harmless (Rollback.perform_rollback h environment version).
Proof.
  intros Hunknown. unfold Rollback.perform_rollback.
  destruct (rollback_tag_name_cases h environment version) as [[Hk _]|Hname];
    [contradiction|].
  rewrite Hname.
  apply harmless_bind; [apply harmless_print_color|intros _].
  apply harmless_bind; [apply harmless_echo|intros _].
  apply harmless_bind; [apply harmless_get_git|intros g].
  apply harmless_bind; [apply harmless_print_color|intros _].
  assert (forall g', (if streq (default "" (git_rev_parse g version)) ""
                      then None
                      else git_tag_a false "" (default "" (git_rev_parse g version))
                             (Rollback.rollback_message h environment version) g')
                     = None) as Hfail
    by (intros g'; destruct (streq _ ""); reflexivity).
  apply harmless_stop.
  - apply harmless_git_do_failing. exact Hfail.
  - intros w a w'. unfold git_do. now rewrite Hfail.
Qed.

(** What [select_environment] prints is never the name of an
    environment. *)
Lemma select_environment_text cfg w e w' :
  capture (Rollback.select_environment cfg) w = Done e w' ->
  ~ rollback_environment e.
Proof.
  unfold capture, Rollback.select_environment, rollback_environment.
  intros H Hin.
  destruct (Rollback.has_staging_environment (SERVICE_NAME cfg));
    unfold sh_bind, print_color, echo, read_reply, exit_with, sh_ret in H;
    cbn -[String.append] in H;
    destruct (replies w) as [|choice rest]; cbn -[String.append] in H;
    try discriminate H;
    repeat match type of H with
           | context [streq ?a ?b] => destruct (streq a b); cbn -[String.append] in H
           end;
    injection H as <- _; cbn in Hin; intuition discriminate.
Qed.

Lemma harmless_main_guarded_unknown h cfg o environment :
  ~ rollback_environment environment ->
  harmless (Rollback.main_guarded h cfg o environment).
Proof.
  intros Hunknown. unfold Rollback.main_guarded.
  assert (streq environment "staging" = false) as ->.
  { apply streq_false. intros ->. apply Hunknown. cbn. tauto. }
  pose proof (harmless_select_version h cfg environment).
  pose proof (fun a b => harmless_confirm_rollback environment a b).
  pose proof (fun v => harmless_perform_rollback_unknown h environment v Hunknown)
    as Hperform.
  apply harmless_bind; [apply harmless_ret|intros _].
  apply harmless_bind; [apply harmless_print_color|intros _].
  apply harmless_bind; [apply harmless_echo|intros _].
  apply harmless_bind; [apply harmless_get_git|intros g].
  destruct (streq (hd "" _) ""); [solve_harmless|].
  apply harmless_bind; [solve_harmless; assumption|intros version].
  apply harmless_bind; [apply harmless_get_git|intros g'].
  destruct (git_rev_parse g' version); [|solve_harmless].
  apply harmless_bind; [solve_harmless; auto|intros _].
  apply harmless_bind; [apply Hperform|intros _].
  solve_harmless.
Qed.

(** With an environment word it does not know, or none, [main] is
    harmless. *)
Lemma harmless_rollback_main h cfg argv o :
  Rollback.parse_args argv Rollback.no_options = Rollback.Parsed_ok o ->
  ~ rollback_environment (Rollback.environment o) ->
  harmless (Rollback.main h cfg argv).
Proof.
  intros Hparse Hunknown.
  unfold Rollback.main. rewrite Hparse.
  apply harmless_bind; [apply harmless_rollback_show_header|intros _].
  destruct (Rollback.show_history o).
  { pose proof (harmless_show_rollback_history h). solve_harmless; assumption. }
  destruct (streq (Rollback.environment o) "") eqn:Eenv.
  - intros w.
    destruct (harmless_capture _ (harmless_select_environment cfg) w) as [Hg Hp].
    destruct (capture (Rollback.select_environment cfg) w) as [e w1|c w1] eqn:E;
      cbn [final] in Hg, Hp;
      [rewrite (sh_bind_done _ _ _ _ _ E)
      |rewrite (sh_bind_exit _ _ _ _ _ E); split; assumption].
    pose proof (select_environment_text cfg w e w1 E) as He.
    assert ((if streq e "dev" then "development"
             else if streq e "prod" then "production" else e) = e) as ->.
    { destruct (streq e "dev") eqn:E1;
        [apply streq_true in E1; subst; exfalso; apply He; cbn; tauto|].
      destruct (streq e "prod") eqn:E2;
        [apply streq_true in E2; subst; exfalso; apply He; cbn; tauto|].
      reflexivity. }
    destruct (harmless_main_guarded_unknown h cfg o e He w1) as [Hg' Hp'].
    split; congruence.
  - intros w. rewrite run_ret.
    destruct (streq (Rollback.environment o) "dev") eqn:E1;
      [apply streq_true in E1; exfalso; apply Hunknown; rewrite E1; cbn; tauto|].
    destruct (streq (Rollback.environment o) "prod") eqn:E2;
      [apply streq_true in E2; exfalso; apply Hunknown; rewrite E2; cbn; tauto|].
    now apply harmless_main_guarded_unknown.
Qed.



(** The run of the witness: the operator picks production at the menu, and
    the script ends with git's status for the refused tag name. *)
Example rollback_interactive_environment_scenario :
  exit_status (Rollback.main sample_host (default_config "orders")
                 ["--version"; "v2.5.0"; "--skip-confirm"] (sample_world ["2"]))
  = 128.
Proof. vm_compute. reflexivity. Qed.


(** ** What a command substitution captures *)

Lemma appends_ret {A} (a : A) : appends (sh_ret a).
Proof. intros w c Hc. exists []. cbn. now rewrite app_nil_r. Qed.

Lemma appends_exit_with {A} code : appends (@exit_with A code).
Proof. intros w c Hc. exists []. cbn. now rewrite app_nil_r. Qed.

Lemma appends_echo line : appends (echo line).
Proof. intros w c Hc. exists [line]. cbn. now rewrite Hc. Qed.

Lemma appends_print_color line : appends (print_color line).
Proof. apply appends_echo. Qed.

Lemma appends_get_git : appends get_git.
Proof. intros w c Hc. exists []. cbn. now rewrite app_nil_r. Qed.

Lemma appends_read_reply prompt : appends (read_reply prompt).
Proof.
  intros w c Hc. exists []. unfold read_reply.
  destruct (replies w); cbn; now rewrite app_nil_r.
Qed.

Lemma appends_bind {A B} (m : Sh A) (k : A -> Sh B) :
  appends m -> (forall a, appends (k a)) -> appends (sh_bind m k).
Proof.
  intros Hm Hk w c Hc. destruct (Hm w c Hc) as (more & H1). unfold sh_bind.
  destruct (m w) as [a w1|code w1]; cbn [final] in *.
  - destruct (Hk a w1 _ H1) as (more' & H2).
    exists (more ++ more'). now rewrite H2, app_assoc.
  - now exists more.
Qed.

Create HintDb appends.
#[export] Hint Resolve appends_ret appends_exit_with appends_echo
  appends_print_color appends_get_git appends_read_reply : appends.

Ltac appends_step :=
  match goal with
  | |- appends (sh_bind _ _) => apply appends_bind; [|intros ?]
  | |- appends (if ?b then _ else _) => destruct b
  | |- appends (match ?x with _ => _ end) => destruct x
  | |- appends _ => solve [auto with appends]
  end.

Ltac solve_appends := repeat appends_step.

Lemma appends_show_versions h g current versions : forall index,
  appends (Rollback.show_versions h g current index versions).
Proof.
  induction versions as [|v versions IH]; intros index;
    cbn [Rollback.show_versions].
  - apply appends_ret.
  - apply appends_bind; [|intros _; apply IH].
    unfold Rollback.show_version. solve_appends.
Qed.

Lemma has_char_concat c sep line more :
  has_char c (chars line) = true ->
  has_char c (chars (String.concat sep (line :: more))) = true.
Proof.
  intros H. destruct more as [|l more]; cbn [String.concat]; [exact H|].
  now rewrite chars_append, has_char_app, H.
Qed.

(** What [$(select_version …)] captures, when the substitution does not
    end the script, starts with the heading of the list: it holds a
    space. *)
Lemma select_version_text h cfg environment w text w' :
  capture (Rollback.select_version h cfg environment) w = Done text w' ->
  has_char " " (chars text) = true.
Proof.
  unfold capture, Rollback.select_version. cbv zeta.
  rewrite run_get_git.
  destruct (Rollback.get_deployment_history h cfg environment
              (git (with_captured (Some []) w))) as [|current rest];
    [discriminate|].
  rewrite run_print_color.
  match goal with
  | |- context [final (?m ?w0)] =>
      assert (appends m) as Happ;
        [pose proof (appends_show_versions h
                       (git (with_captured (Some []) w)) current
                       (current :: rest) 1);
         solve_appends; assumption|];
      destruct (Happ w0 ["Recent deployments for " +:+ environment +:+ ":"]
                  eq_refl) as (more & Hmore);
      rewrite Hmore; destruct (m w0) as [a w1|code w1]
  end.
  - intros [= <- _]. cbn [default from_option id app].
    apply has_char_concat. now rewrite chars_append.
  - destruct code; try discriminate.
    intros [= <- _]. cbn [default from_option id app].
    apply has_char_concat. now rewrite chars_append.
Qed.

(** Such a text names nothing in the repository. *)
Lemma git_rev_parse_with_space g text :
  ref_names_without_space g ->
  has_char " " (chars text) = true ->
  git_rev_parse g text = None.
Proof.
  intros Hnames Hsp. unfold git_rev_parse.
  destruct (local_tags g !! text) as [o|] eqn:Et.
  { rewrite (Hnames text) in Hsp by (left; eauto). discriminate. }
  destruct (String.eqb_spec text "HEAD") as [->|_]; [discriminate Hsp|].
  destruct (branches g !! text) as [b|] eqn:Eb; [|reflexivity].
  rewrite (Hnames text) in Hsp by (right; eauto). discriminate.
Qed.

(** Running a harmless command first. *)
Lemma harmless_first {A B} (m : Sh A) (k : A -> Sh B) w g p :
  harmless m ->
  git w = g -> package_version w = p ->
  (forall a w1, m w = Done a w1 ->
     git w1 = g -> package_version w1 = p ->
     git (final (k a w1)) = g /\ package_version (final (k a w1)) = p) ->
  git (final (sh_bind m k w)) = g
  /\ package_version (final (sh_bind m k w)) = p.
Proof.
  intros Hm Hg0 Hp0 Hk. destruct (Hm w) as [Hg Hp].
  destruct (m w) as [a w1|c w1] eqn:E; cbn [final] in Hg, Hp.
  - rewrite (sh_bind_done _ _ _ _ _ E). apply Hk; congruence.
  - rewrite (sh_bind_exit _ _ _ _ _ E). cbn [final]. split; congruence.
Qed.

Lemma main_guarded_without_version h cfg o environment w g p :
  Rollback.version o = "" ->
  ref_names_without_space g ->
  git w = g -> package_version w = p ->
  git (final (Rollback.main_guarded h cfg o environment w)) = g
  /\ package_version (final (Rollback.main_guarded h cfg o environment w)) = p.
Proof.
  intros Hversion Hnames Hg0 Hp0. unfold Rollback.main_guarded. rewrite Hversion.
  apply harmless_first; [solve_harmless|exact Hg0|exact Hp0|]. intros _ w1 _ Hg1 Hp1.
  apply harmless_first; [solve_harmless|exact Hg1|exact Hp1|]. intros _ w2 _ Hg2 Hp2.
  apply harmless_first; [solve_harmless|exact Hg2|exact Hp2|]. intros _ w3 _ Hg3 Hp3.
  rewrite run_get_git.
  destruct (streq (hd "" _) "").
  { cbn. split; assumption. }
  change (streq "" "") with true. cbv iota.
  apply harmless_first;
    [apply harmless_capture, harmless_select_version|exact Hg3|exact Hp3|].
  intros text w4 E Hg4 Hp4.
  apply select_version_text in E.
  rewrite run_get_git.
  rewrite git_rev_parse_with_space; [|rewrite Hg4; exact Hnames|exact E].
  cbn. split; assumption.
Qed.



(** The run of the witness: the operator picks the second entry, v2.5.0,
    and is told that a version whose name starts with the heading of the
    list does not exist. *)
Example rollback_interactive_version_scenario :
  let o := Rollback.main sample_host (default_config "orders")
             ["production"; "--skip-confirm"] (sample_world ["2"]) in
  exit_status o = 1
  /\ substring 0 42 (List.last (terminal (final o)) "")
     = "Version Recent deployments for production:".
Proof. cbv zeta. split; vm_compute; reflexivity. Qed.

(** ** Commands that ask nothing *)

Lemma asks_nothing_ret {A} (a : A) : asks_nothing (sh_ret a).
Proof. intros w. reflexivity. Qed.

Lemma asks_nothing_exit_with {A} c : asks_nothing (@exit_with A c).
Proof. intros w. reflexivity. Qed.

Lemma asks_nothing_echo line : asks_nothing (echo line).
Proof. intros w. reflexivity. Qed.

Lemma asks_nothing_print_color line : asks_nothing (print_color line).
Proof. apply asks_nothing_echo. Qed.

Lemma asks_nothing_get_git : asks_nothing get_git.
Proof. intros w. reflexivity. Qed.

Lemma asks_nothing_set_git g : asks_nothing (set_git g).
Proof. intros w. reflexivity. Qed.

Lemma asks_nothing_bind {A B} (m : Sh A) (k : A -> Sh B) :
  asks_nothing m -> (forall a, asks_nothing (k a)) -> asks_nothing (sh_bind m k).
Proof.
  intros Hm Hk w. specialize (Hm w). unfold sh_bind.
  destruct (m w) as [a w1|c w1]; cbn [final] in *; [|exact Hm].
  now rewrite Hk.
Qed.

Lemma asks_nothing_echo_all lines : asks_nothing (echo_all lines).
Proof.
  induction lines as [|l lines IH]; cbn [echo_all].
  - apply asks_nothing_ret.
  - apply asks_nothing_bind; [apply asks_nothing_echo | intros _; exact IH].
Qed.

Create HintDb asks_nothing.
#[export] Hint Resolve asks_nothing_ret asks_nothing_exit_with asks_nothing_echo
  asks_nothing_print_color asks_nothing_get_git asks_nothing_set_git
  asks_nothing_echo_all : asks_nothing.

Ltac asks_nothing_step :=
  match goal with
  | |- asks_nothing (sh_bind _ _) => apply asks_nothing_bind; [|intros ?]
  | |- asks_nothing (if ?b then _ else _) => destruct b
  | |- asks_nothing (match ?x with _ => _ end) => destruct x
  | |- asks_nothing _ => solve [auto with asks_nothing]
  end.

Ltac solve_asks_nothing := repeat asks_nothing_step.

(** Running first a harmless command that asks nothing. *)
Lemma silent_first {A B} (m : Sh A) (k : A -> Sh B) w g p r :
  harmless m -> asks_nothing m ->
  git w = g -> package_version w = p -> replies w = r ->
  (forall a w1, m w = Done a w1 ->
     git w1 = g -> package_version w1 = p -> replies w1 = r ->
     git (final (k a w1)) = g /\ package_version (final (k a w1)) = p) ->
  git (final (sh_bind m k w)) = g
  /\ package_version (final (sh_bind m k w)) = p.
Proof.
  intros Hm Hr Hg0 Hp0 Hr0 Hk. destruct (Hm w) as [Hg Hp]. specialize (Hr w).
  destruct (m w) as [a w1|c w1] eqn:E; cbn [final] in Hg, Hp, Hr.
  - rewrite (sh_bind_done _ _ _ _ _ E). apply Hk; congruence.
  - rewrite (sh_bind_exit _ _ _ _ _ E). cbn [final]. split; congruence.
Qed.

(** [confirm_rollback] lets the script go on for the reply [yes] only. *)
Lemma confirm_rollback_refuses environment from_version to_version w :
  hd_error (replies w) <> Some "yes" ->
  exists c w', Rollback.confirm_rollback environment from_version to_version w
               = Exit c w'
               /\ (c = 0 \/ c = 1) /\ git w' = git w
               /\ package_version w' = package_version w.
Proof.
  intros Hreply. unfold Rollback.confirm_rollback.
  repeat (rewrite run_echo || rewrite run_print_color).
  assert (forall w0, replies w0 = replies w ->
            exists c w',
              sh_bind (read_reply
                         "Are you sure you want to proceed? Type 'yes' to confirm: ")
                (fun confirm =>
                   if negb (streq confirm "yes")
                   then print_color "Rollback cancelled" >> exit_with 0
                   else sh_ret tt) w0 = Exit c w'
              /\ (c = 0 \/ c = 1) /\ git w' = git w0
              /\ package_version w' = package_version w0) as Hread.
  { intros w0 Hr. rewrite run_read_reply, Hr.
    destruct (replies w) as [|r rest]; [eexists _, _; repeat split; auto|].
    destruct (streq r "yes") eqn:Er.
    - apply streq_true in Er. subst r. now elim Hreply.
    - cbn [negb]. rewrite run_print_color. unfold exit_with.
      eexists _, _. repeat split; auto. }
  destruct (streq environment "production").
  - repeat (rewrite run_bind_assoc || rewrite run_echo || rewrite run_print_color).
    destruct (Hread (put_line ""
      (put_line ("   All changes since " +:+ to_version +:+ " will be reverted.")
       (put_line "THIS IS A PRODUCTION ROLLBACK!"
        (put_line ""
         (put_line ("Rollback to: " +:+ to_version)
          (put_line ("Current version: " +:+ from_version)
           (put_line ("Environment: " +:+ environment)
            (put_line "" (put_line "ROLLBACK CONFIRMATION" (put_line "" w))))))))))
      eq_refl) as (c & w' & E & Hc & Hg & Hp).
    exists c, w'. repeat split; assumption.
  - rewrite run_ret.
    destruct (Hread (put_line ""
         (put_line ("Rollback to: " +:+ to_version)
          (put_line ("Current version: " +:+ from_version)
           (put_line ("Environment: " +:+ environment)
            (put_line "" (put_line "ROLLBACK CONFIRMATION" (put_line "" w)))))))
      eq_refl) as (c & w' & E & Hc & Hg & Hp).
    exists c, w'. repeat split; assumption.
Qed.



(** With [yes] the same command line rolls production back: the marker is
    created at the commit of v2.5.0 and pushed. *)
Example rollback_confirmed_scenario :
  let o := Rollback.main sample_host (default_config "orders")
             ["production"; "--version"; "v2.5.0"] (sample_world ["yes"]) in
  exit_status o = 0
  /\ remote_tags (git (final o)) !! "v2.5.0-rollback-1724850000"
     = Some (tagged "c25" "Rollback to v2.5.0 on production by alice").
Proof. cbv zeta. split; vm_compute; reflexivity. Qed.

(** ** Dry runs and cancelled deployments *)

Lemma git_fetch_tags_idem g : git_fetch_tags (git_fetch_tags g) = git_fetch_tags g.
Proof.
  unfold git_fetch_tags, with_local_tags. cbn. f_equal.
  now rewrite <- (assoc_L (∪)), (idemp_L (∪)).
Qed.

Lemma fetch_only_harmless {A} (m : Sh A) : harmless m -> fetch_only m.
Proof. intros Hm w. destruct (Hm w). split; [now left|assumption]. Qed.

Lemma fetch_only_bind {A B} (m : Sh A) (k : A -> Sh B) :
  fetch_only m -> (forall a, fetch_only (k a)) -> fetch_only (sh_bind m k).
Proof.
  intros Hm Hk w. destruct (Hm w) as [Hg Hp]. unfold sh_bind.
  destruct (m w) as [a w1|c w1]; cbn [final] in *; [|split; assumption].
  destruct (Hk a w1) as [Hg' Hp']. split; [|congruence].
  destruct Hg as [Hg|Hg], Hg' as [Hg'|Hg']; rewrite Hg', Hg;
    rewrite ?git_fetch_tags_idem; auto.
Qed.

Lemma harmless_select_action_exit h cfg o :
  Deploy.environment o <> "" -> harmless (Deploy.main_environment h cfg o).
Proof.
  intros Henv. apply streq_false in Henv.
  unfold Deploy.main_environment, Deploy.show_header. rewrite Henv.
  solve_harmless.
Qed.

Lemma harmless_main_normalize cfg o environment :
  harmless (Deploy.main_normalize cfg o environment).
Proof. unfold Deploy.main_normalize. solve_harmless. Qed.

Lemma harmless_main_checks cfg environment :
  harmless (Deploy.main_checks cfg environment).
Proof. unfold Deploy.main_checks. solve_harmless. Qed.

Lemma fetch_only_main_fetch h cfg : fetch_only (Deploy.main_fetch h cfg).
Proof.
  intros w. destruct (main_fetch_git h cfg w) as (w' & E & Hg).
  rewrite E. cbn [final]. split; [now right|].
  unfold Deploy.main_fetch in E.
  repeat (rewrite run_print_color in E || rewrite run_get_git in E
          || rewrite run_set_git in E).
  match type of E with
  | sh_bind ?m ?k ?w0 = _ =>
      destruct (quiet_then m k w0 (quiet_echo_all _)) as (a & w1 & E1 & _ & _ & Hp);
      rewrite E1 in E
  end.
  injection E as <-. cbn in Hp |- *. exact Hp.
Qed.

Lemma harmless_deploy_select_version cfg current :
  harmless (Deploy.select_version cfg current).
Proof. unfold Deploy.select_version. solve_harmless. Qed.

Lemma harmless_main_version cfg o environment :
  harmless (Deploy.main_version cfg o environment).
Proof.
  unfold Deploy.main_version.
  pose proof (fun c => harmless_deploy_select_version cfg c).
  solve_harmless; auto.
Qed.

(** Up to the confirmation [main] only fetches, once it has its
    environment from the command line. *)
Lemma fetch_only_main_resolve h cfg o :
  Deploy.environment o <> "" -> fetch_only (Deploy.main_resolve h cfg o).
Proof.
  intros Henv. unfold Deploy.main_resolve.
  apply fetch_only_bind;
    [apply fetch_only_harmless, harmless_select_action_exit, Henv|intros e].
  apply fetch_only_bind;
    [apply fetch_only_harmless, harmless_main_normalize|intros [[e' i] m]].
  apply fetch_only_bind;
    [apply fetch_only_harmless, harmless_main_checks|intros _].
  apply fetch_only_bind; [apply fetch_only_main_fetch|intros _].
  apply fetch_only_bind;
    [apply fetch_only_harmless, harmless_main_version|intros r].
  apply fetch_only_harmless, harmless_ret.
Qed.

(** The plan carries the flags of the command line. *)
Lemma main_resolve_flags h cfg o w p w1 :
  Deploy.main_resolve h cfg o w = Done p w1 ->
  Deploy.plan_preview_mode p = Deploy.preview_mode o.
Proof.
  unfold Deploy.main_resolve. intros E.
  unfold sh_bind at 1 in E.
  destruct (Deploy.main_environment h cfg o w) as [e wa|]; [|discriminate E].
  unfold sh_bind at 1 in E.
  destruct (Deploy.main_normalize cfg o e wa) as [[[e' i] m] wb|]; [|discriminate E].
  unfold sh_bind at 1 in E.
  destruct (Deploy.main_checks cfg e' wb) as [[] wc|]; [|discriminate E].
  unfold sh_bind at 1 in E.
  destruct (Deploy.main_fetch h cfg wc) as [[] wd|]; [|discriminate E].
  unfold sh_bind at 1 in E.
  destruct (Deploy.main_version cfg o e' wd) as [r we|]; [|discriminate E].
  cbn in E. now inversion E.
Qed.

Lemma harmless_production_confirmation cfg p :
  harmless (Deploy.production_confirmation cfg p).
Proof. unfold Deploy.production_confirmation. solve_harmless. Qed.

(** In preview mode the preview ends the script. *)
Lemma preview_mode_ends cfg p w a w' :
  Deploy.plan_preview_mode p = true -> Deploy.preview cfg p w <> Done a w'.
Proof.
  intros Hp. unfold Deploy.preview. rewrite Hp. cbn [orb].
  repeat (rewrite run_echo || rewrite run_print_color || rewrite run_get_git).
  destruct (Deploy.plan_rebuild_mode p);
    repeat (rewrite run_echo || rewrite run_print_color || rewrite run_ret);
    discriminate.
Qed.

Lemma harmless_preview cfg p : harmless (Deploy.preview cfg p).
Proof. unfold Deploy.preview. solve_harmless. Qed.

Lemma harmless_main_execute_preview h cfg p :
  Deploy.plan_preview_mode p = true -> harmless (Deploy.main_execute h cfg p).
Proof.
  intros Hp. unfold Deploy.main_execute.
  apply harmless_bind; [apply harmless_production_confirmation|intros _].
  apply harmless_stop; [apply harmless_preview|].
  intros w a w'. now apply preview_mode_ends.
Qed.



(** The run of the witness: the minor bump is chosen, the preview shows the
    tag v2.1.0-staging and the script ends with status 0. *)
Example preview_scenario :
  let o := Deploy.main sample_host (default_config "orders")
             ["staging"; "--preview"] (sample_world ["2"]) in
  exit_status o = 0
  /\ existsb (streq "   Tag: v2.1.0-staging") (terminal (final o)) = true
  /\ List.last (terminal (final o)) "" = "Preview mode - no changes made".
Proof. cbv zeta. repeat split; vm_compute; reflexivity. Qed.

(** Running a quiet command first, towards an exit. *)
Lemma quiet_first_exit {A B} (m : Sh A) (k : A -> Sh B) w c g p r :
  quiet m ->
  git w = g -> package_version w = p -> replies w = r ->
  (forall a w1, git w1 = g -> package_version w1 = p -> replies w1 = r ->
     exists w', k a w1 = Exit c w' /\ git w' = g /\ package_version w' = p) ->
  exists w', sh_bind m k w = Exit c w' /\ git w' = g /\ package_version w' = p.
Proof.
  intros Hm Hg Hp Hr Hk.
  destruct (quiet_then m k w Hm) as (a & w1 & -> & Hg1 & Hr1 & Hp1).
  apply Hk; congruence.
Qed.

Lemma quiet_deploy_show_header cfg : quiet (Deploy.show_header cfg).
Proof. unfold Deploy.show_header. solve_quiet. Qed.

Lemma declines_read w :
  declines (replies w) ->
  match replies w with
  | [] => True
  | r :: _ => is_yes (substring 0 1 r) = false
  end.
Proof.
  unfold declines. intros H.
  destruct (replies w) as [|r rest]; [exact I|]. now apply H.
Qed.

(** The questions of [main_checks]: without [y] the script ends with
    status 1. *)
Lemma main_checks_refused cfg environment w :
  uncommitted (git w) <> []
  \/ (Deploy.is_production environment = true
      /\ existsb (fun branch => streq (current_branch (git w)) branch)
           (DEPLOY_BRANCHES cfg) = false) ->
  declines (replies w) ->
  exists w', Deploy.main_checks cfg environment w = Exit 1 w'
             /\ git w' = git w /\ package_version w' = package_version w.
Proof.
  intros Hwhy Hno. apply declines_read in Hno.
  unfold Deploy.main_checks. rewrite run_get_git.
  destruct (uncommitted (git w)) as [|file files] eqn:Eu.
  - destruct Hwhy as [Hu|[Hprod Hbranch]]; [now elim Hu|].
    rewrite run_ret, Hprod, Hbranch. cbn [negb].
    rewrite !run_print_color, run_read_key.
    cbn [replies put_line].
    destruct (replies w) as [|r rest]; [eexists; repeat split|].
    rewrite run_echo, Hno. cbn [negb]. rewrite run_print_color.
    eexists; repeat split.
  - rewrite !run_bind_assoc, run_print_color, run_bind_assoc.
    match goal with
    | |- context [sh_bind (echo_all ?l) ?k ?w0] =>
        destruct (quiet_then (echo_all l) k w0 (quiet_echo_all l))
          as ([] & w1 & -> & Hg1 & Hr1 & Hp1)
    end.
    cbn [git replies package_version put_line] in Hg1, Hr1, Hp1.
    rewrite !run_bind_assoc, run_echo, run_bind_assoc, run_read_key.
    cbn [replies put_line]. rewrite Hr1.
    destruct (replies w) as [|r rest]; [eexists; repeat split; assumption|].
    rewrite run_bind_assoc, run_echo, Hno. cbn [negb].
    rewrite run_bind_assoc, run_print_color.
    eexists; repeat split; assumption.
Qed.

Lemma effective_config_fields cfg o :
  ENABLE_HOTFIX (Deploy.effective_config cfg o) = ENABLE_HOTFIX cfg
  /\ DEPLOY_BRANCHES (Deploy.effective_config cfg o) = DEPLOY_BRANCHES cfg
  /\ VERSION_PREFIX (Deploy.effective_config cfg o) = VERSION_PREFIX cfg
  /\ ENABLE_PREVIEW (Deploy.effective_config cfg o) = ENABLE_PREVIEW cfg
  /\ SERVICE_NAME (Deploy.effective_config cfg o) = SERVICE_NAME cfg.
Proof. unfold Deploy.effective_config. destruct (Deploy.no_monitor o); auto. Qed.

(** What [main_normalize] hands on. *)
Lemma main_normalize_outcome cfg o environment w :
  (exists w', Deploy.main_normalize cfg o environment w = Exit 1 w'
              /\ git w' = git w /\ package_version w' = package_version w
              /\ (environment = "hotfix" /\ ENABLE_HOTFIX cfg <> "true"))
  \/ (exists e i m w',
        Deploy.main_normalize cfg o environment w = Done (e, i, m) w'
        /\ git w' = git w /\ package_version w' = package_version w
        /\ replies w' = replies w
        /\ (environment = "development" -> e = "dev")
        /\ (environment = "production" -> e = "prod")
        /\ (environment = "staging" -> e = "staging")
        /\ (environment = "hotfix" ->
            ENABLE_HOTFIX cfg = "true" /\ e = "production" /\ i = "patch"
            /\ m = if streq (Deploy.message o) "" then "Hotfix deployment"
                   else Deploy.message o)
        /\ (environment <> "hotfix" ->
            i = Deploy.increment_type o /\ m = Deploy.message o)).
Proof.
  unfold Deploy.main_normalize.
  destruct (streq environment "development") eqn:E1.
  { apply streq_true in E1. subst. right. cbn.
    eexists _, _, _, _. repeat split; try reflexivity; try discriminate. }
  destruct (streq environment "production") eqn:E2.
  { apply streq_true in E2. subst. right. cbn.
    eexists _, _, _, _. repeat split; try reflexivity; try discriminate. }
  destruct (streq environment "hotfix") eqn:E3.
  - apply streq_true in E3. subst.
    destruct (streq (ENABLE_HOTFIX cfg) "true") eqn:E4; cbn [negb].
    + right. apply streq_true in E4. cbn.
      eexists _, _, _, _. repeat split; try reflexivity; try discriminate;
        try assumption; intros; congruence.
    + left. apply streq_false in E4. cbn. eexists. repeat split; assumption.
  - right. apply streq_false in E1, E2, E3. cbn.
    eexists _, _, _, _. repeat split; try reflexivity; try congruence.
Qed.

Lemma main_resolve_refused h cfg o w :
  Deploy.environment o <> "" ->
  uncommitted (git w) <> []
  \/ (targets_production cfg o
      /\ existsb (fun branch => streq (current_branch (git w)) branch)
           (DEPLOY_BRANCHES cfg) = false) ->
  declines (replies w) ->
  exists w', Deploy.main_resolve h cfg o w = Exit 1 w'
             /\ git w' = git w /\ package_version w' = package_version w.
Proof.
  intros Henv Hwhy Hno. unfold Deploy.main_resolve, Deploy.main_environment.
  apply streq_false in Henv as Henv'. rewrite Henv'.
  rewrite !run_bind_assoc.
  apply (quiet_first_exit _ _ _ _ _ _ (replies w));
    [apply quiet_deploy_show_header|reflexivity|reflexivity|reflexivity|].
  intros _ w1 Hg1 Hp1 Hr1. rewrite run_ret.
  destruct (main_normalize_outcome cfg o (Deploy.environment o) w1)
    as [(w' & E & Hg & Hp & _)
       |(e & i & m & w2 & E & Hg2 & Hp2 & Hr2 & _ & He & _ & Hh & _)].
  { exists w'. rewrite (sh_bind_exit _ _ _ _ _ E). repeat split; congruence. }
  rewrite (sh_bind_done _ _ _ _ _ E). cbv beta iota.
  destruct (main_checks_refused cfg e w2) as (w' & E' & Hg' & Hp').
  - rewrite Hg2, Hg1.
    destruct Hwhy as [Hu|[[Hprod|[Hhot Hen]] Hbranch]]; [now left|right..];
      (split; [|exact Hbranch]).
    + now rewrite (He Hprod).
    + destruct (Hh Hhot) as (_ & -> & _). reflexivity.
  - intros r Hr. apply Hno. congruence.
  - exists w'. rewrite ?run_bind_assoc, (sh_bind_exit _ _ _ _ _ E').
    repeat split; congruence.
Qed.

(** X5.  The two warnings of [main] are gates.  With uncommitted changes
    in the working tree, or with a production deployment started from a
    branch that is not one of the deploy branches, any reply but [y] or
    [Y] ends the script with status 1 before it has fetched, committed,
    tagged or pushed anything. *)
Theorem deploy_warnings_are_gates h cfg argv o w :
  Deploy.parse_args argv Deploy.no_options = Deploy.Parsed_ok o ->
  Deploy.environment o <> "" ->
  uncommitted (git w) <> []
  \/ (targets_production cfg o
      /\ existsb (fun branch => streq (current_branch (git w)) branch)
           (DEPLOY_BRANCHES cfg) = false) ->
  declines (replies w) ->
  exists w', Deploy.main h cfg argv w = Exit 1 w'
             /\ git w' = git w /\ package_version w' = package_version w.
Proof.
  intros Hparse Henv Hwhy Hno. unfold Deploy.main. rewrite Hparse. cbv zeta.
  destruct (effective_config_fields cfg o) as (Hhot & Hbr & _).
  destruct (main_resolve_refused h (Deploy.effective_config cfg o) o w Henv)
    as (w' & E & Hg & Hp); [|exact Hno|].
  - rewrite Hbr. unfold targets_production in *. rewrite Hhot. exact Hwhy.
  - exists w'. rewrite (sh_bind_exit _ _ _ _ _ E). repeat split; assumption.
Qed.

Lemma deploy_warnings_are_gates_witness :
  exists w',
    Deploy.main sample_host
      {| SERVICE_NAME := "orders"; DEFAULT_BRANCH := "main";
         DEPLOY_BRANCHES := ["main"; "release"]; VERSION_PREFIX := "v";
         ENABLE_HOTFIX := "true"; ENABLE_PREVIEW := "true";
         MONITOR_DEPLOYMENT := "true"; DEPLOY_TYPE := "kubernetes";
         MAX_VERSIONS_TO_SHOW := 20 |}
      ["hotfix"] (sample_world ["n"]) = Exit 1 w'
    /\ git w' = git (sample_world ["n"])
    /\ package_version w' = package_version (sample_world ["n"]).
Proof.
  apply (deploy_warnings_are_gates sample_host _ ["hotfix"]
           (Deploy.set_environment "hotfix" Deploy.no_options)).
  - reflexivity.
  - discriminate.
  - right. split; [right; split; reflexivity|reflexivity].
  - intros r Hr. injection Hr as <-. reflexivity.
Defined.

(** ** What a command leaves of the repository and of package.json *)

Section Frames.

Context (R : relation Sources) `{!PreOrder R}.

Lemma always_harmless {A} (m : Sh A) : harmless m -> always R m.
Proof.
  intros Hm w. destruct (Hm w) as [Hg Hp]. unfold sources.
  rewrite Hg, Hp. reflexivity.
Qed.

Lemma always_bind {A B} (m : Sh A) (k : A -> Sh B) :
  always R m -> (forall a, always R (k a)) -> always R (sh_bind m k).
Proof.
  intros Hm Hk w. specialize (Hm w). unfold sh_bind.
  destruct (m w) as [a w1|c w1]; cbn [final] in *; [|exact Hm].
  etransitivity; [exact Hm|apply Hk].
Qed.

Lemma always_git_do code cmd :
  (forall g g' p, cmd g = Some g' -> R (g, p) (g', p)) ->
  always R (git_do code cmd).
Proof.
  intros Hc w. unfold git_do.
  destruct (cmd (git w)) as [g'|] eqn:E; cbn [final]; [|reflexivity].
  apply (Hc _ _ (package_version w) E).
Qed.

Lemma always_git_try cmd :
  (forall g g' p, cmd g = Some g' -> R (g, p) (g', p)) ->
  always R (git_try cmd).
Proof.
  intros Hc w. unfold git_try.
  destruct (cmd (git w)) as [g'|] eqn:E; cbn [final]; [|reflexivity].
  apply (Hc _ _ (package_version w) E).
Qed.

Lemma always_capture m : always R m -> always R (capture m).
Proof.
  intros Hm w. unfold capture. cbv zeta.
  specialize (Hm (with_captured (Some []) w)).
  destruct (m (with_captured (Some []) w)) as [a w1|c w1]; cbn [final] in *.
  - exact Hm.
  - destruct c; exact Hm.
Qed.

(** A command followed by one that never changes anything. *)
Lemma always_then_harmless {A B} (m : Sh A) (k : A -> Sh B) :
  always R m -> (forall a, harmless (k a)) -> always R (sh_bind m k).
Proof. intros Hm Hk. apply always_bind; [exact Hm|intros a; apply always_harmless, Hk]. Qed.

End Frames.

Lemma only_tags_preorder : PreOrder only_tags.
Proof.
  split.
  - intros s. unfold only_tags. tauto.
  - intros s1 s2 s3 H12 H23. unfold only_tags in *.
    destruct H12 as (? & ? & ? & ? & ? & ?), H23 as (? & ? & ? & ? & ? & ?).
    repeat split; congruence.
Qed.

#[local] Existing Instance only_tags_preorder.

Lemma tags_at_head_preorder : PreOrder tags_at_head.
Proof.
  split.
  - intros s. split; [reflexivity|]. intros name obj H. now left.
  - intros s1 s2 s3 [Hh12 H12] [Hh23 H23]. split; [congruence|].
    intros name obj H. destruct (H23 _ _ H) as [H2|H2].
    + apply H12, H2.
    + right. congruence.
Qed.

#[local] Existing Instance tags_at_head_preorder.

Create HintDb always.

Ltac always_step :=
  match goal with
  | |- always _ (sh_bind _ _) => apply (always_bind _); [|intros ?]
  | |- always _ (capture _) => apply (always_capture _)
  | |- always _ (if ?b then _ else _) => destruct b
  | |- always _ (match ?x with _ => _ end) => destruct x
  | |- always _ _ => solve [apply (always_harmless _); auto with harmless]
  | |- always _ _ => solve [auto with always]
  end.

Ltac solve_always := repeat always_step.

(** The tag commands of git touch tags only. *)
Lemma only_tags_tag_a force name commit message g g' p :
  git_tag_a force name commit message g = Some g' -> only_tags (g, p) (g', p).
Proof.
  unfold git_tag_a. intros E.
  destruct (String.eqb name ""); [discriminate E|].
  destruct (negb force && bool_decide (is_Some (local_tags g !! name)));
    [discriminate E|].
  injection E as E. subst g'. unfold only_tags. cbn. tauto.
Qed.

Lemma only_tags_tag_d name g g' p :
  git_tag_d name g = Some g' -> only_tags (g, p) (g', p).
Proof.
  unfold git_tag_d. intros E. destruct (local_tags g !! name); [|discriminate E].
  injection E as E. subst g'. unfold only_tags. cbn. tauto.
Qed.

Lemma only_tags_push_tag force name g g' p :
  git_push_tag force name g = Some g' -> only_tags (g, p) (g', p).
Proof.
  unfold git_push_tag. intros E.
  destruct (local_tags g !! name) as [o|]; [|discriminate E].
  destruct (remote_tags g !! name) as [o'|].
  - destruct (force || bool_decide (o = o')); [|discriminate E].
    injection E as E. subst g'. unfold only_tags. cbn. tauto.
  - injection E as E. subst g'. unfold only_tags. cbn. tauto.
Qed.

Lemma only_tags_push_delete_tag name g g' p :
  git_push_delete_tag name g = Some g' -> only_tags (g, p) (g', p).
Proof.
  unfold git_push_delete_tag. intros E.
  destruct (remote_tags g !! name); [|discriminate E].
  injection E as E. subst g'. unfold only_tags. cbn. tauto.
Qed.

Lemma only_tags_fetch_only {A} (m : Sh A) : fetch_only m -> always only_tags m.
Proof.
  intros Hm w. destruct (Hm w) as [[Hg|Hg] Hp]; unfold sources, only_tags;
    rewrite Hg, Hp; cbn; tauto.
Qed.

Lemma only_tags_perform_rollback h environment version :
  always only_tags (Rollback.perform_rollback h environment version).
Proof.
  unfold Rollback.perform_rollback.
  apply (always_bind _); [solve_always|intros ?]; cbv beta.
  apply (always_bind _); [solve_always|intros ?]; cbv beta.
  apply (always_bind _); [solve_always|intros g].
  apply (always_bind _); [solve_always|intros ?]; cbv beta.
  apply (always_bind _).
  { apply (always_git_do _). intros g0 g' p E.
    destruct (streq (default "" (git_rev_parse g version)) ""); [discriminate E|].
    eapply only_tags_tag_a, E. }
  intros ?; cbv beta.
  apply (always_bind _); [solve_always|intros ?]; cbv beta.
  apply (always_bind _).
  { apply (always_git_do _). intros g0 g' p. apply only_tags_push_tag. }
  intros ?; cbv beta. solve_always.
Qed.

Lemma only_tags_rollback_main_guarded h cfg o environment :
  always only_tags (Rollback.main_guarded h cfg o environment).
Proof.
  unfold Rollback.main_guarded.
  pose proof (only_tags_perform_rollback h).
  pose proof (harmless_select_version h cfg environment).
  pose proof (harmless_confirm_rollback environment).
  solve_always; auto using always_harmless, harmless_capture.
  all: try (apply (always_harmless _); [apply _|]; auto using harmless_capture).
Qed.

Lemma only_tags_rollback_main h cfg argv :
  always only_tags (Rollback.main h cfg argv).
Proof.
  unfold Rollback.main.
  apply (always_bind _);
    [apply (always_harmless _), harmless_rollback_show_header|intros ?].
  destruct (Rollback.parse_args argv Rollback.no_options) as [o| |];
    [|solve_always..].
  destruct (Rollback.show_history o).
  { pose proof (harmless_show_rollback_history h). solve_always. }
  apply (always_bind _); [|intros e; apply only_tags_rollback_main_guarded].
  destruct (streq (Rollback.environment o) ""); [|solve_always].
  apply (always_capture _), (always_harmless _), harmless_select_environment.
Qed.

(** X6.  rollback.sh works with tags alone.  Whatever its arguments, the
    replies and the state of the repository, when it ends the commit
    checked out, the branches here and on the remote, the working tree
    and package.json are what they were. *)
Theorem rollback_touches_tags_only h cfg argv w :
  let w' := final (Rollback.main h cfg argv w) in
  HEAD (git w') = HEAD (git w)
  /\ branches (git w') = branches (git w)
  /\ remote_branches (git w') = remote_branches (git w)
  /\ current_branch (git w') = current_branch (git w)
  /\ uncommitted (git w') = uncommitted (git w)
  /\ package_version w' = package_version w.
Proof. exact (only_tags_rollback_main h cfg argv w). Qed.

(** ** deploy.sh: what a deployment commits *)

Lemma only_tags_git_do_tag_a code force name commit message :
  always only_tags (git_do code (git_tag_a force name commit message)).
Proof. apply (always_git_do _). intros g g' p. apply only_tags_tag_a. Qed.

Lemma only_tags_git_do_push_tag code force name :
  always only_tags (git_do code (git_push_tag force name)).
Proof. apply (always_git_do _). intros g g' p. apply only_tags_push_tag. Qed.

Lemma only_tags_git_try_tag_d name :
  always only_tags (git_try (git_tag_d name)).
Proof. apply (always_git_try _). intros g g' p. apply only_tags_tag_d. Qed.

Lemma only_tags_git_try_push_delete_tag name :
  always only_tags (git_try (git_push_delete_tag name)).
Proof. apply (always_git_try _). intros g g' p. apply only_tags_push_delete_tag. Qed.

#[export] Hint Resolve only_tags_git_do_tag_a only_tags_git_do_push_tag
  only_tags_git_try_tag_d only_tags_git_try_push_delete_tag : always.

Lemma harmless_monitor h cfg tag :
  harmless (Deploy.monitor_github_actions h cfg tag).
Proof. unfold Deploy.monitor_github_actions. solve_harmless. Qed.

Lemma harmless_after_push h cfg tag env version :
  harmless (Deploy.after_push h cfg tag env version).
Proof.
  unfold Deploy.after_push. pose proof (harmless_monitor h cfg tag).
  solve_harmless; assumption.
Qed.

Lemma only_tags_tag_and_push h cfg tag env version message :
  always only_tags (Deploy.tag_and_push h cfg tag env version message).
Proof.
  unfold Deploy.tag_and_push. pose proof (harmless_after_push h cfg tag env version).
  solve_always.
Qed.

Lemma only_tags_deploy_version_at depth h cfg version env :
  forall message rebuild,
    always only_tags (Deploy.deploy_version_at depth h cfg version env message rebuild).
Proof.
  pose proof (harmless_after_push h cfg (Deploy.deploy_tag cfg version env) env version)
    as Hafter.
  induction depth as [|depth IH]; intros message rebuild;
    cbn [Deploy.deploy_version_at]; cbv zeta.
  - pose proof (only_tags_tag_and_push h cfg (Deploy.deploy_tag cfg version env)
                  env version) as Hpush.
    solve_always; auto; try (apply (always_harmless _); assumption).
  - pose proof (only_tags_tag_and_push h cfg (Deploy.deploy_tag cfg version env)
                  env version) as Hpush.
    solve_always; auto; try (apply (always_harmless _); assumption).
Qed.

Lemma fetched_preorder : PreOrder fetched.
Proof.
  split.
  - intros s. split; [now left|reflexivity].
  - intros s1 s2 s3 [H12 Hp12] [H23 Hp23]. split; [|congruence].
    destruct H12 as [H12|H12], H23 as [H23|H23]; rewrite H23, H12;
      rewrite ?git_fetch_tags_idem; auto.
Qed.

#[local] Existing Instance fetched_preorder.

Lemma only_tags_exec_rollback {A} h cfg argv hint :
  always only_tags (@Deploy.exec_rollback A h cfg argv hint).
Proof.
  unfold Deploy.exec_rollback. pose proof (only_tags_rollback_main h cfg argv).
  solve_always; auto.
Qed.

Lemma harmless_deploy_show_header cfg : harmless (Deploy.show_header cfg).
Proof. unfold Deploy.show_header. solve_harmless. Qed.

Lemma only_tags_main_environment h cfg o :
  always only_tags (Deploy.main_environment h cfg o).
Proof.
  unfold Deploy.main_environment, Deploy.select_action.
  pose proof (harmless_deploy_show_header cfg).
  pose proof (@only_tags_exec_rollback string h cfg [] false).
  solve_always; auto.
Qed.

Lemma only_tags_main_resolve h cfg o :
  always only_tags (Deploy.main_resolve h cfg o).
Proof.
  unfold Deploy.main_resolve.
  apply (always_bind _); [apply only_tags_main_environment|intros e].
  apply (always_bind _);
    [apply (always_harmless _), harmless_main_normalize|intros [[e' i] m]].
  apply (always_bind _);
    [apply (always_harmless _), harmless_main_checks|intros ?].
  apply (always_bind _);
    [apply only_tags_fetch_only, fetch_only_main_fetch|intros ?].
  apply (always_bind _);
    [apply (always_harmless _), harmless_main_version|intros r].
  apply (always_harmless _), harmless_ret.
Qed.

(** The plan of a run started with [--rebuild] is a rebuild. *)
Lemma main_resolve_rebuild h cfg o w p w1 :
  Deploy.rebuild_mode o = true ->
  Deploy.main_resolve h cfg o w = Done p w1 ->
  Deploy.plan_rebuild_mode p = true.
Proof.
  unfold Deploy.main_resolve. intros Hr E.
  unfold sh_bind at 1 in E.
  destruct (Deploy.main_environment h cfg o w) as [e wa|]; [|discriminate E].
  unfold sh_bind at 1 in E.
  destruct (Deploy.main_normalize cfg o e wa) as [[[e' i] m] wb|]; [|discriminate E].
  unfold sh_bind at 1 in E.
  destruct (Deploy.main_checks cfg e' wb) as [[] wc|]; [|discriminate E].
  unfold sh_bind at 1 in E.
  destruct (Deploy.main_fetch h cfg wc) as [[] wd|]; [|discriminate E].
  unfold sh_bind at 1 in E.
  unfold Deploy.main_version in E. rewrite run_get_git, Hr, run_print_color in E.
  cbn in E. now inversion E.
Qed.

(** The two things [bump_package_json] can do. *)
Lemma bump_package_json_outcome h p w :
  exists w', Deploy.bump_package_json h p w = Done tt w'
    /\ (sources w' = sources w
        \/ exists old message,
             Deploy.plan_rebuild_mode p = false
             /\ package_version w = Some old
             /\ old <> Deploy.plan_new_version p
             /\ package_version w' = Some (Deploy.plan_new_version p)
             /\ git w' = git_push_branch (git_commit h message (git w))).
Proof.
  unfold Deploy.bump_package_json, get_package_version. unfold sh_bind at 1.
  destruct (package_version w) as [old|] eqn:Ep; [|eexists; split; [reflexivity|now left]].
  destruct (Deploy.plan_rebuild_mode p) eqn:Er; cbn [negb andb];
    [eexists; split; [reflexivity|now left]|].
  destruct (streq old (Deploy.plan_new_version p)) eqn:Eo; cbn [negb];
    [eexists; split; [reflexivity|now left]|].
  apply streq_false in Eo.
  eexists; split; [reflexivity|right].
  eexists old, _. repeat split. exact Eo.
Qed.

Section AroundTheBump.

Context (R1 R2 : relation Sources) `{!PreOrder R1, !PreOrder R2}.

(** A run of [main] seen from the version bump: what comes before it is
    [main_resolve] and two questions, what comes after is [deploy_version]
    and lines on the terminal. *)
Lemma main_around_bump h cfg o w :
  always R1 (Deploy.main_resolve h cfg o) ->
  (forall p, always R2 (Deploy.deploy_version h cfg (Deploy.plan_new_version p)
                          (Deploy.plan_environment p) (Deploy.plan_message p)
                          (if Deploy.plan_rebuild_mode p then "true" else "false"))) ->
  let w' := final (sh_bind (Deploy.main_resolve h cfg o)
                     (Deploy.main_execute h cfg) w) in
  R1 (sources w) (sources w')
  \/ exists p w1 w2 w3,
       Deploy.main_resolve h cfg o w = Done p w1
       /\ R1 (sources w) (sources w2)
       /\ Deploy.bump_package_json h p w2 = Done tt w3
       /\ R2 (sources w3) (sources w').
Proof.
  intros Hresolve Hdeploy. cbv zeta. specialize (Hresolve w).
  destruct (Deploy.main_resolve h cfg o w) as [p w1|c w1] eqn:E;
    cbn [final] in Hresolve.
  2: { rewrite (sh_bind_exit _ _ _ _ _ E). now left. }
  rewrite (sh_bind_done _ _ _ _ _ E). unfold Deploy.main_execute.
  pose proof (harmless_production_confirmation cfg p w1) as [Hg1 Hp1].
  destruct (Deploy.production_confirmation cfg p w1) as [[] wa|c wa] eqn:Ea;
    cbn [final] in Hg1, Hp1.
  2: { rewrite (sh_bind_exit _ _ _ _ _ Ea). left. cbn [final].
       unfold sources in *. now rewrite Hg1, Hp1. }
  rewrite (sh_bind_done _ _ _ _ _ Ea).
  pose proof (harmless_preview cfg p wa) as [Hg2 Hp2].
  destruct (Deploy.preview cfg p wa) as [[] w2|c w2] eqn:Eb;
    cbn [final] in Hg2, Hp2.
  2: { rewrite (sh_bind_exit _ _ _ _ _ Eb). left. cbn [final].
       unfold sources in *. now rewrite Hg2, Hp2, Hg1, Hp1. }
  rewrite (sh_bind_done _ _ _ _ _ Eb).
  destruct (bump_package_json_outcome h p w2) as (w3 & Ec & _).
  rewrite (sh_bind_done _ _ _ _ _ Ec).
  right. exists p, w1, w2, w3. repeat split.
  - unfold sources in *. now rewrite Hg2, Hp2, Hg1, Hp1.
  - exact Ec.
  - match goal with
    | |- R2 _ (sources (final (?m w3))) => enough (always R2 m) as Hm by apply Hm
    end.
    apply (always_then_harmless _); [apply Hdeploy|intros ?].
    solve_harmless.
Qed.

End AroundTheBump.

Lemma main_parsed h cfg argv o w :
  Deploy.parse_args argv Deploy.no_options = Deploy.Parsed_ok o ->
  Deploy.main h cfg argv w
  = sh_bind (Deploy.main_resolve h (Deploy.effective_config cfg o) o)
      (Deploy.main_execute h (Deploy.effective_config cfg o)) w.
Proof. intros Hparse. unfold Deploy.main. rewrite Hparse. reflexivity. Qed.

Lemma only_tags_deploy_version h cfg version env message rebuild :
  always only_tags (Deploy.deploy_version h cfg version env message rebuild).
Proof. apply only_tags_deploy_version_at. Qed.

(** X7.  With [--rebuild], or in a repository without package.json, a
    run of deploy.sh touches tags only: the commit checked out, the
    branches here and on the remote, the working tree and package.json
    are left as they were. *)
Theorem rebuild_touches_tags_only h cfg argv o w :
  Deploy.parse_args argv Deploy.no_options = Deploy.Parsed_ok o ->
  Deploy.rebuild_mode o = true \/ package_version w = None ->
  let w' := final (Deploy.main h cfg argv w) in
  HEAD (git w') = HEAD (git w)
  /\ branches (git w') = branches (git w)
  /\ remote_branches (git w') = remote_branches (git w)
  /\ current_branch (git w') = current_branch (git w)
  /\ uncommitted (git w') = uncommitted (git w)
  /\ package_version w' = package_version w.
Proof.
  intros Hparse Hwhy. cbv zeta. rewrite (main_parsed _ _ _ _ _ Hparse).
  set (cfg' := Deploy.effective_config cfg o).
  pose proof (main_around_bump only_tags only_tags h cfg' o w
                (only_tags_main_resolve h cfg' o)
                (fun p => only_tags_deploy_version h cfg' _ _ _ _)) as H.
  cbv zeta in H.
  set (w' := final (sh_bind (Deploy.main_resolve h cfg' o)
                      (Deploy.main_execute h cfg') w)) in *.
  change (only_tags (sources w) (sources w')).
  destruct H as [H|(p & w1 & w2 & w3 & E & H12 & Eb & H3)]; [exact H|].
  enough (sources w3 = sources w2) as Hsame.
  { etransitivity; [exact H12|]. rewrite <- Hsame. exact H3. }
  destruct (bump_package_json_outcome h p w2) as (w3' & Eb' & Hb).
  rewrite Eb in Eb'. injection Eb' as <-.
  destruct Hb as [Hb|(old & message & Hr & Hold & _)]; [exact Hb|].
  destruct Hwhy as [Hrebuild|Hnone].
  - rewrite (main_resolve_rebuild _ _ _ _ _ _ Hrebuild E) in Hr. discriminate Hr.
  - destruct H12 as (_ & _ & _ & _ & _ & Hp). cbn in Hp. congruence.
Qed.

Lemma rebuild_touches_tags_only_witness :
  let w' := final (Deploy.main sample_host (default_config "orders")
                     ["staging"; "--rebuild"] (sample_world ["y"])) in
  HEAD (git w') = HEAD (git (sample_world ["y"]))
  /\ branches (git w') = branches (git (sample_world ["y"]))
  /\ remote_branches (git w') = remote_branches (git (sample_world ["y"]))
  /\ current_branch (git w') = current_branch (git (sample_world ["y"]))
  /\ uncommitted (git w') = uncommitted (git (sample_world ["y"]))
  /\ package_version w' = package_version (sample_world ["y"]).
Proof.
  apply (rebuild_touches_tags_only sample_host (default_config "orders")
           ["staging"; "--rebuild"]
           (Deploy.set_rebuild_mode
              (Deploy.set_environment "staging" Deploy.no_options))).
  - reflexivity.
  - left. reflexivity.
Defined.



(** A deployment of 2.1.0 to staging from a package.json at 2.0.0: the
    bump is committed and the tag points at the new commit. *)
Example version_bump_scenario :
  let w := {| git := sample_git; package_version := Some "2.0.0";
              replies := ["y"]; terminal := []; captured := None |} in
  let w' := final (Deploy.main sample_host (default_config "orders")
                     ["staging"; "--version"; "2.1.0"] w) in
  package_version w' = Some "2.1.0"
  /\ HEAD (git w') <> HEAD (git w)
  /\ tag_commit <$> local_tags (git w') !! "v2.1.0-staging" = Some (HEAD (git w')).
Proof.
  cbv zeta. split; [vm_compute; reflexivity|].
  split; [vm_compute; discriminate|vm_compute; reflexivity].
Qed.

(** ** deploy.sh: where the tags of a run point *)

Lemma tags_at_head_tag_d name :
  always tags_at_head (git_try (git_tag_d name)).
Proof.
  apply (always_git_try _). intros g g' p. unfold git_tag_d.
  destruct (local_tags g !! name); [|discriminate].
  intros E. injection E as E. subst g'. split; [reflexivity|].
  cbn. intros n obj Hn. left. apply lookup_delete_Some in Hn. tauto.
Qed.

Lemma tags_at_head_push_delete_tag name :
  always tags_at_head (git_try (git_push_delete_tag name)).
Proof.
  apply (always_git_try _). intros g g' p. unfold git_push_delete_tag.
  destruct (remote_tags g !! name); [|discriminate].
  intros E. injection E as E. subst g'. split; [reflexivity|]. cbn. auto.
Qed.

Lemma tags_at_head_push_tag code force name :
  always tags_at_head (git_do code (git_push_tag force name)).
Proof.
  apply (always_git_do _). intros g g' p. unfold git_push_tag.
  destruct (local_tags g !! name) as [o|]; [|discriminate].
  destruct (remote_tags g !! name) as [o'|].
  - destruct (force || bool_decide (o = o')); [|discriminate].
    intros E. injection E as E. subst g'. split; [reflexivity|]. cbn. auto.
  - intros E. injection E as E. subst g'. split; [reflexivity|]. cbn. auto.
Qed.

(** [git tag -a name "$(git rev-parse HEAD)"], and what follows it. *)
Lemma tags_at_head_tag_head {A} code force name message (k : Sh A) :
  always tags_at_head k ->
  always tags_at_head
    (sh_bind get_git (fun g =>
       sh_bind (git_do code (git_tag_a force name (HEAD g) message))
               (fun _ => k))).
Proof.
  intros Hk w. rewrite run_get_git. revert w.
  change (forall w, tags_at_head (sources w) (sources (final (sh_bind
            (git_do code (git_tag_a force name (HEAD (git w)) message))
            (fun _ => k) w)))).
  intros w. unfold sh_bind, git_do, git_tag_a.
  destruct (String.eqb name ""); cbn [final]; [reflexivity|].
  destruct (negb force && bool_decide (is_Some (local_tags (git w) !! name)));
    cbn [final]; [reflexivity|].
  etransitivity; [|apply Hk].
  split; [reflexivity|]. cbn. intros n obj Hn.
  apply lookup_insert_Some in Hn as [[_ <-]|[_ Hn]]; [now right|now left].
Qed.

Lemma tags_at_head_tag_and_push h cfg tag env version message :
  always tags_at_head (Deploy.tag_and_push h cfg tag env version message).
Proof.
  unfold Deploy.tag_and_push. apply tags_at_head_tag_head.
  apply (always_bind _); [solve_always|intros ?].
  apply (always_bind _); [apply tags_at_head_push_tag|intros ?].
  apply (always_harmless _), harmless_after_push.
Qed.

Lemma tags_at_head_rebuild h cfg version env message depth :
  always tags_at_head
    (Deploy.deploy_version_at depth h cfg version env message "true").
Proof.
  destruct depth; cbn [Deploy.deploy_version_at]; cbv zeta;
    cbn [streq String.eqb Ascii.eqb Bool.eqb].
  all: apply (always_bind _); [solve_always|intros ?].
  all: apply (always_bind _); [apply tags_at_head_tag_d|intros ?].
  all: apply (always_bind _); [apply tags_at_head_push_delete_tag|intros ?].
  all: apply tags_at_head_tag_head.
  all: apply (always_bind _); [solve_always|intros ?].
  all: apply (always_bind _); [apply tags_at_head_push_tag|intros ?].
  all: apply (always_harmless _), harmless_after_push.
Qed.

Lemma tags_at_head_deploy_version_at depth h cfg version env message rebuild :
  always tags_at_head
    (Deploy.deploy_version_at depth h cfg version env message rebuild).
Proof.
  destruct (streq rebuild "true") eqn:Er.
  { apply streq_true in Er. subst rebuild. apply tags_at_head_rebuild. }
  pose proof (tags_at_head_tag_and_push h cfg (Deploy.deploy_tag cfg version env)
                env version) as Hpush.
  pose proof (fun m d => tags_at_head_rebuild h cfg version env m d) as Hrebuild.
  destruct depth; cbn [Deploy.deploy_version_at]; cbv zeta; rewrite Er;
    solve_always; auto.
Qed.

Lemma tags_at_head_deploy_version h cfg version env message rebuild :
  always tags_at_head (Deploy.deploy_version h cfg version env message rebuild).
Proof. apply tags_at_head_deploy_version_at. Qed.



(** ** The last question before a deployment *)

Lemma production_confirmation_passed cfg p w :
  (Deploy.is_production (Deploy.plan_environment p) = true ->
   hd_error (replies w) = Some (Deploy.confirmation_phrase cfg p)) ->
  exists w', Deploy.production_confirmation cfg p w = Done tt w'
             /\ git w' = git w /\ package_version w' = package_version w
             /\ replies w'
                = if Deploy.is_production (Deploy.plan_environment p)
                  then tl (replies w) else replies w.
Proof.
  intros Hreply. unfold Deploy.production_confirmation.
  destruct (Deploy.is_production (Deploy.plan_environment p)).
  - specialize (Hreply eq_refl). sh_rewrite.
    destruct (replies w) as [|r rest]; [discriminate Hreply|].
    injection Hreply as ->. rewrite streq_refl. cbn [negb].
    eexists; repeat split.
  - eexists; repeat split.
Qed.

Lemma preview_refused cfg p w :
  Deploy.plan_preview_mode p = false ->
  ENABLE_PREVIEW cfg = "true" ->
  declines (replies w) ->
  exists w', Deploy.preview cfg p w = Exit 1 w'
             /\ git w' = git w /\ package_version w' = package_version w.
Proof.
  intros Hp He Hno. apply declines_read in Hno.
  unfold Deploy.preview. rewrite Hp, He. cbn [orb streq String.eqb Ascii.eqb Bool.eqb].
  repeat (rewrite run_echo || rewrite run_print_color || rewrite run_get_git).
  cbn [git put_line].
  destruct (Deploy.plan_rebuild_mode p);
    repeat (rewrite run_echo || rewrite run_print_color || rewrite run_ret
            || rewrite run_read_key);
    cbn [replies put_line] in *;
    (destruct (replies w) as [|r rest]; [eexists; repeat split|]);
    rewrite run_echo, Hno; cbn [negb]; rewrite run_print_color;
    eexists; repeat split.
Qed.

(** X10.  With previews enabled ([ENABLE_PREVIEW=true], the default) the
    question [Proceed with deployment?] is a gate: once the version is
    settled (and, for production, the confirmation phrase typed), any
    reply whose first character is not [y] or [Y] ends the script with
    status 1; the fetch of the start is all that happened to the
    repository and package.json is untouched. *)
Theorem proceed_question_is_a_gate h cfg argv o w p w1 :
  Deploy.parse_args argv Deploy.no_options = Deploy.Parsed_ok o ->
  Deploy.main_resolve h (Deploy.effective_config cfg o) o w = Done p w1 ->
  ENABLE_PREVIEW cfg = "true" ->
  Deploy.preview_mode o = false ->
  (Deploy.is_production (Deploy.plan_environment p) = true ->
   hd_error (replies w1)
   = Some (Deploy.confirmation_phrase (Deploy.effective_config cfg o) p)) ->
  declines (if Deploy.is_production (Deploy.plan_environment p)
            then tl (replies w1) else replies w1) ->
  exists w',
    Deploy.main h cfg argv w = Exit 1 w'
    /\ git w' = git_fetch_tags (git w)
    /\ package_version w' = package_version w.
Proof.
  intros Hparse E Hen Hpre Hphrase Hno.
  rewrite (main_parsed _ _ _ _ _ Hparse).
  set (cfg' := Deploy.effective_config cfg o) in *.
  rewrite (sh_bind_done _ _ _ _ _ E). unfold Deploy.main_execute.
  pose proof (main_resolve_git _ _ _ _ _ _ E) as Hg1.
  assert (package_version w1 = package_version w) as Hp1.
  { pose proof (only_tags_main_resolve h cfg' o w) as H. rewrite E in H.
    destruct H as (_ & _ & _ & _ & _ & H). exact H. }
  destruct (production_confirmation_passed cfg' p w1 Hphrase)
    as (w2 & E2 & Hg2 & Hp2 & Hr2).
  rewrite (sh_bind_done _ _ _ _ _ E2).
  destruct (preview_refused cfg' p w2) as (w3 & E3 & Hg3 & Hp3).
  - rewrite (main_resolve_flags _ _ _ _ _ _ E). exact Hpre.
  - unfold cfg'.
    destruct (effective_config_fields cfg o) as (_ & _ & _ & -> & _). exact Hen.
  - rewrite Hr2. exact Hno.
  - exists w3. rewrite (sh_bind_exit _ _ _ _ _ E3). repeat split; congruence.
Qed.

Lemma proceed_question_is_a_gate_witness :
  exists w',
    Deploy.main sample_host (default_config "orders")
      ["prod"; "--version"; "3.1.0"] (sample_world ["DEPLOY v3.1.0"; "no"])
    = Exit 1 w'
    /\ git w' = git_fetch_tags (git (sample_world ["DEPLOY v3.1.0"; "no"]))
    /\ package_version w'
       = package_version (sample_world ["DEPLOY v3.1.0"; "no"]).
Proof.
  eapply (proceed_question_is_a_gate sample_host (default_config "orders")
            ["prod"; "--version"; "3.1.0"]).
  - reflexivity.
  - vm_compute. reflexivity.
  - reflexivity.
  - reflexivity.
  - intros _. vm_compute. reflexivity.
  - intros r Hr. vm_compute in Hr. injection Hr as <-. reflexivity.
Defined.

(** X11.  [deploy.sh hotfix] with hotfix deployments switched off
    ([ENABLE_HOTFIX] other than [true]) ends with status 1 right after
    the header: no question is asked, nothing is fetched and nothing
    changes. *)
Theorem hotfix_disabled h cfg argv o w :
  Deploy.parse_args argv Deploy.no_options = Deploy.Parsed_ok o ->
  Deploy.environment o = "hotfix" ->
  ENABLE_HOTFIX cfg <> "true" ->
  exists w',
    Deploy.main h cfg argv w = Exit 1 w'
    /\ git w' = git w /\ package_version w' = package_version w
    /\ replies w' = replies w.
Proof.
  intros Hparse Henv Hoff. rewrite (main_parsed _ _ _ _ _ Hparse).
  set (cfg' := Deploy.effective_config cfg o).
  assert (ENABLE_HOTFIX cfg' <> "true") as Hoff'.
  { unfold cfg'. destruct (effective_config_fields cfg o) as (-> & _). exact Hoff. }
  apply streq_false in Hoff'.
  assert (exists w1, Deploy.main_environment h cfg' o w = Done "hotfix" w1
                     /\ git w1 = git w /\ replies w1 = replies w
                     /\ package_version w1 = package_version w)
    as (w1 & E1 & Hg1 & Hr1 & Hp1).
  { unfold Deploy.main_environment. rewrite Henv.
    cbn [streq String.eqb Ascii.eqb Bool.eqb].
    destruct (quiet_then (Deploy.show_header cfg') (fun _ => sh_ret "hotfix") w
                (quiet_deploy_show_header cfg')) as ([] & w1 & E & H).
    exists w1. split; [exact E|exact H]. }
  assert (Deploy.main_normalize cfg' o "hotfix" w1
          = Exit 1 (put_line "Hotfix deployments are disabled for this service" w1))
    as E2.
  { unfold Deploy.main_normalize. cbn [streq String.eqb Ascii.eqb Bool.eqb].
    rewrite Hoff'. cbn [negb]. rewrite run_bind_assoc, run_print_color.
    reflexivity. }
  eexists. split.
  - apply sh_bind_exit. unfold Deploy.main_resolve.
    rewrite (sh_bind_done _ _ _ _ _ E1). apply sh_bind_exit. exact E2.
  - cbn. auto.
Qed.

Lemma hotfix_disabled_witness :
  exists w',
    Deploy.main sample_host
      {| SERVICE_NAME := "orders"; DEFAULT_BRANCH := "master";
         DEPLOY_BRANCHES := ["master"; "main"]; VERSION_PREFIX := "v";
         ENABLE_HOTFIX := "false"; ENABLE_PREVIEW := "true";
         MONITOR_DEPLOYMENT := "true"; DEPLOY_TYPE := "kubernetes";
         MAX_VERSIONS_TO_SHOW := 20 |}
      ["hotfix"; "--message"; "fix login"] (sample_world ["y"; "y"]) = Exit 1 w'
    /\ git w' = git (sample_world ["y"; "y"])
    /\ package_version w' = package_version (sample_world ["y"; "y"])
    /\ replies w' = replies (sample_world ["y"; "y"]).
Proof.
  apply (hotfix_disabled sample_host _ ["hotfix"; "--message"; "fix login"]
           (Deploy.set_message "fix login"
              (Deploy.set_environment "hotfix" Deploy.no_options))).
  - reflexivity.
  - reflexivity.
  - discriminate.
Defined.

(** ** The command line of deploy.sh *)

(** The argument loop reads left to right: words that parse hand their
    options to the words that follow. *)
Lemma deploy_parse_args_app rest : forall n argv o o',
  (length argv <= n)%nat ->
  Deploy.parse_args argv o = Deploy.Parsed_ok o' ->
  Deploy.parse_args (argv ++ rest) o = Deploy.parse_args rest o'.
Proof.
  induction n as [|n IH]; intros argv o o' Hn H.
  { destruct argv; [|cbn in Hn; lia]. injection H as <-. reflexivity. }
  destruct argv as [|a argv]; [injection H as <-; reflexivity|].
  cbn [length] in Hn. revert H. cbn [Deploy.parse_args app].
  repeat match goal with
         | |- context [if ?b then _ else _] => destruct b
         end;
    try discriminate; try (apply IH; lia).
  all: destruct argv as [|v argv]; [discriminate|]; cbn [app length] in *;
    apply IH; lia.
Qed.

(** X12.  deploy.sh reads its whole command line before it does anything.
    After any words that parse, [--help] prints the usage and ends with
    status 0, while an unknown word, or [--version] or [--message] left
    without a value, ends with status 1; in each case the repository,
    package.json and the pending replies are untouched. *)
Theorem deploy_reads_arguments_first h cfg argv o rest w :
  Deploy.parse_args argv Deploy.no_options = Deploy.Parsed_ok o ->
  let untouched (code : Z) (out : Outcome unit) :=
    exists w', out = Exit code w' /\ git w' = git w
               /\ package_version w' = package_version w
               /\ replies w' = replies w in
  untouched 0 (Deploy.main h cfg (argv ++ "--help" :: rest) w)
  /\ untouched 1 (Deploy.main h cfg (argv ++ ["--version"]) w)
  /\ untouched 1 (Deploy.main h cfg (argv ++ ["--message"]) w)
  /\ forall word,
       Deploy.parse_args [word] Deploy.no_options = Deploy.Parsed_unknown word ->
       untouched 1 (Deploy.main h cfg (argv ++ word :: rest) w).
Proof.
  intros Hparse. cbv zeta.
  pose proof (fun r => deploy_parse_args_app r _ argv _ _ (le_n _) Hparse) as Happ.
  repeat split.
  - unfold Deploy.main. rewrite Happ. cbn. eexists; repeat split.
  - unfold Deploy.main. rewrite Happ. cbn. eexists; repeat split.
  - unfold Deploy.main. rewrite Happ. cbn. eexists; repeat split.
  - intros word Hword. unfold Deploy.main. rewrite Happ.
    revert Hword. cbn [Deploy.parse_args].
    repeat match goal with
           | |- context [if ?b then _ else _] => destruct b
           end; try discriminate.
    intros _. cbn. eexists; repeat split.
Qed.

Lemma deploy_reads_arguments_first_witness :
  let w := sample_world ["y"] in
  let untouched (code : Z) (out : Outcome unit) :=
    exists w', out = Exit code w' /\ git w' = git w
               /\ package_version w' = package_version w
               /\ replies w' = replies w in
  untouched 0 (Deploy.main sample_host (default_config "orders")
                 (["staging"; "--version"; "2.1.0"] ++ "--help" :: ["--rebuild"]) w)
  /\ untouched 1 (Deploy.main sample_host (default_config "orders")
                    (["staging"; "--version"; "2.1.0"] ++ ["--version"]) w)
  /\ untouched 1 (Deploy.main sample_host (default_config "orders")
                    (["staging"; "--version"; "2.1.0"] ++ ["--message"]) w)
  /\ untouched 1 (Deploy.main sample_host (default_config "orders")
                    (["staging"; "--version"; "2.1.0"]
                       ++ "--force" :: ["--rebuild"]) w).
Proof.
  destruct (deploy_reads_arguments_first sample_host (default_config "orders")
              ["staging"; "--version"; "2.1.0"]
              (Deploy.set_specific_version "2.1.0"
                 (Deploy.set_environment "staging" Deploy.no_options))
              ["--rebuild"] (sample_world ["y"]) eq_refl)
    as (Hhelp & Hversion & Hmessage & Hword).
  split; [exact Hhelp|]. split; [exact Hversion|]. split; [exact Hmessage|].
  apply Hword. reflexivity.
Defined.

(** ** [deploy.sh rollback] *)

(** The words handed to rollback.sh start with [rollback] itself. *)
Lemma deploy_parse_rollback : forall n argv o argv',
  (length argv <= n)%nat ->
  Deploy.parse_args argv o = Deploy.Parsed_rollback argv' ->
  exists rest, argv' = "rollback" :: rest.
Proof.
  induction n as [|n IH]; intros argv o argv' Hn H.
  { destruct argv; [discriminate H|cbn in Hn; lia]. }
  destruct argv as [|a argv]; [discriminate H|].
  cbn [length] in Hn. revert H. cbn [Deploy.parse_args].
  destruct (streq a "dev" || streq a "development"); [apply IH; lia|].
  destruct (streq a "staging"); [apply IH; lia|].
  destruct (streq a "prod" || streq a "production"); [apply IH; lia|].
  destruct (streq a "hotfix"); [apply IH; lia|].
  destruct (streq a "rollback") eqn:Ea.
  { apply streq_true in Ea. subst a. intros H. injection H as <-. now exists argv. }
  repeat match goal with
         | |- context [if ?b then _ else _] => destruct b
         end;
    try discriminate; try (apply IH; lia).
  all: destruct argv as [|v argv]; [discriminate|]; cbn [length] in *;
    apply IH; lia.
Qed.

(** An environment set before the argument loop of rollback.sh survives
    it unless the arguments name one. *)
Lemma rollback_parse_args_environment e : forall n argv o r,
  (length argv <= n)%nat ->
  Rollback.parse_args argv o = Rollback.Parsed_ok r ->
  exists r',
    Rollback.parse_args argv
      {| Rollback.environment := e; Rollback.version := Rollback.version o;
         Rollback.skip_confirm := Rollback.skip_confirm o;
         Rollback.show_history := Rollback.show_history o |}
    = Rollback.Parsed_ok r'
    /\ (Rollback.environment r' = Rollback.environment r
        \/ (Rollback.environment r = Rollback.environment o
            /\ Rollback.environment r' = e)).
Proof.
  induction n as [|n IH]; intros argv o r Hn H.
  { destruct argv; [|cbn in Hn; lia]. injection H as <-.
    eexists; split; [reflexivity|]. right. split; reflexivity. }
  destruct argv as [|a argv].
  { injection H as <-. eexists; split; [reflexivity|]. right. split; reflexivity. }
  cbn [length] in Hn. revert H. cbn [Rollback.parse_args].
  destruct (streq a "--env").
  { destruct argv as [|v argv]; [discriminate|]. cbn [Rollback.environment
      Rollback.version Rollback.skip_confirm Rollback.show_history].
    intros H. exists r. split; [exact H|now left]. }
  destruct (streq a "--version").
  { destruct argv as [|v argv]; [discriminate|]. cbn [length] in Hn.
    intros H. apply (IH argv _ r) in H; [|lia]. exact H. }
  destruct (streq a "--skip-confirm").
  { intros H. apply (IH argv _ r) in H; [|lia]. exact H. }
  destruct (streq a "--history").
  { intros H. apply (IH argv _ r) in H; [|lia]. exact H. }
  destruct (streq a "--help"); [discriminate|].
  cbn [Rollback.environment Rollback.version Rollback.skip_confirm
         Rollback.show_history].
  intros H. exists r. split; [exact H|now left].
Qed.

Lemma harmless_exec_rollback {A} h cfg argv hint :
  harmless (Rollback.main h cfg argv) ->
  harmless (@Deploy.exec_rollback A h cfg argv hint).
Proof. intros H. unfold Deploy.exec_rollback. solve_harmless; assumption. Qed.

(** X13.  [deploy.sh rollback ...] starts rollback.sh with the whole
    command line, the word [rollback] included, and rollback.sh takes
    that word for the environment.  Unless the words after it name an
    environment rollback.sh knows, the run changes nothing in the
    repository or in package.json. *)
Theorem deploy_rollback_needs_environment h cfg argv argv' o w :
  Deploy.parse_args argv Deploy.no_options = Deploy.Parsed_rollback argv' ->
  Rollback.parse_args (tl argv') Rollback.no_options = Rollback.Parsed_ok o ->
  ~ rollback_environment (Rollback.environment o) ->
  git (final (Deploy.main h cfg argv w)) = git w
  /\ package_version (final (Deploy.main h cfg argv w)) = package_version w.
Proof.
  intros Hparse Hrest Hunknown. unfold Deploy.main. rewrite Hparse.
  apply harmless_exec_rollback.
  destruct (deploy_parse_rollback _ _ _ _ (le_n _) Hparse) as (rest & ->).
  cbn [tl] in Hrest.
  destruct (rollback_parse_args_environment "rollback" _ rest _ _ (le_n _) Hrest)
    as (r' & Hparse' & Henv).
  apply (harmless_rollback_main h cfg _ r').
  - exact Hparse'.
  - destruct Henv as [->|[_ ->]]; [exact Hunknown|].
    unfold rollback_environment. cbn. intuition discriminate.
Qed.

Lemma deploy_rollback_needs_environment_witness :
  git (final (Deploy.main sample_host (default_config "orders")
                ["rollback"; "--version"; "v2.5.0"; "--skip-confirm"]
                (sample_world [])))
  = git (sample_world [])
  /\ package_version
       (final (Deploy.main sample_host (default_config "orders")
                 ["rollback"; "--version"; "v2.5.0"; "--skip-confirm"]
                 (sample_world [])))
     = package_version (sample_world []).
Proof.
  apply (deploy_rollback_needs_environment sample_host (default_config "orders")
           ["rollback"; "--version"; "v2.5.0"; "--skip-confirm"]
           ["rollback"; "--version"; "v2.5.0"; "--skip-confirm"]
           {| Rollback.environment := ""; Rollback.version := "v2.5.0";
              Rollback.skip_confirm := true; Rollback.show_history := false |}).
  - reflexivity.
  - reflexivity.
  - unfold rollback_environment. cbn. intuition discriminate.
Defined.

(** With the environment after the word [rollback] the same command
    rolls back; without it git refuses the empty tag name. *)
Example deploy_rollback_scenario :
  let named := Deploy.main sample_host (default_config "orders")
                 ["rollback"; "production"; "--version"; "v2.5.0"; "--skip-confirm"]
                 (sample_world []) in
  let unnamed := Deploy.main sample_host (default_config "orders")
                   ["rollback"; "--version"; "v2.5.0"; "--skip-confirm"]
                   (sample_world []) in
  exit_status named = 0
  /\ tag_commit <$> remote_tags (git (final named)) !! "v2.5.0-rollback-1724850000"
     = Some "c25"
  /\ exit_status unnamed = 128.
Proof. cbv zeta. repeat split; vm_compute; reflexivity. Qed.

(** ** rollback.sh: the version to roll back to *)

Lemma quiet_rollback_show_header cfg : quiet (Rollback.show_header cfg).
Proof. unfold Rollback.show_header. solve_quiet. Qed.



(** ** rollback.sh: the deployment history *)

Lemma In_firstn {A} n (l : list A) x : In x (firstn n l) -> In x l.
Proof.
  intros H. rewrite <- (firstn_skipn n l). apply in_or_app. now left.
Qed.

(** X15.  What [get_deployment_history] lists.  At most
    [MAX_VERSIONS_TO_SHOW] names, each an existing tag that starts with
    the letter [v], whatever [VERSION_PREFIX] is, and ends with the
    suffix of the environment; for production (and any environment
    other than development and staging) no listed name contains [-dev]
    or [-staging]. *)
Theorem rollback_history_lists_v_tags h cfg environment g :
  sorts_given_names h ->
  let history := Rollback.get_deployment_history h cfg environment g in
  let suffix :=
    if streq environment "development" || streq environment "dev" then "-dev"
    else if streq environment "staging" then "-staging" else "" in
  (length history <= MAX_VERSIONS_TO_SHOW cfg)%nat
  /\ forall tag, In tag history ->
       is_Some (local_tags g !! tag)
       /\ (exists middle, tag = "v" +:+ middle +:+ suffix)
       /\ (suffix = "" ->
           contains (chars "-dev") (chars tag) = false
           /\ contains (chars "-staging") (chars tag) = false).
Proof.
  intros Hsort. cbv zeta. unfold Rollback.get_deployment_history.
  set (suffix := if streq environment "development" || streq environment "dev"
                 then "-dev"
                 else if streq environment "staging" then "-staging" else "").
  assert (Hlisted : forall tag,
            In tag (sort_version_refname_desc h (git_tag_l "v" suffix g)) ->
            is_Some (local_tags g !! tag)
            /\ exists middle, tag = "v" +:+ middle +:+ suffix).
  { intros tag Hin. apply Hsort in Hin. unfold git_tag_l in Hin.
    apply list_elem_of_In, list_elem_of_filter in Hin as [Hglob Hnames].
    split; [now apply elem_of_git_tag_names|].
    apply Is_true_eq_true, glob_match_iff in Hglob as (x & Hx).
    exists (str x). apply chars_inj.
    now rewrite !chars_append, chars_str. }
  split.
  { destruct (streq suffix ""); apply firstn_le_length. }
  intros tag Hin. destruct (streq suffix "") eqn:Es.
  - apply streq_true in Es. apply In_firstn in Hin.
    apply list_elem_of_In, list_elem_of_filter in Hin as [Hclean Hin].
    apply list_elem_of_In in Hin.
    replace (git_tag_l "v" "" g) with (git_tag_l "v" suffix g) in Hin
      by now rewrite Es.
    destruct (Hlisted _ Hin) as [Htag Hv].
    split; [exact Htag|]. split; [exact Hv|]. intros _.
    apply Is_true_eq_true, negb_true_iff, orb_false_iff in Hclean. exact Hclean.
  - apply streq_false in Es. apply In_firstn in Hin.
    destruct (Hlisted _ Hin) as [Htag Hv].
    split; [exact Htag|]. split; [exact Hv|]. intros E. now elim Es.
Qed.

Lemma rollback_history_lists_v_tags_witness :
  let history := Rollback.get_deployment_history sample_host
                   (default_config "orders") "production" sample_git in
  (length history <= 20)%nat
  /\ In "v2.5.0" history
  /\ is_Some (local_tags sample_git !! "v2.5.0")
  /\ (exists middle, "v2.5.0" = "v" +:+ middle +:+ "")
  /\ contains (chars "-dev") (chars "v2.5.0") = false
  /\ contains (chars "-staging") (chars "v2.5.0") = false.
Proof.
  assert (Hsort : sorts_given_names sample_host).
  { intros names name Hin. change (In name (rev (sort_V names))) in Hin.
    apply in_rev in Hin. now apply (proj1 (sort_V_In name names)) in Hin. }
  destruct (rollback_history_lists_v_tags sample_host (default_config "orders")
              "production" sample_git Hsort) as [Hlen Hlisted].
  assert (Hin : In "v2.5.0"
                  (Rollback.get_deployment_history sample_host
                     (default_config "orders") "production" sample_git)).
  { vm_compute. auto. }
  destruct (Hlisted _ Hin) as (Htag & Hv & Hclean).
  destruct (Hclean eq_refl) as [Hdev Hstaging].
  cbv zeta. split; [exact Hlen|]. split; [exact Hin|]. split; [exact Htag|].
  split; [exact Hv|]. split; [exact Hdev|exact Hstaging].
Defined.

(** ** Versions and tags *)

Lemma strip_prefix_append p s : strip_prefix p (p +:+ s) = s.
Proof.
  unfold strip_prefix. rewrite chars_append, drop_prefix_app. apply str_chars.
Qed.

(** X16.  [version_of_tag] undoes [deploy_tag]: the version that [main]
    reads back from the tag of a deployment is the version deployed.  For
    staging and development this holds for every version; for production,
    where the tag has no suffix, it needs a version without a dash. *)
Theorem version_of_deploy_tag cfg version env :
  (Deploy.is_production env = true -> has_char "-" (chars version) = false) ->
  Deploy.version_of_tag cfg (Deploy.deploy_tag cfg version env) = version.
Proof.
  intros Hdash. unfold Deploy.version_of_tag, Deploy.deploy_tag. cbv zeta.
  assert (forall suffix,
            has_char "-" (chars suffix) = false ->
            remove_shortest_suffix "-"
              (strip_prefix (VERSION_PREFIX cfg)
                 ((VERSION_PREFIX cfg +:+ version) +:+ "-" +:+ suffix))
            = version) as Hcut.
  { intros suffix Hs.
    replace ((VERSION_PREFIX cfg +:+ version) +:+ "-" +:+ suffix)
      with (VERSION_PREFIX cfg +:+ (version +:+ "-" +:+ suffix))
      by (apply chars_inj; rewrite !chars_append; now rewrite app_assoc).
    rewrite strip_prefix_append. unfold remove_shortest_suffix.
    rewrite chars_append. change (chars ("-" +:+ suffix)) with ("-"%char :: chars suffix).
    rewrite cut_last_at by exact Hs. apply str_chars. }
  destruct (streq env "staging") eqn:Es; [apply (Hcut "staging"); reflexivity|].
  unfold Deploy.is_production in Hdash.
  destruct (streq env "production") eqn:Ep; cbn [negb andb orb] in *.
  - rewrite strip_prefix_append. unfold remove_shortest_suffix.
    rewrite cut_last_absent; [apply str_chars|]. apply Hdash, orb_true_r.
  - destruct (streq env "prod") eqn:Ed; cbn [negb] in *.
    + rewrite strip_prefix_append. unfold remove_shortest_suffix.
      rewrite cut_last_absent; [apply str_chars|]. now apply Hdash.
    + apply (Hcut "dev"); reflexivity.
Qed.

Lemma version_of_deploy_tag_witness :
  has_char "-" (chars "2.1.0") = false
  /\ Deploy.version_of_tag (default_config "orders")
       (Deploy.deploy_tag (default_config "orders") "2.1.0" "production")
     = "2.1.0".
Proof.
  split; [reflexivity|].
  apply (version_of_deploy_tag (default_config "orders") "2.1.0" "production").
  intros _. reflexivity.
Defined.

(** A production version with a dash is cut at the dash when it is read
    back. *)
Example version_with_dash_scenario :
  Deploy.version_of_tag (default_config "orders")
    (Deploy.deploy_tag (default_config "orders") "1.0.0-rc1" "production")
  = "1.0.0".
Proof. reflexivity. Qed.

(** The tag of a version triple decodes to that triple. *)
Lemma tag_version_rendered q v :
  head_is is_digit (chars q) = false ->
  tag_version "v" q ("v" +:+ render_version v +:+ q) = Some v.
Proof.
  intros Hq.
  assert (forall n : N, digit_run (chars (pretty n))) as Hrun.
  { intros n. split; [|apply pretty_N_digits].
    destruct (pretty_N_head n) as (c & r & -> & _). discriminate. }
  rewrite (tag_version_runs "v" q _ (chars (pretty (major v)))
             (chars (pretty (minor v))) (chars (pretty (patch v))));
    try apply Hrun; try exact Hq.
  - unfold version_of_runs. rewrite !pretty_N_value. now destruct v.
  - unfold tag_chars. rewrite !chars_append, chars_render_version.
    rewrite <- !app_assoc. cbn [app]. now rewrite <- !app_assoc.
Qed.

Lemma deploy_tag_rendered cfg env version :
  VERSION_PREFIX cfg = "v" ->
  In env ["dev"; "development"; "staging"; "prod"; "production"] ->
  Deploy.deploy_tag cfg version env = "v" +:+ version +:+ track_suffix env.
Proof.
  intros Hp Henv. unfold Deploy.deploy_tag. rewrite Hp. cbv zeta.
  assert (forall a b c : string, (a +:+ b) +:+ c = a +:+ b +:+ c) as Hassoc.
  { intros a b c. apply chars_inj. rewrite !chars_append. now rewrite app_assoc. }
  assert (forall a : string, a +:+ "" = a) as Hnil.
  { intros a. apply chars_inj. rewrite chars_append. apply app_nil_r. }
  cbn in Henv.
  destruct Henv as [<-|[<-|[<-|[<-|[<-|[]]]]]]; cbn; rewrite ?Hassoc, ?Hnil;
    reflexivity.
Qed.

Lemma increment_version_rendered cfg v kind :
  VERSION_PREFIX cfg = "v" ->
  In kind ["patch"; "minor"; "major"] ->
  (major v < 2 ^ 63 - 1 /\ minor v < 2 ^ 63 - 1 /\ patch v < 2 ^ 63 - 1)%N ->
  Deploy.increment_version cfg (render_version v) kind
  = Some (render_version (bump kind v)).
Proof.
  intros Hp Hkind (Ha & Hb & Hc). unfold Deploy.increment_version. rewrite Hp.
  rewrite read_rendered_version.
  rewrite !numeral_untouched by reflexivity.
  cbn in Hkind. destruct Hkind as [<-|[<-|[<-|[]]]];
    cbn [streq String.eqb Ascii.eqb Bool.eqb]; unfold bump;
    cbn [streq String.eqb Ascii.eqb Bool.eqb];
    now rewrite arith_succ_pretty.
Qed.

Lemma bump_greater kind v : ~ version_le (bump kind v) v.
Proof.
  rewrite version_le_iff. unfold bump.
  destruct (streq kind "major"); [cbn; lia|].
  destruct (streq kind "minor"); cbn; lia.
Qed.

(** X17.  The versions the menu of [main] offers are free.  With the
    prefix [v], the tags of the track spelled [v<major>.<minor>.<patch>]
    plus the suffix of the environment, and the current version (read
    from the latest tag) written without leading zeros, the patch, minor
    and major increments give the expected triple, and no tag has the
    name [deploy_version] will build from it. *)
Theorem bumped_version_is_fresh cfg env g v kind :
  VERSION_PREFIX cfg = "v" ->
  In env ["dev"; "development"; "staging"; "prod"; "production"] ->
  (forall t, In t (track cfg env g) ->
     is_Some (tag_version "v" (track_suffix env) t)) ->
  Deploy.version_of_tag cfg (Deploy.get_latest_version cfg env g)
  = render_version v ->
  In kind ["patch"; "minor"; "major"] ->
  (major v < 2 ^ 63 - 1 /\ minor v < 2 ^ 63 - 1 /\ patch v < 2 ^ 63 - 1)%N ->
  Deploy.increment_version cfg (render_version v) kind
  = Some (render_version (bump kind v))
  /\ local_tags g !! Deploy.deploy_tag cfg (render_version (bump kind v)) env
     = None.
Proof.
  intros Hp Henv Hwf Hcurrent Hkind Hbounds.
  split; [now apply increment_version_rendered|].
  destruct (track_suffix_shape env) as [Hq Hf].
  set (q := track_suffix env) in *.
  rewrite (deploy_tag_rendered _ _ _ Hp Henv). fold q.
  set (new_tag := "v" +:+ render_version (bump kind v) +:+ q).
  destruct (local_tags g !! new_tag) as [obj|] eqn:Enew; [exfalso|reflexivity].
  pose proof (tag_version_rendered q (bump kind v) Hq) as Hnew. fold new_tag in Hnew.
  assert (In new_tag (track cfg env g)) as Hin.
  { apply track_In; [now rewrite Enew|].
    exact (tag_version_selected cfg env _ _ Hp Hnew). }
  rewrite get_latest_version_track in Hcurrent. cbv zeta in Hcurrent.
  set (latest := tail_n_1 (sort_V (track cfg env g))) in *.
  assert (In latest (track cfg env g)) as Hlatest.
  { apply tail_sort_V_In. intros E. now rewrite E in Hin. }
  destruct (In_track _ _ _ _ Hlatest) as [_ Hpattern].
  pose proof (track_tag_nonempty _ _ _ Hpattern) as Hne.
  apply streq_false in Hne. rewrite Hne in Hcurrent.
  pose proof (deploy_tag_of_track_tag _ _ _ Hpattern) as Hback.
  rewrite Hcurrent, (deploy_tag_rendered _ _ _ Hp Henv) in Hback. fold q in Hback.
  pose proof (tag_version_rendered q v Hq) as Hold. rewrite Hback in Hold.
  assert (by_version q new_tag latest) as Hle.
  { apply (tail_sort_V_greatest q Hq Hf); [|exact Hin].
    apply Forall_forall. intros t Ht. apply list_elem_of_In in Ht.
    exact (Hwf t Ht). }
  unfold by_version, tag_key in Hle. rewrite Hnew, Hold in Hle. cbn in Hle.
  exact (bump_greater kind v Hle).
Qed.

Lemma bumped_version_is_fresh_witness :
  Deploy.increment_version (default_config "orders")
    (render_version {| major := 2; minor := 0; patch := 0 |}) "minor"
  = Some "2.1.0"
  /\ local_tags sample_git !! "v2.1.0-staging" = None.
Proof.
  apply (bumped_version_is_fresh (default_config "orders") "staging" sample_git
           {| major := 2; minor := 0; patch := 0 |} "minor").
  - reflexivity.
  - cbn. auto.
  - intros t Ht. vm_compute in Ht. destruct Ht as [<-|[]]. vm_compute. eauto.
  - vm_compute. reflexivity.
  - cbn. auto.
  - cbn. lia.
Defined.

(** ** The increment flags of deploy.sh v3.0 *)

Lemma main_normalize_increment cfg o kind environment w :
  match Deploy.main_normalize cfg o environment w,
        Deploy.main_normalize cfg (Deploy.set_increment_type kind o) environment w
  with
  | Done (e, _, m) w1, Done (e', _, m') w1' => w1' = w1 /\ e' = e /\ m' = m
  | Exit c w1, Exit c' w1' => c' = c /\ w1' = w1
  | _, _ => False
  end.
Proof.
  unfold Deploy.main_normalize. cbv zeta.
  destruct (streq (if streq environment "development" then "dev"
                   else if streq environment "production" then "prod"
                   else environment) "hotfix").
  - destruct (negb (streq (ENABLE_HOTFIX cfg) "true")); cbn; auto.
  - cbn. auto.
Qed.

(** The plans of two runs that differ in the increment flag only. *)
Lemma main_resolve_increment h cfg o kind w :
  match Deploy.main_resolve h cfg o w,
        Deploy.main_resolve h cfg (Deploy.set_increment_type kind o) w with
  | Done p w1, Done p' w1' =>
      w1' = w1
      /\ Deploy.plan_new_version p' = Deploy.plan_new_version p
      /\ Deploy.plan_environment p' = Deploy.plan_environment p
      /\ Deploy.plan_message p' = Deploy.plan_message p
      /\ Deploy.plan_rebuild_mode p' = Deploy.plan_rebuild_mode p
      /\ Deploy.plan_preview_mode p' = Deploy.plan_preview_mode p
  | Exit c w1, Exit c' w1' => c' = c /\ w1' = w1
  | _, _ => False
  end.
Proof.
  unfold Deploy.main_resolve.
  change (Deploy.main_environment h cfg (Deploy.set_increment_type kind o))
    with (Deploy.main_environment h cfg o).
  destruct (Deploy.main_environment h cfg o w) as [e wa|c wa] eqn:Ea.
  2: { rewrite !(sh_bind_exit _ _ _ _ _ Ea). now split. }
  rewrite !(sh_bind_done _ _ _ _ _ Ea).
  pose proof (main_normalize_increment cfg o kind e wa) as Hn.
  destruct (Deploy.main_normalize cfg o e wa) as [[[e1 i1] m1] wb|c wb] eqn:Eb;
    destruct (Deploy.main_normalize cfg (Deploy.set_increment_type kind o) e wa)
      as [[[e2 i2] m2] wb'|c' wb'] eqn:Eb'; try contradiction.
  2: { destruct Hn as [-> ->].
       rewrite (sh_bind_exit _ _ _ _ _ Eb), (sh_bind_exit _ _ _ _ _ Eb').
       now split. }
  destruct Hn as (-> & -> & ->).
  rewrite (sh_bind_done _ _ _ _ _ Eb), (sh_bind_done _ _ _ _ _ Eb').
  cbv beta iota.
  destruct (Deploy.main_checks cfg e1 wb) as [[] wc|c wc] eqn:Ec.
  2: { rewrite !(sh_bind_exit _ _ _ _ _ Ec). now split. }
  rewrite !(sh_bind_done _ _ _ _ _ Ec).
  destruct (Deploy.main_fetch h cfg wc) as [[] wd|c wd] eqn:Ed.
  2: { rewrite !(sh_bind_exit _ _ _ _ _ Ed). now split. }
  rewrite !(sh_bind_done _ _ _ _ _ Ed).
  change (Deploy.main_version cfg (Deploy.set_increment_type kind o) e1)
    with (Deploy.main_version cfg o e1).
  destruct (Deploy.main_version cfg o e1 wd) as [r we|c we] eqn:Ee.
  2: { rewrite !(sh_bind_exit _ _ _ _ _ Ee). now split. }
  rewrite !(sh_bind_done _ _ _ _ _ Ee). cbn. repeat split.
Qed.

Lemma main_execute_label h cfg p p' w :
  package_version w = None ->
  Deploy.plan_new_version p' = Deploy.plan_new_version p ->
  Deploy.plan_environment p' = Deploy.plan_environment p ->
  Deploy.plan_message p' = Deploy.plan_message p ->
  Deploy.plan_rebuild_mode p' = Deploy.plan_rebuild_mode p ->
  Deploy.plan_preview_mode p' = Deploy.plan_preview_mode p ->
  Deploy.main_execute h cfg p' w = Deploy.main_execute h cfg p w.
Proof.
  intros Hnone Hv He Hm Hr Hpre. unfold Deploy.main_execute.
  assert (Deploy.production_confirmation cfg p' = Deploy.production_confirmation cfg p)
    as ->.
  { unfold Deploy.production_confirmation, Deploy.confirmation_phrase,
      Deploy.confirm_tag. now rewrite Hv, He. }
  assert (Deploy.preview cfg p' = Deploy.preview cfg p) as ->.
  { unfold Deploy.preview. now rewrite Hv, He, Hr, Hpre. }
  rewrite Hv, He, Hm, Hr.
  pose proof (harmless_production_confirmation cfg p w) as [_ Hp1].
  destruct (Deploy.production_confirmation cfg p w) as [[] wa|c wa] eqn:Ea;
    cbn [final] in Hp1.
  2: { now rewrite !(sh_bind_exit _ _ _ _ _ Ea). }
  rewrite !(sh_bind_done _ _ _ _ _ Ea).
  pose proof (harmless_preview cfg p wa) as [_ Hp2].
  destruct (Deploy.preview cfg p wa) as [[] wb|c wb] eqn:Eb; cbn [final] in Hp2.
  2: { now rewrite !(sh_bind_exit _ _ _ _ _ Eb). }
  rewrite !(sh_bind_done _ _ _ _ _ Eb).
  assert (forall q, Deploy.bump_package_json h q wb = Done tt wb) as Hbump.
  { intros q. unfold Deploy.bump_package_json, get_package_version.
    unfold sh_bind at 1. now rewrite Hp2, Hp1, Hnone. }
  now rewrite !(sh_bind_done _ _ _ _ _ (Hbump _)).
Qed.

(** X18.  In deploy.sh v3.0 the flags [--major], [--minor] and [--patch]
    choose nothing.  Two command lines that differ in the increment flag
    only settle on the same version, environment, message and mode; the
    flag is only quoted in the message of the version-bump commit, so in
    a repository without package.json the two runs are the same run. *)
Theorem increment_flags_choose_nothing h cfg argv argv' o kind w :
  Deploy.parse_args argv Deploy.no_options = Deploy.Parsed_ok o ->
  Deploy.parse_args argv' Deploy.no_options
  = Deploy.Parsed_ok (Deploy.set_increment_type kind o) ->
  (forall p w1,
     Deploy.main_resolve h (Deploy.effective_config cfg o) o w = Done p w1 ->
     exists p',
       Deploy.main_resolve h (Deploy.effective_config cfg o)
         (Deploy.set_increment_type kind o) w = Done p' w1
       /\ Deploy.plan_new_version p' = Deploy.plan_new_version p
       /\ Deploy.plan_environment p' = Deploy.plan_environment p
       /\ Deploy.plan_rebuild_mode p' = Deploy.plan_rebuild_mode p)
  /\ (package_version w = None ->
      Deploy.main h cfg argv' w = Deploy.main h cfg argv w).
Proof.
  intros Hparse Hparse'.
  set (cfg' := Deploy.effective_config cfg o).
  pose proof (main_resolve_increment h cfg' o kind w) as H.
  split.
  - intros p w1 E. rewrite E in H.
    destruct (Deploy.main_resolve h cfg' (Deploy.set_increment_type kind o) w)
      as [p' w1'|]; [|contradiction].
    destruct H as (-> & Hv & He & _ & Hr & _). now exists p'.
  - intros Hnone.
    rewrite (main_parsed _ _ _ _ _ Hparse), (main_parsed _ _ _ _ _ Hparse').
    change (Deploy.effective_config cfg (Deploy.set_increment_type kind o))
      with cfg'.
    fold cfg'.
    pose proof (only_tags_main_resolve h cfg' o w) as Hpv.
    destruct (Deploy.main_resolve h cfg' o w) as [p w1|c w1] eqn:E;
      destruct (Deploy.main_resolve h cfg' (Deploy.set_increment_type kind o) w)
        as [p' w1'|c' w1'] eqn:E'; try contradiction.
    + destruct H as (-> & Hv & He & Hm & Hr & Hpre).
      rewrite (sh_bind_done _ _ _ _ _ E), (sh_bind_done _ _ _ _ _ E').
      apply main_execute_label; try assumption.
      destruct Hpv as (_ & _ & _ & _ & _ & Hpv). cbn in Hpv. congruence.
    + destruct H as [-> ->].
      now rewrite (sh_bind_exit _ _ _ _ _ E), (sh_bind_exit _ _ _ _ _ E').
Qed.

Lemma increment_flags_choose_nothing_witness :
  Deploy.main sample_host (default_config "orders") ["staging"; "--major"]
    (sample_world ["1"; "y"])
  = Deploy.main sample_host (default_config "orders") ["staging"]
      (sample_world ["1"; "y"]).
Proof.
  apply (increment_flags_choose_nothing sample_host (default_config "orders")
           ["staging"] ["staging"; "--major"]
           (Deploy.set_environment "staging" Deploy.no_options) "major"
           (sample_world ["1"; "y"])).
  - reflexivity.
  - reflexivity.
  - reflexivity.
Defined.

(** [deploy.sh staging --major] with the first entry of the menu: the
    patch increment is deployed. *)
Example major_flag_scenario :
  let o := Deploy.main sample_host (default_config "orders") ["staging"; "--major"]
             (sample_world ["1"; "y"]) in
  exit_status o = 0
  /\ is_Some (remote_tags (git (final o)) !! "v2.0.1-staging")
  /\ remote_tags (git (final o)) !! "v3.0.0-staging" = None.
Proof.
  cbv zeta. split; [vm_compute; reflexivity|].
  split; [vm_compute; eauto|vm_compute; reflexivity].
Qed.

(** ** deploy.sh v2.0.0: what it leaves alone *)

Lemma tags_kept_preorder : PreOrder tags_kept.
Proof.
  split.
  - intros s. split; [reflexivity|]. split; auto.
  - intros s1 s2 s3 (H12 & Hl12 & Hr12) (H23 & Hl23 & Hr23).
    split; [etransitivity; eassumption|]. split; auto.
Qed.

#[local] Existing Instance tags_kept_preorder.

Lemma tags_kept_fetch g p : tags_kept (g, p) (git_fetch_tags g, p).
Proof.
  split; [unfold only_tags; cbn; tauto|]. split; cbn; [|auto].
  intros name obj H. apply lookup_union_Some_raw. now left.
Qed.

Lemma tags_kept_tag_a code name commit message :
  always tags_kept (git_do code (git_tag_a false name commit message)).
Proof.
  apply (always_git_do _). intros g g' p E.
  split; [exact (only_tags_tag_a _ _ _ _ _ _ p E)|].
  unfold git_tag_a in E. destruct (String.eqb name ""); [discriminate E|].
  cbn [negb andb] in E.
  destruct (bool_decide (is_Some (local_tags g !! name))) eqn:Eb; [discriminate E|].
  apply bool_decide_eq_false in Eb. injection E as E. subst g'. cbn.
  split; [|auto]. intros n obj Hn.
  rewrite lookup_insert_ne; [exact Hn|]. intros ->. apply Eb. now rewrite Hn.
Qed.

Lemma tags_kept_push_tag code name :
  always tags_kept (git_do code (git_push_tag false name)).
Proof.
  apply (always_git_do _). intros g g' p E.
  split; [exact (only_tags_push_tag _ _ _ _ p E)|].
  unfold git_push_tag in E.
  destruct (local_tags g !! name) as [o|]; [|discriminate E].
  destruct (remote_tags g !! name) as [o'|] eqn:Er.
  - cbn [orb] in E. destruct (bool_decide (o = o')) eqn:Eb; [|discriminate E].
    apply bool_decide_eq_true in Eb. subst o'. injection E as E. subst g'. cbn.
    split; [auto|]. intros n obj Hn.
    destruct (decide (n = name)) as [->|Hne].
    + rewrite lookup_insert. rewrite decide_True by reflexivity. congruence.
    + now rewrite lookup_insert_ne by congruence.
  - injection E as E. subst g'. cbn. split; [auto|]. intros n obj Hn.
    rewrite lookup_insert_ne; [exact Hn|]. intros ->. congruence.
Qed.

Lemma harmless_legacy_check_branch cfg : harmless (DeployLegacy.check_branch cfg).
Proof. unfold DeployLegacy.check_branch. solve_harmless. Qed.

Lemma harmless_legacy_poll_status h workflow_id n : forall last_status check_count,
  harmless (DeployLegacy.poll_status h workflow_id last_status n check_count).
Proof.
  induction n as [|n IH]; intros last_status check_count;
    cbn [DeployLegacy.poll_status]; [apply harmless_ret|].
  cbv zeta.
  destruct (gh_run_view h workflow_id (S check_count)) as [workflow_status conclusion].
  pose proof (IH workflow_status (S check_count)).
  solve_harmless; assumption.
Qed.

Lemma harmless_legacy_monitor h cfg tag :
  harmless (DeployLegacy.monitor_github_actions h cfg tag).
Proof.
  unfold DeployLegacy.monitor_github_actions. cbv zeta.
  destruct (DeployLegacy.await_start h tag 10 0) as [run|]; [|solve_harmless].
  pose proof (harmless_legacy_poll_status h (databaseId run) 60 "" 0%nat).
  solve_harmless; assumption.
Qed.

Lemma tags_kept_legacy_deploy_version h cfg version env message :
  always tags_kept (DeployLegacy.deploy_version h cfg version env message).
Proof.
  unfold DeployLegacy.deploy_version. cbv zeta.
  pose proof (harmless_legacy_monitor h cfg (DeployLegacy.deploy_tag cfg version env)).
  apply (always_bind _); [solve_always|intros ?].
  apply (always_bind _); [solve_always|intros g].
  apply (always_bind _); [apply tags_kept_tag_a|intros ?].
  apply (always_bind _); [solve_always|intros ?].
  apply (always_bind _); [apply tags_kept_push_tag|intros ?].
  apply (always_harmless _). solve_harmless; assumption.
Qed.

Lemma tags_kept_legacy_main_with h cfg o :
  always tags_kept (DeployLegacy.main_with h cfg o).
Proof.
  unfold DeployLegacy.main_with.
  destruct (streq (DeployLegacy.environment o) "").
  { apply (always_harmless _). unfold DeployLegacy.show_usage. solve_harmless. }
  apply (always_bind _); [apply (always_harmless _); solve_harmless|].
  intros [[environment increment_type] message].
  do 4 (apply (always_bind _); [solve_always|intros ?]).
  intros w. rewrite run_get_git.
  set (gate := match uncommitted (git w) with
               | [] => sh_ret tt
               | _ =>
                   print_color "Warning: You have uncommitted changes" >>
                   let* reply := read_key "Do you want to continue? (y/N) " in
                   echo "" >>
                   if negb (is_yes reply)
                   then print_color "Deployment cancelled" >> exit_with 1
                   else sh_ret tt
               end).
  assert (harmless gate) as Hgate.
  { unfold gate. solve_harmless. }
  destruct (Hgate w) as [Hg1 Hp1].
  destruct (gate w) as [[] w1|c w1] eqn:E1; cbn [final] in Hg1, Hp1.
  2: { rewrite (sh_bind_exit _ _ _ _ _ E1). cbn [final]. unfold sources.
       rewrite Hg1, Hp1. reflexivity. }
  rewrite (sh_bind_done _ _ _ _ _ E1).
  destruct (harmless_legacy_check_branch cfg w1) as [Hg2 Hp2].
  destruct (DeployLegacy.check_branch cfg w1) as [[] w2|c w2] eqn:E2;
    cbn [final] in Hg2, Hp2.
  2: { rewrite (sh_bind_exit _ _ _ _ _ E2). cbn [final]. unfold sources.
       rewrite Hg2, Hp2, Hg1, Hp1. reflexivity. }
  rewrite (sh_bind_done _ _ _ _ _ E2).
  rewrite run_print_color, run_set_git.
  match goal with
  | |- tags_kept _ (sources (final (?k ?w3))) =>
      transitivity (sources w3); [|enough (always tags_kept k) as Hk by apply Hk]
  end.
  { unfold sources. cbn. rewrite Hp2, Hp1. apply tags_kept_fetch. }
  pose proof (tags_kept_legacy_deploy_version h cfg).
  apply (always_bind _); [solve_always|intros g].
  apply (always_bind _); [apply (always_harmless _); solve_harmless|intros v].
  apply (always_bind _); [apply (always_harmless _); solve_harmless|intros ?].
  apply (always_bind _); [auto|intros ?].
  apply (always_harmless _). solve_harmless.
Qed.

(** X19.  deploy.sh v2.0.0 only ever adds tags.  Whatever its arguments
    and the replies, when it ends the commit checked out, the branches,
    the working tree and package.json are what they were, and every tag
    that existed, locally or on the remote, still exists and points
    where it pointed: the script never moves or deletes a tag. *)
Theorem legacy_only_adds_tags h cfg argv w :
  let w' := final (DeployLegacy.main h cfg argv w) in
  only_tags (sources w) (sources w')
  /\ (forall name obj, local_tags (git w) !! name = Some obj ->
                       local_tags (git w') !! name = Some obj)
  /\ (forall name obj, remote_tags (git w) !! name = Some obj ->
                       remote_tags (git w') !! name = Some obj).
Proof.
  cbv zeta. unfold DeployLegacy.main.
  destruct (DeployLegacy.parse_args argv DeployLegacy.no_options) as [o| | |].
  - apply (tags_kept_legacy_main_with h cfg o w).
  - enough (always tags_kept (DeployLegacy.show_usage >> @exit_with unit 0)) as H
      by apply H.
    apply (always_harmless _). unfold DeployLegacy.show_usage. solve_harmless.
  - enough (always tags_kept
              (print_color ("Unknown option: " +:+ option)
               >> DeployLegacy.show_usage >> @exit_with unit 1)) as H by apply H.
    apply (always_harmless _). unfold DeployLegacy.show_usage. solve_harmless.
  - split; [reflexivity|]. split; auto.
Qed.

(** ** deploy.sh v2.0.0: the polling loop of the monitor *)

Lemma poll_status_outcome h workflow_id n : forall last_status c0 w,
  exists r w',
    DeployLegacy.poll_status h workflow_id last_status n c0 w = Done r w'
    /\ git w' = git w
    /\ (captured w = None -> captured w' = None)
    /\ (exists shown, terminal w' = terminal w ++ shown)
    /\ match r with
       | DeployLegacy.Polled_timeout =>
           forall j, (c0 < j <= c0 + n)%nat ->
             fst (gh_run_view h workflow_id j) <> "completed"
       | DeployLegacy.Polled_success =>
           exists k, (c0 < k <= c0 + n)%nat
             /\ fst (gh_run_view h workflow_id k) = "completed"
             /\ snd (gh_run_view h workflow_id k) = "success"
             /\ forall j, (c0 < j < k)%nat ->
                  fst (gh_run_view h workflow_id j) <> "completed"
       | DeployLegacy.Polled_failure c =>
           exists k, (c0 < k <= c0 + n)%nat
             /\ fst (gh_run_view h workflow_id k) = "completed"
             /\ snd (gh_run_view h workflow_id k) = c /\ c <> "success"
             /\ forall j, (c0 < j < k)%nat ->
                  fst (gh_run_view h workflow_id j) <> "completed"
       end.
Proof.
  induction n as [|n IH]; intros last_status c0 w.
  { exists DeployLegacy.Polled_timeout, w. cbn [DeployLegacy.poll_status].
    repeat split; auto.
    - exists []. now rewrite app_nil_r.
    - intros j Hj. lia. }
  cbn [DeployLegacy.poll_status]. cbv zeta.
  destruct (gh_run_view h workflow_id (S c0)) as [s c] eqn:Ev.
  set (shown := if negb (streq s last_status) then ["Status: " +:+ s] else []).
  set (w1 := if negb (streq s last_status) then put_line ("Status: " +:+ s) w else w).
  assert (forall B (k : unit -> Sh B),
            sh_bind (if negb (streq s last_status)
                     then print_color ("Status: " +:+ s) else sh_ret tt) k w
            = k tt w1) as Hstep.
  { intros B k. unfold w1. now destruct (negb (streq s last_status)). }
  rewrite Hstep.
  assert (git w1 = git w) as Hg1 by (unfold w1; now destruct (negb _)).
  assert (captured w = None -> captured w1 = None) as Hc1.
  { intros Hc. unfold w1. destruct (negb _); [|exact Hc]. cbn. now rewrite Hc. }
  assert (exists shown, terminal w1 = terminal w ++ shown) as [shown1 Ht1].
  { unfold w1. destruct (negb _); [|exists []; now rewrite app_nil_r].
    cbn. destruct (captured w); [exists []; now rewrite app_nil_r|eauto]. }
  destruct (streq s "completed") eqn:Es.
  - apply streq_true in Es. rewrite run_echo.
    assert (exists shown, terminal (put_line "" w1) = terminal w ++ shown) as Ht2.
    { cbn. rewrite Ht1. destruct (captured w1); [eauto|].
      exists (shown1 ++ [""]). now rewrite app_assoc. }
    assert (captured w = None -> captured (put_line "" w1) = None) as Hc2.
    { intros Hc. cbn. now rewrite (Hc1 Hc). }
    assert (forall j, (c0 < j < S c0)%nat ->
              fst (gh_run_view h workflow_id j) <> "completed") as Hnone
      by (intros j Hj; lia).
    destruct (streq c "success") eqn:Ec.
    + apply streq_true in Ec. eexists _, _. split; [reflexivity|].
      repeat split; auto. exists (S c0). rewrite Ev. repeat split; auto; lia.
    + apply streq_false in Ec. eexists _, _. split; [reflexivity|].
      repeat split; auto. exists (S c0). rewrite Ev. repeat split; auto; lia.
  - apply streq_false in Es.
    destruct (IH s (S c0) w1) as (r & w' & E & Hg & Hc & [shown' Ht] & Hr).
    exists r, w'. split; [exact E|]. split; [congruence|]. split; [auto|].
    split; [exists (shown1 ++ shown'); now rewrite Ht, Ht1, app_assoc|].
    assert (forall j, (c0 < j < S (S c0))%nat ->
              fst (gh_run_view h workflow_id j) <> "completed") as Hfirst.
    { intros j Hj. assert (j = S c0) as -> by lia. now rewrite Ev. }
    destruct r as [|conclusion|].
    + destruct Hr as (k & Hk & Hs & Hsucc & Hbefore).
      exists k. repeat split; auto; try lia.
      intros j Hj. destruct (decide (j = S c0)) as [->|]; [apply Hfirst; lia|].
      apply Hbefore. lia.
    + destruct Hr as (k & Hk & Hs & Hconc & Hne & Hbefore).
      exists k. repeat split; auto; try lia.
      intros j Hj. destruct (decide (j = S c0)) as [->|]; [apply Hfirst; lia|].
      apply Hbefore. lia.
    + intros j Hj. destruct (decide (j = S c0)) as [->|]; [apply Hfirst; lia|].
      apply Hr. lia.
Qed.

(** Two first completed checks are the same check. *)
Lemma first_completed_unique h workflow_id k k' :
  first_completed h workflow_id k -> first_completed h workflow_id k' -> k = k'.
Proof.
  intros (Hk & Hs & Hb) (Hk' & Hs' & Hb').
  destruct (lt_eq_lt_dec k k') as [[Hlt| ->]|Hlt]; [|reflexivity|].
  - exfalso. apply (Hb' k); [lia|exact Hs].
  - exfalso. apply (Hb k'); [lia|exact Hs'].
Qed.


Lemma checks_made_all h workflow_id n : forall c0,
  (forall j, (c0 < j < c0 + n)%nat ->
     fst (gh_run_view h workflow_id j) <> "completed") ->
  DeployLegacy.checks_made h workflow_id n c0 = (c0 + n)%nat.
Proof.
  induction n as [|n IH]; intros c0 Hnone; cbn [DeployLegacy.checks_made];
    [lia|].
  destruct (streq (fst (gh_run_view h workflow_id (S c0))) "completed") eqn:Es.
  - apply streq_true in Es. destruct n; [lia|].
    exfalso. apply (Hnone (S c0)); [lia|exact Es].
  - rewrite IH; [lia|]. intros j Hj. apply Hnone. lia.
Qed.

Lemma put_line_shown line w :
  captured w = None ->
  captured (put_line line w) = None
  /\ terminal (put_line line w) = terminal w ++ [line].
Proof. intros Hc. cbn. now rewrite Hc. Qed.

(** X21.  A run that completes with [success] at the sixtieth and last
    status check is reported twice by the monitor of deploy.sh v2.0.0:
    as completed successfully and, because the counter has reached its
    bound, as timed out and still running.  The script goes on. *)
Theorem legacy_monitor_success_at_last_check h cfg tag run w :
  DeployLegacy.await_start h tag 10 0 = Some run ->
  first_completed h (databaseId run) 60 ->
  snd (gh_run_view h (databaseId run) 60) = "success" ->
  captured w = None ->
  exists w',
    DeployLegacy.monitor_github_actions h cfg tag w = Done tt w'
    /\ In "Deployment completed successfully!" (terminal w')
    /\ In "Monitoring timeout - deployment is still running" (terminal w')
    /\ List.last (terminal w') ""
       = "   Continue monitoring at: https://github.com/karmadev/"
         +:+ SERVICE_NAME cfg +:+ "/actions/runs/" +:+ databaseId run.
Proof.
  intros Ea Hfirst Hsuccess Hcap.
  unfold DeployLegacy.monitor_github_actions. cbv zeta. rewrite run_print_color, Ea.
  repeat (rewrite run_print_color || rewrite run_echo).
  rewrite ?run_bind_assoc.
  rewrite (checks_made_all h (databaseId run) 60 0)
    by (intros j Hj; apply Hfirst; lia).
  cbn [Nat.add Nat.eqb].
  match goal with
  | |- context [sh_bind (DeployLegacy.poll_status _ _ _ _ _) ?k ?w0] =>
      destruct (poll_status_outcome h (databaseId run) 60 "" 0%nat w0)
        as (r & w1 & E & _ & Hc1 & [shown Ht1] & Hr);
      rewrite (sh_bind_done _ _ _ _ _ E);
      assert (captured w0 = None) as Hc0 by (cbn; now rewrite Hcap)
  end.
  specialize (Hc1 Hc0). clear Hc0.
  destruct r as [|conclusion|].
  2: { exfalso. destruct Hr as (k & Hk & Hs & Hconc & Hne & Hbefore).
       assert (first_completed h (databaseId run) k) as Hk'.
       { split; [lia|]. split; [exact Hs|]. intros j Hj. apply Hbefore. lia. }
       rewrite (first_completed_unique _ _ _ _ Hk' Hfirst) in Hconc. congruence. }
  2: { exfalso. destruct Hfirst as (_ & Hs & _). apply (Hr 60%nat); [lia|exact Hs]. }
  clear Hr.
  repeat (rewrite run_bind_assoc || rewrite run_print_color).
  destruct (put_line_shown "Deployment completed successfully!" w1 Hc1) as [Hc2 Ht2].
  set (w2 := put_line "Deployment completed successfully!" w1) in *.
  destruct (put_line_shown ("   View run: https://github.com/karmadev/"
                            +:+ SERVICE_NAME cfg +:+ "/actions/runs/"
                            +:+ databaseId run) w2 Hc2) as [Hc3 Ht3].
  set (w3 := put_line _ w2) in *.
  assert (exists w4 more,
            forall B (k : unit -> Sh B),
              sh_bind (if streq (DEPLOY_TYPE cfg) "kubernetes" then
                         echo "" >>
                         print_color "Waiting for ArgoCD sync (this may take 2-3 minutes)..." >>
                         print_color "Check ArgoCD status at: https://argocd.karma.life"
                       else sh_ret tt) k w3 = k tt w4
              /\ captured w4 = None /\ terminal w4 = terminal w3 ++ more)
    as (w4 & more & Hw4).
  { destruct (streq (DEPLOY_TYPE cfg) "kubernetes").
    - eexists _, _. intros B k. split; [reflexivity|].
      cbn [put_line captured terminal]. rewrite !Hc3. split; [reflexivity|].
      rewrite <- !app_assoc. reflexivity.
    - exists w3, []. intros B k. split; [reflexivity|].
      split; [exact Hc3|now rewrite app_nil_r]. }
  destruct (Hw4 unit (fun _ =>
              print_color "Monitoring timeout - deployment is still running" >>
              print_color ("   Continue monitoring at: https://github.com/karmadev/"
                           +:+ SERVICE_NAME cfg +:+ "/actions/runs/"
                           +:+ databaseId run))) as (-> & Hc4 & Ht4).
  eexists. split; [reflexivity|].
  cbn [put_line captured terminal]. rewrite !Hc4, Ht4, Ht3, Ht2.
  split; [|split].
  - rewrite !in_app_iff. cbn. tauto.
  - rewrite !in_app_iff. cbn. tauto.
  - apply last_snoc_string.
Qed.

Lemma legacy_monitor_success_at_last_check_witness :
  let h := {| gh_installed := true; gh_name_with_owner := "karmadev/orders";
              origin_repo_path := "karmadev/orders";
              gh_run_list := fun _ =>
                [{| databaseId := "77"; status := "queued"; conclusion := "";
                    headBranch := "refs/tags/v3.0.1" |}];
              gh_run_view := fun _ k =>
                if Nat.eqb k 60 then ("completed", "success")
                else ("in_progress", "");
              unix_seconds := 1724850000%N; git_user_name := "alice";
              commit_id := fun parent message => parent +:+ "+";
              sort_version_refname_desc := fun l => rev (sort_V l);
              rollback_script_installed := true |} in
  exists w',
    DeployLegacy.monitor_github_actions h (default_config "orders") "v3.0.1"
      (sample_world []) = Done tt w'
    /\ In "Deployment completed successfully!" (terminal w')
    /\ In "Monitoring timeout - deployment is still running" (terminal w')
    /\ List.last (terminal w') ""
       = "   Continue monitoring at: https://github.com/karmadev/"
         +:+ "orders" +:+ "/actions/runs/" +:+ "77".
Proof.
  cbv zeta.
  eapply (legacy_monitor_success_at_last_check _ (default_config "orders") "v3.0.1"
            {| databaseId := "77"; status := "queued"; conclusion := "";
               headBranch := "refs/tags/v3.0.1" |}).
  - reflexivity.
  - split; [lia|]. split; [reflexivity|]. intros j Hj. cbn.
    destruct (Nat.eqb_spec j 60); [lia|discriminate].
  - reflexivity.
  - reflexivity.
Defined.

(** * Properties of the installer *)

Lemma touches_ret paths {A} (a : A) : touches paths (Installer.sh_ret a).
Proof. intros m path _. now split. Qed.

Lemma touches_exit_with paths {A} code : touches paths (@Installer.exit_with A code).
Proof. intros m path _. now split. Qed.

Lemma touches_echo paths line : touches paths (Installer.echo line).
Proof. intros m path _. now split. Qed.

Lemma touches_print_color paths line : touches paths (Installer.print_color line).
Proof. apply touches_echo. Qed.

Lemma touches_read_key paths prompt : touches paths (Installer.read_key prompt).
Proof.
  intros m path _. unfold Installer.read_key.
  destruct (Installer.replies m); now split.
Qed.

Lemma touches_get_files paths : touches paths Installer.get_files.
Proof. intros m path _. now split. Qed.

Lemma touches_bind paths {A B} (c : Installer.Sh A) (k : A -> Installer.Sh B) :
  touches paths c -> (forall a, touches paths (k a)) ->
  touches paths (Installer.sh_bind c k).
Proof.
  intros Hc Hk m path Hpath. destruct (Hc m path Hpath) as [Hf He].
  unfold Installer.sh_bind.
  destruct (c m) as [a m1|code m1]; cbn [Installer.final] in *; [|now split].
  destruct (Hk a m1 path Hpath) as [Hf' He']. split; [congruence|tauto].
Qed.

Lemma touches_write_file paths path content :
  In path paths -> touches paths (Installer.write_file path content).
Proof.
  intros Hin m other Hother. cbn. split; [|reflexivity].
  apply lookup_insert_ne. intros ->. contradiction.
Qed.

Lemma touches_chmod_x paths path :
  In path paths -> touches paths (Installer.chmod_x path).
Proof.
  intros Hin m other Hother. cbn. split; [reflexivity|].
  assert (other <> path) as Hne by (intros ->; contradiction).
  rewrite elem_of_union, elem_of_singleton. tauto.
Qed.

Lemma touches_rm paths path :
  In path paths -> touches paths (Installer.rm path).
Proof.
  intros Hin m other Hother. cbn.
  assert (other <> path) as Hne by (intros ->; contradiction).
  split; [now apply lookup_delete_ne|].
  rewrite elem_of_difference, elem_of_singleton. tauto.
Qed.

Lemma touches_mv paths from to :
  In from paths -> In to paths -> touches paths (Installer.mv from to).
Proof.
  intros Hfrom Hto m other Hother. unfold Installer.mv.
  assert (other <> from) as Hne1 by (intros ->; contradiction).
  assert (other <> to) as Hne2 by (intros ->; contradiction).
  destruct (Installer.files m !! from); cbn; [|now split].
  split.
  - rewrite lookup_delete_ne, lookup_insert_ne by congruence. reflexivity.
  - destruct (bool_decide (from ∈ Installer.executable m));
      rewrite !elem_of_difference, ?elem_of_union, !elem_of_singleton; tauto.
Qed.

Create HintDb touches.
#[export] Hint Resolve touches_ret touches_exit_with touches_echo
  touches_print_color touches_read_key touches_get_files : touches.

Ltac touches_step :=
  match goal with
  | |- touches _ (Installer.sh_bind _ _) => apply touches_bind; [|intros ?]
  | |- touches _ (Installer.write_file _ _) =>
      apply touches_write_file; first [assumption | cbn; tauto]
  | |- touches _ (Installer.chmod_x _) =>
      apply touches_chmod_x; first [assumption | cbn; tauto]
  | |- touches _ (Installer.rm _) =>
      apply touches_rm; first [assumption | cbn; tauto]
  | |- touches _ (Installer.mv _ _) =>
      apply touches_mv; first [assumption | cbn; tauto]
  | |- touches _ (if ?b then _ else _) => destruct b
  | |- touches _ (match ?x with _ => _ end) => destruct x
  | |- touches _ _ => solve [auto with touches]
  end.

Ltac solve_touches := repeat touches_step.

Lemma touches_sed_in_place paths script :
  In "package.json" paths -> In "package.json.bak" paths ->
  touches paths (Installer.sed_in_place script).
Proof. intros ? ?. unfold Installer.sed_in_place. solve_touches. Qed.

Lemma touches_update_package_json paths :
  In "package.json" paths -> In "package.json.bak" paths ->
  touches paths Installer.update_package_json.
Proof.
  intros ? ?. unfold Installer.update_package_json.
  pose proof (touches_sed_in_place paths).
  solve_touches; auto.
Qed.

Lemma touches_update_gitignore paths :
  In ".gitignore" paths -> touches paths Installer.update_gitignore.
Proof. intros ?. unfold Installer.update_gitignore. solve_touches. Qed.

Lemma touches_create_deploy_config paths h service_type :
  In ".deploy.config" paths ->
  touches paths (Installer.create_deploy_config h service_type).
Proof. intros ?. unfold Installer.create_deploy_config. solve_touches. Qed.

(** X22.  The installer writes nothing but its own seven files.
    Whatever the directory holds and however the run ends, every file
    other than deploy.sh, .deploy.config, .deploy.config.backup,
    package.json, package.json.bak, .gitignore and DEPLOY.md is there
    or not as before, with the contents and the execute permission it
    had. *)
Theorem installer_touches_its_files h m path :
  ~ In path installed_files ->
  Installer.files (Installer.final (Installer.main h m)) !! path
  = Installer.files m !! path
  /\ (path ∈ Installer.executable (Installer.final (Installer.main h m))
      <-> path ∈ Installer.executable m).
Proof.
  revert m path. change (touches installed_files (Installer.main h)).
  unfold Installer.main, installed_files.
  solve_touches;
    first [ apply touches_update_package_json
          | apply touches_update_gitignore
          | apply touches_create_deploy_config ];
    cbn; tauto.
Qed.

Lemma installer_touches_its_files_witness :
  let m := {| Installer.files := {["README.md" := Installer.text ["orders"]]};
              Installer.executable := ∅; Installer.replies := [];
              Installer.terminal := [] |} in
  let h := {| Installer.in_git_repository := true;
              Installer.curl_installed := true;
              Installer.wget_installed := false;
              Installer.downloaded := Installer.text ["#!/bin/bash"];
              Installer.directory_name := "orders" |} in
  Installer.files (Installer.final (Installer.main h m)) !! "README.md"
  = Installer.files m !! "README.md"
  /\ ("README.md" ∈ Installer.executable (Installer.final (Installer.main h m))
      <-> "README.md" ∈ Installer.executable m).
Proof.
  cbv zeta. apply installer_touches_its_files.
  unfold installed_files. cbn. intuition discriminate.
Defined.

(** ** What the installer keeps *)

Lemma ensures_bind (P R Q : Installer.Machine -> Prop) {A B}
  (c : Installer.Sh A) (k : A -> Installer.Sh B) :
  ensures P c R -> (forall m, R m -> Q m) -> (forall a, ensures R (k a) Q) ->
  ensures P (Installer.sh_bind c k) Q.
Proof.
  intros Hc Hexit Hk m Hm. specialize (Hc m Hm). unfold Installer.sh_bind.
  destruct (c m) as [a m1|code m1]; cbn [Installer.final] in *.
  - apply Hk, Hc.
  - apply Hexit, Hc.
Qed.

(** A property of files the command does not touch survives it. *)
Lemma ensures_touches paths (I : Installer.Machine -> Prop) {A}
  (c : Installer.Sh A) :
  touches paths c ->
  (forall m m', (forall path, ~ In path paths ->
                   Installer.files m' !! path = Installer.files m !! path) ->
                I m -> I m') ->
  ensures I c I.
Proof.
  intros Hc HI m Hm. apply (HI m); [|exact Hm].
  intros path Hpath. now destruct (Hc m path Hpath).
Qed.

Lemma ensures_get_files (P Q : Installer.Machine -> Prop) {B}
  (k : gmap string Installer.TextFile -> Installer.Sh B) :
  (forall fs, ensures (fun m => P m /\ Installer.files m = fs) (k fs) Q) ->
  ensures P (Installer.sh_bind Installer.get_files k) Q.
Proof. intros Hk m Hm. apply (Hk (Installer.files m)). now split. Qed.

Ltac keep_bind :=
  match goal with
  | |- ensures ?I (Installer.sh_bind _ _) ?I =>
      apply (ensures_bind I I I); [|auto|intros ?]
  end.

Ltac keep_leaf paths :=
  match goal with
  | |- ensures ?I _ ?I =>
      apply (ensures_touches paths);
      [ solve_touches;
        first [ apply touches_update_package_json
              | apply touches_update_gitignore
              | apply touches_create_deploy_config ]; cbn; tauto
      | let Hsame := fresh "Hsame" in
        intros ? ? Hsame; rewrite ?Hsame by (cbn; intuition discriminate);
        tauto ]
  end.

(** DEPLOY.md is written only when it is missing. *)
Lemma installer_keeps_deploy_md h content :
  ensures (fun m => Installer.files m !! "DEPLOY.md" = Some content)
    (Installer.main h)
    (fun m => Installer.files m !! "DEPLOY.md" = Some content).
Proof.
  unfold Installer.main.
  keep_bind; [keep_leaf (@nil string)|].
  keep_bind; [keep_leaf (@nil string)|].
  destruct (negb (Installer.in_git_repository h)); [keep_leaf (@nil string)|].
  do 10 (keep_bind;
           [keep_leaf ["deploy.sh"; ".deploy.config"; ".deploy.config.backup";
                       "package.json"; "package.json.bak"; ".gitignore"]|]).
  apply ensures_get_files. intros fs.
  apply (ensures_bind _ (fun m => Installer.files m !! "DEPLOY.md" = Some content));
    [|auto|intros ?; keep_leaf (@nil string)].
  intros m [Hmd Hfs]. subst fs. rewrite Hmd. exact Hmd.
Qed.

(** A configuration that is regenerated is moved to the backup first. *)
Lemma installer_keeps_config h content :
  ensures (fun m => Installer.files m !! ".deploy.config" = Some content)
    (Installer.main h)
    (fun m => Installer.files m !! ".deploy.config" = Some content
              \/ Installer.files m !! ".deploy.config.backup" = Some content).
Proof.
  set (P := fun m => Installer.files m !! ".deploy.config" = Some content).
  set (Q := fun m => Installer.files m !! ".deploy.config" = Some content
                     \/ Installer.files m !! ".deploy.config.backup" = Some content).
  assert (forall m, P m -> Q m) as HPQ by (intros m Hm; now left).
  unfold Installer.main.
  apply (ensures_bind P P Q); [unfold P; keep_leaf (@nil string)|exact HPQ|intros ?].
  apply (ensures_bind P P Q); [unfold P; keep_leaf (@nil string)|exact HPQ|intros ?].
  destruct (negb (Installer.in_git_repository h)).
  { intros m Hm. apply HPQ. revert m Hm.
    change (ensures P (Installer.sh_bind
                         (Installer.print_color "Error: Not in a git repository")
                         (fun _ => @Installer.exit_with unit 1)) P).
    unfold P. keep_leaf (@nil string). }
  do 6 (apply (ensures_bind P P Q); [unfold P; keep_leaf ["deploy.sh"]|exact HPQ|intros ?]).
  apply ensures_get_files. intros fs.
  apply (ensures_bind _ Q Q); [|auto|intros ?].
  - intros m [Hm Hfs]. subst fs. unfold P in Hm. rewrite Hm.
    unfold Installer.sh_bind, Installer.print_color, Installer.echo,
      Installer.read_key. cbn [Installer.replies Installer.files].
    destruct (Installer.replies m) as [|r rest]; cbn [Installer.final];
      [now left|].
    destruct (is_yes (substring 0 1 r)); cbn [Installer.final]; [|now left].
    unfold Installer.mv. cbn [Installer.files]. rewrite Hm.
    right. cbn. rewrite lookup_insert_ne by discriminate.
    rewrite lookup_delete_ne by discriminate. apply lookup_insert_eq.
  - do 2 (apply (ensures_bind Q Q Q);
            [unfold Q;
             keep_leaf ["package.json"; "package.json.bak"; ".gitignore"; "DEPLOY.md"]
            |auto|intros ?]).
    unfold Q.
    keep_leaf ["package.json"; "package.json.bak"; ".gitignore"; "DEPLOY.md"].
Qed.

(** Without [y] the configuration stays. *)
Lemma installer_declined_config h content :
  ensures (fun m => Installer.files m !! ".deploy.config" = Some content
                    /\ declines (Installer.replies m))
    (Installer.main h)
    (fun m => Installer.files m !! ".deploy.config" = Some content).
Proof.
  set (P := fun m => Installer.files m !! ".deploy.config" = Some content
                     /\ declines (Installer.replies m)).
  set (Q := fun m => Installer.files m !! ".deploy.config" = Some content).
  assert (forall m, P m -> Q m) as HPQ by (intros m [Hm _]; exact Hm).
  assert (forall line, ensures P (Installer.print_color line) P) as Hprint.
  { intros line m Hm. exact Hm. }
  unfold Installer.main.
  apply (ensures_bind P P Q); [apply Hprint|exact HPQ|intros ?].
  apply (ensures_bind P P Q); [apply Hprint|exact HPQ|intros ?].
  destruct (negb (Installer.in_git_repository h)).
  { intros m Hm. apply HPQ, Hm. }
  apply (ensures_bind P P Q); [intros m Hm; exact Hm|exact HPQ|intros ?].
  apply (ensures_bind P P Q); [apply Hprint|exact HPQ|intros ?].
  apply (ensures_bind P P Q); [apply Hprint|exact HPQ|intros ?].
  apply (ensures_bind P P Q); [|exact HPQ|intros ?].
  { intros m [Hc Hno]. unfold P.
    destruct (Installer.curl_installed h); [|destruct (Installer.wget_installed h)];
      cbn; (split; [|exact Hno]); rewrite ?lookup_insert_ne by discriminate;
      exact Hc. }
  apply (ensures_bind P P Q); [intros m Hm; exact Hm|exact HPQ|intros ?].
  apply (ensures_bind P P Q); [apply Hprint|exact HPQ|intros ?].
  apply ensures_get_files. intros fs.
  apply (ensures_bind _ Q Q); [|auto|intros ?].
  - intros m [[Hc Hno] Hfs]. subst fs. rewrite Hc.
    unfold Installer.sh_bind, Installer.print_color, Installer.echo,
      Installer.read_key. cbn [Installer.replies Installer.files].
    destruct (Installer.replies m) as [|r rest]; cbn [Installer.final];
      [exact Hc|].
    rewrite (Hno r eq_refl). exact Hc.
  - do 2 (apply (ensures_bind Q Q Q);
            [unfold Q;
             keep_leaf ["package.json"; "package.json.bak"; ".gitignore"; "DEPLOY.md"]
            |auto|intros ?]).
    unfold Q.
    keep_leaf ["package.json"; "package.json.bak"; ".gitignore"; "DEPLOY.md"].
Qed.

(** X23.  The installer does not lose what it finds.  An existing
    DEPLOY.md is never rewritten.  An existing .deploy.config either
    stays as it is, which is what happens when the reply to the question
    does not start with [y] or [Y], or is found again, unchanged, as
    .deploy.config.backup. *)
Theorem installer_keeps_existing_files h m :
  let m' := Installer.final (Installer.main h m) in
  (forall content,
     Installer.files m !! "DEPLOY.md" = Some content ->
     Installer.files m' !! "DEPLOY.md" = Some content)
  /\ (forall content,
        Installer.files m !! ".deploy.config" = Some content ->
        (Installer.files m' !! ".deploy.config" = Some content
         \/ Installer.files m' !! ".deploy.config.backup" = Some content)
        /\ (declines (Installer.replies m) ->
            Installer.files m' !! ".deploy.config" = Some content)).
Proof.
  cbv zeta. split; [|split].
  - intros content H. exact (installer_keeps_deploy_md h content m H).
  - exact (installer_keeps_config h content m H).
  - intros Hno. apply (installer_declined_config h content m). now split.
Qed.

(** ** The installer and .gitignore *)

Lemma append_line_text lines line :
  lines <> [] ->
  Installer.append_line line (Installer.text lines)
  = Installer.text (lines ++ [line]).
Proof. intros Hne. destruct lines; [contradiction|reflexivity]. Qed.

Lemma string_append_empty (s : string) : s +:+ "" = s.
Proof. apply chars_inj. rewrite chars_append. apply app_nil_r. Qed.

(** A blank line closes the last line or follows it. *)
Lemma append_blank_line f :
  exists lines,
    lines <> []
    /\ Installer.append_line "" f = Installer.text lines
    /\ exists added, lines = Installer.text_lines f ++ added.
Proof.
  unfold Installer.append_line.
  destruct (Installer.text_lines f) as [|l ls] eqn:El.
  { exists [""]. split; [discriminate|]. split; [reflexivity|]. now exists [""]. }
  destruct (Installer.terminated f).
  - exists ((l :: ls) ++ [""]). split; [now destruct ls|].
    split; [reflexivity|]. now exists [""].
  - exists (l :: ls). split; [discriminate|]. split.
    + rewrite string_append_empty. f_equal.
      symmetry. apply app_removelast_last. discriminate.
    + exists []. now rewrite app_nil_r.
Qed.

Lemma existsb_snoc {A} (p : A -> bool) l x : p x = true -> existsb p (l ++ [x]) = true.
Proof. intros Hx. rewrite existsb_app. cbn. rewrite Hx. now rewrite orb_true_r. Qed.

(** X24.  What [update_gitignore] does to .gitignore.  It never creates
    the file and touches no other.  When the file exists, its lines stay
    where they are and lines are only added after them; afterwards some
    line matches the pattern [.deploy.config.local], so that a second run
    changes nothing and prints nothing. *)
Theorem update_gitignore_appends_once m :
  exists m1,
    Installer.update_gitignore m = Installer.Done tt m1
    /\ Installer.update_gitignore m1 = Installer.Done tt m1
    /\ (forall path, path <> ".gitignore" ->
          Installer.files m1 !! path = Installer.files m !! path)
    /\ Installer.executable m1 = Installer.executable m
    /\ match Installer.files m !! ".gitignore" with
       | None => Installer.files m1 !! ".gitignore" = None
       | Some before =>
           exists after added,
             Installer.files m1 !! ".gitignore" = Some after
             /\ Installer.text_lines after = Installer.text_lines before ++ added
             /\ Installer.grep_q_dots ".deploy.config.local" after = true
       end.
Proof.
  unfold Installer.update_gitignore at 1.
  unfold Installer.sh_bind at 1. cbn [Installer.get_files].
  destruct (Installer.files m !! ".gitignore") as [before|] eqn:Eg.
  2: { exists m. split; [reflexivity|]. split.
       - unfold Installer.update_gitignore, Installer.sh_bind.
         cbn [Installer.get_files]. now rewrite Eg.
       - repeat split; auto. }
  destruct (Installer.grep_q_dots ".deploy.config.local" before) eqn:Egrep;
    cbn [negb].
  { exists m. split; [reflexivity|]. split.
    - unfold Installer.update_gitignore, Installer.sh_bind.
      cbn [Installer.get_files]. now rewrite Eg, Egrep.
    - repeat split; auto. rewrite Eg. exists before, [].
      rewrite app_nil_r. auto. }
  destruct (append_blank_line before) as (lines & Hne & -> & added & ->).
  rewrite !append_line_text by (try exact Hne; now destruct (_ ++ _)).
  set (after := Installer.text _).
  assert (Installer.grep_q_dots ".deploy.config.local" after = true) as Hafter.
  { unfold Installer.grep_q_dots, after. cbn [Installer.text_lines Installer.text].
    now apply existsb_snoc. }
  eexists. split; [reflexivity|]. split; [|split; [|split]].
  - unfold Installer.update_gitignore, Installer.sh_bind.
    cbn [Installer.get_files Installer.files Installer.print_color Installer.echo
           Installer.write_file Installer.with_files].
    rewrite lookup_insert_eq. fold after. now rewrite Hafter.
  - intros path Hpath. cbn. now rewrite lookup_insert_ne by congruence.
  - reflexivity.
  - cbn [Installer.files Installer.print_color Installer.echo
           Installer.write_file Installer.with_files].
    rewrite lookup_insert_eq. fold after.
    exists after, (added ++ ["# Deploy script local configuration";
                             ".deploy.config.local"]).
    split; [reflexivity|]. split; [|exact Hafter].
    unfold after. cbn [Installer.text_lines Installer.text].
    now rewrite <- !app_assoc.
Qed.

(** The pattern is a regular expression: its dots stand for any
    character, so a line that only resembles the entry counts as the
    entry, and the entry is not added. *)
Example gitignore_lookalike_scenario :
  let m := {| Installer.files :=
                {[".gitignore" := Installer.text ["node_modules"; "my-deploy_config_local"]]};
              Installer.executable := ∅; Installer.replies := [];
              Installer.terminal := [] |} in
  Installer.update_gitignore m = Installer.Done tt m.
Proof. reflexivity. Qed.

(** ** The installer and package.json *)

Lemma irun_get_files {B} (k : gmap string Installer.TextFile -> Installer.Sh B) m :
  Installer.sh_bind Installer.get_files k m = k (Installer.files m) m.
Proof. reflexivity. Qed.

Lemma irun_print_color {B} line (k : unit -> Installer.Sh B) m :
  Installer.sh_bind (Installer.print_color line) k m = k tt (shown line m).
Proof. reflexivity. Qed.

Lemma irun_echo {B} line (k : unit -> Installer.Sh B) m :
  Installer.sh_bind (Installer.echo line) k m = k tt (shown line m).
Proof. reflexivity. Qed.

Lemma irun_ret {A B} (a : A) (k : A -> Installer.Sh B) m :
  Installer.sh_bind (Installer.sh_ret a) k m = k a m.
Proof. reflexivity. Qed.

Lemma irun_bind_assoc {A B C} (c : Installer.Sh A) (f : A -> Installer.Sh B)
  (k : B -> Installer.Sh C) m :
  Installer.sh_bind (Installer.sh_bind c f) k m
  = Installer.sh_bind c (fun a => Installer.sh_bind (f a) k) m.
Proof. unfold Installer.sh_bind. now destruct (c m). Qed.

Lemma irun_sed_in_place {B} script package (k : unit -> Installer.Sh B) m :
  Installer.files m !! "package.json" = Some package ->
  Installer.sh_bind (Installer.sed_in_place script) k m
  = k tt (after_sed script package m).
Proof.
  intros Hp. unfold Installer.sed_in_place.
  rewrite irun_bind_assoc, irun_get_files, Hp. reflexivity.
Qed.

Lemma files_shown line m : Installer.files (shown line m) = Installer.files m.
Proof. reflexivity. Qed.

Lemma replies_shown line m : Installer.replies (shown line m) = Installer.replies m.
Proof. reflexivity. Qed.

Lemma package_after_sed script package m :
  Installer.files (after_sed script package m) !! "package.json"
  = Some (script package).
Proof.
  cbn. rewrite lookup_delete_ne by discriminate. apply lookup_insert_eq.
Qed.

Lemma replies_after_sed script package m :
  Installer.replies (after_sed script package m) = Installer.replies m.
Proof. reflexivity. Qed.

Lemma drop_prefix_app_l p q s r :
  drop_prefix (p ++ q) s = Some r -> exists r', drop_prefix p s = Some r'.
Proof.
  revert s. induction p as [|a p IH]; intros s H; [now exists s|].
  destruct s as [|b s]; [discriminate H|]. cbn in *.
  destruct (Ascii.eqb a b); [now apply IH|discriminate H].
Qed.

(** A text that holds [p ++ q] holds [p]. *)
Lemma contains_app_l p q s : contains (p ++ q) s = true -> contains p s = true.
Proof.
  induction s as [|c s IH]; cbn [contains].
  - destruct (drop_prefix (p ++ q) []) eqn:E; [|discriminate].
    apply drop_prefix_app_l in E as [r' ->]. reflexivity.
  - destruct (drop_prefix (p ++ q) (c :: s)) eqn:E.
    + apply drop_prefix_app_l in E as [r' ->]. reflexivity.
    + intros H. rewrite (IH H). now destruct (drop_prefix p (c :: s)).
Qed.

Lemma grep_q_app_l p q f :
  Installer.grep_q p f = false -> Installer.grep_q (p +:+ q) f = false.
Proof.
  unfold Installer.grep_q. intros H.
  apply not_true_is_false. intros Hpq. apply existsb_exists in Hpq as (l & Hin & Hl).
  rewrite chars_append in Hl. apply contains_app_l in Hl.
  assert (existsb (fun line => contains (chars p) (chars line))
            (Installer.text_lines f) = true) as Ht
    by (apply existsb_exists; eauto).
  congruence.
Qed.

(** [sed] with an address no line holds changes nothing. *)
Lemma sed_append_after_none address added f :
  contains (chars address) [] = false ->
  Installer.grep_q address f = false ->
  Installer.sed_append_after address added f = f.
Proof.
  intros Hempty Hnone. unfold Installer.sed_append_after.
  destruct f as [lines t]. cbn [Installer.text_lines Installer.terminated].
  unfold Installer.grep_q in Hnone. cbn [Installer.text_lines] in Hnone.
  assert (forall l, In l lines -> contains (chars address) (chars l) = false) as Hall.
  { intros l Hin. apply not_true_is_false. intros Hl.
    assert (existsb (fun line => contains (chars address) (chars line)) lines = true)
      as Ht by (apply existsb_exists; eauto).
    congruence. }
  f_equal.
  - clear Hnone. induction lines as [|l lines IH]; [reflexivity|].
    cbn [flat_map]. rewrite (Hall l) by now left.
    cbn [app]. f_equal. apply IH. intros l' Hin. apply Hall. now right.
  - assert (contains (chars address) (chars (List.last lines "")) = false) as ->.
    { destruct lines as [|l0 ls]; [exact Hempty|].
      apply Hall, last_In. discriminate. }
    destruct added; now rewrite orb_false_r.
Qed.

Lemma grep_q_sed_append needle address added f :
  Installer.grep_q needle (Installer.sed_append_after address added f)
  = Installer.grep_q needle f
    || (Installer.grep_q address f
        && existsb (fun line => contains (chars needle) (chars line)) added).
Proof.
  unfold Installer.grep_q, Installer.sed_append_after. cbn [Installer.text_lines].
  induction (Installer.text_lines f) as [|l lines IH]; [reflexivity|].
  cbn [flat_map existsb]. rewrite existsb_app, IH.
  destruct (contains (chars address) (chars l)); cbn [existsb];
    destruct (contains (chars needle) (chars l));
    destruct (existsb (fun line => contains (chars needle) (chars line)) lines);
    destruct (existsb (fun line => contains (chars address) (chars line)) lines);
    destruct (existsb (fun line => contains (chars needle) (chars line)) added);
    reflexivity.
Qed.

Lemma grep_q_sed_replace needle address replacement f :
  contains (chars needle) (chars replacement) = true ->
  Installer.grep_q needle f = true ->
  Installer.grep_q needle (Installer.sed_replace_lines address replacement f) = true.
Proof.
  intros Hr. unfold Installer.grep_q, Installer.sed_replace_lines.
  cbn [Installer.text_lines].
  induction (Installer.text_lines f) as [|l lines IH]; [discriminate|].
  cbn [map existsb]. intros H. apply orb_true_iff in H as [H|H].
  - destruct (contains (chars address) (chars l)); [now rewrite Hr|now rewrite H].
  - rewrite (IH H). apply orb_true_r.
Qed.

Lemma irun_read_key {B} prompt (k : string -> Installer.Sh B) m :
  Installer.sh_bind (Installer.read_key prompt) k m
  = match Installer.replies m with
    | [] => Installer.Exit 1 m
    | r :: rest => k (substring 0 1 r) (asked prompt rest m)
    end.
Proof.
  unfold Installer.sh_bind, Installer.read_key.
  now destruct (Installer.replies m).
Qed.

Ltac irun :=
  repeat (rewrite irun_bind_assoc || rewrite irun_print_color
          || rewrite irun_echo || rewrite irun_ret).

Lemma bak_after_sed script package m :
  Installer.files (after_sed script package m) !! "package.json.bak" = None
  /\ "package.json.bak" ∉ Installer.executable (after_sed script package m).
Proof.
  cbn. split; [apply lookup_delete_eq|].
  rewrite elem_of_difference, elem_of_singleton. tauto.
Qed.

(** The second half of [update_package_json]: the helper entries. *)
Lemma add_helpers_settles package m m1 :
  Installer.files m !! "package.json" = Some package ->
  Installer.grep_q deploy_key package = true
  \/ Installer.grep_q scripts_address package = false ->
  (Installer.grep_q deploy_key package = true
   \/ Installer.grep_q (Installer.dq +:+ "scripts" +:+ Installer.dq) package = false)
  \/ (Installer.files m !! "package.json.bak" = None
      /\ "package.json.bak" ∉ Installer.executable m) ->
  Installer.sh_bind Installer.get_files (fun fs =>
    if negb (Installer.grep_q (Installer.dq +:+ "deploy:dev" +:+ Installer.dq)
               (default (Installer.text []) (fs !! "package.json")))
    then Installer.sh_bind
           (Installer.sed_in_place
              (Installer.sed_append_after
                 (Installer.dq +:+ "deploy" +:+ Installer.dq +:+ ":")
                 Installer.helper_entries))
           (fun _ => Installer.print_color "Added deployment helper scripts")
    else Installer.sh_ret tt) m = Installer.Done tt m1 ->
  exists package1,
    Installer.files m1 !! "package.json" = Some package1
    /\ settled package1 /\ sed_ready package1 m1.
Proof.
  intros Hp H1 Hready. rewrite irun_get_files, Hp.
  change (default (Installer.text []) (Some package)) with package.
  change (Installer.dq +:+ "deploy:dev" +:+ Installer.dq) with helper_key.
  change (Installer.dq +:+ "deploy" +:+ Installer.dq +:+ ":") with deploy_address.
  destruct (Installer.grep_q helper_key package) eqn:Eh; cbn [negb].
  { intros E. unfold Installer.sh_ret in E. injection E as <-.
    exists package. split; [exact Hp|].
    split; [split; [exact H1|now left]|].
    destruct Hready as [Hquiet|Hbak]; [left; now split|now right]. }
  rewrite (irun_sed_in_place _ package) by exact Hp.
  intros E. unfold Installer.print_color, Installer.echo in E. injection E as <-.
  eexists. split; [cbn [Installer.files]; apply package_after_sed|].
  split; [|right; apply bak_after_sed].
  unfold settled. rewrite !grep_q_sed_append, Eh.
  destruct (Installer.grep_q deploy_address package) eqn:Ea.
  - split; [|left; reflexivity].
    left. destruct H1 as [->|H1]; [reflexivity|].
    destruct (Installer.grep_q deploy_key package) eqn:Ed; [reflexivity|].
    apply (grep_q_app_l _ ":") in Ed. unfold deploy_address in Ea. congruence.
  - cbn [andb orb]. rewrite !orb_false_r. split; [exact H1|now right].
Qed.

(** After a run that went through, package.json is settled. *)
Lemma update_package_json_settles m m1 package :
  Installer.files m !! "package.json" = Some package ->
  Installer.update_package_json m = Installer.Done tt m1 ->
  exists package1,
    Installer.files m1 !! "package.json" = Some package1
    /\ settled package1 /\ sed_ready package1 m1.
Proof.
  intros Hp. unfold Installer.update_package_json.
  rewrite irun_get_files, Hp. irun.
  change (Installer.dq +:+ "deploy" +:+ Installer.dq +:+ ":") with deploy_address.
  change (Installer.dq +:+ "deploy" +:+ Installer.dq) with deploy_key.
  change (Installer.dq +:+ "scripts" +:+ Installer.dq +:+ ": {") with scripts_address.
  destruct (Installer.grep_q deploy_key package) eqn:Ed.
  - irun. rewrite irun_read_key, !replies_shown.
    destruct (Installer.replies m) as [|r rest]; [discriminate|].
    irun. destruct (is_yes (substring 0 1 r)).
    + rewrite irun_bind_assoc, (irun_sed_in_place _ package) by exact Hp. irun.
      eapply add_helpers_settles; [rewrite ?files_shown; apply package_after_sed| |].
      * left. apply grep_q_sed_replace; [reflexivity|exact Ed].
      * right. apply bak_after_sed.
    + irun. eapply add_helpers_settles; [exact Hp|now left|]. left. now left.
  - destruct (Installer.grep_q (Installer.dq +:+ "scripts" +:+ Installer.dq) package)
      eqn:Es.
    + rewrite irun_bind_assoc, (irun_sed_in_place _ package) by exact Hp. irun.
      eapply add_helpers_settles; [rewrite ?files_shown; apply package_after_sed| |].
      * rewrite !grep_q_sed_append, Ed.
        destruct (Installer.grep_q scripts_address package); [now left|now right].
      * right. apply bak_after_sed.
    + irun. eapply add_helpers_settles; [exact Hp| |].
      * right.
        change scripts_address
          with ((Installer.dq +:+ "scripts" +:+ Installer.dq) +:+ ": {").
        now apply grep_q_app_l.
      * left. now right.
Qed.

Lemma files_asked prompt rest m :
  Installer.files (asked prompt rest m) = Installer.files m.
Proof. reflexivity. Qed.

(** On a settled package.json a run that is answered no changes
    nothing in it. *)
Lemma settled_stays m package :
  Installer.files m !! "package.json" = Some package ->
  settled package ->
  declines (Installer.replies m) ->
  Installer.files (Installer.final (Installer.update_package_json m))
    !! "package.json" = Some package.
Proof.
  intros Hp [H1 H2] Hno. unfold Installer.update_package_json.
  rewrite irun_get_files, Hp. irun.
  change (Installer.dq +:+ "deploy" +:+ Installer.dq +:+ ":") with deploy_address.
  change (Installer.dq +:+ "deploy" +:+ Installer.dq) with deploy_key.
  change (Installer.dq +:+ "scripts" +:+ Installer.dq +:+ ": {") with scripts_address.
  change (Installer.dq +:+ "deploy:dev" +:+ Installer.dq) with helper_key.
  assert (forall m0,
            Installer.files m0 !! "package.json" = Some package ->
            Installer.files (Installer.final
              (Installer.sh_bind Installer.get_files (fun fs =>
                 if negb (Installer.grep_q helper_key
                            (default (Installer.text []) (fs !! "package.json")))
                 then Installer.sh_bind
                        (Installer.sed_in_place
                           (Installer.sed_append_after deploy_address
                              Installer.helper_entries))
                        (fun _ => Installer.print_color
                                    "Added deployment helper scripts")
                 else Installer.sh_ret tt) m0)) !! "package.json" = Some package)
    as Hhelpers.
  { intros m0 Hp0. rewrite irun_get_files, Hp0.
    change (default (Installer.text []) (Some package)) with package.
    destruct H2 as [->| Ha]; [exact Hp0|].
    destruct (Installer.grep_q helper_key package); [exact Hp0|]. cbn [negb].
    rewrite (irun_sed_in_place _ package) by exact Hp0.
    cbn [Installer.final Installer.print_color Installer.echo Installer.files].
    rewrite package_after_sed, sed_append_after_none; auto. }
  destruct (Installer.grep_q deploy_key package) eqn:Ed.
  - irun. rewrite irun_read_key, !replies_shown.
    destruct (Installer.replies m) as [|r rest]; [exact Hp|].
    rewrite (Hno r eq_refl). irun. apply Hhelpers. exact Hp.
  - destruct H1 as [H1|H1]; [discriminate H1|].
    destruct (Installer.grep_q (Installer.dq +:+ "scripts" +:+ Installer.dq) package).
    + rewrite irun_bind_assoc, (irun_sed_in_place _ package) by exact Hp. irun.
      apply Hhelpers. rewrite ?files_shown, package_after_sed.
      rewrite sed_append_after_none; auto.
    + irun. apply Hhelpers. exact Hp.
Qed.

(** X25.  [update_package_json] settles.  After a run that went through,
    a second run that is answered with anything but [y] leaves
    package.json exactly as the first run left it: nothing is added
    twice. *)
Theorem update_package_json_settles_once m m1 :
  Installer.update_package_json m = Installer.Done tt m1 ->
  declines (Installer.replies m1) ->
  Installer.files (Installer.final (Installer.update_package_json m1))
    !! "package.json"
  = Installer.files m1 !! "package.json".
Proof.
  intros E Hno.
  destruct (Installer.files m !! "package.json") as [package|] eqn:Hp.
  - destruct (update_package_json_settles m m1 package Hp E)
      as (package1 & Hp1 & Hsettled & _).
    rewrite Hp1. now apply settled_stays.
  - unfold Installer.update_package_json in E.
    rewrite irun_get_files, Hp in E. unfold Installer.sh_ret in E.
    injection E as <-.
    unfold Installer.update_package_json. now rewrite irun_get_files, Hp.
Qed.

Lemma update_package_json_settles_once_witness :
  let package :=
    Installer.text ["{"; "  " +:+ Installer.dq +:+ "scripts" +:+ Installer.dq +:+ ": {";
                    "    " +:+ Installer.dq +:+ "test" +:+ Installer.dq +:+ ": "
                           +:+ Installer.dq +:+ "jest" +:+ Installer.dq;
                    "  }"; "}"] in
  let m := {| Installer.files := {["package.json" := package]};
              Installer.executable := ∅; Installer.replies := ["n"];
              Installer.terminal := [] |} in
  let m1 := Installer.final (Installer.update_package_json m) in
  Installer.files (Installer.final (Installer.update_package_json m1))
    !! "package.json"
  = Installer.files m1 !! "package.json".
Proof.
  cbv zeta.
  apply (update_package_json_settles_once
           {| Installer.files :=
                {["package.json" :=
                    Installer.text
                      ["{"; "  " +:+ Installer.dq +:+ "scripts" +:+ Installer.dq +:+ ": {";
                       "    " +:+ Installer.dq +:+ "test" +:+ Installer.dq +:+ ": "
                              +:+ Installer.dq +:+ "jest" +:+ Installer.dq;
                       "  }"; "}"]]};
              Installer.executable := ∅; Installer.replies := ["n"];
              Installer.terminal := [] |}).
  - vm_compute. reflexivity.
  - intros r Hr. vm_compute in Hr. injection Hr as <-. reflexivity.
Defined.

(** What the first run makes of a package.json with a scripts section:
    the four entries follow the line that opens the section. *)
Example package_json_scenario :
  let package :=
    Installer.text ["{"; "  " +:+ Installer.dq +:+ "scripts" +:+ Installer.dq +:+ ": {";
                    "    " +:+ Installer.dq +:+ "test" +:+ Installer.dq +:+ ": "
                           +:+ Installer.dq +:+ "jest" +:+ Installer.dq;
                    "  }"; "}"] in
  let m := {| Installer.files := {["package.json" := package]};
              Installer.executable := ∅; Installer.replies := [];
              Installer.terminal := [] |} in
  Installer.text_lines
    <$> Installer.files (Installer.final (Installer.update_package_json m))
        !! "package.json"
  = Some (["{"; "  " +:+ Installer.dq +:+ "scripts" +:+ Installer.dq +:+ ": {";
           Installer.deploy_entry] ++ Installer.helper_entries
          ++ ["    " +:+ Installer.dq +:+ "test" +:+ Installer.dq +:+ ": "
                     +:+ Installer.dq +:+ "jest" +:+ Installer.dq;
              "  }"; "}"]).
Proof. reflexivity. Qed.

(** X26.  On a package.json without a line that opens a scripts section
    ([scripts], colon, space, brace) and without deploy entries,
    [update_package_json] adds nothing: package.json is what it was, and
    yet the last thing it reports is that the helper scripts were
    added. *)
Theorem update_package_json_reports_too_much m package :
  Installer.files m !! "package.json" = Some package ->
  Installer.grep_q deploy_key package = false ->
  Installer.grep_q helper_key package = false ->
  Installer.grep_q scripts_address package = false ->
  exists m1,
    Installer.update_package_json m = Installer.Done tt m1
    /\ Installer.files m1 !! "package.json" = Some package
    /\ List.last (Installer.terminal m1) "" = "Added deployment helper scripts".
Proof.
  intros Hp Hd Hh Hs. unfold Installer.update_package_json.
  rewrite irun_get_files, Hp. irun.
  change (Installer.dq +:+ "deploy" +:+ Installer.dq +:+ ":") with deploy_address.
  change (Installer.dq +:+ "deploy" +:+ Installer.dq) with deploy_key.
  change (Installer.dq +:+ "scripts" +:+ Installer.dq +:+ ": {") with scripts_address.
  change (Installer.dq +:+ "deploy:dev" +:+ Installer.dq) with helper_key.
  rewrite Hd.
  assert (Installer.grep_q deploy_address package = false) as Ha
    by (now apply grep_q_app_l).
  assert (forall m0,
            Installer.files m0 !! "package.json" = Some package ->
            exists m1,
              Installer.sh_bind Installer.get_files (fun fs =>
                if negb (Installer.grep_q helper_key
                           (default (Installer.text []) (fs !! "package.json")))
                then Installer.sh_bind
                       (Installer.sed_in_place
                          (Installer.sed_append_after deploy_address
                             Installer.helper_entries))
                       (fun _ => Installer.print_color
                                   "Added deployment helper scripts")
                else Installer.sh_ret tt) m0 = Installer.Done tt m1
              /\ Installer.files m1 !! "package.json" = Some package
              /\ List.last (Installer.terminal m1) ""
                 = "Added deployment helper scripts") as Hhelpers.
  { intros m0 Hp0. rewrite irun_get_files, Hp0.
    change (default (Installer.text []) (Some package)) with package.
    rewrite Hh. cbn [negb].
    rewrite (irun_sed_in_place _ package) by exact Hp0.
    eexists. split; [reflexivity|]. split.
    - cbn [Installer.final Installer.print_color Installer.echo Installer.files].
      rewrite package_after_sed, sed_append_after_none; auto.
    - cbn. apply last_snoc_string. }
  destruct (Installer.grep_q (Installer.dq +:+ "scripts" +:+ Installer.dq) package).
  - rewrite irun_bind_assoc, (irun_sed_in_place _ package) by exact Hp. irun.
    apply Hhelpers. rewrite ?files_shown, package_after_sed.
    rewrite sed_append_after_none; auto.
  - irun. apply Hhelpers. exact Hp.
Qed.

Lemma update_package_json_reports_too_much_witness :
  let package :=
    Installer.text ["{ " +:+ Installer.dq +:+ "scripts" +:+ Installer.dq +:+ ":{ "
                         +:+ Installer.dq +:+ "test" +:+ Installer.dq +:+ ":"
                         +:+ Installer.dq +:+ "jest" +:+ Installer.dq +:+ " } }"] in
  let m := {| Installer.files := {["package.json" := package]};
              Installer.executable := ∅; Installer.replies := [];
              Installer.terminal := [] |} in
  exists m1,
    Installer.update_package_json m = Installer.Done tt m1
    /\ Installer.files m1 !! "package.json" = Some package
    /\ List.last (Installer.terminal m1) "" = "Added deployment helper scripts".
Proof.
  cbv zeta. apply update_package_json_reports_too_much; reflexivity.
Defined.

(** ** Running the installer again *)

Lemma bind_done {A B} (c : Installer.Sh A) (k : A -> Installer.Sh B) m b m' :
  Installer.sh_bind c k m = Installer.Done b m' ->
  exists a m0, c m = Installer.Done a m0 /\ k a m0 = Installer.Done b m'.
Proof.
  unfold Installer.sh_bind. destruct (c m) as [a m0|]; [eauto|discriminate].
Qed.

Lemma touches_done paths {A} (c : Installer.Sh A) m a m' :
  touches paths c -> c m = Installer.Done a m' ->
  forall path, ~ In path paths ->
    Installer.files m' !! path = Installer.files m !! path
    /\ (path ∈ Installer.executable m' <-> path ∈ Installer.executable m).
Proof.
  intros Hc E path Hpath. specialize (Hc m path Hpath). now rewrite E in Hc.
Qed.

Lemma executable_shown line m :
  Installer.executable (shown line m) = Installer.executable m.
Proof. reflexivity. Qed.

(** A [sed] that changes no line, with no package.json.bak around, leaves
    the directory as it was. *)
Lemma after_sed_same script package m :
  Installer.files m !! "package.json" = Some package ->
  script package = package ->
  Installer.files m !! "package.json.bak" = None ->
  "package.json.bak" ∉ Installer.executable m ->
  Installer.files (after_sed script package m) = Installer.files m
  /\ Installer.executable (after_sed script package m) = Installer.executable m.
Proof.
  intros Hp Hs Hb Hx. cbn [after_sed Installer.files Installer.executable]. split.
  - apply map_eq. intros k. rewrite Hs.
    destruct (decide (k = "package.json.bak")) as [->|Hk].
    + now rewrite lookup_delete_eq.
    + rewrite lookup_delete_ne by congruence.
      destruct (decide (k = "package.json")) as [->|Hk'].
      * now rewrite lookup_insert_eq.
      * now rewrite !lookup_insert_ne by congruence.
  - apply set_eq. intros k. rewrite elem_of_difference, elem_of_singleton.
    split; [tauto|]. intros Hk. split; [exact Hk|]. intros ->. contradiction.
Qed.

(** The helper entries, on a settled package.json. *)
Lemma helpers_again package m :
  Installer.files m !! "package.json" = Some package ->
  Installer.grep_q helper_key package = true
  \/ (Installer.grep_q deploy_address package = false
      /\ Installer.files m !! "package.json.bak" = None
      /\ "package.json.bak" ∉ Installer.executable m) ->
  let m' :=
    Installer.final
      (Installer.sh_bind Installer.get_files (fun fs =>
         if negb (Installer.grep_q helper_key
                    (default (Installer.text []) (fs !! "package.json")))
         then Installer.sh_bind
                (Installer.sed_in_place
                   (Installer.sed_append_after deploy_address
                      Installer.helper_entries))
                (fun _ => Installer.print_color "Added deployment helper scripts")
         else Installer.sh_ret tt) m) in
  Installer.files m' = Installer.files m
  /\ Installer.executable m' = Installer.executable m
  /\ Installer.replies m' = Installer.replies m.
Proof.
  intros Hp Hcase. cbv zeta. rewrite irun_get_files, Hp.
  change (default (Installer.text []) (Some package)) with package.
  destruct (Installer.grep_q helper_key package) eqn:Eh; cbn [negb].
  { now repeat split. }
  destruct Hcase as [?|(Ha & Hb & Hx)]; [discriminate|].
  rewrite (irun_sed_in_place _ package) by exact Hp.
  cbn [Installer.final Installer.print_color Installer.echo Installer.files
         Installer.executable Installer.replies].
  destruct (after_sed_same
              (Installer.sed_append_after deploy_address Installer.helper_entries)
              package m Hp) as [Hf He]; auto.
  apply sed_append_after_none; auto.
Qed.

(** [update_package_json] on a settled package.json, answered no. *)
Lemma update_package_json_again m :
  (forall package,
     Installer.files m !! "package.json" = Some package ->
     settled package /\ sed_ready package m) ->
  all_decline (Installer.replies m) ->
  left_as m (Installer.final (Installer.update_package_json m)).
Proof.
  intros Hset Hno. unfold Installer.update_package_json.
  rewrite irun_get_files.
  destruct (Installer.files m !! "package.json") as [package|] eqn:Hp.
  2: { now repeat split. }
  destruct (Hset package eq_refl) as [[H1 H2] Hready]. irun.
  change (Installer.dq +:+ "deploy" +:+ Installer.dq +:+ ":") with deploy_address.
  change (Installer.dq +:+ "deploy" +:+ Installer.dq) with deploy_key.
  change (Installer.dq +:+ "scripts" +:+ Installer.dq +:+ ": {") with scripts_address.
  change (Installer.dq +:+ "deploy:dev" +:+ Installer.dq) with helper_key.
  assert (Installer.grep_q helper_key package = true
          \/ (Installer.grep_q deploy_address package = false
              /\ Installer.files m !! "package.json.bak" = None
              /\ "package.json.bak" ∉ Installer.executable m)) as Hhelpers.
  { destruct H2 as [H2|H2]; [now left|].
    destruct Hready as [[_ Hh]|[Hb Hx]]; [now left|now right]. }
  destruct (Installer.grep_q deploy_key package) eqn:Ed.
  - irun. rewrite irun_read_key, !replies_shown.
    destruct (Installer.replies m) as [|r rest] eqn:Er.
    { repeat split. cbn. rewrite Er. constructor. }
    inversion Hno as [|? ? Hr Hrest]; subst. rewrite Hr. irun.
    match goal with
    | |- left_as _ (Installer.final (_ ?m0)) =>
        destruct (helpers_again package m0 Hp Hhelpers) as (Hf & He & Hrep)
    end.
    split; [exact Hf|]. split; [exact He|]. rewrite Hrep. exact Hrest.
  - destruct H1 as [H1|H1]; [discriminate H1|].
    destruct (Installer.grep_q (Installer.dq +:+ "scripts" +:+ Installer.dq) package)
      eqn:Es.
    + destruct Hready as [[[?|?] _]|[Hb Hx]]; try congruence.
      rewrite irun_bind_assoc, (irun_sed_in_place _ package) by exact Hp. irun.
      match goal with
      | |- context [after_sed ?script package ?m0] =>
          destruct (after_sed_same script package m0 Hp) as [Hf0 He0];
          [apply sed_append_after_none; auto|exact Hb|exact Hx|]
      end.
      match goal with
      | |- left_as _ (Installer.final (_ ?m0)) =>
          destruct (helpers_again package m0) as (Hf & He & Hrep)
      end.
      * rewrite files_shown, Hf0. exact Hp.
      * destruct Hhelpers as [?|(? & ? & ?)]; [now left|right].
        rewrite files_shown, executable_shown, Hf0, He0. auto.
      * split; [rewrite Hf; exact Hf0|]. split; [rewrite He; exact He0|].
        rewrite Hrep. exact Hno.
    + irun.
      match goal with
      | |- left_as _ (Installer.final (_ ?m0)) =>
          destruct (helpers_again package m0 Hp Hhelpers) as (Hf & He & Hrep)
      end.
      split; [exact Hf|]. split; [exact He|]. rewrite Hrep. exact Hno.
Qed.

Lemma again_echo m1 line :
  ensures (left_as m1) (Installer.echo line) (left_as m1).
Proof. intros m Hm. exact Hm. Qed.

Lemma again_print_color m1 line :
  ensures (left_as m1) (Installer.print_color line) (left_as m1).
Proof. intros m Hm. exact Hm. Qed.

Ltac again_prints :=
  repeat (keep_bind; [first [apply again_print_color | apply again_echo]|]).

(** On an installed directory a run that is answered no leaves every
    file as it is. *)
Lemma installer_again h m1 :
  installed h m1 -> ensures (left_as m1) (Installer.main h) (left_as m1).
Proof.
  intros (H1 & H2 & [config H3] & H4 & H5 & [md H6]). unfold Installer.main.
  again_prints.
  destruct (Installer.in_git_repository h); cbn [negb].
  2: { again_prints. intros m Hm. exact Hm. }
  apply ensures_get_files. intros fs.
  apply (ensures_bind _ (left_as m1)); [intros m [Hm _]; exact Hm|auto|intros _].
  again_prints.
  keep_bind.
  { assert (ensures (left_as m1)
              (Installer.write_file "deploy.sh" (Installer.downloaded h))
              (left_as m1)) as Hwrite.
    { intros m (Hf & Hx & Hr). split; [|now split].
      cbn. rewrite Hf. now apply insert_id. }
    destruct (Installer.curl_installed h); [exact Hwrite|].
    destruct (Installer.wget_installed h); [exact Hwrite|].
    again_prints. intros m Hm. exact Hm. }
  keep_bind.
  { intros m (Hf & Hx & Hr). split; [exact Hf|]. split; [|exact Hr].
    cbn. rewrite Hx. apply set_eq. intros k.
    rewrite elem_of_union, elem_of_singleton.
    split; [intros [?| ->]; assumption|tauto]. }
  again_prints.
  apply ensures_get_files. intros fs'.
  apply (ensures_bind _ (left_as m1)); [|auto|intros _].
  { intros m [(Hf & Hx & Hr) <-]. rewrite Hf, H3. irun.
    rewrite irun_read_key, !replies_shown.
    destruct (Installer.replies m) as [|r rest] eqn:Er.
    { split; [exact Hf|]. split; [exact Hx|]. cbn. rewrite Er. constructor. }
    inversion Hr as [|? ? Hno Hrest]; subst. rewrite Hno. irun.
    split; [exact Hf|]. split; [exact Hx|]. exact Hrest. }
  keep_bind.
  { intros m (Hf & Hx & Hr).
    destruct (update_package_json_again m) as (Hf' & Hx' & Hr').
    - intros package Hp. rewrite Hf in Hp. destruct (H4 package Hp) as [Hs Hready].
      split; [exact Hs|]. unfold sed_ready in *. now rewrite Hf, Hx.
    - exact Hr.
    - split; [congruence|]. split; [congruence|exact Hr']. }
  keep_bind.
  { intros m (Hf & Hx & Hr). unfold Installer.update_gitignore.
    rewrite irun_get_files, Hf.
    destruct (Installer.files m1 !! ".gitignore") as [gitignore|] eqn:Eg.
    - rewrite (H5 gitignore eq_refl). now repeat split.
    - now repeat split. }
  apply ensures_get_files. intros fs''.
  apply (ensures_bind _ (left_as m1)); [|auto|intros _; again_prints].
  - intros m [(Hf & Hx & Hr) <-]. rewrite Hf, H6. now repeat split.
  - apply again_print_color.
Qed.

Lemma create_deploy_config_done h service_type m a m' :
  Installer.create_deploy_config h service_type m = Installer.Done a m' ->
  is_Some (Installer.files m' !! ".deploy.config").
Proof.
  unfold Installer.create_deploy_config, Installer.sh_bind, Installer.print_color,
    Installer.echo, Installer.write_file, Installer.with_files.
  intros E. destruct a. injection E as <-. cbn [Installer.files].
  rewrite lookup_insert_eq. eauto.
Qed.

Lemma update_gitignore_done m a m' :
  Installer.update_gitignore m = Installer.Done a m' ->
  forall gitignore,
    Installer.files m' !! ".gitignore" = Some gitignore ->
    Installer.grep_q_dots ".deploy.config.local" gitignore = true.
Proof.
  destruct a. unfold Installer.update_gitignore. rewrite irun_get_files.
  destruct (Installer.files m !! ".gitignore") as [before|] eqn:Eg.
  2: { intros E. unfold Installer.sh_ret in E. injection E as <-.
       intros gitignore Hg. congruence. }
  destruct (Installer.grep_q_dots ".deploy.config.local" before) eqn:Egrep;
    cbn [negb].
  { intros E. unfold Installer.sh_ret in E. injection E as <-.
    intros gitignore Hg. rewrite Eg in Hg. now injection Hg as <-. }
  destruct (append_blank_line before) as (lines & Hne & -> & _).
  rewrite !append_line_text
    by (try exact Hne; intros Habs; apply app_eq_nil in Habs as [_ Habs];
        discriminate Habs).
  unfold Installer.sh_bind, Installer.print_color, Installer.echo,
    Installer.write_file, Installer.with_files.
  intros E. injection E as <-. cbn [Installer.files].
  intros gitignore Hg. rewrite lookup_insert_eq in Hg. injection Hg as <-.
  unfold Installer.grep_q_dots. cbn [Installer.text_lines Installer.text].
  now apply existsb_snoc.
Qed.

Ltac frame paths E H :=
  cbv beta in E;
  match type of E with
  | ?c ?m = Installer.Done _ _ =>
      let T := fresh "T" in
      assert (touches paths c) as T
        by (solve_touches;
            first [ apply touches_update_package_json
                  | apply touches_update_gitignore
                  | apply touches_create_deploy_config ];
            cbn; tauto);
      pose proof (touches_done paths c m _ _ T E) as H; clear T
  end.

(** A run of the installer that goes through leaves an installed
    directory. *)
Lemma installer_installs h m m1 :
  Installer.main h m = Installer.Done tt m1 -> installed h m1.
Proof.
  intros E. unfold Installer.main in E.
  apply bind_done in E as (? & ma & _ & E).
  apply bind_done in E as (? & mb & _ & E).
  destruct (Installer.in_git_repository h); cbn [negb] in E.
  2: { apply bind_done in E as (? & ? & _ & E). discriminate E. }
  apply bind_done in E as (fs & mc & _ & E).
  apply bind_done in E as (? & md & _ & E).
  apply bind_done in E as (? & me & _ & E).
  apply bind_done in E as (? & mf & Ef & E).
  apply bind_done in E as (? & mg & Eg & E).
  assert (Installer.files mg !! "deploy.sh" = Some (Installer.downloaded h)
          /\ "deploy.sh" ∈ Installer.executable mg) as [F1 F1'].
  { assert (Installer.files mf !! "deploy.sh" = Some (Installer.downloaded h))
      as Hf.
    { assert (Installer.write_file "deploy.sh" (Installer.downloaded h) me
              = Installer.Done tt mf ->
              Installer.files mf !! "deploy.sh" = Some (Installer.downloaded h))
        as Hwrite.
      { unfold Installer.write_file, Installer.with_files. intros Ew.
        injection Ew as <-. apply lookup_insert_eq. }
      match type of Ef with _ = Installer.Done ?u _ => destruct u end.
      destruct (Installer.curl_installed h); [auto|].
      destruct (Installer.wget_installed h); [auto|].
      apply bind_done in Ef as (? & ? & _ & Ef). discriminate Ef. }
    unfold Installer.chmod_x, Installer.with_files in Eg.
    match type of Eg with _ = Installer.Done ?u _ => destruct u end.
    injection Eg as <-. cbn. split; [exact Hf|].
    rewrite elem_of_union, elem_of_singleton. now right. }
  frame [".deploy.config"; ".deploy.config.backup"; "package.json";
         "package.json.bak"; ".gitignore"; "DEPLOY.md"] E A1.
  apply bind_done in E as (? & mh & _ & E).
  apply bind_done in E as (fs1 & mh' & Eh & E).
  unfold Installer.get_files in Eh. injection Eh as <- <-.
  apply bind_done in E as (? & mi & Ei & E).
  assert (is_Some (Installer.files mi !! ".deploy.config")) as F2.
  { destruct (Installer.files mh !! ".deploy.config") eqn:Ec.
    2: { eapply create_deploy_config_done, Ei. }
    apply bind_done in Ei as (? & ? & Ep & Ei).
    unfold Installer.print_color, Installer.echo in Ep. injection Ep as _ <-.
    apply bind_done in Ei as (reply & ? & Er & Ei).
    unfold Installer.read_key in Er. cbn [Installer.replies] in Er.
    destruct (Installer.replies mh); [discriminate Er|]. injection Er as <- <-.
    apply bind_done in Ei as (? & ? & Ee & Ei).
    unfold Installer.echo in Ee. injection Ee as _ <-.
    destruct (is_yes _).
    - apply bind_done in Ei as (? & ? & _ & Ei).
      apply bind_done in Ei as (? & ? & Ecr & Ei).
      apply create_deploy_config_done in Ecr.
      unfold Installer.print_color, Installer.echo in Ei.
      match type of Ei with _ = Installer.Done ?u _ => destruct u end.
      injection Ei as <-. exact Ecr.
    - unfold Installer.sh_ret in Ei.
      match type of Ei with _ = Installer.Done ?u _ => destruct u end.
      injection Ei as <-. cbn. rewrite Ec. eauto. }
  frame ["package.json"; "package.json.bak"; ".gitignore"; "DEPLOY.md"] E A2.
  apply bind_done in E as (u & mj & Ej & E). destruct u.
  assert (forall package,
            Installer.files mj !! "package.json" = Some package ->
            settled package /\ sed_ready package mj) as F3.
  { destruct (Installer.files mi !! "package.json") as [package0|] eqn:Hp.
    - destruct (update_package_json_settles mi mj package0 Hp Ej)
        as (package1 & Hp1 & Hs & Hr).
      intros package Hpk. rewrite Hp1 in Hpk. now injection Hpk as <-.
    - unfold Installer.update_package_json in Ej.
      rewrite irun_get_files, Hp in Ej. unfold Installer.sh_ret in Ej.
      injection Ej as <-. intros package Hpk. congruence. }
  frame [".gitignore"; "DEPLOY.md"] E A3.
  apply bind_done in E as (? & mk & Ek & E).
  pose proof (update_gitignore_done _ _ _ Ek) as F4.
  frame ["DEPLOY.md"] E A4.
  apply bind_done in E as (fs2 & mk' & Ek' & E).
  unfold Installer.get_files in Ek'. injection Ek' as <- <-.
  apply bind_done in E as (? & ml & El & E).
  assert (is_Some (Installer.files ml !! "DEPLOY.md")) as F5.
  { destruct (Installer.files mk !! "DEPLOY.md") eqn:Emd.
    - unfold Installer.sh_ret in El.
      match type of El with _ = Installer.Done ?u _ => destruct u end.
      injection El as <-. rewrite Emd. eauto.
    - unfold Installer.sh_bind, Installer.print_color, Installer.echo,
        Installer.write_file, Installer.with_files in El.
      match type of El with _ = Installer.Done ?u _ => destruct u end.
      injection El as <-. cbn [Installer.files]. rewrite lookup_insert_eq. eauto. }
  frame (@nil string) E A5.
  clear E.
  unfold installed. split; [|split; [|split; [|split; [|split]]]].
  - destruct (A1 "deploy.sh") as [-> _]; [cbn; intuition discriminate|exact F1].
  - apply (A1 "deploy.sh"); [cbn; intuition discriminate|exact F1'].
  - destruct (A2 ".deploy.config") as [-> _]; [cbn; intuition discriminate|exact F2].
  - intros package Hp.
    destruct (A3 "package.json") as [Hf _]; [cbn; intuition discriminate|].
    destruct (A3 "package.json.bak") as [Hb Hx]; [cbn; intuition discriminate|].
    rewrite Hf in Hp. destruct (F3 package Hp) as [Hs Hr]. split; [exact Hs|].
    unfold sed_ready in *. rewrite Hb, Hx. exact Hr.
  - intros gitignore Hg.
    destruct (A4 ".gitignore") as [Hf _]; [cbn; intuition discriminate|].
    rewrite Hf in Hg. now apply F4.
  - destruct (A5 "DEPLOY.md") as [-> _]; [cbn; tauto|exact F5].
Qed.

(** X27.  What a completed installation leaves.  When the installer goes
    through, deploy.sh holds what was downloaded and is executable,
    .deploy.config and DEPLOY.md exist, a .gitignore has a line that
    matches [.deploy.config.local], and a package.json is settled: it
    has a deploy entry unless no line opens a scripts section, and the
    helper entries unless no line holds the deploy key. *)
Theorem installation_complete h m m1 :
  Installer.main h m = Installer.Done tt m1 ->
  Installer.files m1 !! "deploy.sh" = Some (Installer.downloaded h)
  /\ "deploy.sh" ∈ Installer.executable m1
  /\ is_Some (Installer.files m1 !! ".deploy.config")
  /\ is_Some (Installer.files m1 !! "DEPLOY.md")
  /\ (forall gitignore,
        Installer.files m1 !! ".gitignore" = Some gitignore ->
        Installer.grep_q_dots ".deploy.config.local" gitignore = true)
  /\ (forall package,
        Installer.files m1 !! "package.json" = Some package ->
        settled package).
Proof.
  intros E.
  destruct (installer_installs h m m1 E) as (H1 & H2 & H3 & H4 & H5 & H6).
  split; [exact H1|]. split; [exact H2|]. split; [exact H3|].
  split; [exact H6|]. split; [exact H5|].
  intros package Hp. now destruct (H4 package Hp).
Qed.

Lemma installation_complete_witness :
  let h := {| Installer.in_git_repository := true;
              Installer.curl_installed := false;
              Installer.wget_installed := true;
              Installer.downloaded := Installer.text ["#!/bin/bash"];
              Installer.directory_name := "orders" |} in
  let m := {| Installer.files := {[".gitignore" := Installer.text ["node_modules"]]};
              Installer.executable := ∅; Installer.replies := [];
              Installer.terminal := [] |} in
  let m1 := Installer.final (Installer.main h m) in
  Installer.files m1 !! "deploy.sh" = Some (Installer.downloaded h)
  /\ "deploy.sh" ∈ Installer.executable m1
  /\ is_Some (Installer.files m1 !! ".deploy.config")
  /\ is_Some (Installer.files m1 !! "DEPLOY.md")
  /\ (forall gitignore,
        Installer.files m1 !! ".gitignore" = Some gitignore ->
        Installer.grep_q_dots ".deploy.config.local" gitignore = true)
  /\ (forall package,
        Installer.files m1 !! "package.json" = Some package ->
        settled package).
Proof.
  cbv zeta.
  apply (installation_complete
           {| Installer.in_git_repository := true;
              Installer.curl_installed := false;
              Installer.wget_installed := true;
              Installer.downloaded := Installer.text ["#!/bin/bash"];
              Installer.directory_name := "orders" |}
           {| Installer.files := {[".gitignore" := Installer.text ["node_modules"]]};
              Installer.executable := ∅; Installer.replies := [];
              Installer.terminal := [] |}).
  vm_compute. reflexivity.
Defined.

(** X28.  The installer can be run again.  After a run that went
    through, a second run on the same host in which no reply starts with
    [y] or [Y] leaves the directory as the first run left it: the same
    files with the same contents and the same execute permissions. *)
Theorem installer_run_again h m m1 :
  Installer.main h m = Installer.Done tt m1 ->
  all_decline (Installer.replies m1) ->
  Installer.files (Installer.final (Installer.main h m1)) = Installer.files m1
  /\ Installer.executable (Installer.final (Installer.main h m1))
     = Installer.executable m1.
Proof.
  intros E Hno.
  destruct (installer_again h m1 (installer_installs h m m1 E) m1)
    as (Hf & Hx & _); [now repeat split|].
  now split.
Qed.

Lemma installer_run_again_witness :
  let h := {| Installer.in_git_repository := true;
              Installer.curl_installed := true;
              Installer.wget_installed := false;
              Installer.downloaded := Installer.text ["#!/bin/bash"];
              Installer.directory_name := "orders" |} in
  let package :=
    Installer.text ["{"; "  " +:+ Installer.dq +:+ "scripts" +:+ Installer.dq +:+ ": {";
                    "    " +:+ Installer.dq +:+ "test" +:+ Installer.dq +:+ ": "
                           +:+ Installer.dq +:+ "jest" +:+ Installer.dq;
                    "  }"; "}"] in
  let m := {| Installer.files := {["package.json" := package]};
              Installer.executable := ∅; Installer.replies := ["n"; "no"];
              Installer.terminal := [] |} in
  let m1 := Installer.final (Installer.main h m) in
  Installer.files (Installer.final (Installer.main h m1)) = Installer.files m1
  /\ Installer.executable (Installer.final (Installer.main h m1))
     = Installer.executable m1.
Proof.
  cbv zeta.
  apply (installer_run_again
           {| Installer.in_git_repository := true;
              Installer.curl_installed := true;
              Installer.wget_installed := false;
              Installer.downloaded := Installer.text ["#!/bin/bash"];
              Installer.directory_name := "orders" |}
           {| Installer.files :=
                {["package.json" :=
                    Installer.text
                      ["{"; "  " +:+ Installer.dq +:+ "scripts" +:+ Installer.dq +:+ ": {";
                       "    " +:+ Installer.dq +:+ "test" +:+ Installer.dq +:+ ": "
                              +:+ Installer.dq +:+ "jest" +:+ Installer.dq;
                       "  }"; "}"]]};
              Installer.executable := ∅; Installer.replies := ["n"; "no"];
              Installer.terminal := [] |}).
  - vm_compute. reflexivity.
  - vm_compute. repeat constructor.
Defined.
